(* ===== verification/_CoqProject ===== *)
-Q . S2P
Prelude.v
Text.v
Crypto.v
Proto.v
Frame.v
Store.v
Samples.v
Net.v
Peers.v
Trust.v
Tls.v
Connection.v
Config.v
Bus.v
FileXfer.v
Transfer.v
Transport.v
Lifecycle.v
Auth.v
History.v
Clipboard.v
Pasteboard.v
Sync.v
Pairing.v
State.v
Service.v
Quote.v
Control.v
Relay.v
Daemon.v
Start.v
Cli.v
Session.v
Client.v
Commands.v
Doctor.v
Main.v
Mesh.v
Quiesce.v
Converge.v
Revoke.v
