(* ===== verification/Prelude.v ===== *)
(** * qdrop: a verification development

    qdrop synchronises the clipboard, files and links between paired machines
    of one user over the local network.  [qdropd] is the daemon
    ([crates/qdropd]), [qdrop] the command line client ([crates/qdrop]), and
    both use [crates/qdrop-core].  The parts and how they interact:

    - two devices are paired once, by a PIN-keyed exchange; what each learns of
      the other goes into the registry [peers.toml], from which the roster of
      trusted keys is loaded, at start and whenever the file changes;
    - discovery (mDNS) and configured addresses tell the transport manager where
      peers are; of two devices one dials; a connection is TLS with keys pinned
      to the roster, then a handshake, then a loop that carries frames and
      keepalives; the bus holds the outbound channel of each connected peer;
    - inbound frames are routed to file transfer, clipboard sync, links and
      authorisation; the clipboard thread reports local copies to sync, which
      broadcasts them and applies what comes from peers; the history keeps the
      recent entries; the control socket serves the command line client.

    ** Files

    - [Prelude]: results, machine integers, bytes and big-endian numbers, list
      operations of the Rust library, tactics and the hint databases.
    - [Text]: UTF-8, [str] operations, decimal and hexadecimal printing and
      parsing, paths as components.
    - [Crypto]: [crypto.rs].  [Proto]: [proto.rs].  [Frame]: [frame.rs], readers
      and writers, and the interface [Serde] of the serialisers.
    - [Store]: the file store (names, inodes, modes), [paths.rs] with
      [write_atomic], [device.rs], the socket path.
    - [Samples]: codecs and hashes that satisfy the interfaces, for the
      witnesses.
    - [Net]: socket addresses and the address helpers of [pairing.rs].
    - [Peers]: [peers.rs].  [Trust]: [roster.rs], [identity.rs], the certificate
      checks of [tls.rs], [secure.rs]; [Tls]: the rest of [tls.rs].  [Connection]:
      [connection.rs].  [Config]: [config.rs].  [Bus]: [bus.rs].
    - [FileXfer]: [filexfer.rs]; [Transfer]: both ends of one transfer together.
    - [Transport]: [backoff.rs] and [transport.rs]; [Lifecycle]: a connection
      from its announcement to its end, with [drive_connection]; [Relay]: the
      tasks around the manager with their channels, and [dial_loop].
    - [Auth]: [auth.rs], [weblink.rs], [sysinfo.rs].
    - [History]: [history.rs].  [Clipboard]: [clipboard.rs], its macOS
      module in [Pasteboard].  [Sync]: [sync.rs].
    - [Pairing]: the exchange and the target resolution of [pairing.rs].
    - [State]: both [state.rs] files, what [discovery.rs] makes of reports, the
      seeding of the dialler.  [Service]: what is announced by mDNS and when, how
      the programs end, the accept loop of the control socket.
    - [Quote]: [notify.rs] and the quoting of the client.
    - [Control]: [control.rs], the router and the pollers of [main.rs].
    - [Daemon]: the tasks of [main.rs] as events on the state of [Control].
    - [Start]: the start-up of [main.rs], the control socket at the start and at
      the shutdown, and the log filter of [logging.rs].
    - [Cli]: the client's commands on the registry and the clipboard.
    - [Session]: pairing, TLS, dialling, accepting and the handshake together.
    - [Client]: requests and answers as JSON values, and the commands of the
      client that ask the daemon; [Commands]: those that wait for a file, read
      standard input, pair, or start the daemon.
    - [Doctor]: [doctor.rs].
    - [Main]: [cli.rs] and the program [qdrop] as a whole: which command runs, on
      which files, and how it ends.
    - [Mesh]: any number of daemons with their clipboard threads, the channels
      between their tasks and the links between them, under every interleaving;
      [Quiesce]: such a mesh comes to rest; [Converge]: a copy is then on every
      device, and two copies made at once are exchanged.
    - [Revoke]: an unpairing by the client while the daemon runs.

    ** How the code is modelled

    Pure functions are functions on bytes, strings (as their UTF-8 bytes),
    integers in [Z] with wrap-around written out, lists and finite maps.  A
    component with state is a record and one function per operation, total and
    executable; a task with a loop is a step function on its state and the
    events it waits for, a [select] in the order the source gives it.  An
    operation that awaits is split there when others can run meanwhile
    ([exchange_start] and [exchange_finish] of [Auth]), and the pairing
    exchange, which two machines run against each other, is a program of reads
    and writes ([prog]) interleaved arbitrarily.  Failures of the operating
    system, the clock, random bytes, and what mDNS, the resolver and other
    programs report are arguments; errors are values of [result].

    Libraries are interfaces with their documented laws: the hashes ([Hashes],
    32-byte outputs), the serialisers ([Serde], the round trip), base64, key
    pairs and certificates ([KeyPairs]), TLS ([Rustls]: signatures, and a
    handshake that runs the verifier), SPAKE2 ([Spake], equal passwords give equal
    keys), the clipboard and the image codec ([Desktop]), the [watch] channel
    ([Watch]) and the mDNS daemon ([Mdns]).  Each is instantiated in the
    witnesses.

    ** What the theorems show

    - Pairing: equal PINs pair every time and under every interleaving; keys
      that disagree never do; nothing unauthenticated is trusted; what is
      recorded is what was authenticated.
    - Trust: only the holders of paired keys get through TLS, in both directions;
      a dialled or accepted connection is with the device it claims to be; two
      devices that paired can connect; a change of the registry takes effect on
      the roster, the dial loops and the bus, and none is lost on its way; a
      device that was unpaired stays out.
    - Start-up: the daemon that starts is the one its files describe, and a device
      that is started again is the same device.
    - Connections: frames read back and stay aligned; a link is a FIFO channel;
      silence is noticed in time; exactly one side dials, with one dial loop
      per peer, which tries again in time and with the newest addresses.
    - Transfers: a transfer delivers the bytes sent, or nothing, and a sender that
      is told of success is told the truth; at most sixteen are in progress;
      nothing outside the receiving directories is touched.
    - Discovery: a device is announced while its daemon runs or its offer waits,
      and is found by those who look for it.
    - Clipboard: a copy reaches every device of a mesh, nothing echoes, and the mesh
      comes to rest; broadcasts are spaced; concealed items are not reported; the history is a bounded list of
      what was recorded and survives a restart.
    - Files: [write_atomic] is atomic and private; identity and device id are
      stable; the published state is the state.
    - The daemon: under any sequence of events the invariants of its components
      hold together.
    - The client: what it writes the daemon reads, every answer is typed, a command
      succeeds exactly when the daemon did what was asked, [recv] ends, the
      doctor says of each peer what the daemon does; no command writes a file it
      is not meant to write; and what pairing told the other device is what the
      daemon presents later.
    - Links, names and quoting: what may be opened, where a received file can
      go, and that text handed to a script stays text.

    Some theorems record behaviour that differs from what the code or its
    documentation intends; they are next to the component they are about (for
    instance [shared_tmp_corrupts], [stale_conn_down], [copy_stays_local]).

    ** Bounds

    Functions with fuel: [dec_fuel] takes one step per bit, [chunks_fuel] one
    per element, the reader task one per byte of the stream plus one; each has a
    lemma that this is enough.  The eviction and retry loops are structural.  The
    runs of a mesh are lists of steps of any length; [potential] bounds those that
    do anything.

    ** Not modelled

    The parsing of the command line, logging beyond the choice of its filter, the
    runtime and its scheduler (its choices are arguments), modification times and
    the clock (arguments too), the wording of error messages, the text of JSON,
    and the libraries above.  In a
    mesh a frame is routed in the step that takes it from the link, and each link
    has its bytes' order from [Connection.link_fifo]; the connections themselves
    are there as changes of the bus.  File
    transfer and history each have a store of their own; they use disjoint
    directories.  A byte stream is reliable and ordered until it ends; a reset
    that discards data in flight is not modelled. *)
From Stdlib Require Import Strings.Byte Strings.Ascii.
From Stdlib Require Export ZArith Lia.
From stdpp Require Export base tactics list gmap option strings sorting numbers.

Export Byte.ByteSyntaxNotations.
Delimit Scope byte_scope with byte.
#[global] Set Default Goal Selector "!".
Open Scope Z_scope.

(** ** Notations and scopes *)

(** A Rust [Vec<u8>], [&[u8]], [[u8; N]] is a list of bytes; a Rust [String]
    or [&str] is the list of its UTF-8 bytes, which is what it is in memory. *)
Abbreviation byte := Byte.byte.
Abbreviation bytes := (list Byte.byte) (only parsing).
Abbreviation str := (list Byte.byte) (only parsing).

(** A string literal of the source, as bytes. *)
Definition lit (s : string) : list byte := String.list_byte_of_string s.
Arguments lit _%_stdpp_scope.

Declare Scope qdrop_scope.
Delimit Scope qdrop_scope with qd.
Open Scope qdrop_scope.

(** ** Results: the error paths of the source are values *)

Inductive result (E A : Type) : Type :=
| Ok (a : A)
| Err (e : E).
Arguments Ok {E A} a.
Arguments Err {E A} e.

#[export] Instance result_ret (E : Type) : MRet (result E) := λ A a, Ok a.
#[export] Instance result_bind (E : Type) : MBind (result E) := λ A B f m,
  match m with Ok a => f a | Err e => Err e end.
#[export] Instance result_fmap (E : Type) : FMap (result E) := λ A B f m,
  match m with Ok a => Ok (f a) | Err e => Err e end.

Definition is_ok {E A} (r : result E A) : bool :=
  match r with Ok _ => true | Err _ => false end.

Definition map_err {E F A} (f : E → F) (r : result E A) : result F A :=
  match r with Ok a => Ok a | Err e => Err (f e) end.

(** [Result::ok] and [Option::ok_or]. *)
Definition ok {E A} (r : result E A) : option A :=
  match r with Ok a => Some a | Err _ => None end.
Definition ok_or {E A} (e : E) (o : option A) : result E A :=
  match o with Some a => Ok a | None => Err e end.

(** ** Machine integers *)

Definition u8_max : Z := 2 ^ 8 - 1.
Definition u16_max : Z := 2 ^ 16 - 1.
Definition u32_max : Z := 2 ^ 32 - 1.
Definition u64_max : Z := 2 ^ 64 - 1.

(** Wrapping arithmetic of [AtomicU64::fetch_add]. *)
Definition u64_wrap (z : Z) : Z := z mod 2 ^ 64.

(** [len() as u64]: a length as an integer. *)
Definition zlen {A} (l : list A) : Z := Z.of_nat (length l).

(** ** Bytes *)

#[export] Instance byte_eq_dec : EqDecision byte := Byte.byte_eq_dec.
#[export] Program Instance byte_countable : Countable byte :=
  inj_countable Byte.to_N Byte.of_N _.
Next Obligation. intros b. apply Byte.of_to_N. Qed.

Definition bval (b : byte) : Z := Z.of_N (Byte.to_N b).
Definition zbyte (z : Z) : byte :=
  match Byte.of_N (Z.to_N (z mod 256)) with Some b => b | None => Byte.x00 end.

(** [u32::to_be_bytes] and the like: [n] bytes, most significant first. *)
Fixpoint to_be_bytes (n : nat) (z : Z) : list byte :=
  match n with
  | O => []
  | S n' => zbyte (Z.shiftr z (8 * Z.of_nat n')) :: to_be_bytes n' z
  end.
Definition from_be_bytes (bs : list byte) : Z :=
  fold_left (λ acc b, Z.lor (Z.shiftl acc 8) (bval b)) bs 0.
Definition from_le_bytes (bs : list byte) : Z := from_be_bytes (rev bs).

(** Lexicographic order on byte strings: [<] on [str]. *)
Fixpoint bytes_ltb (a b : list byte) : bool :=
  match a, b with
  | [], [] => false
  | [], _ :: _ => true
  | _ :: _, [] => false
  | x :: a', y :: b' =>
      if bval x <? bval y then true
      else if bval y <? bval x then false
      else bytes_ltb a' b'
  end.

(** ** Generic list functions of the source's standard library *)

(** [Iterator::find] and [Iterator::find_map]. *)
Fixpoint find_map {A B} (f : A → option B) (l : list A) : option B :=
  match l with
  | [] => None
  | x :: l' => match f x with Some y => Some y | None => find_map f l' end
  end.
Fixpoint lfind {A} (f : A → bool) (l : list A) : option A :=
  match l with
  | [] => None
  | x :: l' => if f x then Some x else lfind f l'
  end.

(** [iter_mut().find(p)] followed by an update of the element found. *)
Fixpoint update_first {A} (p : A → bool) (f : A → A) (l : list A) : list A :=
  match l with
  | [] => []
  | x :: l' => if p x then f x :: l' else x :: update_first p f l'
  end.

(** [Vec::dedup]: drop an element equal to its predecessor. *)
Fixpoint dedup {A} `{EqDecision A} (l : list A) : list A :=
  match l with
  | [] => []
  | x :: l' =>
      match l' with
      | [] => [x]
      | y :: _ => if decide (x = y) then dedup l' else x :: dedup l'
      end
  end.

(** [slice::chunks(n)]; [fuel] is the length of the list, which is enough. *)
Fixpoint chunks_fuel {A} (fuel : nat) (n : nat) (l : list A) : list (list A) :=
  match fuel with
  | O => []
  | S fuel' =>
      match l with
      | [] => []
      | _ => take n l :: chunks_fuel fuel' n (drop n l)
      end
  end.
Definition chunks {A} (n : nat) (l : list A) : list (list A) :=
  chunks_fuel (length l) n l.

(** ** Tactics of the development *)

(** Split every [match] and [if] of the goal, simplifying as it goes. *)
Ltac split_all :=
  repeat (case_match || case_decide || case_bool_decide); simplify_eq/=.

(** Split matches in a hypothesis. *)
Ltac split_in H :=
  repeat (case_match; simplify_eq/=); try done.

(** Close a goal on booleans and integers. *)
Ltac zsolve :=
  repeat match goal with
    | H : (_ <? _)%Z = true |- _ => apply Z.ltb_lt in H
    | H : (_ <? _)%Z = false |- _ => apply Z.ltb_ge in H
    | H : (_ <=? _)%Z = true |- _ => apply Z.leb_le in H
    | H : (_ <=? _)%Z = false |- _ => apply Z.leb_gt in H
    | H : (_ =? _)%Z = true |- _ => apply Z.eqb_eq in H
    | H : (_ =? _)%Z = false |- _ => apply Z.eqb_neq in H
    end; try lia.

(** The development's hint databases: [qd] holds the lemmas that close the
    common goals, [qd_simp] the equations used as simplifications. *)
Create HintDb qd.
Create Rewrite HintDb qd_simp.
Ltac qauto := eauto with qd.
Ltac qsimp := autorewrite with qd_simp in *; simplify_eq/=.

(** ** Lemmas *)

Lemma zlen_nonneg {A} (l : list A) : 0 ≤ zlen l.
Proof. unfold zlen. lia. Qed.

Lemma zlen_app {A} (l k : list A) : zlen (l ++ k) = zlen l + zlen k.
Proof. unfold zlen. rewrite length_app. lia. Qed.

Lemma zlen_nil {A} : zlen (@nil A) = 0.
Proof. reflexivity. Qed.

Lemma zlen_nil_iff {A} (l : list A) : l = [] ↔ zlen l = 0.
Proof. unfold zlen. destruct l; simpl; split; (done || lia). Qed.

#[export] Hint Resolve zlen_nonneg : qd.
#[export] Hint Rewrite @zlen_app @zlen_nil : qd_simp.

Lemma bval_range b : 0 ≤ bval b < 256.
Proof.
  unfold bval. pose proof (Byte.to_N_bounded b). lia.
Qed.

Lemma bval_inj a b : bval a = bval b → a = b.
Proof.
  unfold bval. intros H. apply N2Z.inj in H.
  pose proof (Byte.of_to_N a) as Ha. pose proof (Byte.of_to_N b) as Hb.
  congruence.
Qed.

Lemma bval_zbyte z : bval (zbyte z) = z mod 256.
Proof.
  unfold zbyte, bval.
  assert (0 ≤ z mod 256 < 256) as Hr by (apply Z.mod_pos_bound; lia).
  destruct (Byte.of_N (Z.to_N (z mod 256))) as [b|] eqn:E.
  - apply Byte.to_of_N in E. rewrite E. lia.
  - apply Byte.of_N_None_iff in E. lia.
Qed.

Lemma zbyte_bval b : zbyte (bval b) = b.
Proof.
  apply bval_inj. rewrite bval_zbyte, Z.mod_small; [done|]. apply bval_range.
Qed.

#[export] Hint Rewrite bval_zbyte zbyte_bval : qd_simp.

Lemma length_to_be_bytes n z : length (to_be_bytes n z) = n.
Proof. induction n; simpl; congruence. Qed.
#[export] Hint Rewrite length_to_be_bytes : qd_simp.

Lemma byte_high_bits b i : 8 ≤ i → Z.testbit (bval b) i = false.
Proof.
  intros Hi. pose proof (bval_range b).
  destruct (decide (bval b = 0)) as [->|Hn]; [apply Z.bits_0|].
  assert (Z.log2 (bval b) < 8) by (apply Z.log2_lt_pow2; lia).
  apply Z.bits_above_log2; lia.
Qed.

Lemma lor_shift_byte x b : Z.lor (Z.shiftl x 8) (bval b) = x * 256 + bval b.
Proof.
  rewrite Z.shiftl_mul_pow2 by lia.
  assert (Z.land (x * 2 ^ 8) (bval b) = 0) as Hl.
  { apply Z.bits_inj'. intros i Hi. rewrite Z.land_spec, Z.bits_0.
    destruct (decide (i < 8)) as [Hlt|Hge].
    - by rewrite Z.mul_pow2_bits_low by lia.
    - rewrite byte_high_bits by lia. by rewrite andb_false_r. }
  pose proof (Z.add_lor_land (x * 2 ^ 8) (bval b)). lia.
Qed.

Lemma from_be_bytes_snoc l b :
  from_be_bytes (l ++ [b]) = from_be_bytes l * 256 + bval b.
Proof. unfold from_be_bytes. by rewrite fold_left_app; simpl; rewrite lor_shift_byte. Qed.

Lemma from_be_bytes_cons b l :
  from_be_bytes (b :: l) = bval b * 256 ^ zlen l + from_be_bytes l.
Proof.
  induction l as [|c l IH] using rev_ind.
  - unfold from_be_bytes. cbn [fold_left]. rewrite lor_shift_byte. change (zlen []) with 0. lia.
  - rewrite app_comm_cons, !from_be_bytes_snoc, IH, zlen_app.
    change (zlen [c]) with 1. rewrite Z.pow_add_r by (auto with qd; lia). lia.
Qed.

Lemma from_to_be_bytes n z :
  from_be_bytes (to_be_bytes n z) = z mod 256 ^ Z.of_nat n.
Proof.
  induction n as [|n IH].
  - simpl. by rewrite Z.mod_1_r.
  - cbn [to_be_bytes]. rewrite from_be_bytes_cons, IH, bval_zbyte.
    unfold zlen. rewrite length_to_be_bytes, Z.shiftr_div_pow2 by lia.
    replace (2 ^ (8 * Z.of_nat n)) with (256 ^ Z.of_nat n)
      by (rewrite Z.pow_mul_r by lia; done).
    rewrite Nat2Z.inj_succ, Z.pow_succ_r by lia.
    rewrite (Z.mul_comm 256), Z.rem_mul_r by lia. lia.
Qed.

Lemma from_be_bytes_range l : 0 ≤ from_be_bytes l < 256 ^ zlen l.
Proof.
  induction l as [|b l IH]; [unfold from_be_bytes, zlen; simpl; lia|].
  rewrite from_be_bytes_cons. pose proof (bval_range b).
  replace (zlen (b :: l)) with (1 + zlen l) by (unfold zlen; simpl; lia).
  rewrite Z.pow_add_r by (auto with qd; lia). nia.
Qed.

Lemma from_be_bytes_inj l k :
  length l = length k → from_be_bytes l = from_be_bytes k → l = k.
Proof.
  revert k. induction l as [|a l IH]; intros [|b k] Hl H; simpl in Hl; try done.
  rewrite !from_be_bytes_cons in H.
  pose proof (from_be_bytes_range l). pose proof (from_be_bytes_range k).
  replace (zlen k) with (zlen l) in * by (unfold zlen; lia).
  assert (bval a = bval b) as Hab by nia.
  f_equal; [by apply bval_inj|]. apply IH; [lia|nia].
Qed.

Lemma to_from_be_bytes l : to_be_bytes (length l) (from_be_bytes l) = l.
Proof.
  apply from_be_bytes_inj; [apply length_to_be_bytes|].
  rewrite from_to_be_bytes. apply Z.mod_small, from_be_bytes_range.
Qed.

(** *** The order on byte strings *)

Lemma bytes_ltb_irrefl a : bytes_ltb a a = false.
Proof. induction a as [|x a IH]; simpl; [done|]. by rewrite Z.ltb_irrefl. Qed.

Lemma bytes_ltb_asym a b : bytes_ltb a b = true → bytes_ltb b a = false.
Proof.
  revert b. induction a as [|x a IH]; intros [|y b] H; simpl in *; try done.
  destruct (bval x <? bval y) eqn:E1, (bval y <? bval x) eqn:E2; zsolve; try done.
  by apply IH.
Qed.

Lemma bytes_ltb_total a b : bytes_ltb a b = false → bytes_ltb b a = false → a = b.
Proof.
  revert b. induction a as [|x a IH]; intros [|y b] H1 H2; simpl in *; try done.
  destruct (bval x <? bval y) eqn:E1, (bval y <? bval x) eqn:E2; try done.
  f_equal; [|by apply IH]. apply bval_inj. zsolve.
Qed.

Lemma bytes_ltb_trans a b c :
  bytes_ltb a b = true → bytes_ltb b c = true → bytes_ltb a c = true.
Proof.
  revert b c. induction a as [|x a IH]; intros [|y b] [|z c] H1 H2; simpl in *; try done.
  destruct (bval x <? bval y) eqn:E1, (bval y <? bval x) eqn:E2,
    (bval y <? bval z) eqn:E3, (bval z <? bval y) eqn:E4; try done;
  destruct (bval x <? bval z) eqn:E5; try done;
  destruct (bval z <? bval x) eqn:E6; zsolve; try done.
  by eapply IH.
Qed.

(** *** Lists *)

Lemma elem_of_rev {A} (x : A) l : x ∈ rev l ↔ x ∈ l.
Proof. rewrite !list_elem_of_In. symmetry. apply in_rev. Qed.

Lemma lfind_Some {A} (f : A → bool) l x :
  lfind f l = Some x → x ∈ l ∧ f x = true.
Proof.
  induction l as [|y l IH]; simpl; [done|]. destruct (f y) eqn:E.
  - intros [= ->]. split; [left|done].
  - intros H. destruct (IH H). split; [by right|done].
Qed.

Lemma lfind_None {A} (f : A → bool) l :
  lfind f l = None ↔ ∀ x, x ∈ l → f x = false.
Proof.
  induction l as [|y l IH]; simpl.
  - split; [|done]. intros _ x Hx. by apply not_elem_of_nil in Hx.
  - destruct (f y) eqn:E.
    + split; [done|]. intros H. rewrite (H y) in E by left. done.
    + rewrite IH. split.
      * intros H x Hx. apply elem_of_cons in Hx as [->|Hx]; auto.
      * intros H x Hx. apply H. by right.
Qed.

Lemma lfind_app {A} (f : A → bool) l k :
  lfind f (l ++ k) = match lfind f l with Some x => Some x | None => lfind f k end.
Proof. induction l as [|x l IH]; simpl; [done|]. by destruct (f x). Qed.

Lemma find_map_Some {A B} (f : A → option B) l y :
  find_map f l = Some y → ∃ x, x ∈ l ∧ f x = Some y.
Proof.
  induction l as [|x l IH]; simpl; [done|]. destruct (f x) eqn:E.
  - intros [= ->]. exists x. split; [left|done].
  - intros H. destruct (IH H) as (z & Hz & Ez). exists z. split; [by right|done].
Qed.

Lemma chunks_fuel_concat {A} fuel n (l : list A) :
  (0 < n)%nat → (length l ≤ fuel)%nat → concat (chunks_fuel fuel n l) = l.
Proof.
  intros Hn. revert l. induction fuel as [|fuel IH]; intros l Hl.
  - destruct l; [done|simpl in Hl; lia].
  - destruct l as [|x l]; [done|]. cbn [chunks_fuel concat].
    rewrite IH; [by rewrite take_drop|]. rewrite length_drop. simpl in *. lia.
Qed.

Lemma concat_chunks {A} n (l : list A) : (0 < n)%nat → concat (chunks n l) = l.
Proof. intros. by apply chunks_fuel_concat. Qed.

Lemma chunks_length {A} n (l : list A) c :
  (0 < n)%nat → c ∈ chunks n l → (0 < length c ≤ n)%nat.
Proof.
  intros Hn. unfold chunks. generalize (length l) as fuel. intros fuel.
  revert l. induction fuel as [|fuel IH]; intros l Hc; [by apply not_elem_of_nil in Hc|].
  destruct l as [|x l]; cbn [chunks_fuel] in Hc; [by apply not_elem_of_nil in Hc|].
  apply elem_of_cons in Hc as [->|Hc]; [|by eapply IH].
  rewrite length_take. simpl. lia.
Qed.
