(* ===== verification/Text.v ===== *)
(** * Text: the parts of Rust's [str], [char], [Path] and formatting the source uses

    Strings are UTF-8 bytes ([Prelude]).  This file models what qdrop calls of
    the standard library: [str::from_utf8] and [chars], [trim], [split_once],
    [rsplit_once], [starts_with], [strip_suffix], [eq_ignore_ascii_case],
    [to_ascii_lowercase], [parse::<u16>]/[parse::<u64>], the [{}], [{:02x}]
    and [{:06}] formats, and [Path::join] / [Path::components] on unix.  The
    lemmas at the end are what the components use: decoding inverts encoding,
    trimming is the identity on a string with no outer white space, a name
    without separators is exactly one more component of the joined path. *)
From S2P Require Import Prelude.

(** ** Characters *)

(** A [char] is a Unicode scalar value. *)
Definition is_scalar (c : Z) : bool :=
  (0 <=? c) && (c <? 0x110000) && negb ((0xD800 <=? c) && (c <? 0xE000)).

(** [char::is_control]: general category Cc. *)
Definition is_control (c : Z) : bool :=
  ((0 <=? c) && (c <? 0x20)) || ((0x7F <=? c) && (c <? 0xA0)).

(** [char::is_whitespace]: the White_Space property. *)
Definition is_whitespace (c : Z) : bool :=
  ((9 <=? c) && (c <? 14)) || (c =? 0x20) || (c =? 0x85) || (c =? 0xA0)
  || (c =? 0x1680) || ((0x2000 <=? c) && (c <? 0x200B)) || (c =? 0x2028)
  || (c =? 0x2029) || (c =? 0x202F) || (c =? 0x205F) || (c =? 0x3000).

(** ** UTF-8 *)

Definition is_cont (b : byte) : bool := (128 <=? bval b) && (bval b <? 192).

Definition utf8_encode_char (c : Z) : list byte :=
  if c <? 0x80 then [zbyte c]
  else if c <? 0x800 then [zbyte (0xC0 + c / 64); zbyte (0x80 + c mod 64)]
  else if c <? 0x10000 then
    [zbyte (0xE0 + c / 4096); zbyte (0x80 + (c / 64) mod 64); zbyte (0x80 + c mod 64)]
  else
    [zbyte (0xF0 + c / 262144); zbyte (0x80 + (c / 4096) mod 64);
     zbyte (0x80 + (c / 64) mod 64); zbyte (0x80 + c mod 64)].

Definition utf8_encode (cs : list Z) : list byte := concat (map utf8_encode_char cs).

(** Validation and decoding ([str::from_utf8], then [chars]): shortest forms
    only, no surrogates, nothing above U+10FFFF. *)
Fixpoint utf8_decode (bs : list byte) : option (list Z) :=
  match bs with
  | [] => Some []
  | b0 :: r0 =>
      let v0 := bval b0 in
      if v0 <? 0x80 then cons v0 <$> utf8_decode r0
      else if v0 <? 0xC0 then None
      else if v0 <? 0xE0 then
        match r0 with
        | b1 :: r1 =>
            let c := (v0 - 0xC0) * 64 + (bval b1 - 0x80) in
            if is_cont b1 && (0x80 <=? c) then cons c <$> utf8_decode r1 else None
        | _ => None
        end
      else if v0 <? 0xF0 then
        match r0 with
        | b1 :: b2 :: r2 =>
            let c := (v0 - 0xE0) * 4096 + (bval b1 - 0x80) * 64 + (bval b2 - 0x80) in
            if is_cont b1 && is_cont b2 && (0x800 <=? c) && is_scalar c
            then cons c <$> utf8_decode r2 else None
        | _ => None
        end
      else if v0 <? 0xF8 then
        match r0 with
        | b1 :: b2 :: b3 :: r3 =>
            let c := (v0 - 0xF0) * 262144 + (bval b1 - 0x80) * 4096
                     + (bval b2 - 0x80) * 64 + (bval b3 - 0x80) in
            if is_cont b1 && is_cont b2 && is_cont b3 && (0x10000 <=? c) && is_scalar c
            then cons c <$> utf8_decode r3 else None
        | _ => None
        end
      else None
  end.

(** A Rust [str] is a byte string that decodes. *)
Definition valid_str (s : str) : Prop := is_Some (utf8_decode s).
#[export] Instance valid_str_dec s : Decision (valid_str s) := _.

(** [s.chars()] (of a valid string). *)
Definition chars (s : str) : list Z := default [] (utf8_decode s).

(** ** [trim] *)

Fixpoint drop_while {A} (p : A → bool) (l : list A) : list A :=
  match l with
  | [] => []
  | x :: l' => if p x then drop_while p l' else l
  end.
Definition trim_list {A} (p : A → bool) (l : list A) : list A :=
  rev (drop_while p (rev (drop_while p l))).
Definition trim (s : str) : str := utf8_encode (trim_list is_whitespace (chars s)).

(** ** Searching and splitting; separators are ASCII, so bytes suffice *)

Definition contains (c : byte) (s : str) : bool := bool_decide (c ∈ s).
Definition starts_with (p s : str) : bool := bool_decide (p `prefix_of` s).

Definition strip_prefix (p s : str) : option str :=
  if starts_with p s then Some (drop (length p) s) else None.
Definition strip_suffix (p s : str) : option str :=
  if decide (p `suffix_of` s) then Some (take (length s - length p) s) else None.

(** [split_once(c)]: around the first [c]; [rsplit_once(c)]: around the last. *)
Fixpoint split_once (c : byte) (s : str) : option (str * str) :=
  match s with
  | [] => None
  | x :: s' =>
      if decide (x = c) then Some ([], s')
      else match split_once c s' with
           | Some (a, b) => Some (x :: a, b)
           | None => None
           end
  end.
Definition rsplit_once (c : byte) (s : str) : option (str * str) :=
  match split_once c (rev s) with
  | Some (a, b) => Some (rev b, rev a)
  | None => None
  end.

(** Split on every [c] ([str::split]). *)
Fixpoint split (c : byte) (s : str) : list str :=
  match s with
  | [] => [[]]
  | x :: s' =>
      if decide (x = c) then [] :: split c s'
      else match split c s' with
           | [] => [[x]]
           | w :: ws => (x :: w) :: ws
           end
  end.

(** ** ASCII case *)

Definition to_lower (b : byte) : byte :=
  if (65 <=? bval b) && (bval b <? 91) then zbyte (bval b + 32) else b.
Definition to_ascii_lowercase (s : str) : str := map to_lower s.
Definition eq_ignore_ascii_case (a b : str) : bool :=
  bool_decide (to_ascii_lowercase a = to_ascii_lowercase b).

Definition is_ascii_digit (b : byte) : bool := (48 <=? bval b) && (bval b <? 58).
Definition is_ascii_hexdigit (b : byte) : bool :=
  is_ascii_digit b || ((65 <=? bval b) && (bval b <? 71)) || ((97 <=? bval b) && (bval b <? 103)).

(** ** Formatting and parsing of integers *)

Definition digit (d : Z) : byte := zbyte (48 + d).

Fixpoint dec_fuel (fuel : nat) (n : Z) (acc : str) : str :=
  match fuel with
  | O => acc
  | S f => let acc' := digit (n mod 10) :: acc in
           if n <? 10 then acc' else dec_fuel f (n / 10) acc'
  end.
(** [{}] of an unsigned integer; one step of [dec_fuel] per bit is enough. *)
Definition dec (n : Z) : str := dec_fuel (S (Z.to_nat (Z.log2 n))) n [].

(** [n] decimal digits of [z], most significant first. *)
Fixpoint dec_pad (n : nat) (z : Z) : str :=
  match n with
  | O => []
  | S n' => dec_pad n' (z / 10) ++ [digit (z mod 10)]
  end.

(** [{:02x}]. *)
Definition hex_digit (d : Z) : byte := if d <? 10 then zbyte (48 + d) else zbyte (87 + d).
Definition hex02 (b : byte) : str := [hex_digit (bval b / 16); hex_digit (bval b mod 16)].

Fixpoint parse_digits (acc : Z) (s : str) : option Z :=
  match s with
  | [] => Some acc
  | b :: s' =>
      if is_ascii_digit b then parse_digits (acc * 10 + (bval b - 48)) s' else None
  end.
(** [str::parse] for an unsigned integer type of maximum [max]: an optional
    [+], at least one digit, no overflow. *)
Definition parse_uint (max : Z) (s : str) : option Z :=
  let ds := match s with b :: s' => if decide (b = "+"%byte) then s' else s | [] => s end in
  match ds with
  | [] => None
  | _ => match parse_digits 0 ds with
         | Some n => if n <=? max then Some n else None
         | None => None
         end
  end.
Definition parse_u16 := parse_uint u16_max.
Definition parse_u64 := parse_uint u64_max.

(** ** Paths (unix) *)

Inductive component := RootDir | CurDir | ParentDir | Normal (s : str).
#[export] Instance component_eq_dec : EqDecision component.
Proof. solve_decision. Defined.
Definition component_code (c : component) : nat + str :=
  match c with
  | RootDir => inl 0%nat | CurDir => inl 1%nat | ParentDir => inl 2%nat
  | Normal s => inr s
  end.
Definition component_decode (x : nat + str) : option component :=
  match x with
  | inl 0%nat => Some RootDir | inl 1%nat => Some CurDir
  | inl _ => Some ParentDir | inr s => Some (Normal s)
  end.
Lemma component_decode_code c : component_decode (component_code c) = Some c.
Proof. by destruct c. Qed.
#[export] Instance component_countable : Countable component :=
  inj_countable component_code component_decode component_decode_code.

Definition slash : byte := "/"%byte.
Definition backslash : byte := "\"%byte.

(** One piece between separators: empty pieces and [.] vanish. *)
Definition piece (s : str) : list component :=
  if decide (s = []) then []
  else if decide (s = lit ".") then []
  else if decide (s = lit "..") then [ParentDir]
  else [Normal s].

(** [Path::components]: a leading [/] is the root, a leading [.] of a relative
    path is kept, repeated and trailing separators and other [.]s vanish. *)
Definition components (p : str) : list component :=
  match split slash p with
  | [] => []
  | w :: ws =>
      if decide (w = []) then
        match ws with
        | [] => []
        | _ => RootDir :: concat (map piece ws)
        end
      else if decide (w = lit ".") then CurDir :: concat (map piece ws)
      else piece w ++ concat (map piece ws)
  end.

(** [Path::join]: an absolute argument replaces the path; otherwise a
    separator is added when the path is not empty and does not end with one. *)
Definition path_join (dir name : str) : str :=
  if starts_with [slash] name then name
  else if decide (dir = []) then name
  else if decide ([slash] `suffix_of` dir) then dir ++ name
  else dir ++ [slash] ++ name.

(** ** Lemmas: UTF-8 *)

Lemma is_scalar_spec c :
  is_scalar c = true ↔ 0 ≤ c < 0x110000 ∧ ¬ (0xD800 ≤ c < 0xE000).
Proof. unfold is_scalar. rewrite !andb_true_iff, negb_true_iff, andb_false_iff. lia. Qed.

Lemma is_cont_spec b : is_cont b = true ↔ 128 ≤ bval b < 192.
Proof. unfold is_cont. rewrite andb_true_iff. lia. Qed.

(** Linear arithmetic with [/] and [mod] by constants. *)
Ltac zdm := Z.to_euclidean_division_equations; lia.

(** Decide the integer comparisons of the goal. *)
Ltac zbool :=
  repeat match goal with
    | |- context [?a <? ?b] =>
        first [ rewrite (proj2 (Z.ltb_lt a b)) by zdm
              | rewrite (proj2 (Z.ltb_ge a b)) by zdm ]
    | |- context [?a <=? ?b] =>
        first [ rewrite (proj2 (Z.leb_le a b)) by zdm
              | rewrite (proj2 (Z.leb_gt a b)) by zdm ]
    end; cbn [andb orb negb].

Lemma bval_zbyte_small z : 0 ≤ z < 256 → bval (zbyte z) = z.
Proof. intros. rewrite bval_zbyte. by apply Z.mod_small. Qed.

Lemma is_cont_low6 c : is_cont (zbyte (128 + c mod 64)) = true.
Proof. apply is_cont_spec. rewrite bval_zbyte_small; zdm. Qed.

Lemma utf8_decode_encode_char c r :
  is_scalar c = true →
  utf8_decode (utf8_encode_char c ++ r) = cons c <$> utf8_decode r.
Proof.
  intros Hs. pose proof (proj1 (is_scalar_spec c) Hs) as Hr.
  unfold utf8_encode_char.
  destruct (c <? 0x80) eqn:E1; [|destruct (c <? 0x800) eqn:E2;
    [|destruct (c <? 0x10000) eqn:E3]]; zsolve; cbn [app utf8_decode];
    rewrite ?is_cont_low6, ?bval_zbyte_small by zdm.
  - by zbool.
  - replace ((192 + c / 64 - 192) * 64 + (128 + c mod 64 - 128)) with c by zdm.
    by zbool.
  - replace ((224 + c / 4096 - 224) * 4096 + (128 + (c / 64) mod 64 - 128) * 64
             + (128 + c mod 64 - 128)) with c by zdm.
    rewrite Hs. by zbool.
  - replace ((240 + c / 262144 - 240) * 262144 + (128 + (c / 4096) mod 64 - 128) * 4096
             + (128 + (c / 64) mod 64 - 128) * 64 + (128 + c mod 64 - 128)) with c by zdm.
    rewrite Hs. by zbool.
Qed.

(** Decoding inverts encoding on scalar values. *)
Lemma utf8_decode_encode cs :
  forallb is_scalar cs = true → utf8_decode (utf8_encode cs) = Some cs.
Proof.
  induction cs as [|c cs IH]; [done|]. cbn [forallb]. intros [Hc Hcs]%andb_true_iff.
  unfold utf8_encode in *. cbn [map concat].
  rewrite utf8_decode_encode_char, IH by done. done.
Qed.

Lemma zbyte_eq z b : z = bval b → zbyte z = b.
Proof. intros ->. apply zbyte_bval. Qed.

(** The four shapes of an encoded character. *)
Ltac enc_shape :=
  unfold utf8_encode_char; zbool;
  repeat (f_equal; try (apply zbyte_eq; zdm)).

Lemma utf8_encode_char_1 b : bval b < 0x80 → utf8_encode_char (bval b) = [b].
Proof. intros. pose proof (bval_range b). enc_shape. Qed.

Lemma utf8_encode_char_2 b0 b1 c :
  0xC0 ≤ bval b0 < 0xE0 → is_cont b1 = true → 0x80 ≤ c →
  c = (bval b0 - 0xC0) * 64 + (bval b1 - 0x80) → utf8_encode_char c = [b0; b1].
Proof. intros H0 H1%is_cont_spec H2 ->. enc_shape. Qed.

Lemma utf8_encode_char_3 b0 b1 b2 c :
  0xE0 ≤ bval b0 < 0xF0 → is_cont b1 = true → is_cont b2 = true → 0x800 ≤ c →
  c = (bval b0 - 0xE0) * 4096 + (bval b1 - 0x80) * 64 + (bval b2 - 0x80) →
  utf8_encode_char c = [b0; b1; b2].
Proof. intros H0 H1%is_cont_spec H2%is_cont_spec H3 ->. enc_shape. Qed.

Lemma utf8_encode_char_4 b0 b1 b2 b3 c :
  0xF0 ≤ bval b0 < 0xF8 → is_cont b1 = true → is_cont b2 = true → is_cont b3 = true →
  0x10000 ≤ c →
  c = (bval b0 - 0xF0) * 262144 + (bval b1 - 0x80) * 4096
      + (bval b2 - 0x80) * 64 + (bval b3 - 0x80) →
  utf8_encode_char c = [b0; b1; b2; b3].
Proof. intros H0 H1%is_cont_spec H2%is_cont_spec H3%is_cont_spec H4 ->. enc_shape. Qed.

(** One character decoded: what remains decodes to the tail. *)
Lemma utf8_decoded_cons c r pre cs :
  utf8_encode_char c = pre → is_scalar c = true →
  (∀ cs', utf8_decode r = Some cs' → utf8_encode cs' = r ∧ forallb is_scalar cs' = true) →
  cons c <$> utf8_decode r = Some cs →
  utf8_encode cs = pre ++ r ∧ forallb is_scalar cs = true.
Proof.
  intros Hc Hs IH H. destruct (utf8_decode r) as [cs'|]; simplify_eq/=.
  destruct (IH cs') as [E Hf]; [done|]. rewrite Hs, Hf. split; [|done].
  by rewrite <- E.
Qed.

(** Encoding inverts decoding: a valid string is the encoding of its chars. *)
Lemma utf8_encode_decode bs cs :
  utf8_decode bs = Some cs → utf8_encode cs = bs ∧ forallb is_scalar cs = true.
Proof.
  revert cs. induction bs as [bs IH] using (induction_ltof1 _ (@length byte)).
  unfold ltof in IH. intros cs H.
  destruct bs as [|b0 r0]; [by simplify_eq/=|].
  cbn [utf8_decode] in H. pose proof (bval_range b0) as R0.
  destruct (bval b0 <? 0x80) eqn:E0; zsolve.
  { apply (utf8_decoded_cons (bval b0) r0 [b0]); [by apply utf8_encode_char_1| | |done].
    - apply is_scalar_spec. lia.
    - apply IH. simpl. lia. }
  destruct (bval b0 <? 0xC0) eqn:E1; [done|]; zsolve.
  destruct (bval b0 <? 0xE0) eqn:E2; zsolve.
  { destruct r0 as [|b1 r1]; [done|]. case_match eqn:E; [|done].
    apply andb_true_iff in E as [Hc1 Hlo]. zsolve.
    pose proof (proj1 (is_cont_spec b1) Hc1).
    apply (utf8_decoded_cons _ r1 [b0; b1]) in H; [done|by apply utf8_encode_char_2| |].
    - apply is_scalar_spec. lia.
    - apply IH. simpl. lia. }
  destruct (bval b0 <? 0xF0) eqn:E3; zsolve.
  { destruct r0 as [|b1 [|b2 r2]]; [done..|]. case_match eqn:E; [|done].
    rewrite !andb_true_iff in E. destruct E as [[[Hc1 Hc2] Hlo] Hs]. zsolve.
    apply (utf8_decoded_cons _ r2 [b0; b1; b2]) in H;
      [done|by apply utf8_encode_char_3|done|].
    apply IH. simpl. lia. }
  destruct (bval b0 <? 0xF8) eqn:E4; [|done]; zsolve.
  destruct r0 as [|b1 [|b2 [|b3 r3]]]; [done..|]. case_match eqn:E; [|done].
  rewrite !andb_true_iff in E. destruct E as [[[[Hc1 Hc2] Hc3] Hlo] Hs]. zsolve.
  apply (utf8_decoded_cons _ r3 [b0; b1; b2; b3]) in H;
    [done|by apply utf8_encode_char_4|done|].
  apply IH. simpl. lia.
Qed.

Lemma utf8_encode_chars s : valid_str s → utf8_encode (chars s) = s.
Proof. intros [cs H]. unfold chars. rewrite H. by destruct (utf8_encode_decode _ _ H). Qed.

Lemma chars_scalar s : forallb is_scalar (chars s) = true.
Proof.
  unfold chars. destruct (utf8_decode s) as [cs|] eqn:E; [|done]. simpl.
  by destruct (utf8_encode_decode _ _ E).
Qed.

Lemma chars_utf8_encode cs : forallb is_scalar cs = true → chars (utf8_encode cs) = cs.
Proof. intros H. unfold chars. by rewrite utf8_decode_encode. Qed.

Lemma valid_utf8_encode cs : forallb is_scalar cs = true → valid_str (utf8_encode cs).
Proof. intros H. exists cs. by apply utf8_decode_encode. Qed.

(** ** Lemmas: trimming *)

Lemma drop_while_incl {A} (p : A → bool) l : drop_while p l `suffix_of` l.
Proof.
  induction l as [|x l IH]; simpl; [done|]. destruct (p x); [|done].
  by apply suffix_cons_r.
Qed.

Lemma drop_while_head {A} (p : A → bool) l x l' :
  drop_while p l = x :: l' → p x = false.
Proof.
  induction l as [|y l IH]; simpl; [done|]. destruct (p y) eqn:E; [done|].
  by intros [= -> ->].
Qed.

Lemma drop_while_id {A} (p : A → bool) l :
  (∀ x l', l = x :: l' → p x = false) → drop_while p l = l.
Proof. destruct l as [|x l]; [done|]. intros H. simpl. by rewrite (H x l). Qed.

Lemma trim_list_elem {A} (p : A → bool) l x : x ∈ trim_list p l → x ∈ l.
Proof.
  unfold trim_list. rewrite elem_of_rev.
  intros H. destruct (drop_while_incl p (rev (drop_while p l))) as [k Hk].
  assert (x ∈ rev (drop_while p l)) as Hx by (rewrite Hk; set_solver).
  rewrite elem_of_rev in Hx.
  destruct (drop_while_incl p l) as [k' Hk']. rewrite Hk'. set_solver.
Qed.

(** Nothing to trim: no element satisfies the predicate. *)
Lemma trim_list_none {A} (p : A → bool) l :
  (∀ x, x ∈ l → p x = false) → trim_list p l = l.
Proof.
  intros H. unfold trim_list.
  assert (∀ k, (∀ x, x ∈ k → p x = false) → drop_while p k = k) as E.
  { intros k Hk. apply drop_while_id. intros x k' ->. apply Hk. left. }
  rewrite (E l H), E, rev_involutive; [done|].
  intros x. rewrite elem_of_rev. auto.
Qed.

Lemma trim_list_scalar l :
  forallb is_scalar l = true → forallb is_scalar (trim_list is_whitespace l) = true.
Proof.
  rewrite !forallb_forall. intros H x Hx. apply H.
  apply list_elem_of_In. apply list_elem_of_In in Hx. by eapply trim_list_elem.
Qed.

Lemma chars_trim s : chars (trim s) = trim_list is_whitespace (chars s).
Proof. unfold trim. apply chars_utf8_encode, trim_list_scalar, chars_scalar. Qed.

Lemma valid_trim s : valid_str (trim s).
Proof. unfold trim. apply valid_utf8_encode, trim_list_scalar, chars_scalar. Qed.

Lemma trim_no_whitespace s :
  valid_str s → (∀ c, c ∈ chars s → is_whitespace c = false) → trim s = s.
Proof. intros Hv H. unfold trim. rewrite trim_list_none by done. by apply utf8_encode_chars. Qed.

(** ASCII strings: characters are bytes. *)
Definition is_ascii (s : str) : bool := forallb (λ b, bval b <? 0x80) s.

Lemma utf8_decode_ascii s : is_ascii s = true → utf8_decode s = Some (map bval s).
Proof.
  induction s as [|b s IH]; [done|]. cbn [is_ascii forallb utf8_decode map].
  intros [Hb Hs]%andb_true_iff. rewrite Hb. unfold is_ascii in IH. by rewrite IH.
Qed.

Lemma chars_ascii s : is_ascii s = true → chars s = map bval s.
Proof. intros H. unfold chars. by rewrite utf8_decode_ascii. Qed.

Lemma valid_ascii s : is_ascii s = true → valid_str s.
Proof. intros H. exists (map bval s). by apply utf8_decode_ascii. Qed.

(** Printable ASCII without spaces: nothing to trim. *)
Definition graphic (s : str) : bool := forallb (λ b, (33 <=? bval b) && (bval b <? 127)) s.

Lemma graphic_ascii s : graphic s = true → is_ascii s = true.
Proof.
  unfold graphic, is_ascii. rewrite !forallb_forall. intros H b Hb. apply H in Hb. lia.
Qed.

Lemma graphic_app a b : graphic (a ++ b) = graphic a && graphic b.
Proof. apply forallb_app. Qed.

Lemma trim_graphic s : graphic s = true → trim s = s.
Proof.
  intros H. pose proof (graphic_ascii s H) as Ha. apply trim_no_whitespace; [by apply valid_ascii|].
  intros c. rewrite chars_ascii by done. intros (b & -> & Hb)%list_elem_of_fmap.
  unfold graphic in H. rewrite forallb_forall in H. apply list_elem_of_In, H in Hb.
  unfold is_whitespace. lia.
Qed.

Lemma digits_graphic s : forallb is_ascii_digit s = true → graphic s = true.
Proof.
  unfold graphic. rewrite !forallb_forall. intros H b Hb. apply H in Hb.
  unfold is_ascii_digit in Hb. lia.
Qed.

(** ** Lemmas: splitting and paths *)

Lemma split_not_nil c s : split c s ≠ [].
Proof. destruct s as [|x s]; [done|]. simpl. repeat case_match; done. Qed.

Lemma split_no_sep c s : c ∉ s → split c s = [s].
Proof.
  induction s as [|x s IH]; intros H; [done|]. apply not_elem_of_cons in H as [Hx Hs].
  simpl. rewrite decide_False, IH by auto. done.
Qed.

Lemma split_app c a b : split c (a ++ c :: b) = split c a ++ split c b.
Proof.
  induction a as [|x a IH]; simpl.
  - by rewrite decide_True.
  - case_decide; [by rewrite IH|]. rewrite IH.
    by destruct (split c a) eqn:E; [by apply split_not_nil in E|].
Qed.

Lemma piece_normal s :
  s ≠ [] → s ≠ lit "." → s ≠ lit ".." → piece s = [Normal s].
Proof. intros. unfold piece. by rewrite !decide_False. Qed.

Lemma components_snoc p name :
  p ≠ [] → slash ∉ name →
  components (p ++ slash :: name) = components p ++ piece name.
Proof.
  intros Hp Hn. unfold components. rewrite split_app, (split_no_sep _ _ Hn).
  destruct (split slash p) as [|w ws] eqn:E; [by apply split_not_nil in E|].
  cbn [app]. rewrite map_app, concat_app. cbn [map concat]. rewrite app_nil_r.
  case_decide as Hw.
  - subst w. destruct ws as [|w' ws].
    + exfalso. destruct p as [|x p]; [done|]. simpl in E. case_decide; [|by case_match].
      simplify_eq. by eapply split_not_nil.
    + done.
  - case_decide; [done|]. by rewrite app_assoc.
Qed.

Lemma components_trailing p : p ≠ [] → components (p ++ [slash]) = components p.
Proof.
  intros Hp. rewrite components_snoc; [|done|apply not_elem_of_nil].
  by rewrite app_nil_r.
Qed.

(** A separator-free name that is not empty, [.] or [..] becomes exactly one
    more component of the directory it is joined to. *)
Lemma components_join dir name :
  dir ≠ [] → slash ∉ name → name ≠ [] → name ≠ lit "." → name ≠ lit ".." →
  components (path_join dir name) = components dir ++ [Normal name].
Proof.
  intros Hd Hs H0 H1 H2. unfold path_join.
  assert (starts_with [slash] name = false) as ->.
  { unfold starts_with. apply bool_decide_eq_false_2. intros [k ->]. set_solver. }
  rewrite decide_False by done. case_decide as Hsuf.
  - destruct Hsuf as [d ->]. rewrite <- app_assoc. destruct (decide (d = [])) as [->|Hne].
    + cbn [app]. unfold components. change (slash :: name) with ([] ++ slash :: name).
      rewrite split_app, (split_no_sep _ _ Hs). cbn -[piece].
      by rewrite piece_normal by done.
    + cbn [app]. rewrite components_snoc, piece_normal, components_trailing by done. done.
  - cbn [app]. by rewrite components_snoc, piece_normal by done.
Qed.
