(* ===== verification/Crypto.v ===== *)
(** * Crypto: the helpers of [crates/qdrop-core/src/crypto.rs]

    SHA-256 and HMAC come from the [sha2] and [hmac] crates: they are the
    interface [Hashes], of which only the 32-byte output is assumed.  Modelled
    here: the incremental hasher, constant-time comparison and PIN
    generation by rejection sampling, with the theorems that the comparison
    is equality and that the PIN is six digits, uniformly distributed. *)
From S2P Require Import Prelude Text.

(** ** The hash interface *)

Class Hashes := {
  sha256 : bytes → bytes;
  hmac_sha256 : bytes → bytes → bytes;
}.
Class HashLaws `{Hashes} := {
  sha256_length b : length (sha256 b) = 32%nat;
  hmac_length k b : length (hmac_sha256 k b) = 32%nat;
}.

(** [Sha256::new], [update], [finalize]: the digest is that of everything fed. *)
Definition hasher : Type := bytes.
Definition hasher_new : hasher := [].
Definition hasher_update (h : hasher) (b : bytes) : hasher := h ++ b.
Definition hasher_finalize `{Hashes} (h : hasher) : bytes := sha256 h.

(** ** [ct_eq] *)

Definition ct_eq (a b : bytes) : bool :=
  fold_left (λ diff i, Z.lor diff (Z.lxor (bval (nth i a Byte.x00)) (bval (nth i b Byte.x00))))
    (seq 0 32) 0 =? 0.

(** ** [gen_pin] *)

(** [(u32::MAX / 1_000_000).checked_mul(1_000_000)]. *)
Definition checked_mul_u32 (a b : Z) : option Z :=
  if a * b <=? u32_max then Some (a * b) else None.
Definition pin_limit : option Z := checked_mul_u32 (u32_max / 1000000) 1000000.

Definition format_pin (n : Z) : str := dec_pad 6 (n mod 1000000).

(** The loop, over the results of successive [random_bytes::<4>()] calls;
    [None] when the samples given run out before the loop returns. *)
Fixpoint gen_pin {E} (samples : list (result E bytes)) : option (result E str) :=
  match samples with
  | [] => None
  | Err e :: _ => Some (Err e)
  | Ok buf :: rest =>
      let n := from_le_bytes buf in
      match pin_limit with
      | Some limit => if n <? limit then Some (Ok (format_pin n)) else gen_pin rest
      | None => gen_pin rest
      end
  end.

(** ** Lemmas: comparison *)

Lemma lor_fold_zero (f : nat → Z) l acc :
  fold_left (λ d i, Z.lor d (f i)) l acc = 0 ↔ acc = 0 ∧ ∀ i, i ∈ l → f i = 0.
Proof.
  revert acc. induction l as [|x l IH]; intros acc; simpl.
  - set_solver.
  - rewrite IH, Z.lor_eq_0_iff. set_solver.
Qed.

Lemma ct_eq_iff a b :
  length a = 32%nat → length b = 32%nat → ct_eq a b = true ↔ a = b.
Proof.
  intros Ha Hb. unfold ct_eq. rewrite Z.eqb_eq, lor_fold_zero. split.
  - intros [_ H]. apply (nth_ext _ _ Byte.x00 Byte.x00); [congruence|].
    intros i Hi. apply bval_inj, Z.lxor_eq, H. apply elem_of_seq. lia.
  - intros ->. split; [done|]. intros i _. apply Z.lxor_nilpotent.
Qed.

(** [ct_eq] on two 32-byte arrays is equality: it returns true exactly
    when every byte agrees. *)
Theorem ct_eq_spec a b :
  length a = 32%nat → length b = 32%nat → ct_eq a b = true ↔ a = b.
Proof. apply ct_eq_iff. Qed.

Lemma ct_eq_spec_witness :
  ct_eq (replicate 32 Byte.x07) (replicate 32 Byte.x07) = true ∧
  ct_eq (replicate 32 Byte.x07) (replicate 31 Byte.x07 ++ [Byte.x08]) = false.
Proof.
  split.
  - by apply (ct_eq_spec (replicate 32 Byte.x07) (replicate 32 Byte.x07)).
  - vm_compute. reflexivity.
Defined.

(** ** Lemmas: PINs *)

Lemma pin_limit_eq : pin_limit = Some 4294000000.
Proof. vm_compute. reflexivity. Qed.

Lemma length_dec_pad n z : length (dec_pad n z) = n.
Proof. revert z. induction n as [|n IH]; intros z; simpl; [done|]. rewrite length_app, IH. simpl. lia. Qed.

Lemma is_ascii_digit_digit d : 0 ≤ d < 10 → is_ascii_digit (digit d) = true.
Proof. intros. unfold is_ascii_digit, digit. rewrite bval_zbyte_small by lia. by zbool. Qed.

Lemma dec_pad_digits n z b : b ∈ dec_pad n z → is_ascii_digit b = true.
Proof.
  revert z. induction n as [|n IH]; intros z; simpl; [by intros ?%not_elem_of_nil|].
  rewrite elem_of_app, list_elem_of_singleton. intros [Hb| ->]; [eauto|].
  apply is_ascii_digit_digit. apply Z.mod_pos_bound. lia.
Qed.

Lemma dec_pad_inj n x y :
  0 ≤ x < 10 ^ Z.of_nat n → 0 ≤ y < 10 ^ Z.of_nat n → dec_pad n x = dec_pad n y → x = y.
Proof.
  revert x y. induction n as [|n IH]; intros x y Hx Hy H; [simpl in *; lia|].
  rewrite Nat2Z.inj_succ, Z.pow_succ_r in Hx, Hy by lia.
  cbn [dec_pad] in H. apply app_inj_tail in H as [H1 H2].
  apply IH in H1; [|split; [zdm|apply Z.div_lt_upper_bound; lia]..].
  apply (f_equal bval) in H2. unfold digit in H2.
  rewrite !bval_zbyte_small in H2 by zdm. zdm.
Qed.

Lemma gen_pin_Ok {E} (samples : list (result E bytes)) pin :
  gen_pin samples = Some (Ok pin) →
  ∃ buf, Ok buf ∈ samples ∧ from_le_bytes buf < 4294000000 ∧ pin = format_pin (from_le_bytes buf).
Proof.
  induction samples as [|[buf|e] samples IH]; cbn [gen_pin]; [done| |done].
  rewrite pin_limit_eq. case_match; zsolve.
  - intros [= <-]. exists buf. split_and!; [left|done..].
  - intros HG. apply IH in HG as (b & Hb & ? & ->). exists b. split_and!; [by right|done..].
Qed.

(** A PIN [gen_pin] returns is six ASCII digits, and the loop does
    return as soon as one of the random samples is below the limit and no
    earlier draw failed. *)
Theorem gen_pin_six_digits {E} (pre post : list (result E bytes)) buf :
  (∀ r, r ∈ pre → ∃ b, r = Ok b) →
  from_le_bytes buf < 4294000000 →
  ∃ pin, gen_pin (pre ++ Ok buf :: post) = Some (Ok pin) ∧ length pin = 6%nat ∧
         (∀ b, b ∈ pin → is_ascii_digit b = true).
Proof.
  intros Hpre Hbuf.
  assert (∃ pin, gen_pin (pre ++ Ok buf :: post) = Some (Ok pin)) as [pin Hpin].
  { clear -Hpre Hbuf. induction pre as [|r pre IH]; cbn [app gen_pin].
    - rewrite pin_limit_eq, (proj2 (Z.ltb_lt _ _)) by done. eauto.
    - destruct (Hpre r) as [b ->]; [left|]. rewrite pin_limit_eq. case_match; [eauto|].
      apply IH. intros r' Hr'. apply Hpre. by right. }
  exists pin. split; [done|]. apply gen_pin_Ok in Hpin as (b & _ & _ & ->).
  split; [apply length_dec_pad|]. intros c. apply dec_pad_digits.
Qed.

Lemma gen_pin_six_digits_witness :
  ∃ pin, gen_pin (E:=unit) [Ok [Byte.xff; Byte.xff; Byte.xff; Byte.xff];
                            Ok [Byte.x2a; Byte.x00; Byte.x00; Byte.x00]] = Some (Ok pin)
         ∧ length pin = 6%nat ∧ (∀ b, b ∈ pin → is_ascii_digit b = true).
Proof.
  apply (gen_pin_six_digits [Ok [Byte.xff; Byte.xff; Byte.xff; Byte.xff]] []).
  - intros r Hr. apply list_elem_of_singleton in Hr as ->. eauto.
  - vm_compute. reflexivity.
Defined.

(** The PIN is uniform: each of the million PINs is produced by exactly
    4294 of the accepted 32-bit samples, namely [p + 1000000 * k] for
    [0 <= k < 4294], and two different values give different PINs. *)
Theorem gen_pin_uniform p n :
  0 ≤ p < 1000000 → 0 ≤ n ≤ u32_max →
  (∃ limit, pin_limit = Some limit ∧ n < limit) ∧ format_pin n = format_pin p ↔
  ∃ k, 0 ≤ k < 4294 ∧ n = p + 1000000 * k.
Proof.
  intros Hp Hn. rewrite pin_limit_eq. unfold format_pin, u32_max in *.
  rewrite (Z.mod_small p) by lia. split.
  - intros [(limit & [= <-] & Hl) HE].
    apply dec_pad_inj in HE; [|zdm|change (10 ^ Z.of_nat 6) with 1000000; lia].
    exists (n / 1000000). zdm.
  - intros (k & Hk & ->). split; [eexists; split; [done|lia]|]. f_equal. zdm.
Qed.

Lemma gen_pin_uniform_witness :
  ∃ k, 0 ≤ k < 4294 ∧ 3000042 = 42 + 1000000 * k.
Proof.
  apply (gen_pin_uniform 42 3000042); [lia|vm_compute; intuition discriminate|].
  split; [exists 4294000000; split; [vm_compute; reflexivity|lia]|vm_compute; reflexivity].
Defined.
