(* ===== verification/Proto.v ===== *)
(** * Proto: the wire vocabulary ([crates/qdrop-core/src/proto.rs])

    The message types with the source's constructors, capability
    intersection, the clipboard entry accessors, the URL allowlist and the
    blob file-name check.  The theorems say exactly which URLs are allowed
    and that an accepted file name stays one component below the directory
    it is joined to. *)
From S2P Require Import Prelude Text.

Definition PROTOCOL_VERSION : Z := 1.

(** ** Capabilities *)

Record Caps := mkCaps {
  clipboard_text : bool;
  clipboard_images : bool;
  file_send : bool;
  open_url : bool;
  cap_auth : bool;
}.

Definition Caps_NONE : Caps := mkCaps false false false false false.
Definition Caps_ALL : Caps := mkCaps true true true true true.

Definition intersect (self other : Caps) : Caps := {|
  clipboard_text := clipboard_text self && clipboard_text other;
  clipboard_images := clipboard_images self && clipboard_images other;
  file_send := file_send self && file_send other;
  open_url := open_url self && open_url other;
  cap_auth := cap_auth self && cap_auth other;
|}.

(** ** Device information and greetings *)

Record DeviceInfo := mkDeviceInfo {
  info_hostname : str;
  info_macs : list str;
  info_os : str;
}.

Record Hello := mkHello {
  protocol_version : Z;
  hello_device_id : str;
  hello_device_name : str;
  hello_caps : Caps;
}.

(** ** Clipboard entries *)

Definition MIME_TEXT : str := lit "text/plain;charset=utf-8".
Definition MIME_PNG : str := lit "image/png".
Definition CLIP_IMAGE_INLINE_MAX : Z := 256 * 1024.

Inductive BlobPurpose := File | ClipboardImage.

Record ClipEntry := mkClipEntry { mime : str; data : bytes }.

Definition ClipEntry_text (s : str) : ClipEntry := mkClipEntry MIME_TEXT s.
Definition ClipEntry_png (b : bytes) : ClipEntry := mkClipEntry MIME_PNG b.

(** [std::str::from_utf8(&self.data).ok()] keeps the same bytes. *)
Definition as_text (e : ClipEntry) : option str :=
  if starts_with (lit "text/") (mime e) then
    if decide (valid_str (data e)) then Some (data e) else None
  else None.
Definition as_image (e : ClipEntry) : option bytes :=
  if starts_with (lit "image/") (mime e) then Some (data e) else None.

(** ** Messages *)

Inductive Message :=
| MHello (h : Hello)
| Ping (seq : Z)
| Pong (seq : Z)
| Clipboard (seq : Z) (origin_id : str) (entries : list ClipEntry)
| BlobStart (id : Z) (name : str) (size : Z) (purpose : BlobPurpose)
| BlobChunk (id : Z) (data : bytes)
| BlobEnd (id : Z) (sha256 : bytes)
| BlobAck (id : Z) (ok : bool) (detail : str)
| OpenUrl (url : str)
| AuthRequest (mutual : bool) (info : DeviceInfo)
| AuthReply (ok : bool) (info : DeviceInfo).

#[export] Instance Caps_eq_dec : EqDecision Caps.
Proof. solve_decision. Defined.
#[export] Instance DeviceInfo_eq_dec : EqDecision DeviceInfo.
Proof. solve_decision. Defined.
#[export] Instance Hello_eq_dec : EqDecision Hello.
Proof. solve_decision. Defined.
#[export] Instance BlobPurpose_eq_dec : EqDecision BlobPurpose.
Proof. solve_decision. Defined.
#[export] Instance ClipEntry_eq_dec : EqDecision ClipEntry.
Proof. solve_decision. Defined.
#[export] Instance Message_eq_dec : EqDecision Message.
Proof. solve_decision. Defined.

Definition BLOB_CHUNK : Z := 64 * 1024.

(** ** URLs *)

Definition URL_SCHEME_ALLOWLIST : list str := [lit "http"; lit "https"; lit "mailto"].

(** The characters [is_allowed_url] refuses inside the trimmed URL. *)
Definition bad_url_char (c : Z) : bool :=
  is_control c || is_whitespace c || (c =? 34) || (c =? 39) || (c =? 96).

Definition is_allowed_url (url : str) : bool :=
  let url := trim url in
  if bool_decide (url = []) || (4096 <? zlen url) then false
  else if existsb bad_url_char (chars url) then false
  else match split_once ":"%byte url with
       | None => false
       | Some (scheme, rest) =>
           if negb (existsb (eq_ignore_ascii_case scheme) URL_SCHEME_ALLOWLIST) then false
           else
             let sc := to_ascii_lowercase scheme in
             if bool_decide (sc = lit "http") || bool_decide (sc = lit "https") then
               starts_with (lit "//") rest && (2 <? zlen rest)
             else if bool_decide (sc = lit "mailto") then contains "@"%byte rest
             else false
       end.

(** ** Blob file names *)

Definition safe_blob_name (name : str) : option str :=
  let name := trim name in
  if bool_decide (name = []) || bool_decide (name = lit ".") || bool_decide (name = lit "..")
  then None
  else match components name with
       | [Normal s] =>
           if bool_decide (s = lit "..") || contains slash s || contains backslash s
           then None else Some s
       | _ => None
       end.

(** ** Capabilities form a meet-semilattice *)

Lemma intersect_comm a b : intersect a b = intersect b a.
Proof. destruct a, b. unfold intersect. cbn. f_equal; apply andb_comm. Qed.

Lemma intersect_assoc a b c : intersect a (intersect b c) = intersect (intersect a b) c.
Proof. unfold intersect. cbn. by rewrite !andb_assoc. Qed.

Lemma intersect_idemp a : intersect a a = a.
Proof. destruct a. unfold intersect. cbn. by rewrite !andb_diag. Qed.

Lemma intersect_ALL a : intersect a Caps_ALL = a.
Proof. destruct a. unfold intersect. cbn. by rewrite !andb_true_r. Qed.

#[export] Instance intersect_Comm : Comm (=) intersect := intersect_comm.
#[export] Instance intersect_Assoc : Assoc (=) intersect := intersect_assoc.
#[export] Instance intersect_RightId : RightId (=) Caps_ALL intersect := intersect_ALL.

(** ** What the URL check means *)

(** The specification: a scheme, a colon, and a rest of the scheme's shape,
    in a trimmed string of bounded length without refused characters. *)
Inductive scheme_ok (rest : str) : str → Prop :=
| scheme_http : lit "//" `prefix_of` rest → 2 < zlen rest → scheme_ok rest (lit "http")
| scheme_https : lit "//" `prefix_of` rest → 2 < zlen rest → scheme_ok rest (lit "https")
| scheme_mailto : "@"%byte ∈ rest → scheme_ok rest (lit "mailto").

Definition url_ok (u : str) : Prop :=
  0 < zlen u ≤ 4096 ∧
  (∀ c, c ∈ chars u → bad_url_char c = false) ∧
  ∃ scheme rest,
    u = scheme ++ (":"%byte :: rest) ∧ ":"%byte ∉ scheme ∧
    scheme_ok rest (to_ascii_lowercase scheme).

Lemma split_once_Some c s a b :
  split_once c s = Some (a, b) ↔ s = a ++ c :: b ∧ c ∉ a.
Proof.
  revert a. induction s as [|x s IH]; intros a; simpl.
  - split; [done|]. intros [H _]. by destruct a.
  - case_decide as Hx.
    + subst x. split.
      * intros [= <- <-]. split; [done|apply not_elem_of_nil].
      * intros [H Hc]. destruct a as [|y a]; [by simplify_eq/=|].
        simplify_eq/=. set_solver.
    + destruct (split_once c s) as [[a' b']|].
      * split.
        -- intros [= <- <-]. destruct (proj1 (IH a') eq_refl) as [-> Hc].
           split; [done|]. set_solver.
        -- intros [H Hc]. destruct a as [|y a]; [by simplify_eq/=|].
           simplify_eq/=. assert (Some (a', b') = Some (a, b)) as E; [|by simplify_eq].
           apply IH. split; [done|set_solver].
      * split; [done|]. intros [H Hc]. destruct a as [|y a]; simplify_eq/=.
        assert (None = Some (a, b)) as E; [|done]. apply IH. split; [done|set_solver].
Qed.

Lemma to_ascii_lowercase_idemp_lit sc :
  sc ∈ URL_SCHEME_ALLOWLIST → to_ascii_lowercase sc = sc.
Proof.
  unfold URL_SCHEME_ALLOWLIST. rewrite !elem_of_cons, elem_of_nil.
  intros [->|[->|[->|[]]]]; vm_compute; reflexivity.
Qed.

Lemma allowlist_match scheme :
  existsb (eq_ignore_ascii_case scheme) URL_SCHEME_ALLOWLIST = true ↔
  to_ascii_lowercase scheme ∈ URL_SCHEME_ALLOWLIST.
Proof.
  rewrite existsb_exists. split.
  - intros (sc & Hin%list_elem_of_In & E). unfold eq_ignore_ascii_case in E.
    apply bool_decide_eq_true in E.
    rewrite E, to_ascii_lowercase_idemp_lit by done. done.
  - intros Hin. exists (to_ascii_lowercase scheme). split; [by apply list_elem_of_In|].
    unfold eq_ignore_ascii_case. apply bool_decide_eq_true.
    by rewrite (to_ascii_lowercase_idemp_lit _ Hin).
Qed.

Lemma existsb_false_iff {A} (f : A → bool) l :
  existsb f l = false ↔ ∀ x, x ∈ l → f x = false.
Proof.
  induction l as [|y l IH]; simpl.
  - split; [|done]. intros _ x Hx. by apply not_elem_of_nil in Hx.
  - rewrite orb_false_iff, IH. set_solver.
Qed.

(** The check on scheme and rest, in both directions. *)
Lemma scheme_check_spec scheme rest :
  (if negb (existsb (eq_ignore_ascii_case scheme) URL_SCHEME_ALLOWLIST) then false
   else
     let sc := to_ascii_lowercase scheme in
     if bool_decide (sc = lit "http") || bool_decide (sc = lit "https") then
       starts_with (lit "//") rest && (2 <? zlen rest)
     else if bool_decide (sc = lit "mailto") then contains "@"%byte rest
     else false) = true ↔ scheme_ok rest (to_ascii_lowercase scheme).
Proof.
  set (sc := to_ascii_lowercase scheme).
  assert (scheme_ok rest sc → sc ∈ URL_SCHEME_ALLOWLIST) as Hin.
  { intros []; unfold URL_SCHEME_ALLOWLIST; set_solver. }
  destruct (existsb _ _) eqn:E; cbn [negb].
  - clear Hin E. cbn zeta. clearbody sc. unfold starts_with, contains.
    repeat (case_bool_decide; simplify_eq; cbn [orb andb]);
      split; try done; try (by constructor; zsolve);
      inversion 1; simplify_eq; try done; zbool; done.
  - split; [done|]. intros H. apply Hin, allowlist_match in H. congruence.
Qed.

(** (C40) [is_allowed_url] accepts a string exactly when its trimmed form is
    between 1 and 4096 bytes, holds no control, white-space or quote
    character, and reads [scheme:rest] where, ignoring case, the scheme is
    [http] or [https] with [rest] starting with [//] and at least one more
    byte, or [mailto] with an [@] in [rest]. *)
Theorem is_allowed_url_spec url : is_allowed_url url = true ↔ url_ok (trim url).
Proof.
  unfold is_allowed_url, url_ok. set (u := trim url).
  assert (bool_decide (u = []) || (4096 <? zlen u) = false ↔ 0 < zlen u ≤ 4096) as Hlen.
  { rewrite orb_false_iff, bool_decide_eq_false, Z.ltb_ge, zlen_nil_iff.
    pose proof (zlen_nonneg u). lia. }
  destruct (bool_decide (u = []) || _) eqn:E0; [intuition congruence|].
  pose proof (proj1 Hlen eq_refl) as Hl. destruct (existsb bad_url_char (chars u)) eqn:E1.
  { split; [done|]. intros (_ & Hb & _).
    rewrite (proj2 (existsb_false_iff _ _) Hb) in E1. done. }
  pose proof (proj1 (existsb_false_iff _ _) E1) as Hbad.
  destruct (split_once ":"%byte u) as [[scheme rest]|] eqn:E2.
  - apply split_once_Some in E2 as [Eu Hns]. rewrite scheme_check_spec. split.
    + intros Hs. split; [done|]. split; [done|]. eauto.
    + intros (_ & _ & scheme' & rest' & Eu' & Hns' & Hs).
      assert (split_once ":"%byte u = Some (scheme, rest)) as E3 by (apply split_once_Some; done).
      assert (split_once ":"%byte u = Some (scheme', rest')) as E4 by (apply split_once_Some; done).
      congruence.
  - split; [done|]. intros (_ & _ & scheme & rest & Eu & Hns & _).
    assert (split_once ":"%byte u = Some (scheme, rest)) as E3 by (apply split_once_Some; done).
    congruence.
Qed.

(** ** What the file-name check means *)

Lemma split_no_sep_elem c s w : w ∈ split c s → c ∉ w.
Proof.
  revert w. induction s as [|x s IH]; intros w; simpl.
  - rewrite list_elem_of_singleton. intros ->. apply not_elem_of_nil.
  - case_decide as Hx.
    + rewrite elem_of_cons. intros [->|Hw]; [apply not_elem_of_nil|auto].
    + destruct (split c s) as [|v vs] eqn:E; [by apply split_not_nil in E|].
      rewrite elem_of_cons. intros [->|Hw]; [|apply IH; by right].
      apply not_elem_of_cons. split; [done|]. apply IH. left.
Qed.

Lemma components_normal_split p s :
  Normal s ∈ components p → s ∈ split slash p ∧ s ≠ [] ∧ s ≠ lit "." ∧ s ≠ lit "..".
Proof.
  assert (∀ w, Normal s ∈ piece w → s = w ∧ s ≠ [] ∧ s ≠ lit "." ∧ s ≠ lit "..") as Hp.
  { intros w. unfold piece. repeat case_decide; set_solver. }
  assert (∀ ws, Normal s ∈ concat (map piece ws) →
            s ∈ ws ∧ s ≠ [] ∧ s ≠ lit "." ∧ s ≠ lit "..") as Hps.
  { induction ws as [|w ws IH]; simpl; [set_solver|].
    rewrite elem_of_app. intros [H|H]; [apply Hp in H|apply IH in H]; set_solver. }
  unfold components. destruct (split slash p) as [|w ws]; [set_solver|].
  repeat case_decide; [destruct ws as [|v vs]| |]; rewrite ?elem_of_cons, ?elem_of_app.
  - set_solver.
  - intros [?|Hs]; [done|]. apply Hps in Hs. set_solver.
  - intros [?|Hs]; [done|]. apply Hps in Hs. set_solver.
  - intros [Hs|Hs]; [apply Hp in Hs|apply Hps in Hs]; set_solver.
Qed.

(** A name that can be joined below a directory and stay there. *)
Definition plain_name (s : str) : Prop :=
  s ≠ [] ∧ s ≠ lit "." ∧ s ≠ lit ".." ∧ slash ∉ s.

Lemma safe_blob_name_plain name s :
  safe_blob_name name = Some s → plain_name s ∧ backslash ∉ s.
Proof.
  unfold safe_blob_name. intros H.
  destruct (bool_decide (trim name = []) || _ || _); [done|].
  destruct (components (trim name)) as [|[| | |s'] [|? ?]] eqn:E; try done.
  destruct (bool_decide (s' = lit "..") || _ || _) eqn:Eb; [done|]. simplify_eq.
  rewrite !orb_false_iff in Eb. destruct Eb as [[_ _] Hb].
  destruct (components_normal_split (trim name) s) as (Hs & ? & ? & ?);
    [rewrite E; left|].
  unfold contains in Hb. apply bool_decide_eq_false in Hb.
  split; [|done]. split_and!; try done. by eapply split_no_sep_elem.
Qed.
#[export] Hint Resolve safe_blob_name_plain : qd.

(** A blob name the receiver accepts is one plain path component: no
    separator of either platform, not empty, [.] or [..]; so whatever the
    peer sent, the file it names is a direct child of the directory it is
    joined to. *)
Theorem safe_blob_name_confined name s dir :
  safe_blob_name name = Some s → dir ≠ [] →
  slash ∉ s ∧ backslash ∉ s ∧
  components (path_join dir s) = components dir ++ [Normal s].
Proof.
  intros H Hd. apply safe_blob_name_plain in H as [(?&?&?&?) ?].
  split_and!; try done. by apply components_join.
Qed.

Lemma safe_blob_name_confined_witness :
  safe_blob_name (lit "  a b.txt ") = Some (lit "a b.txt") ∧
  components (path_join (lit "/home/u/Downloads/qdrop") (lit "a b.txt"))
  = components (lit "/home/u/Downloads/qdrop") ++ [Normal (lit "a b.txt")].
Proof.
  split; [vm_compute; reflexivity|].
  apply (safe_blob_name_confined (lit "  a b.txt ")); [vm_compute; reflexivity|done].
Defined.

(** The cases of the source's own test. *)
Example blob_name_sanitisation :
  map safe_blob_name [lit "report.pdf"; lit "../../etc/passwd"; lit "/etc/passwd"; lit "a/b.txt";
    lit ".."; lit "."; []; lit "foo/../bar"; lit "..\windows"]
  = [Some (lit "report.pdf"); None; None; None; None; None; None; None; None].
Proof. vm_compute. reflexivity. Qed.

Example url_allowlist :
  map is_allowed_url
    [lit "https://example.com"; lit "http://192.168.1.5:8080/path?q=1"; lit "HTTPS://EXAMPLE.COM";
     lit "mailto:a@b.com"; lit "javascript:alert(1)"; lit "file:///etc/passwd"; lit "http:/nohost";
     lit "https://exa mple.com"; lit "ftp://example.com"; []; lit "not a url"]
  = [true; true; true; true; false; false; false; false; false; false; false].
Proof. vm_compute. reflexivity. Qed.
