(* ===== verification/Frame.v ===== *)
(** * Frame: length-prefixed framing ([crates/qdrop-core/src/frame.rs])

    A frame is a 4-byte big-endian length and that many bytes of body.  The
    body is produced and parsed by [rmp-serde], which is not part of the
    repository: it is the interface [Serde], whose law is the crate's round
    trip.  A stream is what the reader can still get before the end or an I/O
    error; a writer accumulates bytes until it fails.  The theorems: a frame
    reads back and leaves the rest of the stream alone, sequences of frames
    stay aligned, and every other input gives the error the source names. *)
From S2P Require Import Prelude Text Proto.

Definition MAX_FRAME_LEN : Z := 16 * 1024 * 1024.

(** ** I/O *)

(** The [std::io::ErrorKind]s the source distinguishes. *)
Inductive ErrorKind :=
| UnexpectedEof | ConnectionReset | ConnectionAborted | BrokenPipe
| InvalidData | TimedOut | NotFound | OtherKind.

#[export] Instance ErrorKind_eq_dec : EqDecision ErrorKind.
Proof. solve_decision. Defined.

(** What a reader will deliver: some bytes, then end of file or an error. *)
Record Reader := mkReader { avail : bytes; fault : option ErrorKind }.

(** [AsyncReadExt::read_exact] into a buffer of [n] bytes. *)
Definition read_exact (n : nat) (r : Reader) : result ErrorKind bytes * Reader :=
  if (n <=? length (avail r))%nat
  then (Ok (take n (avail r)), mkReader (drop n (avail r)) (fault r))
  else (Err (default UnexpectedEof (fault r)), mkReader [] (fault r)).

(** A writer: the bytes accepted so far, and the error it fails with, if any. *)
Record Writer := mkWriter { written : bytes; wfault : option ErrorKind }.

(** [AsyncWriteExt::write_all] (and [flush], which only reports the error). *)
Definition write_all (bs : bytes) (w : Writer) : result ErrorKind unit * Writer :=
  match wfault w with
  | Some k => (Err k, w)
  | None => (Ok tt, mkWriter (written w ++ bs) None)
  end.

(** ** Serialisation interface: [toml], [serde_json] and [rmp-serde] *)

(** Each serialised type of the source has one format; [serialize] may fail. *)
Class Serde (A : Type) := {
  serialize : A → option bytes;
  deserialize : bytes → option A;
}.
Class SerdeLaws (A : Type) `{Serde A} := {
  deserialize_serialize a b : serialize a = Some b → deserialize b = Some a;
}.

(** The text formats print a [String], which is valid UTF-8. *)
Class TextLaws (A : Type) `{Serde A} := {
  serialize_valid a b : serialize a = Some b → valid_str b;
}.

(** ** Frames *)

Inductive FrameError :=
| Closed
| TooLarge (n : Z)
| Decode
| Io (k : ErrorKind).

Definition is_disconnect (e : FrameError) : bool :=
  match e with
  | Closed => true
  | Io k => match k with
            | UnexpectedEof | ConnectionReset | ConnectionAborted | BrokenPipe => true
            | _ => false
            end
  | _ => false
  end.

Section frame.
Context {A : Type} `{Serde A}.

Definition write_message (w : Writer) (msg : A) : result ErrorKind unit * Writer :=
  match serialize msg with
  | None => (Err InvalidData, w)
  | Some body =>
      if zlen body <=? u32_max then
        match write_all (to_be_bytes 4 (zlen body)) w with
        | (Err k, w1) => (Err k, w1)
        | (Ok _, w1) =>
            match write_all body w1 with
            | (Err k, w2) => (Err k, w2)
            | (Ok _, w2) => write_all [] w2
            end
        end
      else (Err InvalidData, w)
  end.

Definition read_message (r : Reader) : result FrameError A * Reader :=
  match read_exact 4 r with
  | (Err k, r1) => (Err (if decide (k = UnexpectedEof) then Closed else Io k), r1)
  | (Ok len_buf, r1) =>
      let len := from_be_bytes len_buf in
      if MAX_FRAME_LEN <? len then (Err (TooLarge len), r1)
      else match read_exact (Z.to_nat len) r1 with
           | (Err k, r2) => (Err (Io k), r2)
           | (Ok body, r2) =>
               match deserialize body with
               | None => (Err Decode, r2)
               | Some m => (Ok m, r2)
               end
           end
  end.

(** Writing and reading a sequence of messages. *)
Fixpoint write_messages (w : Writer) (msgs : list A) : result ErrorKind unit * Writer :=
  match msgs with
  | [] => (Ok tt, w)
  | m :: ms => match write_message w m with
               | (Ok _, w') => write_messages w' ms
               | (Err k, w') => (Err k, w')
               end
  end.
Fixpoint read_messages (n : nat) (r : Reader) : result FrameError (list A) * Reader :=
  match n with
  | O => (Ok [], r)
  | S n' => match read_message r with
            | (Err e, r') => (Err e, r')
            | (Ok m, r') => match read_messages n' r' with
                            | (Err e, r'') => (Err e, r'')
                            | (Ok ms, r'') => (Ok (m :: ms), r'')
                            end
            end
  end.

(** ** Lemmas *)

Lemma read_exact_app n a b f :
  length a = n → read_exact n (mkReader (a ++ b) f) = (Ok a, mkReader b f).
Proof.
  intros <-. unfold read_exact. cbn [avail fault].
  rewrite (proj2 (Nat.leb_le _ _)) by (rewrite length_app; lia).
  by rewrite take_app_length, drop_app_length.
Qed.

Lemma read_exact_short n r :
  (length (avail r) < n)%nat →
  read_exact n r = (Err (default UnexpectedEof (fault r)), mkReader [] (fault r)).
Proof. intros Hn. unfold read_exact. by rewrite (proj2 (Nat.leb_gt _ _)). Qed.

Lemma split_at {B} n (l : list B) :
  (n ≤ length l)%nat → ∃ a b, length a = n ∧ l = a ++ b.
Proof.
  intros Hn. exists (take n l), (drop n l). rewrite length_take, take_drop. split; [lia|done].
Qed.

(** The four length bytes carry any length that fits [u32]. *)
Lemma length_prefix_roundtrip n :
  0 ≤ n ≤ u32_max → from_be_bytes (to_be_bytes 4 n) = n.
Proof. intros Hn. rewrite from_to_be_bytes. apply Z.mod_small. unfold u32_max in Hn. lia. Qed.

(** What [write_message] puts on the wire. *)
Definition frame_of (body : bytes) : bytes := to_be_bytes 4 (zlen body) ++ body.

Lemma write_message_ok w m w' :
  write_message w m = (Ok tt, w') →
  ∃ body, serialize m = Some body ∧ zlen body ≤ u32_max ∧ wfault w = None ∧
          w' = mkWriter (written w ++ frame_of body) None.
Proof.
  unfold write_message, write_all. destruct (serialize m) as [body|]; [|done].
  destruct (zlen body <=? u32_max) eqn:E; [|done]. zsolve.
  destruct (wfault w) eqn:Ef; [done|]. cbn. intros [= <-].
  exists body. split_and!; try done. by rewrite app_nil_r, <- app_assoc.
Qed.

Lemma read_frame_of body rest f :
  zlen body ≤ MAX_FRAME_LEN →
  read_message (mkReader (frame_of body ++ rest) f) =
  (match deserialize body with Some m => Ok m | None => Err Decode end, mkReader rest f).
Proof.
  intros Hlen. unfold read_message, frame_of. pose proof (zlen_nonneg body).
  unfold MAX_FRAME_LEN in Hlen.
  rewrite <- app_assoc, read_exact_app by apply length_to_be_bytes.
  rewrite length_prefix_roundtrip by (unfold u32_max; lia).
  rewrite (proj2 (Z.ltb_ge _ _)) by (unfold MAX_FRAME_LEN; lia).
  rewrite read_exact_app by (unfold zlen; lia). by destruct (deserialize body).
Qed.

Context `{!SerdeLaws A}.

(** Framing round trip: a message that [write_message] accepts and whose
    body is within the 16 MiB limit is read back by [read_message], whatever
    follows it on the stream, and exactly what follows it is left. *)
Theorem frame_roundtrip w w' m body rest f :
  write_message w m = (Ok tt, w') → serialize m = Some body →
  zlen body ≤ MAX_FRAME_LEN →
  ∃ fr, written w' = written w ++ fr ∧
        read_message (mkReader (fr ++ rest) f) = (Ok m, mkReader rest f).
Proof.
  intros Hw Eb Hlen. apply write_message_ok in Hw as (body' & E & _ & _ & ->).
  rewrite Eb in E. injection E as <-.
  exists (frame_of body). split; [done|].
  by rewrite read_frame_of, (deserialize_serialize m body).
Qed.

(** Frames stay aligned: any number of messages written one after the
    other are read back in order, and what follows the last one is left. *)
Theorem frames_stay_aligned ms w w' rest f :
  write_messages w ms = (Ok tt, w') →
  Forall (λ m, ∀ body, serialize m = Some body → zlen body ≤ MAX_FRAME_LEN) ms →
  ∃ wire, written w' = written w ++ wire ∧
          read_messages (length ms) (mkReader (wire ++ rest) f) = (Ok ms, mkReader rest f).
Proof.
  revert w. induction ms as [|m ms IH]; intros w Hw Hs.
  - simplify_eq/=. exists []. by rewrite app_nil_r.
  - apply list.Forall_cons in Hs as [Hm Hs]. cbn [write_messages length read_messages] in *.
    destruct (write_message w m) as [[[]|k] w1] eqn:E; [|done].
    apply write_message_ok in E as (body & Eb & _ & _ & ->).
    apply IH in Hw as (wire & Ew & Er); [|done].
    exists (frame_of body ++ wire). split.
    { rewrite Ew. cbn [written]. by rewrite <- app_assoc. }
    rewrite <- app_assoc, read_frame_of by auto.
    by rewrite (deserialize_serialize m body), Er.
Qed.

(** Every other outcome of [read_message]: fewer than four bytes before a
    clean end is [Closed] (and the underlying error otherwise); a length over
    the limit is [TooLarge] and only the four length bytes are consumed, so
    nothing of the announced size is allocated; a truncated body is an I/O
    error; a body the codec refuses is [Decode] and the stream is left at the
    next frame. *)
Theorem read_message_errors r :
  match read_message r with
  | (Err Closed, r') => (length (avail r) < 4)%nat ∧ default UnexpectedEof (fault r) = UnexpectedEof
                        ∧ avail r' = []
  | (Err (TooLarge n), r') => n = from_be_bytes (take 4 (avail r)) ∧ MAX_FRAME_LEN < n
                              ∧ avail r' = drop 4 (avail r)
  | (Err (Io k), r') => k = default UnexpectedEof (fault r) ∧ avail r' = []
  | (Err Decode, r') => ∃ body, avail r = to_be_bytes 4 (zlen body) ++ body ++ avail r' ∧
                          zlen body ≤ MAX_FRAME_LEN ∧ deserialize body = None
  | (Ok m, r') => ∃ body, avail r = to_be_bytes 4 (zlen body) ++ body ++ avail r' ∧
                          zlen body ≤ MAX_FRAME_LEN ∧ deserialize body = Some m
  end.
Proof.
  unfold read_message.
  destruct (decide (length (avail r) < 4)%nat) as [Hs|Hs].
  { rewrite read_exact_short by done. case_decide as Hk; [by split_and!|].
    split; [done|done]. }
  destruct r as [av f]. cbn [avail fault] in *.
  destruct (split_at 4 av) as (pre & post & Hpre & ->); [lia|].
  rewrite read_exact_app, take_app_length', drop_app_length' by done. cbn [avail].
  destruct (MAX_FRAME_LEN <? from_be_bytes pre) eqn:E; zsolve; [by split_and!|].
  pose proof (from_be_bytes_range pre) as Hrng.
  destruct (decide (length post < Z.to_nat (from_be_bytes pre))%nat) as [Hb|Hb].
  { rewrite read_exact_short by done. by split. }
  destruct (split_at (Z.to_nat (from_be_bytes pre)) post) as (body & post' & Hbody & ->); [lia|].
  rewrite read_exact_app by done. cbn [avail].
  assert (zlen body = from_be_bytes pre) as Hz by (unfold zlen; lia).
  assert (pre = to_be_bytes 4 (zlen body)) as Epre
    by (rewrite Hz, <- Hpre; symmetry; apply to_from_be_bytes).
  destruct (deserialize body) eqn:Ef; exists body; (split_and!; [by rewrite Epre at 1|lia|done]).
Qed.

End frame.
