(* ===== verification/Store.v ===== *)
(** * Store: files, serialisation, and [crates/qdrop-core/src/paths.rs], [device.rs]

    A small POSIX-like file store: names map to inodes, so a rename moves a
    name and two names (or two open handles) may share an inode.  A path is
    the list of its components.  On top of it: [write_atomic] as the sequence
    of operations it performs, the locations chosen from the environment, and
    the device id file.  The main theorem: whatever operation [write_atomic]
    is interrupted at, the target holds either its old or its new content. *)
From S2P Require Import Prelude Text Frame.

(** ** The file store *)

Abbreviation path := (list component) (only parsing).

Record inode := mkInode { content : bytes; mode : Z }.

Record fs := mkFs {
  names : gmap (list component) nat;
  inodes : gmap nat inode;
  next_ino : nat;
}.

(** Permission bits 0644 and 0600. *)
Definition mode_default : Z := 420.
Definition mode_private : Z := 384.

(** Every name is bound to an allocated inode, every inode is below the
    allocation counter, and no inode has two names (no hard links). *)
Record fs_wf (s : fs) : Prop := {
  fs_wf_bound p i : names s !! p = Some i → is_Some (inodes s !! i);
  fs_wf_next i : is_Some (inodes s !! i) → (i < next_ino s)%nat;
  fs_wf_inj p q i : names s !! p = Some i → names s !! q = Some i → p = q;
}.

Definition fs_stat (s : fs) (p : path) : option inode := names s !! p ≫= λ i, inodes s !! i.
Definition fs_exists (s : fs) (p : path) : bool := bool_decide (is_Some (names s !! p)).

(** [fs::read]. *)
Definition fs_read (s : fs) (p : path) : result ErrorKind bytes :=
  match fs_stat s p with Some n => Ok (content n) | None => Err NotFound end.

(** [fs::read_to_string]: the contents must be UTF-8. *)
Definition read_to_string (s : fs) (p : path) : result ErrorKind str :=
  match fs_read s p with
  | Ok t => if decide (valid_str t) then Ok t else Err InvalidData
  | Err k => Err k
  end.

(** [File::create]: truncates the inode behind an existing name, else makes a
    new one (mode 0644, the usual umask).  Returns the inode opened. *)
Definition fs_create (s : fs) (p : path) : nat * fs :=
  match names s !! p with
  | Some i =>
      (i, mkFs (names s)
            (alter (λ n, mkInode [] (mode n)) i (inodes s)) (next_ino s))
  | None =>
      (next_ino s, mkFs (<[p := next_ino s]> (names s))
                     (<[next_ino s := mkInode [] mode_default]> (inodes s)) (S (next_ino s)))
  end.

(** A write through a handle at offset [off] overwrites and extends; the gap
    past the end, if any, is zero-filled. *)
Definition overwrite (off : nat) (d old : bytes) : bytes :=
  take off (old ++ replicate (off - length old) Byte.x00) ++ d ++ drop (off + length d) old.
Definition fs_write_at (s : fs) (i : nat) (off : nat) (d : bytes) : fs :=
  mkFs (names s) (alter (λ n, mkInode (overwrite off d (content n)) (mode n)) i (inodes s))
    (next_ino s).

Definition fs_chmod (s : fs) (i : nat) (m : Z) : fs :=
  mkFs (names s) (alter (λ n, mkInode (content n) m) i (inodes s)) (next_ino s).

(** [fs::rename]: the new name takes the inode over; the old name is gone. *)
Definition fs_rename (s : fs) (p q : path) : result ErrorKind fs :=
  match names s !! p with
  | None => Err NotFound
  | Some i => Ok (mkFs (<[q := i]> (delete p (names s))) (inodes s) (next_ino s))
  end.

(** [fs::remove_file] (its error is ignored by every caller). *)
Definition fs_remove (s : fs) (p : path) : fs :=
  mkFs (delete p (names s)) (inodes s) (next_ino s).

(** [fs::write]: create and write the whole contents. *)
Definition fs_write (s : fs) (p : path) (d : bytes) : fs :=
  let '(i, s1) := fs_create s p in fs_write_at s1 i 0 d.

(** ** [write_atomic] *)

(** [Path::parent] and [Path::file_name]. *)
Definition parent (p : path) : option path :=
  match rev p with
  | Normal _ :: rp | CurDir :: rp | ParentDir :: rp => Some (rev rp)
  | _ => None
  end.
Definition file_name (p : path) : option str :=
  match rev p with Normal s :: _ => Some s | _ => None end.

(** The operations of the source, on the handle of [tmp] and on names. *)
Inductive fsop :=
| OpMkdirs (dir : path)
| OpCreate (p : path)
| OpChmod (p : path) (m : Z)
| OpWrite (p : path) (off : nat) (d : bytes)
| OpSync (p : path)
| OpRename (p q : path).

(** An operation on the handle opened for [p] works on [p]'s inode. *)
Definition exec (s : fs) (o : fsop) : fs :=
  match o with
  | OpMkdirs _ | OpSync _ => s
  | OpCreate p => (fs_create s p).2
  | OpChmod p m => match names s !! p with Some i => fs_chmod s i m | None => s end
  | OpWrite p off d => match names s !! p with Some i => fs_write_at s i off d | None => s end
  | OpRename p q => match fs_rename s p q with Ok s' => s' | Err _ => s end
  end.

(** [format!(".{}.tmp-{}", file_name, pid)] below the parent. *)
Definition tmp_name (p : path) (pid : Z) : str :=
  lit "." ++ default (lit "qdrop") (file_name p) ++ lit ".tmp-" ++ dec pid.

(** [write_all] may hand the contents to the kernel in several writes; [cs]
    are the pieces. *)
Fixpoint write_pieces (p : path) (off : nat) (cs : list bytes) : list fsop :=
  match cs with
  | [] => []
  | c :: cs' => OpWrite p off c :: write_pieces p (off + length c) cs'
  end.

(** The operations [write_atomic] performs, in order, when none fails; a
    failure stops it after a prefix of them.  [None]: no parent directory. *)
Definition write_atomic_ops (pid : Z) (p : path) (cs : list bytes) : option (list fsop) :=
  match parent p with
  | None => None
  | Some dir =>
      let tmp := dir ++ [Normal (tmp_name p pid)] in
      Some ([OpMkdirs dir; OpCreate tmp; OpChmod tmp mode_private]
            ++ write_pieces tmp 0 cs ++ [OpSync tmp; OpRename tmp p])
  end.

(** The whole call with every operation succeeding. *)
Definition write_atomic (pid : Z) (s : fs) (p : path) (contents : bytes) : result ErrorKind fs :=
  match write_atomic_ops pid p [contents] with
  | None => Err OtherKind
  | Some ops => Ok (foldl exec s ops)
  end.

(** ** Locations ([config_dir], [downloads_dir] and the files below) *)

(** [std::env::var_os] as a lookup. *)
Definition env : Type := str → option str.

Definition nonempty (o : option str) : option str :=
  match o with Some [] => None | _ => o end.

Definition config_dir (e : env) : option str :=
  match e (lit "QDROP_CONFIG_DIR") with
  | Some dir => Some dir
  | None =>
      match nonempty (e (lit "XDG_CONFIG_HOME")) with
      | Some xdg => Some (path_join xdg (lit "qdrop"))
      | None =>
          match nonempty (e (lit "HOME")) with
          | Some home => Some (path_join (path_join home (lit ".config")) (lit "qdrop"))
          | None => None
          end
      end
  end.

Definition config_file (e : env) : option str := (λ d, path_join d (lit "config.toml")) <$> config_dir e.
Definition peers_file (e : env) : option str := (λ d, path_join d (lit "peers.toml")) <$> config_dir e.
Definition identity_file (e : env) : option str := (λ d, path_join d (lit "identity.pem")) <$> config_dir e.
Definition state_file (e : env) : option str := (λ d, path_join d (lit "state.json")) <$> config_dir e.

Definition downloads_dir (e : env) : option str :=
  match e (lit "QDROP_DOWNLOAD_DIR") with
  | Some dir => Some dir
  | None =>
      match nonempty (e (lit "HOME")) with
      | Some home => Some (path_join (path_join home (lit "Downloads")) (lit "qdrop"))
      | None => None
      end
  end.

(** [control::socket_path]. *)
Definition socket_path (e : env) : option str :=
  match nonempty (e (lit "QDROP_CONTROL_SOCK")) with
  | Some p => Some p
  | None =>
      match nonempty (e (lit "XDG_RUNTIME_DIR")) with
      | Some dir => Some (path_join dir (lit "qdropd.sock"))
      | None => (λ d, path_join d (lit "qdropd.sock")) <$> config_dir e
      end
  end.

(** ** [device.rs] *)

Definition is_valid_device_id (id : str) : bool :=
  (length id =? 32)%nat && forallb is_ascii_hexdigit id.

(** [generate], from the sixteen random bytes drawn. *)
Definition generate (rnd : bytes) : str := concat (map hex02 rnd).

Inductive DeviceError := Corrupt | DeviceIo (k : ErrorKind).

Definition device_id_file (e : env) : option str := (λ d, path_join d (lit "device_id")) <$> config_dir e.

(** [load_or_create_at]: an existing file must hold a valid id; a missing one
    is created with a fresh id and a newline. *)
Definition load_or_create_at (s : fs) (p : path) (rnd : bytes) : result DeviceError str * fs :=
  match read_to_string s p with
  | Ok text =>
      let id := trim text in
      if is_valid_device_id id then (Ok id, s) else (Err Corrupt, s)
  | Err NotFound =>
      let id := generate rnd in (Ok id, fs_write s p (id ++ lit "
"))
  | Err k => (Err (DeviceIo k), s)
  end.

(** ** Lemmas: the file store *)

Lemma fs_create_wf s p : fs_wf s → fs_wf (fs_create s p).2.
Proof.
  intros [Hb Hn Hi]. unfold fs_create. destruct (names s !! p) as [i|] eqn:E; cbn.
  - split; cbn.
    + intros q j Hq. rewrite lookup_alter_is_Some. eauto.
    + intros j Hj. rewrite lookup_alter_is_Some in Hj. eauto.
    + eauto.
  - assert (∀ q j, names s !! q = Some j → j ≠ next_ino s) as Hlt
      by (intros q j Hq ->; apply Hb, Hn in Hq; lia).
    split; cbn.
    + intros q j [[-> ->]|[Hne Hq]]%lookup_insert_Some; [by rewrite lookup_insert_eq; eauto|].
      rewrite lookup_insert_ne by (symmetry; eauto). eauto.
    + intros j [[]|]%lookup_insert_is_Some; subst; [lia|]. destruct H as [_ H%Hn]. lia.
    + intros q r j [[<- <-]|[? Hq]]%lookup_insert_Some [[<- Ej]|[? Hr]]%lookup_insert_Some;
        try done; try (by eauto); exfalso; [by eapply Hlt|by subst; eapply Hlt].
Qed.

Lemma fs_alter_wf s i f : fs_wf s → fs_wf (mkFs (names s) (alter f i (inodes s)) (next_ino s)).
Proof.
  intros [Hb Hn Hi]. split; cbn.
  - intros q j Hq. rewrite lookup_alter_is_Some. eauto.
  - intros j Hj. rewrite lookup_alter_is_Some in Hj. eauto.
  - eauto.
Qed.

Lemma fs_remove_wf s p : fs_wf s → fs_wf (fs_remove s p).
Proof.
  intros [Hb Hn Hi]. split; cbn; [|done|].
  - intros q j [_ Hq]%lookup_delete_Some. eauto.
  - intros q r j [_ Hq]%lookup_delete_Some [_ Hr]%lookup_delete_Some. eauto.
Qed.

Lemma fs_rename_wf s p q s' : fs_wf s → fs_rename s p q = Ok s' → fs_wf s'.
Proof.
  intros [Hb Hn Hi] H. unfold fs_rename in H. destruct (names s !! p) as [i|] eqn:E; [|done].
  injection H as <-. split; cbn; [|done|].
  - intros r j [[<- <-]|[_ [_ Hr]%lookup_delete_Some]]%lookup_insert_Some; eauto.
  - intros r t j [[<- <-]|[Hr [Hr1 Hr2]%lookup_delete_Some]]%lookup_insert_Some
      [[<- Ej]|[Ht [Ht1 Ht2]%lookup_delete_Some]]%lookup_insert_Some; eauto; exfalso.
    + apply Ht1. eauto.
    + subst. apply Hr1. eauto.
Qed.

Lemma exec_wf s o : fs_wf s → fs_wf (exec s o).
Proof.
  intros Hs. destruct o; cbn [exec]; try done.
  - by apply fs_create_wf.
  - case_match; [by apply fs_alter_wf|done].
  - case_match; [by apply fs_alter_wf|done].
  - case_match eqn:E; [by eapply fs_rename_wf|done].
Qed.

Lemma exec_all_wf s ops : fs_wf s → fs_wf (foldl exec s ops).
Proof. revert s. induction ops as [|o ops IH]; [done|]. intros s Hs. by apply IH, exec_wf. Qed.

(** Changing the inode of [p] changes what [p] names and nothing else. *)
Lemma fs_stat_alter s p i f q :
  fs_wf s → names s !! p = Some i →
  fs_stat (mkFs (names s) (alter f i (inodes s)) (next_ino s)) q =
  if decide (q = p) then f <$> fs_stat s p else fs_stat s q.
Proof.
  intros Hs Hp. unfold fs_stat; cbn. case_decide as Hq; [subst|].
  - rewrite Hp. cbn. by rewrite lookup_alter_eq.
  - destruct (names s !! q) as [j|] eqn:Ej; [|done]. cbn.
    apply lookup_alter_ne. intros ->. apply Hq. by eapply fs_wf_inj.
Qed.

Lemma fs_stat_create s p q :
  fs_wf s →
  fs_stat (fs_create s p).2 q =
  if decide (q = p) then Some (mkInode [] (from_option mode mode_default (fs_stat s p)))
  else fs_stat s q.
Proof.
  intros Hs. unfold fs_create. destruct (names s !! p) as [i|] eqn:E; cbn [snd].
  - rewrite (fs_stat_alter s p) by done. case_decide; [|done].
    destruct (fs_wf_bound _ Hs _ _ E) as [n Hn]. unfold fs_stat. rewrite E. cbn. by rewrite Hn.
  - unfold fs_stat; cbn. case_decide as Hq; [subst|].
    + rewrite lookup_insert_eq. cbn. by rewrite lookup_insert_eq, E.
    + rewrite lookup_insert_ne by done. destruct (names s !! q) as [j|] eqn:Ej; [|done]. cbn.
      apply lookup_insert_ne. intros <-. apply (fs_wf_bound _ Hs), (fs_wf_next _ Hs) in Ej. lia.
Qed.

Lemma fs_stat_rename s p q s' r :
  fs_rename s p q = Ok s' →
  fs_stat s' r = if decide (r = q) then fs_stat s p
                 else if decide (r = p) then None else fs_stat s r.
Proof.
  unfold fs_rename, fs_stat. destruct (names s !! p) as [i|] eqn:E; [|done]. intros [= <-]. cbn.
  destruct (decide (r = q)) as [->|Hq]; [by rewrite lookup_insert_eq|].
  rewrite lookup_insert_ne by done. case_decide as Hp; [subst; by rewrite lookup_delete_eq|].
  by rewrite lookup_delete_ne.
Qed.

Lemma fs_stat_remove s p r :
  fs_stat (fs_remove s p) r = if decide (r = p) then None else fs_stat s r.
Proof.
  unfold fs_stat; cbn. case_decide as Hr; [subst; by rewrite lookup_delete_eq|].
  by rewrite lookup_delete_ne.
Qed.

Lemma fs_exists_stat s p : fs_wf s → fs_exists s p = bool_decide (is_Some (fs_stat s p)).
Proof.
  intros Hs. unfold fs_exists, fs_stat. apply bool_decide_ext.
  destruct (names s !! p) as [i|] eqn:E; cbn; [|done]. split; [|done]. intros _.
  by eapply fs_wf_bound.
Qed.

Lemma overwrite_end old d : overwrite (length old) d old = old ++ d.
Proof.
  unfold overwrite. rewrite Nat.sub_diag. cbn. rewrite app_nil_r, take_ge by lia.
  rewrite drop_ge by lia. by rewrite app_nil_r.
Qed.

(** The handle [fs_create] returns is open on an empty file of that name, and
    no other name is affected. *)
Lemma fs_create_handle s p i s' :
  fs_wf s → fs_create s p = (i, s') →
  names s' !! p = Some i ∧ content <$> inodes s' !! i = Some [].
Proof.
  intros Hs E. unfold fs_create in E. destruct (names s !! p) as [j|] eqn:Ej; injection E as <- <-; cbn.
  - split; [done|]. rewrite lookup_alter_eq. by destruct (fs_wf_bound _ Hs _ _ Ej) as [n ->].
  - by rewrite !lookup_insert_eq.
Qed.

Lemma fs_create_other s p i s' q j :
  fs_wf s → fs_create s p = (i, s') → names s !! q = Some j → q ≠ p →
  names s' !! q = Some j ∧ inodes s' !! j = inodes s !! j.
Proof.
  intros Hs E Hq Hne. unfold fs_create in E. destruct (names s !! p) as [k|] eqn:Ek; injection E as <- <-; cbn.
  - split; [done|]. apply lookup_alter_ne. intros ->. by apply Hne, (fs_wf_inj _ Hs q p j).
  - rewrite lookup_insert_ne by done. split; [done|]. apply lookup_insert_ne. intros <-.
    apply (fs_wf_bound _ Hs), (fs_wf_next _ Hs) in Hq. lia.
Qed.

(** Operations that touch the temporary file only. *)
Definition op_on (p : path) (o : fsop) : bool :=
  match o with
  | OpMkdirs _ => true
  | OpCreate q | OpChmod q _ | OpWrite q _ _ | OpSync q => bool_decide (q = p)
  | OpRename _ _ => false
  end.

Lemma exec_on_other p s o q : fs_wf s → op_on p o = true → q ≠ p → fs_stat (exec s o) q = fs_stat s q.
Proof.
  intros Hs Ho Hq. destruct o; cbn [exec op_on] in *; try done; apply bool_decide_eq_true in Ho; subst.
  - rewrite fs_stat_create by done. by rewrite decide_False.
  - case_match; [|done]. unfold fs_chmod. rewrite (fs_stat_alter s p) by done. by rewrite decide_False.
  - case_match; [|done]. unfold fs_write_at. rewrite (fs_stat_alter s p) by done. by rewrite decide_False.
Qed.

Lemma exec_all_on_other p s ops q :
  fs_wf s → forallb (op_on p) ops = true → q ≠ p → fs_stat (foldl exec s ops) q = fs_stat s q.
Proof.
  revert s. induction ops as [|o ops IH]; [done|]. cbn [forallb foldl].
  intros s Hs [Ho Hops]%andb_true_iff Hq.
  rewrite IH by (done || by apply exec_wf). by apply (exec_on_other p).
Qed.

Lemma write_pieces_on p off cs : forallb (op_on p) (write_pieces p off cs) = true.
Proof.
  revert off. induction cs as [|c cs IH]; [done|]. intros off. cbn [write_pieces forallb op_on].
  by rewrite bool_decide_eq_true_2, IH.
Qed.

(** Writing the pieces at the end of the file appends them. *)
Lemma exec_write_pieces p s cs c m :
  fs_wf s → fs_stat s p = Some (mkInode c m) →
  fs_stat (foldl exec s (write_pieces p (length c) cs)) p = Some (mkInode (c ++ concat cs) m).
Proof.
  revert s c. induction cs as [|d cs IH]; intros s c Hs Hp; cbn [write_pieces foldl concat].
  { by rewrite app_nil_r. }
  rewrite app_assoc, <- length_app. apply IH; [by apply exec_wf|]. cbn [exec].
  unfold fs_stat in Hp at 1. destruct (names s !! p) as [i|] eqn:E; [|done].
  unfold fs_write_at. rewrite (fs_stat_alter s p) by done. rewrite decide_True by done.
  unfold fs_stat. rewrite E. cbn in *. rewrite Hp. cbn. by rewrite overwrite_end.
Qed.

(** The temporary name is never the target's. *)
Lemma tmp_name_ne p dir pid : parent p = Some dir → dir ++ [Normal (tmp_name p pid)] ≠ p.
Proof.
  unfold parent, tmp_name, file_name. destruct (rev p) as [|c rp] eqn:E; [done|].
  assert (p = rev rp ++ [c]) as -> by (rewrite <- (rev_involutive p), E; done).
  destruct c as [| | |n]; intros [= <-] H; apply app_inj_tail in H as [_ H]; try done.
  injection H as H. apply (f_equal length) in H. simpl in H.
  rewrite !length_app in H. simpl in H. lia.
Qed.

(** A file created, then made private, then written and synced. *)
Lemma exec_private p s :
  fs_wf s →
  fs_stat (foldl exec s [OpCreate p; OpChmod p mode_private]) p = Some (mkInode [] mode_private).
Proof.
  intros Hs. cbn [foldl exec]. pose proof (fs_create_wf s p Hs) as Hs1.
  pose proof (fs_stat_create s p p Hs) as H. rewrite decide_True in H by done.
  set (s1 := (fs_create s p).2) in *. unfold fs_stat in H at 1.
  destruct (names s1 !! p) as [i|] eqn:E; [|done]. unfold fs_chmod.
  rewrite (fs_stat_alter s1 p) by done. rewrite decide_True by done.
  unfold fs_stat at 1. rewrite E. cbn in *. by rewrite H.
Qed.

(** The operations before the final rename. *)
Definition write_atomic_pre (dir tmp : path) (cs : list bytes) : list fsop :=
  [OpMkdirs dir; OpCreate tmp; OpChmod tmp mode_private] ++ write_pieces tmp 0 cs ++ [OpSync tmp].

Lemma write_atomic_ops_eq pid p cs ops :
  write_atomic_ops pid p cs = Some ops →
  ∃ dir, parent p = Some dir ∧
    ops = write_atomic_pre dir (dir ++ [Normal (tmp_name p pid)]) cs
          ++ [OpRename (dir ++ [Normal (tmp_name p pid)]) p].
Proof.
  unfold write_atomic_ops, write_atomic_pre. destruct (parent p) as [dir|]; [|done].
  intros [= <-]. exists dir. split; [done|]. by rewrite <- !app_assoc.
Qed.

Lemma write_atomic_pre_on dir tmp cs : forallb (op_on tmp) (write_atomic_pre dir tmp cs) = true.
Proof.
  unfold write_atomic_pre. rewrite !forallb_app, write_pieces_on. cbn.
  by rewrite bool_decide_eq_true_2.
Qed.

Lemma write_atomic_pre_stat dir tmp cs s :
  fs_wf s →
  fs_stat (foldl exec s (write_atomic_pre dir tmp cs)) tmp = Some (mkInode (concat cs) mode_private).
Proof.
  intros Hs. unfold write_atomic_pre. rewrite !foldl_app. cbn [foldl exec].
  pose proof (exec_private tmp s Hs) as H. cbn [foldl exec] in H.
  apply (exec_write_pieces tmp _ cs [] mode_private) in H; [done|].
  apply (exec_wf _ (OpChmod tmp mode_private)), (exec_wf _ (OpCreate tmp)), Hs.
Qed.

Lemma forallb_take {A} (f : A → bool) k l : forallb f l = true → forallb f (take k l) = true.
Proof.
  revert k. induction l as [|x l IH]; intros [|k] H; try done.
  cbn in *. apply andb_true_iff in H as [-> H]. by apply IH.
Qed.

(** All the operations done: the target is the new file, the temporary name is
    gone, everything else is as before. *)
Lemma write_atomic_done pid s p cs dir :
  fs_wf s → parent p = Some dir →
  let tmp := dir ++ [Normal (tmp_name p pid)] in
  let s' := foldl exec s (write_atomic_pre dir tmp cs ++ [OpRename tmp p]) in
  fs_stat s' p = Some (mkInode (concat cs) mode_private) ∧ fs_stat s' tmp = None ∧
  (∀ q, q ≠ p → q ≠ tmp → fs_stat s' q = fs_stat s q).
Proof.
  intros Hs Hd tmp s'. subst s'. pose proof (tmp_name_ne p dir pid Hd) as Hne. fold tmp in Hne.
  pose proof (write_atomic_pre_on dir tmp cs) as Hon.
  pose proof (write_atomic_pre_stat dir tmp cs s Hs) as Hst.
  set (pre := write_atomic_pre dir tmp cs) in *. rewrite foldl_app. cbn [foldl exec].
  destruct (fs_rename (foldl exec s pre) tmp p) as [s2|e] eqn:Er.
  2: { unfold fs_rename in Er. unfold fs_stat in Hst. by destruct (names _ !! tmp). }
  rewrite !(fs_stat_rename _ _ _ _ _ Er). rewrite decide_True by done.
  rewrite (decide_False (P := tmp = p)), decide_True by done. split_and!; [done..|].
  intros q Hq1 Hq2. rewrite (fs_stat_rename _ _ _ _ _ Er), !decide_False by done.
  by apply (exec_all_on_other tmp).
Qed.

(** What a caller of [write_atomic] relies on. *)
Lemma write_atomic_ok pid s p d s' :
  fs_wf s → write_atomic pid s p d = Ok s' →
  fs_wf s' ∧ fs_stat s' p = Some (mkInode d mode_private).
Proof.
  intros Hs H. unfold write_atomic in H. destruct (write_atomic_ops pid p [d]) as [ops|] eqn:E; [|done].
  injection H as <-. split; [by apply exec_all_wf|].
  apply write_atomic_ops_eq in E as (dir & Hd & ->).
  destruct (write_atomic_done pid s p [d] dir Hs Hd) as (-> & _). cbn. by rewrite app_nil_r.
Qed.

Lemma write_atomic_read_to_string pid s p d s' :
  fs_wf s → valid_str d → write_atomic pid s p d = Ok s' → read_to_string s' p = Ok d.
Proof.
  intros Hs Hd H. apply write_atomic_ok in H as [_ H]; [|done].
  unfold read_to_string, fs_read. rewrite H. by rewrite decide_True.
Qed.

Lemma write_atomic_other pid s p d s' q :
  fs_wf s → write_atomic pid s p d = Ok s' → q ≠ p → q ≠ default [] (parent p) ++ [Normal (tmp_name p pid)] →
  fs_stat s' q = fs_stat s q.
Proof.
  intros Hs H Hq Ht. unfold write_atomic in H. destruct (write_atomic_ops pid p [d]) as [ops|] eqn:E; [|done].
  injection H as <-. apply write_atomic_ops_eq in E as (dir & Hd & ->). rewrite Hd in Ht.
  destruct (write_atomic_done pid s p [d] dir Hs Hd) as (_ & _ & Ho). by apply Ho.
Qed.

(** (C10) [write_atomic] is atomic: stop it after any number [k] of its
    operations (a crash, a full disk, an error returned early) and the target
    still has exactly its old content and mode, unless all operations were
    done, when it has the whole new content with mode 0600 and the temporary
    name is gone.  No other file is ever touched. *)
Theorem write_atomic_crash_safe pid s p cs ops k :
  fs_wf s → write_atomic_ops pid p cs = Some ops →
  let s' := foldl exec s (take k ops) in
  let tmp := default [] (parent p) ++ [Normal (tmp_name p pid)] in
  fs_stat s' p = (if decide (length ops ≤ k)%nat then Some (mkInode (concat cs) mode_private)
                  else fs_stat s p) ∧
  ((length ops ≤ k)%nat → fs_stat s' tmp = None) ∧
  (∀ q, q ≠ p → q ≠ tmp → fs_stat s' q = fs_stat s q).
Proof.
  intros Hs Hops s' tmp. subst s'. apply write_atomic_ops_eq in Hops as (dir & Hd & ->).
  subst tmp. rewrite Hd. cbn [default]. set (tmp := dir ++ [Normal (tmp_name p pid)]) in *.
  pose proof (tmp_name_ne p dir pid Hd) as Hne. fold tmp in Hne.
  pose proof (write_atomic_pre_on dir tmp cs) as Hon.
  rewrite length_app. cbn [length]. case_decide as Hk.
  - rewrite take_ge by (rewrite length_app; cbn [length]; lia).
    destruct (write_atomic_done pid s p cs dir Hs Hd) as (H1 & H2 & H3). by split_and!.
  - rewrite take_app_le by lia. split_and!; [|intros; lia|].
    + by apply (exec_all_on_other tmp); [|apply forallb_take|].
    + intros q _ Hq. by apply (exec_all_on_other tmp); [|apply forallb_take|].
Qed.

(** Writing and syncing keep the mode. *)
Lemma exec_keeps_mode p s ops :
  fs_wf s →
  forallb (λ o, match o with OpWrite q _ _ | OpSync q => bool_decide (q = p) | _ => false end) ops = true →
  mode <$> fs_stat (foldl exec s ops) p = mode <$> fs_stat s p.
Proof.
  revert s. induction ops as [|o ops IH]; [done|]. cbn [forallb foldl].
  intros s Hs [Ho Hops]%andb_true_iff. rewrite IH by (done || by apply exec_wf).
  destruct o; try done; apply bool_decide_eq_true in Ho; subst; cbn [exec].
  case_match; [|done]. unfold fs_write_at. rewrite (fs_stat_alter s p) by done.
  rewrite decide_True by done. by destruct (fs_stat s p).
Qed.

Lemma write_pieces_keep p off cs :
  forallb (λ o, match o with OpWrite q _ _ | OpSync q => bool_decide (q = p) | _ => false end)
    (write_pieces p off cs ++ [OpSync p]) = true.
Proof.
  revert off. induction cs as [|c cs IH]; intros off; cbn; by rewrite bool_decide_eq_true_2, ?IH.
Qed.

(** The secret is never readable: from the moment the temporary file is
    created, whenever it holds any byte its mode is already 0600 (the key of
    [identity.pem] goes through here). *)
Theorem write_atomic_private pid s p cs ops k n :
  fs_wf s → write_atomic_ops pid p cs = Some ops → (2 ≤ k < length ops)%nat →
  fs_stat (foldl exec s (take k ops)) (default [] (parent p) ++ [Normal (tmp_name p pid)]) = Some n →
  content n ≠ [] → mode n = mode_private.
Proof.
  intros Hs Hops Hk Hn Hc. apply write_atomic_ops_eq in Hops as (dir & Hd & ->).
  rewrite Hd in Hn. change (default [] (Some dir)) with dir in Hn. set (tmp := dir ++ [Normal (tmp_name p pid)]) in *.
  rewrite length_app in Hk. cbn [length] in Hk. rewrite take_app_le in Hn by lia.
  destruct k as [|[|[|k]]]; try lia.
  - unfold write_atomic_pre in Hn. cbn [app take foldl exec] in Hn.
    rewrite fs_stat_create, decide_True in Hn by done. by injection Hn as <-.
  - unfold write_atomic_pre in Hn. cbn [app take foldl] in Hn.
    pose proof (exec_private tmp s Hs) as Hp. cbn [foldl] in Hp.
    pose proof (exec_keeps_mode tmp (exec (exec s (OpCreate tmp)) (OpChmod tmp mode_private))
      (take k (write_pieces tmp 0 cs ++ [OpSync tmp]))) as H.
    rewrite Hp in H. cbn [exec foldl] in Hn, H. rewrite Hn in H.
    assert (Some (mode n) = Some mode_private) as [= <-]; [|done].
    apply H; [|by apply forallb_take, write_pieces_keep].
    apply (exec_wf _ (OpChmod tmp mode_private)), (exec_wf _ (OpCreate tmp)), Hs.
Qed.

(** ** Lemmas: device ids *)

Lemma hex_digit_hex d : 0 ≤ d < 16 → is_ascii_hexdigit (hex_digit d) = true.
Proof.
  intros Hd. unfold hex_digit, is_ascii_hexdigit, is_ascii_digit.
  destruct (d <? 10) eqn:E; zsolve; rewrite !bval_zbyte_small by lia; zbool; done.
Qed.

Lemma generate_valid rnd : length rnd = 16%nat → is_valid_device_id (generate rnd) = true.
Proof.
  intros Hl. unfold is_valid_device_id, generate. apply andb_true_iff. split.
  - apply Nat.eqb_eq. rewrite <- (Nat.mul_1_r 32). change 32%nat with (2 * 16)%nat. rewrite <- Hl.
    clear Hl. induction rnd as [|b rnd IH]; [done|]. cbn [map concat hex02 app length]. lia.
  - clear Hl. induction rnd as [|b rnd IH]; [done|]. cbn [map concat hex02 app forallb].
    pose proof (bval_range b). rewrite !hex_digit_hex, IH by zdm. done.
Qed.

Lemma hex_range s b : forallb is_ascii_hexdigit s = true → b ∈ s → 48 ≤ bval b < 128.
Proof.
  intros Hs Hb. rewrite forallb_forall in Hs. apply list_elem_of_In, Hs in Hb.
  unfold is_ascii_hexdigit, is_ascii_digit in Hb. rewrite !orb_true_iff, !andb_true_iff in Hb. lia.
Qed.

Lemma hex_is_ascii s : forallb is_ascii_hexdigit s = true → is_ascii s = true.
Proof.
  intros Hs. unfold is_ascii. apply forallb_forall. intros b Hb%list_elem_of_In.
  apply (hex_range s) in Hb; [lia|done].
Qed.

Lemma trim_newline s :
  s ≠ [] → forallb is_ascii_hexdigit s = true → trim (s ++ [Byte.x0a]) = s.
Proof.
  intros Hne Hs.
  pose proof (hex_is_ascii s Hs) as Ha.
  assert (∀ c, c ∈ map bval s → is_whitespace c = false) as Hw.
  { intros c (b & -> & Hb)%list_elem_of_fmap. apply (hex_range s) in Hb; [|done]. unfold is_whitespace. lia. }
  unfold trim. rewrite chars_ascii by (unfold is_ascii in *; by rewrite forallb_app, Ha).
  rewrite map_app. unfold trim_list. rewrite (drop_while_id _ (map bval s ++ _)).
  2: { intros x l E. apply Hw. destruct s; [done|]. cbn [map app] in E. injection E as <- _. left. }
  rewrite rev_app_distr. cbn [map rev app]. change (drop_while is_whitespace (bval Byte.x0a :: rev (map bval s)))
    with (drop_while is_whitespace (rev (map bval s))).
  rewrite drop_while_id, rev_involutive.
  2: { intros x l E. apply Hw, elem_of_rev. rewrite E. left. }
  rewrite <- chars_ascii by done. by apply utf8_encode_chars, valid_ascii.
Qed.

Lemma fs_read_write s p d : fs_wf s → fs_read (fs_write s p d) p = Ok d.
Proof.
  intros Hs. unfold fs_read, fs_write.
  pose proof (fs_stat_create s p p Hs) as H. pose proof (fs_create_wf s p Hs) as Hs1.
  assert (names (fs_create s p).2 !! p = Some (fs_create s p).1) as Hn.
  { unfold fs_create. destruct (names s !! p) eqn:E; cbn; [done|]. by rewrite lookup_insert_eq. }
  destruct (fs_create s p) as [i s1]. cbn [fst snd] in *. unfold fs_write_at.
  rewrite (fs_stat_alter s1 p), decide_True, H, decide_True by done. cbn.
  f_equal. apply (overwrite_end [] d).
Qed.

Lemma fs_stat_write_ne s p d q : fs_wf s → q ≠ p → fs_stat (fs_write s p d) q = fs_stat s q.
Proof.
  intros Hs Hq. unfold fs_write. pose proof (fs_stat_create s p q Hs) as H1.
  pose proof (fs_create_wf s p Hs) as Hs1. destruct (fs_create s p) as [i s1] eqn:E. cbn [snd] in *.
  unfold fs_write_at. destruct (fs_create_handle s p i s1 Hs E) as [Hn _].
  rewrite (fs_stat_alter s1 p), decide_False by done. by rewrite H1, decide_False.
Qed.

Lemma fs_write_wf s p d : fs_wf s → fs_wf (fs_write s p d).
Proof.
  intros Hs. unfold fs_write. pose proof (fs_create_wf s p Hs) as Hs1.
  destruct (fs_create s p). by apply fs_alter_wf.
Qed.

Lemma read_to_string_missing s p :
  fs_wf s → read_to_string s p = Err NotFound → fs_exists s p = true → False.
Proof.
  intros Hs H [i Hi]%bool_decide_eq_true. unfold read_to_string, fs_read, fs_stat in H.
  rewrite Hi in H. cbn in H. destruct (fs_wf_bound _ Hs _ _ Hi) as [? Hx]. rewrite Hx in H.
  by case_decide.
Qed.

Lemma device_load_stable s p rnd rnd' r s' :
  fs_wf s → length rnd = 16%nat → load_or_create_at s p rnd = (r, s') →
  (∀ id, r = Ok id → is_valid_device_id id = true ∧ load_or_create_at s' p rnd' = (Ok id, s')) ∧
  (fs_exists s p = true → s' = s).
Proof.
  intros Hs Hr H. unfold load_or_create_at in H.
  destruct (read_to_string s p) as [text|k] eqn:E.
  - case_match eqn:Hid; injection H as <- <-; (split; [|done]); [|done].
    intros id [= <-]. split; [done|]. unfold load_or_create_at. by rewrite E, Hid.
  - split; [|intros Hx; destruct k; try (by injection H as <- <-); by apply read_to_string_missing in E].
    intros id ->. destruct k; try done. injection H as <- <-.
    pose proof (generate_valid rnd Hr) as Hg. split; [done|]. unfold load_or_create_at, read_to_string.
    pose proof Hg as [Hl%Nat.eqb_eq Hx]%andb_true_iff.
    rewrite fs_read_write by done. change (lit "
") with [Byte.x0a].
    rewrite decide_True by (apply hex_is_ascii in Hx; apply valid_ascii; unfold is_ascii in *;
      by rewrite forallb_app, Hx).
    by rewrite trim_newline, Hg by (done || by intros Hz; rewrite Hz in Hl).
Qed.

(** What the file holds after a load. *)
Lemma device_loaded s p rnd id s' :
  fs_wf s → length rnd = 16%nat → load_or_create_at s p rnd = (Ok id, s') →
  ∃ text, read_to_string s' p = Ok text ∧ trim text = id ∧ is_valid_device_id id = true.
Proof.
  intros Hs Hr H. destruct (device_load_stable s p rnd [] _ _ Hs Hr H) as [Hid _].
  destruct (Hid id eq_refl) as [Hv Ha]. unfold load_or_create_at in Ha.
  destruct (read_to_string s' p) as [text|k] eqn:E.
  - exists text. case_match eqn:Ht; [|done]. by injection Ha as ->.
  - destruct k; try done. injection Ha as Hg. exfalso. subst id. by vm_compute in Hv.
Qed.

Lemma device_load_wf s p rnd : fs_wf s → fs_wf (load_or_create_at s p rnd).2.
Proof.
  intros Hs. unfold load_or_create_at. destruct (read_to_string s p) as [t|[]]; try done; [by case_match|].
  cbn [snd]. unfold fs_write. pose proof (fs_create_wf s p Hs) as Hc. destruct (fs_create s p). by apply fs_alter_wf.
Qed.

Lemma device_load_other s p rnd q :
  fs_wf s → q ≠ p → fs_stat (load_or_create_at s p rnd).2 q = fs_stat s q.
Proof.
  intros Hs Hq. unfold load_or_create_at. destruct (read_to_string s p) as [t|[]]; try done; [by case_match|].
  by apply fs_stat_write_ne.
Qed.

(** The device id is stable: whatever [load_or_create_at] returns is a
    well-formed id, and every later call (with other random bytes) returns the
    same id and changes nothing; a file that exists is never modified, so a
    corrupt one stays an error instead of silently becoming a new device. *)
Theorem device_id_stable s p rnd rnd' r s' :
  fs_wf s → length rnd = 16%nat → load_or_create_at s p rnd = (r, s') →
  (∀ id, r = Ok id → is_valid_device_id id = true ∧ load_or_create_at s' p rnd' = (Ok id, s')) ∧
  (fs_exists s p = true → s' = s).
Proof. apply device_load_stable. Qed.

(** ** Witnesses *)

Definition sample_dir : path := [RootDir; Normal (lit "cfg")].
Definition sample_file : path := sample_dir ++ [Normal (lit "peers.toml")].
(** A home directory and nothing else set. *)
Definition sample_home : env := λ k, if bool_decide (k = lit "HOME") then Some (lit "/home/u") else None.
Definition sample_fs : fs :=
  mkFs {[ sample_file := 0%nat ]} {[ 0%nat := mkInode (lit "old") mode_private ]} 1.

Lemma sample_fs_wf : fs_wf sample_fs.
Proof.
  split; unfold sample_fs; cbn.
  - intros p i [<- <-]%lookup_singleton_Some. by rewrite lookup_singleton_eq.
  - intros i [x [<- _]%lookup_singleton_Some]. lia.
  - intros p q i [<- <-]%lookup_singleton_Some [<- _]%lookup_singleton_Some. done.
Qed.

Lemma write_atomic_crash_safe_witness :
  ∃ ops, write_atomic_ops 7 sample_file [lit "ne"; lit "w"] = Some ops ∧ length ops = 7%nat ∧
    fs_stat (foldl exec sample_fs (take 6 ops)) sample_file = Some (mkInode (lit "old") mode_private) ∧
    fs_stat (foldl exec sample_fs (take 7 ops)) sample_file = Some (mkInode (lit "new") mode_private).
Proof.
  eexists. split_and!; [reflexivity|reflexivity|..].
  - pose proof (write_atomic_crash_safe 7 sample_fs sample_file [lit "ne"; lit "w"] _ 6
      sample_fs_wf eq_refl) as (H & _). exact H.
  - pose proof (write_atomic_crash_safe 7 sample_fs sample_file [lit "ne"; lit "w"] _ 7
      sample_fs_wf eq_refl) as (H & _). exact H.
Defined.

Lemma write_atomic_private_witness :
  ∃ ops n, write_atomic_ops 7 sample_file [lit "ne"; lit "w"] = Some ops ∧
    fs_stat (foldl exec sample_fs (take 4 ops)) (sample_dir ++ [Normal (lit ".peers.toml.tmp-7")])
      = Some n ∧ content n = lit "ne" ∧ mode n = mode_private.
Proof.
  eexists _, _. split_and!; [reflexivity|vm_compute; reflexivity|reflexivity|].
  apply (write_atomic_private 7 sample_fs sample_file [lit "ne"; lit "w"] _ 4 _ sample_fs_wf eq_refl).
  - simpl. lia.
  - vm_compute. reflexivity.
  - done.
Defined.

Lemma device_id_stable_witness :
  let p := sample_dir ++ [Normal (lit "device_id")] in
  let s' := (load_or_create_at sample_fs p (replicate 16 Byte.xab)).2 in
  load_or_create_at s' p (replicate 16 Byte.x01)
  = (Ok (lit "abababababababababababababababab"), s').
Proof.
  intros p s'.
  destruct (device_id_stable sample_fs p (replicate 16 Byte.xab) (replicate 16 Byte.x01) _ _
    sample_fs_wf eq_refl eq_refl) as [H _].
  destruct (H _ eq_refl) as [_ H2]. exact H2.
Defined.
