(* ===== verification/Samples.v ===== *)
(** * Samples: concrete instances of the interfaces

    The crates qdrop links (serialisers, hashes) are interfaces of this
    development.  Here each one gets a small concrete instance that satisfies
    its laws, so that a theorem stated over an interface can be applied to
    actual values.  Nothing here models code of the repository. *)
From S2P Require Import Prelude Text Crypto Proto Frame.

(** ** A serialiser for any countable type *)

(** The binary digits, least significant first, as text. *)
Fixpoint pos_bytes (p : positive) : bytes :=
  match p with
  | xH => []
  | xO q => "0"%byte :: pos_bytes q
  | xI q => "1"%byte :: pos_bytes q
  end.
Fixpoint bytes_pos (b : bytes) : option positive :=
  match b with
  | [] => Some xH
  | x :: b' => (if decide (x = "1"%byte) then xI else xO) <$> bytes_pos b'
  end.

Lemma bytes_pos_pos_bytes p : bytes_pos (pos_bytes p) = Some p.
Proof. induction p as [p IH|p IH|]; cbn; by rewrite ?IH. Qed.

Lemma pos_bytes_ascii p : is_ascii (pos_bytes p) = true.
Proof. induction p as [p IH|p IH|]; cbn; done. Qed.

Definition countable_serde (A : Type) `{Countable A} : Serde A := {|
  serialize a := Some (pos_bytes (encode a));
  deserialize b := bytes_pos b ≫= decode;
|}.

Lemma countable_serde_laws (A : Type) `{Countable A} : @SerdeLaws A (countable_serde A).
Proof.
  split. intros a b [= <-]. unfold deserialize, countable_serde.
  rewrite bytes_pos_pos_bytes. apply decode_encode.
Qed.

Lemma countable_text_laws (A : Type) `{Countable A} : @TextLaws A (countable_serde A).
Proof. split. intros a b [= <-]. apply valid_ascii, pos_bytes_ascii. Qed.

(** The same, refusing what does not fit a frame. *)
Definition bounded_serde (A : Type) `{Countable A} : Serde A := {|
  serialize a := let b := pos_bytes (encode a) in if zlen b <=? MAX_FRAME_LEN then Some b else None;
  deserialize b := bytes_pos b ≫= decode;
|}.

Lemma bounded_serialize {A : Type} `{Countable A} (a : A) b :
  @serialize A (bounded_serde A) a = Some b → b = pos_bytes (encode a) ∧ zlen b ≤ MAX_FRAME_LEN.
Proof. cbn. destruct (_ <=? _) eqn:E; [|done]. intros [= <-]. split; [done|]. zsolve. Qed.

Lemma bounded_serde_laws (A : Type) `{Countable A} : @SerdeLaws A (bounded_serde A).
Proof.
  split. intros a b [-> _]%bounded_serialize. unfold deserialize, bounded_serde.
  rewrite bytes_pos_pos_bytes. apply decode_encode.
Qed.

(** ** Messages are countable *)

Definition zb (b : bool) : Z := if b then 1 else 0.
Definition bz (z : Z) : bool := bool_decide (z = 1).

Definition caps_code (c : Caps) : list Z :=
  [zb (clipboard_text c); zb (clipboard_images c); zb (file_send c); zb (open_url c); zb (cap_auth c)].
Definition purpose_code (p : BlobPurpose) : Z := match p with File => 0 | ClipboardImage => 1 end.
Definition info_code (i : DeviceInfo) : list str := info_hostname i :: info_os i :: info_macs i.
Definition entries_code (es : list ClipEntry) : list str := concat (map (λ e, [mime e; data e]) es).
Fixpoint entries_decode (l : list str) : list ClipEntry :=
  match l with m :: d :: l' => mkClipEntry m d :: entries_decode l' | _ => [] end.

Definition message_code (m : Message) : nat * (list Z * list str) :=
  match m with
  | MHello h => (0%nat, (protocol_version h :: caps_code (hello_caps h),
                         [hello_device_id h; hello_device_name h]))
  | Ping q => (1%nat, ([q], []))
  | Pong q => (2%nat, ([q], []))
  | Clipboard q o es => (3%nat, ([q], o :: entries_code es))
  | BlobStart i n s p => (4%nat, ([i; s; purpose_code p], [n]))
  | BlobChunk i d => (5%nat, ([i], [d]))
  | BlobEnd i d => (6%nat, ([i], [d]))
  | BlobAck i o d => (7%nat, ([i; zb o], [d]))
  | OpenUrl u => (8%nat, ([], [u]))
  | AuthRequest m i => (9%nat, ([zb m], info_code i))
  | AuthReply o i => (10%nat, ([zb o], info_code i))
  end.

Definition message_decode (x : nat * (list Z * list str)) : option Message :=
  match x with
  | (0%nat, ([v; a; b; c; d; e], [i; n])) =>
      Some (MHello (mkHello v i n (mkCaps (bz a) (bz b) (bz c) (bz d) (bz e))))
  | (1%nat, ([q], _)) => Some (Ping q)
  | (2%nat, ([q], _)) => Some (Pong q)
  | (3%nat, ([q], o :: es)) => Some (Clipboard q o (entries_decode es))
  | (4%nat, ([i; s; p], [n])) => Some (BlobStart i n s (if bz p then ClipboardImage else File))
  | (5%nat, ([i], [d])) => Some (BlobChunk i d)
  | (6%nat, ([i], [d])) => Some (BlobEnd i d)
  | (7%nat, ([i; o], [d])) => Some (BlobAck i (bz o) d)
  | (8%nat, (_, [u])) => Some (OpenUrl u)
  | (9%nat, ([m], h :: o :: ms)) => Some (AuthRequest (bz m) (mkDeviceInfo h ms o))
  | (10%nat, ([m], h :: o :: ms)) => Some (AuthReply (bz m) (mkDeviceInfo h ms o))
  | _ => None
  end.

Lemma bz_zb b : bz (zb b) = b.
Proof. by destruct b. Qed.

Lemma entries_decode_code es : entries_decode (entries_code es) = es.
Proof. unfold entries_code. induction es as [|[] es IH]; [done|]. cbn. by rewrite IH. Qed.

Lemma message_decode_code m : message_decode (message_code m) = Some m.
Proof.
  destruct m as [[? ? ? []]| | | | ? ? ? [] | | | | |? []|? []]; cbn; rewrite ?bz_zb, ?entries_decode_code; done.
Qed.

#[export] Instance Message_countable : Countable Message :=
  inj_countable message_code message_decode message_decode_code.

Definition message_serde : Serde Message := countable_serde Message.
Definition message_serde_laws : @SerdeLaws Message message_serde := countable_serde_laws Message.

Definition message_bounded : Serde Message := bounded_serde Message.
Definition message_bounded_laws : @SerdeLaws Message message_bounded := bounded_serde_laws Message.

(** ** A hash *)

(** A checksum of 32 bytes: the length and the leading bytes. *)
Definition sample_digest (b : bytes) : bytes :=
  take 32 (zbyte (zlen b) :: b ++ replicate 32 Byte.x00).
Definition sample_hashes : Hashes := {|
  sha256 := sample_digest;
  hmac_sha256 := λ k b, sample_digest (k ++ b);
|}.

Lemma sample_digest_length b : length (sample_digest b) = 32%nat.
Proof.
  unfold sample_digest. rewrite length_take. cbn [length]. rewrite length_app, length_replicate. lia.
Qed.
Lemma sample_hash_laws : @HashLaws sample_hashes.
Proof. split; intros; apply sample_digest_length. Qed.

(** ** Witnesses of the framing theorems *)

Definition sample_messages : list Message :=
  [Ping 7; OpenUrl (lit "https://x"); BlobChunk 3 (lit "ab")].

Lemma sample_messages_small :
  Forall (λ m, ∀ body, @serialize _ message_serde m = Some body → zlen body ≤ MAX_FRAME_LEN)
    sample_messages.
Proof.
  repeat (constructor; [intros body [= <-]; vm_compute; discriminate|]). constructor.
Qed.

Lemma frame_roundtrip_witness :
  ∃ w' fr, @write_message _ message_serde (mkWriter [] None) (Ping 7) = (Ok tt, w') ∧
    written w' = fr ∧
    @read_message _ message_serde (mkReader (fr ++ lit "next") None)
    = (Ok (Ping 7), mkReader (lit "next") None).
Proof.
  eexists. destruct (@frame_roundtrip _ message_serde message_serde_laws (mkWriter [] None) _ (Ping 7) _
    (lit "next") None eq_refl eq_refl) as (fr & Hw & Hr).
  { vm_compute. discriminate. }
  exists fr. split; [reflexivity|]. split; [exact Hw|exact Hr].
Defined.

Lemma frames_stay_aligned_witness :
  ∃ w' wire, @write_messages _ message_serde (mkWriter [] None) sample_messages = (Ok tt, w') ∧
    written w' = wire ∧
    @read_messages _ message_serde 3 (mkReader (wire ++ lit "x") None)
    = (Ok sample_messages, mkReader (lit "x") None).
Proof.
  eexists. destruct (@frames_stay_aligned _ message_serde message_serde_laws sample_messages
    (mkWriter [] None) _ (lit "x") None eq_refl sample_messages_small) as (wire & Hw & Hr).
  exists wire. split; [reflexivity|]. split; [exact Hw|exact Hr].
Defined.
