(* ===== verification/Net.v ===== *)
(** * Net: addresses, and the address helpers of [pairing.rs]

    [std::net]'s [IpAddr] and [SocketAddr] with their parsers and order, as
    far as the source uses them; [is_dialable], [addr_rank] and
    [sorted_dialable] of [crates/qdrop-core/src/pairing.rs].  The main
    theorem: [sorted_dialable] returns each dialable address of its input
    exactly once, best rank first. *)
From S2P Require Import Prelude Text.

Definition DEFAULT_PORT : Z := 47654.
Definition PAIR_PORT : Z := DEFAULT_PORT + 1.
Definition SERVICE_TYPE : str := lit "_qdrop._tcp.local.".
Definition PAIR_SERVICE_TYPE : str := lit "_qdrop-pair._tcp.local.".

(** ** Addresses *)

(** Octets of a v4 address; the eight 16-bit segments of a v6 address. *)
Inductive IpAddr := V4 (a b c d : Z) | V6 (segments : list Z).

(** [SocketAddrV6] also carries a flow label (zero here) and a scope id. *)
Record SocketAddr := mkSocketAddr { ip : IpAddr; port : Z; scope_id : Z }.
Definition SocketAddr_new (i : IpAddr) (p : Z) : SocketAddr := mkSocketAddr i p 0.

#[export] Instance IpAddr_eq_dec : EqDecision IpAddr.
Proof. solve_decision. Defined.
#[export] Instance SocketAddr_eq_dec : EqDecision SocketAddr.
Proof. solve_decision. Defined.

Definition is_unspecified (i : IpAddr) : bool :=
  match i with V4 a b c d => bool_decide ([a; b; c; d] = [0; 0; 0; 0])
             | V6 s => bool_decide (s = replicate 8 0) end.
Definition is_loopback (i : IpAddr) : bool :=
  match i with V4 a _ _ _ => a =? 127
             | V6 s => bool_decide (s = replicate 7 0 ++ [1]) end.

(** ** Parsers ([core::net::parser]) *)

Abbreviation parser A := (str → option (A * str)) (only parsing).

Definition given_char (c : byte) : parser unit := λ s,
  match s with b :: s' => if decide (b = c) then Some (tt, s') else None | [] => None end.

(** [char::to_digit]. *)
Definition to_digit (radix : Z) (b : byte) : option Z :=
  let v := bval b in
  let d := if (48 <=? v) && (v <? 58) then v - 48
           else if (97 <=? v) && (v <? 123) then v - 87
           else if (65 <=? v) && (v <? 91) then v - 55 else radix in
  if d <? radix then Some d else None.

(** The longest run of digits: value, count, rest. *)
Fixpoint read_digits (radix acc : Z) (n : nat) (s : str) : Z * nat * str :=
  match s with
  | b :: s' => match to_digit radix b with
               | Some d => read_digits radix (acc * radix + d) (S n) s'
               | None => (acc, n, s)
               end
  | [] => (acc, n, [])
  end.

Definition read_number (radix max : Z) (max_digits : option nat) (allow_zero_prefix : bool)
    : parser Z := λ s,
  let '(v, n, s') := read_digits radix 0 0 s in
  let leading_zero := match s with b :: _ => bool_decide (b = "0"%byte) | [] => false end in
  if (n =? 0)%nat then None
  else if match max_digits with Some m => (m <? n)%nat | None => false end then None
  else if negb allow_zero_prefix && leading_zero && (1 <? n)%nat then None
  else if v <=? max then Some (v, s') else None.

Definition read_octet : parser Z := read_number 10 u8_max (Some 3%nat) false.

Definition read_ipv4 : parser IpAddr := λ s,
  '(a, s) ← read_octet s; '(_, s) ← given_char "."%byte s;
  '(b, s) ← read_octet s; '(_, s) ← given_char "."%byte s;
  '(c, s) ← read_octet s; '(_, s) ← given_char "."%byte s;
  '(d, s) ← read_octet s;
  Some (V4 a b c d, s).

Definition read_separator {A} (i : nat) (inner : parser A) : parser A := λ s,
  match i with
  | O => inner s
  | _ => '(_, s) ← given_char ":"%byte s; inner s
  end.

(** [read_groups]: up to [left] more groups, starting at index [i]; an embedded
    v4 address stands for two groups and ends the run. *)
Fixpoint read_groups (left i : nat) (acc : list Z) (s : str) : list Z * bool * str :=
  match left with
  | O => (acc, false, s)
  | S left' =>
      match (if (0 <? left')%nat then read_separator i read_ipv4 s else None) with
      | Some (V4 a b c d, s') => (acc ++ [a * 256 + b; c * 256 + d], true, s')
      | _ =>
          match read_separator i (read_number 16 u16_max (Some 4%nat) true) s with
          | Some (g, s') => read_groups left' (S i) (acc ++ [g]) s'
          | None => (acc, false, s)
          end
      end
  end.

Definition read_ipv6 : parser IpAddr := λ s,
  let '(head, v4, s) := read_groups 8 0 [] s in
  if (length head =? 8)%nat then Some (V6 head, s)
  else if (v4 : bool) then None
  else
    '(_, s) ← given_char ":"%byte s; '(_, s) ← given_char ":"%byte s;
    let '(tail, _, s) := read_groups (8 - (length head + 1)) 0 [] s in
    Some (V6 (head ++ replicate (8 - length head - length tail) 0 ++ tail), s).

Definition read_port : parser Z := λ s,
  '(_, s) ← given_char ":"%byte s; read_number 10 u16_max None true s.
Definition read_scope_id : parser Z := λ s,
  '(_, s) ← given_char "%"%byte s; read_number 10 u32_max None true s.

Definition read_socket_addr_v4 : parser SocketAddr := λ s,
  '(i, s) ← read_ipv4 s; '(p, s) ← read_port s; Some (mkSocketAddr i p 0, s).
Definition read_socket_addr_v6 : parser SocketAddr := λ s,
  '(_, s) ← given_char "["%byte s; '(i, s) ← read_ipv6 s;
  let '(sc, s) := match read_scope_id s with Some (sc, s') => (sc, s') | None => (0, s) end in
  '(_, s) ← given_char "]"%byte s; '(p, s) ← read_port s; Some (mkSocketAddr i p sc, s).

(** [parse_with]: the whole string must be consumed. *)
Definition parse_with {A} (p : parser A) (s : str) : option A :=
  match p s with Some (a, []) => Some a | _ => None end.
Definition or_else {A} (p q : parser A) : parser A := λ s,
  match p s with Some r => Some r | None => q s end.

Definition parse_ip (s : str) : option IpAddr := parse_with (or_else read_ipv4 read_ipv6) s.
Definition parse_socket_addr (s : str) : option SocketAddr :=
  parse_with (or_else read_socket_addr_v4 read_socket_addr_v6) s.

(** ** Order and stable sorting *)

(** The derived [Ord] of [SocketAddr] compares these keys lexicographically. *)
Definition addr_key (a : SocketAddr) : list Z :=
  match ip a with
  | V4 x y z w => [0; x; y; z; w; port a; scope_id a]
  | V6 s => 1 :: s ++ [port a; scope_id a]
  end.

Fixpoint lex_leb (a b : list Z) : bool :=
  match a, b with
  | [], _ => true
  | _ :: _, [] => false
  | x :: a', y :: b' => if x <? y then true else if y <? x then false else lex_leb a' b'
  end.
Definition addr_leb (a b : SocketAddr) : bool := lex_leb (addr_key a) (addr_key b).

(** [sort] and [sort_by_key] are stable: equal keys keep their order. *)
Fixpoint insert_by {A} (leb : A → A → bool) (x : A) (l : list A) : list A :=
  match l with
  | [] => [x]
  | y :: l' => if leb x y then x :: l else y :: insert_by leb x l'
  end.
Definition sort_by {A} (leb : A → A → bool) (l : list A) : list A := foldr (insert_by leb) [] l.

(** ** [pairing.rs] *)

Definition is_dialable (i : IpAddr) : bool :=
  match i with
  | V4 _ _ _ _ => negb (is_unspecified i)
  | V6 s => negb (is_unspecified i) && negb (Z.land (nth 0 s 0) 0xffc0 =? 0xfe80)
  end.

Definition addr_rank (i : IpAddr) : Z :=
  match i with
  | V4 _ _ _ _ => if is_loopback i then 2 else 0
  | V6 _ => if is_loopback i then 3 else 1
  end.

Definition sorted_dialable (addrs : list SocketAddr) : list SocketAddr :=
  let l := base.filter (λ a, is_dialable (ip a) = true) addrs in
  sort_by (λ a b, addr_rank (ip a) <=? addr_rank (ip b)) (dedup (sort_by addr_leb l)).

(** ** Lemmas: parsing what [{}] prints *)

Lemma to_digit_digit d : 0 ≤ d < 10 → to_digit 10 (digit d) = Some d.
Proof.
  intros Hd. unfold to_digit, digit. rewrite bval_zbyte_small by lia. zbool.
  replace (48 + d - 48) with d by lia. by zbool.
Qed.

(** A rest that does not go on with a digit. *)
Definition no_digit (s : str) : Prop :=
  match s with b :: _ => to_digit 10 b = None | [] => True end.

Lemma read_digits_stop acc n s : no_digit s → read_digits 10 acc n s = (acc, n, s).
Proof. destruct s as [|b s]; [done|]. cbn. by intros ->. Qed.

Lemma dec_fuel_app f n acc : dec_fuel f n acc = dec_fuel f n [] ++ acc.
Proof.
  revert n acc. induction f as [|f IH]; intros n acc; cbn [dec_fuel]; [done|].
  destruct (n <? 10); [done|]. rewrite IH, (IH _ [_]), <- app_assoc. done.
Qed.

(** A run of decimal digits read as a number. *)
Definition digits_value (s : str) : Z := fold_left (λ acc b, acc * 10 + (bval b - 48)) s 0.

Lemma is_digit_digit d : 0 ≤ d < 10 → is_ascii_digit (digit d) = true.
Proof. intros Hd. unfold is_ascii_digit, digit. rewrite bval_zbyte_small by lia. by zbool. Qed.

Lemma dec_fuel_value f n :
  0 ≤ n < 10 ^ Z.of_nat f → f ≠ O →
  digits_value (dec_fuel f n []) = n ∧ forallb is_ascii_digit (dec_fuel f n []) = true
  ∧ dec_fuel f n [] ≠ [].
Proof.
  unfold digits_value. revert n. induction f as [|f IH]; intros n Hn Hf; [done|].
  cbn [dec_fuel]. pose proof (Z.mod_pos_bound n 10 ltac:(lia)) as Hm.
  assert (bval (digit (n mod 10)) = 48 + n mod 10) as Hb
    by (unfold digit; apply bval_zbyte_small; lia).
  destruct (n <? 10) eqn:E; zsolve.
  - cbn [fold_left forallb]. rewrite is_digit_digit by lia.
    rewrite Hb, Z.mod_small by lia. split_and!; [lia|done|done].
  - rewrite Nat2Z.inj_succ, Z.pow_succ_r in Hn by lia.
    assert (f ≠ O) by (intros ->; cbn in Hn; lia).
    destruct (IH (n / 10)) as (Hv & Hd & Hne); [zdm|done|].
    rewrite dec_fuel_app, fold_left_app, forallb_app, Hv, Hd. cbn [fold_left forallb].
    rewrite is_digit_digit by lia. split_and!; [rewrite Hb; zdm|done|by destruct (dec_fuel f (n / 10) [])].
Qed.

(** [dec] prints digits that read back. *)
Lemma dec_value n :
  0 ≤ n → digits_value (dec n) = n ∧ forallb is_ascii_digit (dec n) = true ∧ dec n ≠ [].
Proof.
  intros Hn. apply dec_fuel_value; [|done]. split; [done|].
  destruct (decide (n = 0)) as [->|Hz]; [done|].
  pose proof (Z.log2_spec n ltac:(lia)) as [_ H]. pose proof (Z.log2_nonneg n).
  eapply Z.lt_le_trans; [exact H|]. rewrite Nat2Z.inj_succ, Z2Nat.id by lia.
  apply Z.pow_le_mono_l. lia.
Qed.

Lemma dec_inj n m : 0 ≤ n → 0 ≤ m → dec n = dec m → n = m.
Proof.
  intros Hn Hm H. destruct (dec_value n Hn) as [<- _]. destruct (dec_value m Hm) as [<- _].
  by rewrite H.
Qed.

Lemma read_digits_app ds s acc n :
  forallb is_ascii_digit ds = true → no_digit s →
  read_digits 10 acc n (ds ++ s)
  = (fold_left (λ acc b, acc * 10 + (bval b - 48)) ds acc, (n + length ds)%nat, s).
Proof.
  revert acc n. induction ds as [|b ds IH]; intros acc n Hd Hs.
  - cbn [app]. rewrite read_digits_stop by done. cbn. by rewrite Nat.add_0_r.
  - cbn [forallb] in Hd. apply andb_true_iff in Hd as [Hb Hd]. cbn [app read_digits].
    assert (b = digit (bval b - 48)) as Eb
      by (unfold digit; symmetry; apply zbyte_eq; lia).
    unfold is_ascii_digit in Hb. apply andb_true_iff in Hb as [Hb1%Z.leb_le Hb2%Z.ltb_lt].
    assert (to_digit 10 b = Some (bval b - 48)) as ->
      by (rewrite Eb at 1; apply to_digit_digit; lia).
    rewrite IH by done.
    cbn [fold_left length]. by rewrite Nat.add_succ_comm.
Qed.

#[local] Opaque dec.

Lemma read_port_dec p : 0 ≤ p ≤ u16_max → read_port (lit ":" ++ dec p) = Some (p, []).
Proof.
  intros Hp. destruct (dec_value p) as (Hv & Hd & Hne); [lia|].
  pose proof (read_digits_app (dec p) [] 0 0 Hd I) as H. rewrite app_nil_r in H.
  change (read_port (lit ":" ++ dec p)) with (read_number 10 u16_max None true (dec p)).
  unfold read_number. rewrite H. unfold digits_value in Hv. rewrite Hv. cbn [Nat.add].
  destruct (dec p); [done|]. cbn [length Nat.eqb negb andb].
  by rewrite (proj2 (Z.leb_le _ _)) by lia.
Qed.

(** At most three digits and no leading zero, for every octet. *)
Lemma dec_octet_shape :
  forallb (λ n, (length (dec n) <=? 3)%nat &&
    match dec n with b :: _ => negb (bool_decide (b = "0"%byte)) || (length (dec n) =? 1)%nat
                   | [] => false end) (map Z.of_nat (seq 0 256)) = true.
Proof. vm_compute. reflexivity. Qed.

Lemma read_octet_dec n s : 0 ≤ n ≤ u8_max → no_digit s → read_octet (dec n ++ s) = Some (n, s).
Proof.
  intros Hn Hs. unfold u8_max in Hn. pose proof dec_octet_shape as H. rewrite forallb_forall in H.
  specialize (H n). destruct (dec_value n) as (Hv & Hd & _); [lia|].
  assert (In n (map Z.of_nat (seq 0 256))) as Hin.
  { apply in_map_iff. exists (Z.to_nat n). rewrite in_seq. lia. }
  apply H in Hin. apply andb_true_iff in Hin as [Hl Hz].
  unfold read_octet, read_number. rewrite read_digits_app by done.
  unfold digits_value in Hv. rewrite Hv. cbn [Nat.add].
  apply Nat.leb_le in Hl. destruct (dec n) as [|b ds] eqn:E; [done|]. cbn [app].
  cbn [length] in *. rewrite (proj2 (Nat.ltb_ge _ _)) by lia.
  replace (negb false && bool_decide (b = "0"%byte) && (1 <? S (length ds))%nat) with false.
  { by rewrite (proj2 (Z.leb_le _ _)) by (unfold u8_max; lia). }
  cbn [negb andb]. destruct (bool_decide (b = "0"%byte)); [|done]. cbn [negb orb andb] in *.
  apply Nat.eqb_eq in Hz. symmetry. apply Nat.ltb_ge. lia.
Qed.

(** The text of a v4 address. *)
Definition show_v4 (a b c d : Z) : str :=
  dec a ++ lit "." ++ dec b ++ lit "." ++ dec c ++ lit "." ++ dec d.

Lemma read_ipv4_show a b c d s :
  Forall (λ x, 0 ≤ x ≤ u8_max) [a; b; c; d] → no_digit s →
  read_ipv4 (show_v4 a b c d ++ s) = Some (V4 a b c d, s).
Proof.
  intros H Hs. rewrite !list.Forall_cons in H. destruct H as (Ha & Hb & Hc & Hd & _).
  assert (∀ t, given_char "."%byte (lit "." ++ t) = Some (tt, t)) as Hdot by done.
  assert (∀ t, no_digit (lit "." ++ t)) as Hnd by done.
  unfold read_ipv4, show_v4. rewrite <- !app_assoc.
  do 3 (rewrite read_octet_dec by done; cbn [mbind option_bind]; rewrite Hdot; cbn [mbind option_bind]).
  by rewrite read_octet_dec by done.
Qed.

Lemma no_digit_port p : no_digit (lit ":" ++ dec p).
Proof. done. Qed.

(** What the standard parsers make of a printed v4 address. *)
Lemma parse_socket_addr_v4_bare a b c d :
  Forall (λ x, 0 ≤ x ≤ u8_max) [a; b; c; d] →
  parse_socket_addr (show_v4 a b c d) = None ∧ parse_ip (show_v4 a b c d) = Some (V4 a b c d).
Proof.
  intros H. pose proof (read_ipv4_show a b c d [] H I) as Hr. rewrite app_nil_r in Hr.
  split.
  - unfold parse_socket_addr, parse_with, or_else, read_socket_addr_v4. rewrite Hr.
    cbn [mbind option_bind]. change (read_port []) with (@None (Z * str)). cbn [mbind option_bind].
    unfold read_socket_addr_v6. rewrite list.Forall_cons in H. destruct H as [Ha _].
    destruct (dec_value a) as (_ & Hd & Hne); [lia|]. unfold show_v4.
    destruct (dec a) as [|x ds]; [done|]. cbn [app given_char].
    rewrite decide_False; [done|]. intros ->. by cbn in Hd.
  - unfold parse_ip, parse_with, or_else. by rewrite Hr.
Qed.

Lemma parse_socket_addr_v4_port a b c d p :
  Forall (λ x, 0 ≤ x ≤ u8_max) [a; b; c; d] → 0 ≤ p ≤ u16_max →
  parse_socket_addr (show_v4 a b c d ++ lit ":" ++ dec p) = Some (SocketAddr_new (V4 a b c d) p).
Proof.
  intros H Hp. unfold parse_socket_addr, parse_with, or_else, read_socket_addr_v4.
  rewrite read_ipv4_show by done. cbn [mbind option_bind]. by rewrite read_port_dec.
Qed.

(** ** Lemmas: sorting *)

Lemma insert_by_perm {A} (leb : A → A → bool) x l : insert_by leb x l ≡ₚ x :: l.
Proof.
  induction l as [|y l IH]; cbn; [done|]. destruct (leb x y); [done|].
  rewrite IH. by constructor.
Qed.

Lemma sort_by_perm {A} (leb : A → A → bool) l : sort_by leb l ≡ₚ l.
Proof.
  induction l as [|x l IH]; cbn; [done|]. by rewrite insert_by_perm, IH.
Qed.

(** Inserting keeps a list sorted by any transitive relation [R] that [leb]
    decides between [x] and the elements. *)
Lemma insert_by_sorted {A} (leb : A → A → bool) (R : relation A) x l :
  (∀ a b c, R a b → R b c → R a c) →
  (∀ y, y ∈ l → if leb x y then R x y else R y x) →
  StronglySorted R l → StronglySorted R (insert_by leb x l).
Proof.
  intros Ht Hx Hl. induction l as [|y l IH]; cbn; [repeat constructor|].
  apply StronglySorted_inv in Hl as [Hl Hy]. pose proof (Hx y) as Hxy.
  destruct (leb x y) eqn:E.
  - specialize (Hxy ltac:(left)). constructor; [by constructor|]. constructor; [done|].
    eapply list.Forall_impl; [exact Hy|]. cbn. eauto.
  - specialize (Hxy ltac:(left)). constructor; [apply IH; [|done]; intros; apply Hx; by right|].
    rewrite list.Forall_forall in *. intros z Hz.
    rewrite insert_by_perm in Hz. apply elem_of_cons in Hz as [->|Hz]; [done|]. by apply Hy.
Qed.

Lemma lex_leb_refl a : lex_leb a a = true.
Proof. induction a as [|x a IH]; cbn; [done|]. by rewrite Z.ltb_irrefl. Qed.

Lemma lex_leb_total a b : lex_leb a b = false → lex_leb b a = true.
Proof.
  revert b. induction a as [|x a IH]; intros [|y b]; cbn; try done.
  destruct (x <? y) eqn:E1, (y <? x) eqn:E2; zsolve; try done. apply IH.
Qed.

Lemma lex_leb_antisym a b : lex_leb a b = true → lex_leb b a = true → a = b.
Proof.
  revert b. induction a as [|x a IH]; intros [|y b]; cbn; try done.
  destruct (x <? y) eqn:E1, (y <? x) eqn:E2; zsolve; try done.
  intros H1 H2. f_equal; [lia|]. by apply IH.
Qed.

Lemma lex_leb_trans a b c : lex_leb a b = true → lex_leb b c = true → lex_leb a c = true.
Proof.
  revert b c. induction a as [|x a IH]; intros [|y b] [|z c]; cbn; try done.
  destruct (x <? y) eqn:E1, (y <? x) eqn:E2, (y <? z) eqn:E3, (z <? y) eqn:E4; zsolve; try done;
    destruct (x <? z) eqn:E5; try done; destruct (z <? x) eqn:E6; zsolve; try done.
  apply IH.
Qed.

Lemma addr_key_inj a b : addr_key a = addr_key b → a = b.
Proof.
  destruct a as [[a1 a2 a3 a4|s] p sc], b as [[b1 b2 b3 b4|t] q sd]; unfold addr_key; cbn; try done.
  - by intros [= -> -> -> -> -> ->].
  - intros [= H]. change [p; sc] with ([p] ++ [sc]) in H. change [q; sd] with ([q] ++ [sd]) in H.
    rewrite !app_assoc in H. apply app_inj_tail in H as [H ->].
    by apply app_inj_tail in H as [-> ->].
Qed.

Definition addr_le (a b : SocketAddr) : Prop := addr_leb a b = true.
Definition addr_lt (a b : SocketAddr) : Prop := addr_leb a b = true ∧ a ≠ b.

Lemma addr_le_trans a b c : addr_le a b → addr_le b c → addr_le a c.
Proof. apply lex_leb_trans. Qed.

Lemma addr_lt_trans a b c : addr_lt a b → addr_lt b c → addr_lt a c.
Proof.
  intros [H1 N1] [H2 N2]. split; [by eapply lex_leb_trans|]. intros ->.
  apply N1, addr_key_inj. by apply lex_leb_antisym.
Qed.

Lemma sort_addr_sorted l : StronglySorted addr_le (sort_by addr_leb l).
Proof.
  induction l as [|x l IH]; cbn; [constructor|]. apply insert_by_sorted; [|..].
  - apply addr_le_trans.
  - intros y _. unfold addr_le. destruct (addr_leb x y) eqn:E; [done|]. by apply lex_leb_total.
  - done.
Qed.

Lemma dedup_elem {A} `{EqDecision A} (l : list A) x : x ∈ dedup l ↔ x ∈ l.
Proof.
  induction l as [|y l IH]; [done|]. cbn [dedup]. destruct l as [|z l]; [done|].
  case_decide as E; [subst; set_solver|]. set_solver.
Qed.

Lemma dedup_addr_sorted l : StronglySorted addr_le l → StronglySorted addr_lt (dedup l).
Proof.
  induction l as [|x l IH]; intros H; cbn [dedup]; [constructor|].
  apply StronglySorted_inv in H as [Hl Hx]. destruct l as [|y l]; [repeat constructor|].
  case_decide as E; [by apply IH|]. constructor; [by apply IH|].
  rewrite list.Forall_forall in *. intros z Hz. apply (proj1 (dedup_elem _ _)) in Hz.
  split; [by apply Hx|]. intros <-. apply E. apply addr_key_inj, lex_leb_antisym.
  - apply Hx. left.
  - apply elem_of_cons in Hz as [->|Hz]; [apply lex_leb_refl|].
    apply StronglySorted_inv in Hl as [_ Hy]. rewrite list.Forall_forall in Hy. by apply Hy.
Qed.

(** Best rank first, addresses of one rank in address order. *)
Definition rank_lt (a b : SocketAddr) : Prop :=
  addr_rank (ip a) < addr_rank (ip b) ∨ (addr_rank (ip a) = addr_rank (ip b) ∧ addr_lt a b).

Lemma sort_rank_sorted l :
  StronglySorted addr_lt l →
  StronglySorted rank_lt (sort_by (λ a b, addr_rank (ip a) <=? addr_rank (ip b)) l).
Proof.
  induction l as [|x l IH]; intros H; cbn; [constructor|].
  apply StronglySorted_inv in H as [Hl Hx]. apply insert_by_sorted; [| |by apply IH].
  - intros a b c [H1|[H1 K1]] [H2|[H2 K2]]; unfold rank_lt; try (left; lia).
    right. split; [lia|]. by eapply addr_lt_trans.
  - intros y Hy. change (foldr _ [] l) with (sort_by (λ a b, addr_rank (ip a) <=? addr_rank (ip b)) l) in Hy.
    rewrite sort_by_perm in Hy. rewrite list.Forall_forall in Hx. apply Hx in Hy.
    unfold rank_lt. destruct (_ <=? _) eqn:E; zsolve.
    destruct (decide (addr_rank (ip x) = addr_rank (ip y))); [by right|left; lia].
Qed.

Lemma rank_sorted_NoDup l : StronglySorted rank_lt l → NoDup l.
Proof.
  induction l as [|x l IH]; intros H; [constructor|]. apply StronglySorted_inv in H as [Hl Hx].
  constructor; [|by apply IH]. intros Hin. rewrite list.Forall_forall in Hx.
  apply Hx in Hin as [?|[_ [_ ?]]]; [lia|done].
Qed.

(** [sorted_dialable] returns exactly the dialable addresses of its
    input, each once, ordered best-first (IPv4, IPv6, IPv4 loopback, IPv6
    loopback) and by address within a rank. *)
Theorem sorted_dialable_spec addrs :
  (∀ a, a ∈ sorted_dialable addrs ↔ a ∈ addrs ∧ is_dialable (ip a) = true) ∧
  NoDup (sorted_dialable addrs) ∧
  StronglySorted rank_lt (sorted_dialable addrs).
Proof.
  assert (StronglySorted rank_lt (sorted_dialable addrs)) as Hs
    by apply sort_rank_sorted, dedup_addr_sorted, sort_addr_sorted.
  split_and!; [|by apply rank_sorted_NoDup|done].
  intros a. unfold sorted_dialable. rewrite sort_by_perm, dedup_elem, sort_by_perm.
  rewrite list_elem_of_filter. tauto.
Qed.

Example address_parsing :
  parse_socket_addr (lit "[::1]:51000") = Some (SocketAddr_new (V6 [0;0;0;0;0;0;0;1]) 51000) ∧
  parse_ip (lit "::ffff:1.2.3.4") = Some (V6 [0;0;0;0;0;0xffff;0x102;0x304]) ∧
  parse_ip (lit "01.2.3.4") = None ∧ parse_ip (lit "fe80::1%3") = None.
Proof. vm_compute. done. Qed.
