(* ===== verification/Peers.v ===== *)
(** * Peers: the registry of paired devices ([crates/qdrop-core/src/peers.rs])

    The [Peer] and [Peers] records, every lookup and update, the pinned key
    (base64 comes from a crate: interface [Base64]), the static address
    (name resolution is a parameter) and the file round trip.  The theorems:
    device ids stay unique under every operation, a lookup after an upsert
    finds the peer and leaves the others alone, a pinned key reads back, a
    saved registry loads back. *)
From S2P Require Import Prelude Text Frame Store Samples Net.

(** ** Base64 ([STANDARD_NO_PAD]) *)

Class Base64 := {
  b64_encode : bytes → str;
  b64_decode : str → option bytes;
}.
Class Base64Laws `{Base64} := {
  b64_roundtrip b : b64_decode (b64_encode b) = Some b;
  b64_graphic b : graphic (b64_encode b) = true;
}.

(** ** Data *)

Record Peer := mkPeer {
  peer_name : str;
  peer_device_id : str;
  peer_public_key : str;
  last_seen : option str;
  authorized : bool;
  macs : list str;
  peer_hostname : option str;
  address : option str;
}.

(** The document is its list of peers. *)
Abbreviation Peers := (list Peer).

#[export] Instance Peer_eq_dec : EqDecision Peer.
Proof. solve_decision. Defined.

Definition Peer_new `{Base64} (name device_id : str) (public_key : bytes) : Peer := {|
  peer_name := name;
  peer_device_id := device_id;
  peer_public_key := b64_encode public_key;
  last_seen := None;
  authorized := false;
  macs := [];
  peer_hostname := None;
  address := None;
|}.

Definition with_name (n : str) (p : Peer) : Peer :=
  mkPeer n (peer_device_id p) (peer_public_key p) (last_seen p) (authorized p) (macs p)
    (peer_hostname p) (address p).

(** ** [static_addrs]; [to_socket_addrs] is the system resolver *)

Definition static_addrs (to_socket_addrs : str → result ErrorKind (list SocketAddr)) (p : Peer)
    : list SocketAddr :=
  match trim <$> address p with
  | None | Some [] => []
  | Some raw =>
      match parse_socket_addr raw with
      | Some sa => [sa]
      | None =>
          match parse_ip raw with
          | Some i => [SocketAddr_new i DEFAULT_PORT]
          | None =>
              let last_part := match rsplit_once ":"%byte raw with Some (_, p) => p | None => raw end in
              let with_port := match parse_u16 last_part with
                               | Some _ => raw
                               | None => raw ++ lit ":" ++ dec DEFAULT_PORT
                               end in
              match to_socket_addrs with_port with Ok l => l | Err _ => [] end
          end
      end
  end.

(** ** [key_bytes] *)

Inductive KeyError := BadBase64 | NotThirtyTwo.

Definition key_bytes `{Base64} (p : Peer) : result KeyError bytes :=
  match b64_decode (trim (peer_public_key p)) with
  | None => Err BadBase64
  | Some raw => if (length raw =? 32)%nat then Ok raw else Err NotThirtyTwo
  end.

(** ** The file *)

(** What reading or writing one of the text files can report. *)
Inductive FileError := Parsing | Serializing | FileIo (k : ErrorKind).

Definition load_from `{Serde Peers} (s : fs) (p : path) : result FileError Peers :=
  match read_to_string s p with
  | Ok text => match deserialize text with Some ps => Ok ps | None => Err Parsing end
  | Err NotFound => Ok []
  | Err k => Err (FileIo k)
  end.

Definition save_to `{Serde Peers} (pid : Z) (s : fs) (ps : Peers) (p : path) : result FileError fs :=
  match serialize ps with
  | None => Err Serializing
  | Some text => map_err FileIo (write_atomic pid s p text)
  end.

(** ** Lookups and updates *)

Definition find (ps : Peers) (name : str) : option Peer :=
  lfind (λ p, bool_decide (peer_name p = name)) ps.
Definition find_by_id (ps : Peers) (id : str) : option Peer :=
  lfind (λ p, bool_decide (peer_device_id p = id)) ps.

(** [chars().take(6).collect()]. *)
Definition id_suffix (id : str) : str := utf8_encode (take 6 (chars id)).

Definition upsert (ps : Peers) (peer : Peer) : Peers :=
  let ps := base.filter (λ p, peer_device_id p ≠ peer_device_id peer) ps in
  let clash := existsb (λ p, bool_decide (peer_name p = peer_name peer)
                             && bool_decide (peer_device_id p ≠ peer_device_id peer)) ps in
  let peer := if clash then with_name (peer_name peer ++ lit "-" ++ id_suffix (peer_device_id peer)) peer
              else peer in
  ps ++ [peer].

Definition remove_by_name (ps : Peers) (name : str) : bool * Peers :=
  let before := length ps in
  let ps := base.filter (λ p, peer_name p ≠ name) ps in
  (negb (length ps =? before)%nat, ps).

(** [find_any_mut]: the caller updates the peer found, in place. *)
Definition matches_any (name_or_id : str) (p : Peer) : bool :=
  bool_decide (peer_name p = name_or_id) || bool_decide (peer_device_id p = name_or_id).
Definition find_any (ps : Peers) (name_or_id : str) : option Peer :=
  lfind (matches_any name_or_id) ps.
Definition update_any (ps : Peers) (name_or_id : str) (f : Peer → Peer) : Peers :=
  update_first (matches_any name_or_id) f ps.

Definition is_authorized (ps : Peers) (id : str) : bool :=
  match find_by_id ps id with Some p => authorized p | None => false end.

(** ** Invariant: device ids are unique *)

Definition peers_wf (ps : Peers) : Prop := NoDup (map peer_device_id ps).

Lemma peers_wf_filter (P : Peer → Prop) `{∀ p, Decision (P p)} ps :
  peers_wf ps → peers_wf (base.filter P ps).
Proof.
  unfold peers_wf. induction ps as [|p ps IH]; [done|]. cbn [map]. rewrite list.NoDup_cons.
  intros [Hp Hps]. rewrite list.filter_cons. case_decide; [|by apply IH]. cbn [map].
  constructor; [|by apply IH]. intros (q & Hq & Hin)%list_elem_of_fmap. apply Hp.
  apply list_elem_of_filter in Hin as [_ Hin]. apply list_elem_of_fmap. eauto.
Qed.

Lemma with_name_id n p : peer_device_id (with_name n p) = peer_device_id p.
Proof. done. Qed.

Lemma upsert_wf ps p : peers_wf ps → peers_wf (upsert ps p).
Proof.
  intros H. unfold upsert.
  assert (peer_device_id p ∉ map peer_device_id
    (base.filter (λ q, peer_device_id q ≠ peer_device_id p) ps)) as Hp.
  { intros (q & Hq & Hin)%list_elem_of_fmap. apply list_elem_of_filter in Hin as [Hne _]. congruence. }
  unfold peers_wf. rewrite map_app. apply list.NoDup_app. split_and!.
  - by apply (peers_wf_filter _ ps).
  - intros x Hx Hx'. apply Hp. cbn [map] in Hx'. apply list_elem_of_singleton in Hx'. subst x.
    by destruct (existsb _ _).
  - cbn [map]. apply list.NoDup_singleton.
Qed.

Lemma remove_wf ps n : peers_wf ps → peers_wf (remove_by_name ps n).2.
Proof. intros H. by apply peers_wf_filter. Qed.

Lemma update_any_wf ps n f :
  (∀ p, peer_device_id (f p) = peer_device_id p) → peers_wf ps → peers_wf (update_any ps n f).
Proof.
  intros Hf H. unfold peers_wf, update_any in *.
  replace (map peer_device_id (update_first (matches_any n) f ps)) with (map peer_device_id ps); [done|].
  clear H. induction ps as [|p ps IH]; [done|]. cbn [update_first map].
  destruct (matches_any n p); cbn [map]; congruence.
Qed.

#[export] Hint Resolve upsert_wf remove_wf update_any_wf : qd.

(** A registry built by the operations of the code. *)
Inductive built : Peers → Prop :=
| built_empty : built []
| built_upsert ps p : built ps → built (upsert ps p)
| built_remove ps n : built ps → built (remove_by_name ps n).2
| built_update ps n f :
    (∀ p, peer_device_id (f p) = peer_device_id p) → built ps → built (update_any ps n f).

(** Device ids stay unique: in every registry reachable from the empty one
    by [upsert], [remove_by_name] and in-place updates through [find_any_mut]
    that keep the id, each device id occurs at most once. *)
Theorem device_ids_unique ps : built ps → NoDup (map peer_device_id ps).
Proof. intros H. change (peers_wf ps). induction H; [apply base.NoDup_nil_2|qauto..]. Qed.

Lemma find_by_id_filter_ne ps id id' :
  id ≠ id' → find_by_id (base.filter (λ q, peer_device_id q ≠ id') ps) id = find_by_id ps id.
Proof.
  intros Hne. unfold find_by_id. induction ps as [|p ps IH]; [done|].
  rewrite list.filter_cons. case_decide as Hp; cbn [lfind]; [by rewrite IH|].
  rewrite bool_decide_eq_false_2; [done|]. congruence.
Qed.

(** Another device already has the new peer's name. *)
Definition name_taken (ps : Peers) (p : Peer) : Prop :=
  Exists (λ q, peer_name q = peer_name p ∧ peer_device_id q ≠ peer_device_id p) ps.

Lemma clash_spec ps p :
  existsb (λ q, bool_decide (peer_name q = peer_name p)
                && bool_decide (peer_device_id q ≠ peer_device_id p))
    (base.filter (λ q, peer_device_id q ≠ peer_device_id p) ps) = true ↔ name_taken ps p.
Proof.
  unfold name_taken. rewrite existsb_exists, list.Exists_exists. split.
  - intros (q & Hin%list_elem_of_In & Hq). apply list_elem_of_filter in Hin as [Hne Hin].
    apply andb_true_iff in Hq as [Hn%bool_decide_eq_true _]. eauto.
  - intros (q & Hin & Hn & Hne). exists q. rewrite !bool_decide_eq_true_2 by done.
    split; [|done]. apply list_elem_of_In, list_elem_of_filter. done.
Qed.

Lemma find_by_id_upsert ps p id :
  find_by_id (upsert ps p) id =
  if decide (id = peer_device_id p) then
    Some (if decide (name_taken ps p)
          then with_name (peer_name p ++ lit "-" ++ id_suffix (peer_device_id p)) p else p)
  else find_by_id ps id.
Proof.
  unfold upsert. pose proof (clash_spec ps p) as Hc. set (clash := existsb _ _) in *.
  assert ((if clash then with_name (peer_name p ++ lit "-" ++ id_suffix (peer_device_id p)) p else p)
    = if decide (name_taken ps p)
      then with_name (peer_name p ++ lit "-" ++ id_suffix (peer_device_id p)) p else p) as ->.
  { case_decide as Hn; [by rewrite (proj2 Hc Hn)|]. destruct clash; [|done]. by destruct Hn; apply Hc. }
  unfold find_by_id. rewrite lfind_app. destruct (decide (id = peer_device_id p)) as [->|Hid].
  - rewrite (proj2 (lfind_None _ _)).
    + cbn [lfind]. rewrite bool_decide_eq_true_2; [done|]. by case_decide.
    + intros q [Hq _]%list_elem_of_filter. by rewrite bool_decide_eq_false_2.
  - fold (find_by_id (base.filter (λ q, peer_device_id q ≠ peer_device_id p) ps) id).
    rewrite find_by_id_filter_ne by done. fold (find_by_id ps id).
    destruct (find_by_id ps id); [done|]. cbn [lfind].
    rewrite bool_decide_eq_false_2; [done|]. by case_decide.
Qed.

(** Looking up after [upsert]: the id just written is found with the key,
    authorisation and address given (its name carries a suffix exactly when
    another device has that name), and every other id is found as before. *)
Theorem upsert_find ps p id :
  find_by_id (upsert ps p) id =
  if decide (id = peer_device_id p) then
    Some (if decide (name_taken ps p)
          then with_name (peer_name p ++ lit "-" ++ id_suffix (peer_device_id p)) p else p)
  else find_by_id ps id.
Proof. apply find_by_id_upsert. Qed.

(** After [remove_by_name] the name is gone, and the boolean says whether it
    was there. *)
Lemma remove_by_name_spec ps n :
  find (remove_by_name ps n).2 n = None ∧
  ((remove_by_name ps n).1 = true ↔ is_Some (find ps n)).
Proof.
  unfold remove_by_name, find. cbn [fst snd]. split.
  - apply lfind_None. intros q [Hq _]%list_elem_of_filter. by rewrite bool_decide_eq_false_2.
  - rewrite negb_true_iff, Nat.eqb_neq. induction ps as [|p ps IH]; cbn [lfind].
    + split; [done|]. by intros [].
    + rewrite list.filter_cons. destruct (decide (peer_name p = n)) as [->|Hn].
      * rewrite decide_False by auto. rewrite bool_decide_eq_true_2 by done. split; [eauto|].
        intros _. pose proof (list.length_filter (λ q, peer_name q ≠ n) ps). cbn [length]. lia.
      * rewrite decide_True by done. rewrite bool_decide_eq_false_2 by done. rewrite <- IH.
        cbn [length]. lia.
Qed.

(** [find_any] prefers the first entry that matches either way, so a device
    whose id is another device's name is shadowed by the earlier entry. *)
Lemma find_any_Some ps x p : find_any ps x = Some p → p ∈ ps ∧ (peer_name p = x ∨ peer_device_id p = x).
Proof.
  intros [Hin Hm]%lfind_Some. split; [done|]. unfold matches_any in Hm.
  apply orb_true_iff in Hm as [H%bool_decide_eq_true|H%bool_decide_eq_true]; auto.
Qed.

Lemma is_authorized_spec ps id :
  peers_wf ps →
  is_authorized ps id = true ↔ ∃ p, p ∈ ps ∧ peer_device_id p = id ∧ authorized p = true.
Proof.
  intros Hwf. unfold is_authorized. split.
  - destruct (find_by_id ps id) as [p|] eqn:E; [|done].
    apply lfind_Some in E as [Hin Hid%bool_decide_eq_true]. eauto.
  - intros (p & Hin & Hid & Ha). unfold find_by_id. induction ps as [|q ps IH]; [by apply not_elem_of_nil in Hin|].
    unfold peers_wf in *. cbn [map lfind] in *. apply list.NoDup_cons in Hwf as [Hq Hwf].
    apply elem_of_cons in Hin as [->|Hin]; [by rewrite bool_decide_eq_true_2|].
    rewrite bool_decide_eq_false_2; [by apply IH|]. intros Heq. apply Hq.
    apply list_elem_of_fmap. exists p. by rewrite Heq.
Qed.

(** ** Keys *)

Section keys.
Context `{Base64, !Base64Laws}.

Lemma key_bytes_encoded p key :
  peer_public_key p = b64_encode key → length key = 32%nat → key_bytes p = Ok key.
Proof.
  intros Hp Hk. unfold key_bytes. rewrite Hp, trim_graphic by apply b64_graphic.
  rewrite b64_roundtrip. by rewrite Hk.
Qed.

(** The pinned key reads back: [key_bytes] of a peer made by [Peer::new]
    is the key it was made with, through base64 and trimming. *)
Theorem pinned_key_roundtrip name id key :
  length key = 32%nat → key_bytes (Peer_new name id key) = Ok key.
Proof. intros Hk. by apply key_bytes_encoded. Qed.

Lemma key_bytes_length p k : key_bytes p = Ok k → length k = 32%nat.
Proof.
  unfold key_bytes. destruct (b64_decode _) as [raw|]; [|done].
  destruct (length raw =? 32)%nat eqn:E; [|done]. intros [= <-]. by apply Nat.eqb_eq.
Qed.
End keys.

(** ** Save and load *)

Lemma peers_save_ok `{Serde Peers, !SerdeLaws Peers, !TextLaws Peers} pid s ps p s' :
  fs_wf s → save_to pid s ps p = Ok s' →
  load_from s' p = Ok ps ∧ fs_wf s' ∧ (mode <$> fs_stat s' p = Some mode_private).
Proof.
  intros Hs Hsave. unfold save_to in Hsave. destruct (serialize ps) as [text|] eqn:E; [|done].
  destruct (write_atomic pid s p text) as [s1|] eqn:Ew; [|done]. injection Hsave as <-.
  pose proof (write_atomic_ok pid s p text s1 Hs Ew) as [Hwf Hst]. split_and!; [|done|by rewrite Hst].
  unfold load_from. rewrite (write_atomic_read_to_string pid s p text s1) by (done || by eapply serialize_valid).
  by rewrite (deserialize_serialize ps text).
Qed.

(** What [save_to] writes, [load_from] reads back, and the file is private
    (mode 0600). *)
Theorem peers_save_load `{Serde Peers, !SerdeLaws Peers, !TextLaws Peers} pid s ps p s' :
  fs_wf s → save_to pid s ps p = Ok s' →
  load_from s' p = Ok ps ∧ fs_wf s' ∧ (mode <$> fs_stat s' p = Some mode_private).
Proof. apply peers_save_ok. Qed.

(** ** Static addresses *)

Lemma show_v4_graphic a b c d :
  Forall (λ x, 0 ≤ x ≤ u8_max) [a; b; c; d] → graphic (show_v4 a b c d) = true ∧ show_v4 a b c d ≠ [].
Proof.
  intros H. rewrite !list.Forall_cons in H. destruct H as (Ha & Hb & Hc & Hd & _).
  destruct (dec_value a) as (_ & Ga & Na); [lia|]. destruct (dec_value b) as (_ & Gb & _); [lia|].
  destruct (dec_value c) as (_ & Gc & _); [lia|]. destruct (dec_value d) as (_ & Gd & _); [lia|].
  unfold show_v4. rewrite !graphic_app.
  rewrite (digits_graphic (dec a)), (digits_graphic (dec b)), (digits_graphic (dec c)),
    (digits_graphic (dec d)) by done. split; [done|].
  by destruct (dec a).
Qed.

(** A static address written as a v4 literal is dialled as such: with its
    port when one is given, with the default port otherwise; the resolver is
    not asked. *)
Theorem static_addrs_v4 resolve peer a b c d p :
  Forall (λ x, 0 ≤ x ≤ u8_max) [a; b; c; d] → 0 ≤ p ≤ u16_max →
  (address peer = Some (show_v4 a b c d) →
   static_addrs resolve peer = [SocketAddr_new (V4 a b c d) DEFAULT_PORT]) ∧
  (address peer = Some (show_v4 a b c d ++ lit ":" ++ dec p) →
   static_addrs resolve peer = [SocketAddr_new (V4 a b c d) p]).
Proof.
  intros H Hp. destruct (show_v4_graphic a b c d H) as [Hg Hne].
  destruct (dec_value p) as (_ & Gp & _); [lia|]. split; intros Ha; unfold static_addrs; rewrite Ha.
  - cbn [fmap option_fmap option_map]. rewrite trim_graphic by done.
    destruct (parse_socket_addr_v4_bare a b c d H) as [H1 H2].
    destruct (show_v4 a b c d) as [|x raw]; [done|]. by rewrite H1, H2.
  - cbn [fmap option_fmap option_map].
    rewrite trim_graphic by (by rewrite !graphic_app, Hg, (digits_graphic (dec p))).
    pose proof (parse_socket_addr_v4_port a b c d p H Hp) as H1.
    destruct (show_v4 a b c d) as [|x raw]; [done|]. cbn [app] in *. by rewrite H1.
Qed.

(** ** Witnesses *)

(** Hexadecimal stands in for base64. *)
Definition unhex (b : byte) : Z := if bval b <? 58 then bval b - 48 else bval b - 87.
Fixpoint unhex_all (s : str) : option bytes :=
  match s with
  | [] => Some []
  | a :: b :: s' => cons (zbyte (unhex a * 16 + unhex b)) <$> unhex_all s'
  | _ => None
  end.
Definition hex_b64 : Base64 := {| b64_encode := generate; b64_decode := unhex_all |}.

Lemma unhex_hex_digit d : 0 ≤ d < 16 → unhex (hex_digit d) = d.
Proof.
  intros Hd. unfold unhex, hex_digit. destruct (d <? 10) eqn:E; zsolve;
    rewrite bval_zbyte_small by lia; zbool; lia.
Qed.

Lemma hex_b64_laws : @Base64Laws hex_b64.
Proof.
  split; cbn; unfold generate; intros b.
  - induction b as [|x b IH]; [done|]. cbn [map concat hex02 app unhex_all]. rewrite IH. cbn.
    pose proof (bval_range x). rewrite !unhex_hex_digit by zdm.
    do 2 f_equal. apply zbyte_eq. zdm.
  - induction b as [|x b IH]; [done|]. cbn [map concat hex02 app]. unfold graphic in *.
    cbn [forallb]. rewrite IH. pose proof (bval_range x).
    pose proof (hex_digit_hex (bval x / 16) ltac:(zdm)) as H1.
    pose proof (hex_digit_hex (bval x mod 16) ltac:(zdm)) as H2.
    unfold is_ascii_hexdigit, is_ascii_digit in *. lia.
Qed.

#[export] Instance Peer_countable : Countable Peer.
Proof.
  refine (inj_countable'
    (λ p, (peer_name p, peer_device_id p, peer_public_key p, last_seen p, authorized p, macs p,
           peer_hostname p, address p))
    (λ '(n, i, k, l, a, m, h, d), mkPeer n i k l a m h d) _).
  by intros [].
Defined.
Definition peers_serde : Serde Peers := countable_serde Peers.

Definition alice : Peer := @Peer_new hex_b64 (lit "box") (lit "id-a") (replicate 32 Byte.x01).
Definition bob : Peer := @Peer_new hex_b64 (lit "box") (lit "id-b") (replicate 32 Byte.x02).
Definition two_peers : Peers := upsert (upsert [] alice) bob.

Lemma two_peers_built : built two_peers.
Proof. unfold two_peers. do 2 constructor. constructor. Qed.

Lemma device_ids_unique_witness :
  map peer_name two_peers = [lit "box"; lit "box-id-b"] ∧ NoDup (map peer_device_id two_peers).
Proof. split; [vm_compute; reflexivity|]. apply (device_ids_unique two_peers two_peers_built). Defined.

Lemma pinned_key_roundtrip_witness :
  @key_bytes hex_b64 alice = Ok (replicate 32 Byte.x01).
Proof. apply (@pinned_key_roundtrip hex_b64 hex_b64_laws). reflexivity. Defined.

Lemma peers_save_load_witness :
  ∃ s', @save_to peers_serde 7 sample_fs two_peers sample_file = Ok s' ∧
        @load_from peers_serde s' sample_file = Ok two_peers.
Proof.
  eexists. split; [reflexivity|].
  destruct (@peers_save_load peers_serde (countable_serde_laws Peers) (countable_text_laws Peers)
    7 sample_fs two_peers sample_file _ sample_fs_wf eq_refl) as [H _].
  exact H.
Defined.

Lemma static_addrs_v4_witness :
  let p := mkPeer [] [] [] None false [] None (Some (lit "100.67.13.80:51000")) in
  static_addrs (λ _, Err NotFound) p = [SocketAddr_new (V4 100 67 13 80) 51000].
Proof.
  intros p. apply (static_addrs_v4 (λ _, Err NotFound) p 100 67 13 80 51000).
  - rewrite !list.Forall_cons. unfold u8_max. split_and!; try lia. apply list.Forall_nil. done.
  - unfold u16_max. lia.
  - vm_compute. reflexivity.
Defined.
