(* ===== verification/Trust.v ===== *)
(** * Trust: roster, identity and pinned TLS

    [crates/qdrop-core/src/roster.rs], [identity.rs], the certificate checks of
    [tls.rs] (the rest of it is [Tls]) and
    [crates/qdropd/src/secure.rs].  The roster is the pair of indexes rebuilt
    from [peers.toml]; a peer is accepted iff the raw key in its certificate
    is in it.  Certificates, key pairs and the TLS handshake belong to the
    crates [rcgen], [x509-parser] and [rustls]: interfaces, with the laws the
    code relies on.  The theorems follow trust from the file to an accepted
    connection. *)
From S2P Require Import Prelude Text Crypto Frame Store Samples Net Peers.

(** ** [roster.rs] *)

Record RosterPeer := mkRosterPeer {
  rp_device_id : str;
  rp_name : str;
  rp_public_key : bytes;
  rp_static_addrs : list SocketAddr;
}.

Record RosterInner := mkRoster {
  by_key : gmap bytes RosterPeer;
  by_id : gmap str bytes;
}.
Definition roster_empty : RosterInner := mkRoster ∅ ∅.

Definition is_trusted_key (r : RosterInner) (k : bytes) : bool := bool_decide (is_Some (by_key r !! k)).
Definition is_trusted_id (r : RosterInner) (id : str) : bool := bool_decide (is_Some (by_id r !! id)).
Definition key_for_id (r : RosterInner) (id : str) : option bytes := by_id r !! id.
Definition peer_for_key (r : RosterInner) (k : bytes) : option RosterPeer := by_key r !! k.
Definition roster_ids (r : RosterInner) : list str := (map_to_list (by_id r)).*1.
Definition static_addrs_for (r : RosterInner) (id : str) : list SocketAddr :=
  match by_id r !! id ≫= λ k, by_key r !! k with
  | Some p => rp_static_addrs p
  | None => []
  end.
Definition peers_with_static_addrs (r : RosterInner) : list (str * str * list SocketAddr) :=
  map (λ p, (rp_device_id p, rp_name p, rp_static_addrs p))
    (base.filter (λ p, rp_static_addrs p ≠ []) (map_to_list (by_key r)).*2).
Definition roster_len (r : RosterInner) : nat := size (by_id r).
Definition roster_is_empty (r : RosterInner) : bool := bool_decide (by_id r = ∅).

(** [replace]: clear both maps, then insert one peer after the other. *)
Definition roster_insert (r : RosterInner) (p : RosterPeer) : RosterInner :=
  mkRoster (<[rp_public_key p := p]> (by_key r)) (<[rp_device_id p := rp_public_key p]> (by_id r)).
Definition replace (r : RosterInner) (peers : list RosterPeer) : RosterInner :=
  foldl roster_insert (mkRoster ∅ ∅) peers.

Section load.
Context `{Base64}.
Variable to_socket_addrs : str → result ErrorKind (list SocketAddr).

(** Entries with unusable keys are skipped with a warning. *)
Definition roster_entry (p : Peer) : option RosterPeer :=
  match key_bytes p with
  | Ok key => Some (mkRosterPeer (peer_device_id p) (peer_name p) key (static_addrs to_socket_addrs p))
  | Err _ => None
  end.
Definition roster_load (r : RosterInner) (ps : Peers) : RosterInner :=
  replace r (omap roster_entry ps).
Definition from_peers (ps : Peers) : RosterInner := roster_load roster_empty ps.
End load.

(** ** [identity.rs] *)

(** [rcgen] key pairs and certificates, [x509-parser]'s view of them. *)
Class KeyPairs := {
  KeyPair : Type;
  from_pem : str → option KeyPair;
  serialize_pem : KeyPair → str;
  public_key_raw : KeyPair → bytes;
  self_signed : KeyPair → option bytes;
  x509_subject_key : bytes → option bytes;
}.
Class KeyPairLaws `{KeyPairs} := {
  pem_roundtrip k : from_pem (serialize_pem k) = Some k;
  pem_valid k : valid_str (serialize_pem k);
  public_key_length k : length (public_key_raw k) = 32%nat;
  cert_embeds_key k c : self_signed k = Some c → x509_subject_key c = Some (public_key_raw k);
}.

Inductive IdentityError := BadKey | CertFailed | IdentityIo (k : ErrorKind).

Section identity.
Context `{KeyPairs}.

Record Identity := mkIdentity { key_pair : KeyPair; cert_der : bytes }.

Definition from_key_pair (k : KeyPair) : result IdentityError Identity :=
  match self_signed k with
  | Some c => Ok (mkIdentity k c)
  | None => Err CertFailed
  end.

(** [Identity::load_or_create_at]; [fresh] is the key pair generated when the
    file is missing. *)
Definition identity_load_or_create_at (pid : Z) (s : fs) (p : path) (fresh : KeyPair)
    : result IdentityError Identity * fs :=
  match read_to_string s p with
  | Ok pem => match from_pem pem with
              | Some k => (from_key_pair k, s)
              | None => (Err BadKey, s)
              end
  | Err NotFound =>
      match write_atomic pid s p (serialize_pem fresh) with
      | Ok s' => (from_key_pair fresh, s')
      | Err k => (Err (IdentityIo k), s)
      end
  | Err k => (Err (IdentityIo k), s)
  end.

Definition public_key (i : Identity) : bytes := public_key_raw (key_pair i).
Definition cert_chain (i : Identity) : list bytes := [cert_der i].

Definition fingerprint_of `{Hashes} (key : bytes) : str :=
  let d := sha256 key in
  let b i := hex02 (nth i d Byte.x00) in
  b 0%nat ++ b 1%nat ++ lit "-" ++ b 2%nat ++ b 3%nat ++ lit "-" ++ b 4%nat ++ b 5%nat
  ++ lit "-" ++ b 6%nat ++ b 7%nat.

Definition fingerprint `{Hashes} (i : Identity) : str := fingerprint_of (public_key i).

(** ** [tls.rs] *)

Inductive CertError := BadEncoding | ApplicationVerificationFailure.

Definition peer_key_from_cert (cert : bytes) : option bytes :=
  match x509_subject_key cert with
  | None => None
  | Some spki => if (length spki =? 32)%nat then Some spki else None
  end.

Definition verify_server_cert (expect : bytes) (end_entity : bytes) : result CertError unit :=
  match peer_key_from_cert end_entity with
  | Some key => if ct_eq key expect then Ok tt else Err ApplicationVerificationFailure
  | None => Err BadEncoding
  end.

Definition verify_client_cert (r : RosterInner) (end_entity : bytes) : result CertError unit :=
  match peer_key_from_cert end_entity with
  | None => Err BadEncoding
  | Some key => if is_trusted_key r key then Ok tt else Err ApplicationVerificationFailure
  end.

(** ** [secure.rs] *)

(** How a [rustls] handshake ends: the certificates the peer presented. *)
Inductive TlsOutcome := TlsTimedOut | TlsFailed | TlsUp (peer_certs : list bytes).

Inductive SecureError :=
| HandshakeTimedOut | HandshakeFailed | NoCertificate | BadCertificate | NoLongerTrusted.

(** [rustls] runs the handshake of one connection with the verifier given. *)
Context (tls_handshake : (bytes → result CertError unit) → TlsOutcome).

Definition connect (expect : bytes) : result SecureError (list bytes) :=
  match tls_handshake (verify_server_cert expect) with
  | TlsTimedOut => Err HandshakeTimedOut
  | TlsFailed => Err HandshakeFailed
  | TlsUp certs => Ok certs
  end.

(** [r_hs] is the roster during the handshake, [r_now] the one at the recheck:
    it may have been reloaded in between. *)
Definition accept (r_hs r_now : RosterInner) : result SecureError bytes :=
  match tls_handshake (verify_client_cert r_hs) with
  | TlsTimedOut => Err HandshakeTimedOut
  | TlsFailed => Err HandshakeFailed
  | TlsUp [] => Err NoCertificate
  | TlsUp (cert :: _) =>
      match peer_key_from_cert cert with
      | None => Err BadCertificate
      | Some key => if is_trusted_key r_now key then Ok key else Err NoLongerTrusted
      end
  end.
End identity.

(** ** Lemmas: the roster *)

Lemma roster_insert_all r l :
  (∀ k, is_Some (by_key (foldl roster_insert r l) !! k) ↔
        is_Some (by_key r !! k) ∨ ∃ p, p ∈ l ∧ rp_public_key p = k) ∧
  (∀ id, is_Some (by_id (foldl roster_insert r l) !! id) ↔
        is_Some (by_id r !! id) ∨ ∃ p, p ∈ l ∧ rp_device_id p = id).
Proof.
  revert r. induction l as [|p l IH]; intros r; cbn [foldl].
  { split; intros x; set_solver. }
  destruct (IH (roster_insert r p)) as [Hk Hi]. split; intros x.
  - rewrite Hk. cbn [roster_insert by_key]. rewrite lookup_insert_is_Some'. set_solver.
  - rewrite Hi. cbn [roster_insert by_id]. rewrite lookup_insert_is_Some'. set_solver.
Qed.

(** The two indexes agree on what they hold. *)
Record roster_wf (r : RosterInner) : Prop := {
  wf_key k p : by_key r !! k = Some p → rp_public_key p = k;
  wf_id id k : by_id r !! id = Some k → is_Some (by_key r !! k);
}.

Lemma roster_insert_wf r p : roster_wf r → roster_wf (roster_insert r p).
Proof.
  intros [Hk Hi]. split; cbn.
  - intros k q [[<- <-]|[_ Hq]]%lookup_insert_Some; [done|]. by eapply Hk.
  - intros id k [[<- <-]|[_ Hq]]%lookup_insert_Some; apply lookup_insert_is_Some'; eauto.
Qed.

Lemma replace_wf r l : roster_wf (replace r l).
Proof.
  unfold replace. assert (roster_wf (mkRoster ∅ ∅)) as H0 by (by split).
  revert H0. generalize (mkRoster ∅ ∅). induction l as [|p l IH]; [done|].
  cbn [foldl]. intros r0 H0. by apply IH, roster_insert_wf.
Qed.

(** With distinct ids and keys, both indexes are exactly the list. *)
Lemma replace_lookup r l p :
  NoDup (map rp_public_key l) → NoDup (map rp_device_id l) → p ∈ l →
  by_key (replace r l) !! rp_public_key p = Some p ∧
  by_id (replace r l) !! rp_device_id p = Some (rp_public_key p).
Proof.
  unfold replace. generalize (mkRoster ∅ ∅) as r0. intros r0 Hk Hi Hp. revert r0.
  induction l as [|q l IH] using rev_ind; [by apply not_elem_of_nil in Hp|]. intros r0.
  rewrite foldl_app. cbn [foldl roster_insert by_key by_id].
  rewrite !map_app in *. cbn [map] in *.
  apply list.NoDup_app in Hk as (Hk & Hkq & _). apply list.NoDup_app in Hi as (Hi & Hiq & _).
  apply elem_of_app in Hp as [Hp| ->%list_elem_of_singleton]; [|by rewrite !lookup_insert_eq].
  destruct (IH Hk Hi Hp r0) as [H1 H2]. rewrite !lookup_insert_ne; [done|..].
  - intros Heq. apply (Hiq (rp_device_id p)); [by apply list_elem_of_fmap_2|]. rewrite Heq. left.
  - intros Heq. apply (Hkq (rp_public_key p)); [by apply list_elem_of_fmap_2|]. rewrite Heq. left.
Qed.

Section trust.
Context `{Base64}.
Variable to_socket_addrs : str → result ErrorKind (list SocketAddr).

Lemma roster_entry_Some p rp :
  roster_entry to_socket_addrs p = Some rp ↔
  key_bytes p = Ok (rp_public_key rp) ∧ rp_device_id rp = peer_device_id p ∧
  rp_name rp = peer_name p ∧ rp_static_addrs rp = static_addrs to_socket_addrs p.
Proof.
  unfold roster_entry. destruct (key_bytes p) as [k|]; [|naive_solver].
  destruct rp; cbn. split; [by intros [= -> -> -> ->]|]. naive_solver.
Qed.

Lemma trusted_key_iff r ps key :
  is_trusted_key (roster_load to_socket_addrs r ps) key = true ↔
  ∃ p, p ∈ ps ∧ key_bytes p = Ok key.
Proof.
  unfold roster_load, replace, is_trusted_key. rewrite bool_decide_eq_true.
  destruct (roster_insert_all (mkRoster ∅ ∅) (omap (roster_entry to_socket_addrs) ps)) as [Hk _].
  rewrite Hk. cbn. rewrite !lookup_empty. split.
  - intros [[? ?]|(rp & (p & Hp & Hrp)%list_elem_of_omap & <-)]; [done|].
    apply roster_entry_Some in Hrp as [? _]. eauto.
  - intros (p & Hp & Hkey). right.
    exists (mkRosterPeer (peer_device_id p) (peer_name p) key (static_addrs to_socket_addrs p)).
    split; [|done]. apply list_elem_of_omap. exists p. split; [done|]. by apply roster_entry_Some.
Qed.

Lemma trusted_id_iff r ps id :
  is_trusted_id (roster_load to_socket_addrs r ps) id = true ↔
  ∃ p, p ∈ ps ∧ peer_device_id p = id ∧ is_ok (key_bytes p) = true.
Proof.
  unfold roster_load, replace, is_trusted_id. rewrite bool_decide_eq_true.
  destruct (roster_insert_all (mkRoster ∅ ∅) (omap (roster_entry to_socket_addrs) ps)) as [_ Hi].
  rewrite Hi. cbn. rewrite !lookup_empty. split.
  - intros [[? ?]|(rp & (p & Hp & Hrp)%list_elem_of_omap & <-)]; [done|].
    apply roster_entry_Some in Hrp as (Hkb & Hid & _). exists p. rewrite Hkb. by split_and!.
  - intros (p & Hp & <- & Hok). destruct (key_bytes p) as [k|] eqn:E; [|done]. right.
    exists (mkRosterPeer (peer_device_id p) (peer_name p) k (static_addrs to_socket_addrs p)).
    split; [|done]. apply list_elem_of_omap. exists p. split; [done|]. by apply roster_entry_Some.
Qed.

(** Every entry of a roster comes from one of the file. *)
Lemma roster_load_entry r ps key rp :
  by_key (roster_load to_socket_addrs r ps) !! key = Some rp →
  ∃ p, p ∈ ps ∧ rp_device_id rp = peer_device_id p ∧ key_bytes p = Ok key.
Proof.
  unfold roster_load, replace. set (l := omap _ ps). intros Hk.
  assert (rp ∈ l ∧ rp_public_key rp = key) as [Hrp <-].
  { assert (∀ r0, by_key (foldl roster_insert r0 l) !! key = Some rp →
      by_key r0 !! key = Some rp ∨ rp ∈ l ∧ rp_public_key rp = key) as Hall.
    { clear. induction l as [|q l IH]; intros r0; cbn [foldl]; [by left|]. intros [Hq|[? ?]]%IH.
      - cbn in Hq. apply lookup_insert_Some in Hq as [[<- <-]|[_ Hq]]; [right; by split; [left|]|by left].
      - right. by split; [right|]. }
    destruct (Hall _ Hk) as [Hx|Hx]; [cbn in Hx; by rewrite lookup_empty in Hx|done]. }
  apply list_elem_of_omap in Hrp as (p & Hp & (Hkb & Hid & _)%roster_entry_Some). by exists p.
Qed.

(** Trust is exactly the file: after (re)loading from a [peers.toml]
    document, whatever the roster held before, a key is trusted iff it is the
    pinned key of some entry, and a device id iff some entry with a usable key
    has it; both indexes agree.  Nothing of the previous roster survives. *)
Theorem roster_load_exact r ps key id :
  (is_trusted_key (roster_load to_socket_addrs r ps) key = true ↔
     ∃ p, p ∈ ps ∧ key_bytes p = Ok key) ∧
  (is_trusted_id (roster_load to_socket_addrs r ps) id = true ↔
     ∃ p, p ∈ ps ∧ peer_device_id p = id ∧ is_ok (key_bytes p) = true) ∧
  (∀ k, key_for_id (roster_load to_socket_addrs r ps) id = Some k →
     is_trusted_key (roster_load to_socket_addrs r ps) k = true).
Proof.
  split_and!; [apply trusted_key_iff|apply trusted_id_iff|].
  intros k Hk. apply bool_decide_eq_true. by apply (wf_id _ (replace_wf _ _) id).
Qed.
End trust.

(** ** Identity and pinning *)

Section pinning.
Context `{KeyPairs, !KeyPairLaws}.

Lemma public_key_32 i : length (public_key i) = 32%nat.
Proof. apply public_key_length. Qed.

Lemma peer_key_from_own_cert k i : from_key_pair k = Ok i → peer_key_from_cert (cert_der i) = Some (public_key i).
Proof.
  unfold from_key_pair. destruct (self_signed k) as [c|] eqn:E; [|done]. intros [= <-].
  unfold peer_key_from_cert, public_key; cbn. rewrite (cert_embeds_key k c) by done.
  by rewrite public_key_length.
Qed.

Lemma peer_key_from_cert_length c k : peer_key_from_cert c = Some k → length k = 32%nat.
Proof.
  unfold peer_key_from_cert. destruct (x509_subject_key c); [|done].
  destruct (_ =? _)%nat eqn:E; [|done]. intros [= <-]. by apply Nat.eqb_eq.
Qed.

Lemma identity_load_stable pid pid' s p fresh fresh' i s' :
  fs_wf s → identity_load_or_create_at pid s p fresh = (Ok i, s') →
  identity_load_or_create_at pid' s' p fresh' = (Ok i, s') ∧
  (fs_exists s p = false → mode <$> fs_stat s' p = Some mode_private).
Proof.
  intros Hs Hl. unfold identity_load_or_create_at in Hl |- *.
  destruct (read_to_string s p) as [pem|k] eqn:E.
  - destruct (from_pem pem) as [kp|] eqn:Ep; [|done]. injection Hl as Hl <-.
    rewrite E, Ep, Hl. split; [done|]. intros Hx. unfold read_to_string, fs_read, fs_stat in E.
    apply bool_decide_eq_false, eq_None_not_Some in Hx. by rewrite Hx in E.
  - destruct k; try done. destruct (write_atomic pid s p (serialize_pem fresh)) as [s1|] eqn:Ew; [|done].
    injection Hl as Hl <-.
    rewrite (write_atomic_read_to_string pid s p (serialize_pem fresh) s1) by (done || apply pem_valid).
    rewrite pem_roundtrip, Hl. split; [done|]. intros _.
    by destruct (write_atomic_ok pid s p _ s1 Hs Ew) as [_ ->].
Qed.

Lemma identity_loaded pid s p fresh i s' :
  fs_wf s → identity_load_or_create_at pid s p fresh = (Ok i, s') →
  ∃ pem k, read_to_string s' p = Ok pem ∧ from_pem pem = Some k ∧ from_key_pair k = Ok i.
Proof.
  intros Hs Hl. unfold identity_load_or_create_at in Hl. destruct (read_to_string s p) as [pem|e] eqn:E.
  - destruct (from_pem pem) as [k|] eqn:Ep; [|done]. injection Hl as Hl <-. eauto.
  - destruct e; try done. destruct (write_atomic pid s p (serialize_pem fresh)) as [s1|] eqn:Ew; [|done].
    injection Hl as Hl <-. exists (serialize_pem fresh), fresh.
    rewrite (write_atomic_read_to_string pid s p _ s1) by (done || apply pem_valid). split_and!; [done| |done].
    apply pem_roundtrip.
Qed.

(** Loading touches the key file and its temporary name only. *)
Lemma identity_load_other pid s p fresh q :
  fs_wf s → let s' := (identity_load_or_create_at pid s p fresh).2 in
  fs_wf s' ∧ (q ≠ p → q ≠ default [] (parent p) ++ [Normal (tmp_name p pid)] → fs_stat s' q = fs_stat s q).
Proof.
  intros Hs. unfold identity_load_or_create_at. destruct (read_to_string s p) as [pem|[]]; try done.
  - by destruct (from_pem pem).
  - destruct (write_atomic pid s p (serialize_pem fresh)) as [s1|] eqn:Ew; [|done]. split.
    + by eapply write_atomic_ok.
    + by apply (write_atomic_other pid s p (serialize_pem fresh)).
Qed.

(** The identity is stable and private: whatever [load_or_create_at]
    returns, the next start returns an identity with the same public key, and
    a newly created key file has mode 0600. *)
Theorem identity_stable pid pid' s p fresh fresh' i s' :
  fs_wf s → identity_load_or_create_at pid s p fresh = (Ok i, s') →
  identity_load_or_create_at pid' s' p fresh' = (Ok i, s') ∧
  (fs_exists s p = false → mode <$> fs_stat s' p = Some mode_private).
Proof. apply identity_load_stable. Qed.


(** What [rustls] guarantees of a completed handshake with a custom verifier:
    the end-entity certificate presented was accepted by it. *)
Variable tls_handshake : (bytes → result CertError unit) → TlsOutcome.
Hypothesis handshake_verified :
  ∀ v cert certs, tls_handshake v = TlsUp (cert :: certs) → v cert = Ok tt.

(** Only paired devices get through: a connection that [accept] returns
    carries a key that was in the roster during the handshake and still is at
    the recheck; when the roster in force was loaded from a peers file, that
    key is pinned by an entry of that file.  A connection that [connect]
    returns presents exactly the expected key. *)
Theorem secure_only_paired `{Base64} resolve ps r_old r_hs expect :
  length expect = 32%nat →
  (∀ key, accept tls_handshake r_hs (roster_load resolve r_old ps) = Ok key →
     is_trusted_key r_hs key = true ∧ ∃ p, p ∈ ps ∧ key_bytes p = Ok key) ∧
  (∀ cert certs, connect tls_handshake expect = Ok (cert :: certs) →
     peer_key_from_cert cert = Some expect).
Proof.
  intros He. split.
  - intros key Ha. unfold accept in Ha.
    destruct (tls_handshake (verify_client_cert r_hs)) as [| |[|cert certs]] eqn:E; try done.
    destruct (peer_key_from_cert cert) as [k|] eqn:Ek; [|done].
    destruct (is_trusted_key (roster_load _ _ _) k) eqn:Et; [|done]. injection Ha as ->. split.
    + apply handshake_verified in E. unfold verify_client_cert in E. rewrite Ek in E.
      by destruct (is_trusted_key r_hs key).
    + by apply (trusted_key_iff resolve) in Et.
  - intros cert certs Hc. unfold connect in Hc.
    destruct (tls_handshake (verify_server_cert expect)) as [| |l] eqn:E; try done.
    injection Hc as ->. apply handshake_verified in E. unfold verify_server_cert in E.
    destruct (peer_key_from_cert cert) as [k|] eqn:Ek; [|done].
    destruct (ct_eq k expect) eqn:Ec; [|done]. apply ct_eq_iff in Ec; [by subst|..|done].
    by eapply peer_key_from_cert_length.
Qed.
End pinning.

(** ** Witnesses *)

(** Two key pairs, with the raw key as certificate. *)
Definition sample_key (b : bool) : bytes := replicate 32 (if b then Byte.x01 else Byte.x02).
Definition sample_keys : KeyPairs := {|
  KeyPair := bool;
  from_pem s := if decide (s = lit "A") then Some true
                else if decide (s = lit "B") then Some false else None;
  serialize_pem b := if b then lit "A" else lit "B";
  public_key_raw := sample_key;
  self_signed b := Some (sample_key b);
  x509_subject_key c := Some c;
|}.

Lemma sample_key_laws : @KeyPairLaws sample_keys.
Proof.
  split.
  - by intros [].
  - intros []; apply valid_ascii; done.
  - by intros [].
  - intros k c [= <-]. done.
Qed.

Definition no_resolver : str → result ErrorKind (list SocketAddr) := λ _, Err NotFound.
Definition sample_roster : RosterInner := @from_peers hex_b64 no_resolver [alice].

Lemma identity_stable_witness :
  let p := sample_dir ++ [Normal (lit "identity.pem")] in
  ∃ s', @identity_load_or_create_at sample_keys 7 sample_fs p true
        = (Ok (@mkIdentity sample_keys true (sample_key true)), s') ∧
        @identity_load_or_create_at sample_keys 8 s' p false
        = (Ok (@mkIdentity sample_keys true (sample_key true)), s').
Proof.
  intros p. eexists. split; [reflexivity|].
  destruct (@identity_stable sample_keys sample_key_laws 7 8 sample_fs p true false _ _
    sample_fs_wf eq_refl) as [H _].
  exact H.
Defined.


(** A handshake in which the peer presents the first key. *)
Definition sample_handshake (v : bytes → result CertError unit) : TlsOutcome :=
  if is_ok (v (sample_key true)) then TlsUp [sample_key true] else TlsFailed.

Lemma sample_handshake_verified v cert certs :
  sample_handshake v = TlsUp (cert :: certs) → v cert = Ok tt.
Proof.
  unfold sample_handshake. destruct (v (sample_key true)) as [[]|] eqn:E; cbn; [|done].
  by intros [= <- <-].
Qed.

Lemma secure_only_paired_witness :
  @accept sample_keys sample_handshake sample_roster sample_roster = Ok (sample_key true) ∧
  ∃ p, p ∈ [alice] ∧ @key_bytes hex_b64 p = Ok (sample_key true).
Proof.
  split; [vm_compute; reflexivity|].
  destruct (@secure_only_paired sample_keys sample_handshake
    sample_handshake_verified hex_b64 no_resolver [alice] roster_empty sample_roster (sample_key true)
    eq_refl) as [H _].
  destruct (H (sample_key true)) as [_ H2]; [vm_compute; reflexivity|exact H2].
Defined.
