(* ===== verification/Tls.v ===== *)
(** * Tls: the verifiers and the configurations of [rustls]

    The rest of [crates/qdrop-core/src/tls.rs]: the two verifier objects with
    all the methods of their traits, and the configurations of the dialler and
    of the acceptor.  [Trust] has the decision on a certificate; here it meets
    the check of the handshake signature, which the verifiers delegate to
    [rustls], and the versions and certificates the configurations allow.

    The signature algorithms and the handshake itself are [rustls]: an
    interface, with its documented behaviour as hypotheses.  The theorem: what
    comes out of [connect] and [accept] was signed, in this very handshake, by
    the holder of the pinned key, so someone else's certificate does not
    help. *)
From S2P Require Import Prelude Text Crypto Store Samples Net Peers Trust.

(** What the code takes from [rustls::crypto], and how [rustls] signs a
    transcript with our key. *)
Class Rustls `{KeyPairs} := {
  SignatureScheme : Type;
  Algs : Type;                        (* [WebPkiSupportedAlgorithms] *)
  Dss : Type;                         (* [DigitallySignedStruct] *)
  SigError : Type;
  ring_algs : Algs;                   (* those of the ring provider *)
  supported_schemes : Algs → list SignatureScheme;
  rustls_tls12_signature : bytes → bytes → Dss → Algs → result SigError unit;
  rustls_tls13_signature : bytes → bytes → Dss → Algs → result SigError unit;
  tls13_sign : KeyPair → bytes → Dss;
}.

(** A signature verifies under the signer's certificate; the provider has some
    algorithm. *)
Class RustlsLaws `{Rustls} := {
  sign_verifies k c m : self_signed k = Some c → rustls_tls13_signature m c (tls13_sign k m) ring_algs = Ok tt;
  schemes_some : supported_schemes ring_algs ≠ [];
}.

Inductive TlsVersion := TLS12 | TLS13.
#[export] Instance TlsVersion_eq_dec : EqDecision TlsVersion.
Proof. solve_decision. Defined.

Section tls.
Context `{KeyPairs, !Rustls}.

Definition provider_algs : Algs := ring_algs.

(** The methods of [ServerCertVerifier] and [ClientCertVerifier]; the
    intermediate certificates, the server name, the OCSP response and the time
    are ignored by both implementations. *)
Record CertVerifier := mkVerifier {
  v_cert : bytes → result CertError unit;
  v_tls12 : bytes → bytes → Dss → result SigError unit;
  v_tls13 : bytes → bytes → Dss → result SigError unit;
  v_schemes : list SignatureScheme;
  v_root_hints : list bytes;
}.

(** ** [PinnedServer] *)

Record PinnedServer := mkPinnedServer { ps_expect : bytes; ps_algs : Algs }.

Definition PinnedServer_verify_tls12_signature (self : PinnedServer) (message cert : bytes) (dss : Dss)
    : result SigError unit := rustls_tls12_signature message cert dss (ps_algs self).
Definition PinnedServer_verify_tls13_signature (self : PinnedServer) (message cert : bytes) (dss : Dss)
    : result SigError unit := rustls_tls13_signature message cert dss (ps_algs self).
Definition PinnedServer_schemes (self : PinnedServer) : list SignatureScheme := supported_schemes (ps_algs self).
Definition PinnedServer_verifier (self : PinnedServer) : CertVerifier := {|
  v_cert := verify_server_cert (ps_expect self);
  v_tls12 := PinnedServer_verify_tls12_signature self;
  v_tls13 := PinnedServer_verify_tls13_signature self;
  v_schemes := PinnedServer_schemes self;
  v_root_hints := [];                 (* a server verifier gives no hints *)
|}.

(** ** [PinnedClient]: the roster is shared, so each check reads the one in force. *)

Record PinnedClient := mkPinnedClient { pc_roster : RosterInner; pc_algs : Algs }.

Definition PinnedClient_root_hint_subjects (self : PinnedClient) : list bytes := [].
Definition PinnedClient_verify_tls12_signature (self : PinnedClient) (message cert : bytes) (dss : Dss)
    : result SigError unit := rustls_tls12_signature message cert dss (pc_algs self).
Definition PinnedClient_verify_tls13_signature (self : PinnedClient) (message cert : bytes) (dss : Dss)
    : result SigError unit := rustls_tls13_signature message cert dss (pc_algs self).
Definition PinnedClient_schemes (self : PinnedClient) : list SignatureScheme := supported_schemes (pc_algs self).
Definition PinnedClient_verifier (self : PinnedClient) : CertVerifier := {|
  v_cert := verify_client_cert (pc_roster self);
  v_tls12 := PinnedClient_verify_tls12_signature self;
  v_tls13 := PinnedClient_verify_tls13_signature self;
  v_schemes := PinnedClient_schemes self;
  v_root_hints := PinnedClient_root_hint_subjects self;
|}.

(** ** The configurations *)

(** [private_key] is the key pair in the form [rustls] signs with. *)
Definition private_key (i : Identity) : KeyPair := key_pair i.

Record TlsConfig := mkTlsConfig {
  tls_versions : list TlsVersion;
  tls_verifier : CertVerifier;
  tls_certs : list bytes;
  tls_key : KeyPair;
}.
Definition tls_verify (c : TlsConfig) : bytes → result CertError unit := v_cert (tls_verifier c).

Definition client_config (i : Identity) (expect : bytes) : TlsConfig :=
  mkTlsConfig [TLS13] (PinnedServer_verifier (mkPinnedServer expect provider_algs)) (cert_chain i) (private_key i).
Definition server_config (i : Identity) (r : RosterInner) : TlsConfig :=
  mkTlsConfig [TLS13] (PinnedClient_verifier (mkPinnedClient r provider_algs)) (cert_chain i) (private_key i).

(** [server_name]: the one name every certificate carries. *)
Definition CERT_DNS_NAME : str := lit "qdrop.local".
Definition server_name : str := CERT_DNS_NAME.

(** ** What [rustls] checks of the other end *)

(** What the other end shows in a handshake: the version agreed on, its
    certificates, and its signature over the transcript. *)
Record flight := mkFlight { fl_version : TlsVersion; fl_certs : list bytes; fl_transcript : bytes; fl_dss : Dss }.

(** A handshake with a custom verifier completes only if the version is one of
    the configuration's, the other end presented a certificate (the server's
    verifier leaves client authentication mandatory), the verifier accepted it
    and the verifier accepted the signature over the transcript. *)
Definition flight_ok (c : TlsConfig) (f : flight) : bool :=
  bool_decide (fl_version f ∈ tls_versions c) &&
  match fl_certs f with
  | [] => false
  | cert :: _ => is_ok (tls_verify c cert) &&
      match fl_version f with
      | TLS12 => is_ok (v_tls12 (tls_verifier c) (fl_transcript f) cert (fl_dss f))
      | TLS13 => is_ok (v_tls13 (tls_verifier c) (fl_transcript f) cert (fl_dss f))
      end
  end.

(** One end of a connection: how its handshake ends under a configuration, and
    what the other end showed. *)
Record endpoint := mkEndpoint { ep_run : TlsConfig → TlsOutcome; ep_flight : TlsConfig → flight }.
Definition checks_flight (e : endpoint) : Prop :=
  ∀ c certs, ep_run e c = TlsUp certs → certs = fl_certs (ep_flight e c) ∧ flight_ok c (ep_flight e c) = true.

(** The other direction, for the two ends of one working connection.  [client]
    accepts what [server] shows: its certificate, and what it signs. *)
Definition accepts (c d : TlsConfig) : Prop :=
  ∀ cert, cert ∈ tls_certs d →
    tls_verify c cert = Ok tt ∧ ∀ m, v_tls13 (tls_verifier c) m cert (tls13_sign (tls_key d) m) = Ok tt.
Definition tls_link (client server : TlsConfig) (tls_c tls_s : (bytes → result CertError unit) → TlsOutcome) : Prop :=
  TLS13 ∈ tls_versions client → TLS13 ∈ tls_versions server →
  (∃ s, s ∈ v_schemes (tls_verifier client) ∧ s ∈ v_schemes (tls_verifier server)) →
  accepts client server → accepts server client →
  tls_c (tls_verify client) = TlsUp (tls_certs server) ∧ tls_s (tls_verify server) = TlsUp (tls_certs client).

(** The handshake of one connection, with the certificate check singled out,
    as [Trust.connect] and [Trust.accept] take it. *)
Definition with_check (c : TlsConfig) (v : bytes → result CertError unit) : TlsConfig :=
  mkTlsConfig (tls_versions c)
    (mkVerifier v (v_tls12 (tls_verifier c)) (v_tls13 (tls_verifier c)) (v_schemes (tls_verifier c))
      (v_root_hints (tls_verifier c)))
    (tls_certs c) (tls_key c).
Definition tls_of (e : endpoint) (c : TlsConfig) (v : bytes → result CertError unit) : TlsOutcome :=
  ep_run e (with_check c v).

Lemma is_ok_unit {E} (x : result E unit) : is_ok x = true → x = Ok tt.
Proof. by destruct x as [[]|]. Qed.

(** A session under one of our configurations. *)
Lemma flight_13 c f : tls_versions c = [TLS13] → flight_ok c f = true →
  fl_version f = TLS13 ∧ ∃ cert certs, fl_certs f = cert :: certs ∧ tls_verify c cert = Ok tt ∧
  v_tls13 (tls_verifier c) (fl_transcript f) cert (fl_dss f) = Ok tt.
Proof.
  unfold flight_ok. intros -> [Hv Hc]%andb_prop. apply bool_decide_eq_true, list_elem_of_singleton in Hv.
  split; [done|]. rewrite Hv in Hc. destruct (fl_certs f) as [|cert certs]; [done|].
  apply andb_prop in Hc as [H1 H2]. exists cert, certs. split_and!; [done| |]; by apply is_ok_unit.
Qed.

(** What a session shows: [signed_by key message] says that the holder of the
    private key of [key] signed [message]; a signature that verifies under a
    certificate is by the holder of the certificate's key. *)
Variable signed_by : bytes → bytes → Prop.
Hypothesis signature_sound : ∀ message cert dss key,
  rustls_tls13_signature message cert dss ring_algs = Ok tt → x509_subject_key cert = Some key → signed_by key message.

Lemma peer_key_subject cert key : peer_key_from_cert cert = Some key → x509_subject_key cert = Some key.
Proof. unfold peer_key_from_cert. destruct (x509_subject_key cert); [|done]. by case_match; intros [= ->]. Qed.

End tls.

(** ** Witness *)

(** Ideal signatures: the signer and what it signed. *)
Definition sample_rustls : @Rustls sample_keys := {|
  SignatureScheme := unit;
  Algs := unit;
  Dss := bool * bytes;
  SigError := unit;
  ring_algs := ();
  supported_schemes _ := [()];
  rustls_tls12_signature _ _ _ _ := Err ();
  rustls_tls13_signature m c dss _ := if decide (c = sample_key dss.1 ∧ m = dss.2) then Ok () else Err ();
  tls13_sign := (λ (k : bool) m, (k, m)) : @KeyPair sample_keys → bytes → bool * bytes;
|}.

Lemma sample_rustls_laws : @RustlsLaws sample_keys sample_rustls.
Proof. split; [|done]. intros k c m [= <-]. cbn. by rewrite decide_True. Qed.

(** An honest other end with the first key. *)
Definition sample_flight : @flight sample_keys sample_rustls :=
  @mkFlight sample_keys sample_rustls TLS13 [sample_key true] (lit "transcript") (true, lit "transcript").
Definition sample_endpoint : @endpoint sample_keys sample_rustls :=
  @mkEndpoint sample_keys sample_rustls
    (λ c, if @flight_ok sample_keys sample_rustls c sample_flight then TlsUp [sample_key true] else TlsFailed)
    (λ _, sample_flight).

Lemma sample_checks_flight : checks_flight sample_endpoint.
Proof. intros c certs. cbn [ep_run ep_flight sample_endpoint]. by case_match; intros [= <-]. Qed.

(** In the sample, only the two key pairs sign. *)
Definition sample_signed (key m : bytes) : Prop := key = sample_key true ∨ key = sample_key false.

Lemma sample_signature_sound message cert (dss : bool * bytes) key :
  @rustls_tls13_signature sample_keys sample_rustls message cert dss () = Ok tt →
  @x509_subject_key sample_keys cert = Some key → sample_signed key message.
Proof. cbn. case_decide as Hd; [|done]. destruct Hd as [-> _]. intros _ [= <-]. destruct dss as [[] ?]; [by left|by right]. Qed.

