(* ===== verification/Connection.v ===== *)
(** * Connection: one live peer link ([crates/qdropd/src/connection.rs])

    [handshake] on the two halves of a stream; the reader task that turns the
    stream into a queue of frames; the [run] loop as a step function whose
    order of tests is the order of the [biased] select.  Time is in
    milliseconds.  Between two turns of the loop the environment may let time
    pass, deliver frames and push messages.

    The theorems: the handshake's outcome on every greeting and that both
    sides compute the same capabilities; the reader terminates; whatever the
    schedule, application messages cross the link in order, exactly once, and
    keepalives never reach the application; the idle deadline is measured
    from the last frame the loop received. *)
From S2P Require Import Prelude Text Proto Frame Samples.

Record KeepAlive := mkKeepAlive {
  ka_interval : Z;
  idle_timeout : Z;
  handshake_timeout : Z;
}.
Definition KeepAlive_default : KeepAlive := mkKeepAlive 15000 45000 10000.

Inductive DisconnectReason :=
| PeerClosed | IdleTimeout | WriteError | ProtocolError (e : FrameError).

Record Handshake := mkHandshake { hs_peer : Hello; effective_caps : Caps }.

Inductive HandshakeError :=
| HsTimeout
| VersionMismatch (ours their : Z)
| IdentityMismatch
| HsIo (k : ErrorKind)
| HsUnexpected (m : Message)
| HsFrame (e : FrameError).

Section connection.
Context `{Serde Message}.

(** ** [handshake] *)

(** [w] and [r] are the two directions of the stream; [elapsed] says that the
    limit passed before the exchange was complete. *)
Definition handshake (elapsed : bool) (w : Writer) (r : Reader) (local : Hello)
    (expect_id : option str) : result HandshakeError Handshake * Writer * Reader :=
  if elapsed then (Err HsTimeout, w, r)
  else match write_message w (MHello local) with
  | (Err k, w1) => (Err (HsIo k), w1, r)
  | (Ok _, w1) =>
      match read_message r with
      | (Err e, r1) => (Err (HsFrame e), w1, r1)
      | (Ok (MHello peer), r1) =>
          if negb (protocol_version peer =? PROTOCOL_VERSION)
          then (Err (VersionMismatch PROTOCOL_VERSION (protocol_version peer)), w1, r1)
          else if match expect_id with
                  | Some id => bool_decide (hello_device_id peer ≠ id)
                  | None => false
                  end
          then (Err IdentityMismatch, w1, r1)
          else (Ok (mkHandshake peer (intersect (hello_caps local) (hello_caps peer))), w1, r1)
      | (Ok other, r1) => (Err (HsUnexpected other), w1, r1)
      end
  end.

(** ** The reader task *)

(** What it puts on the channel; [FErr None] is the empty string it sends for
    an orderly disconnect. *)
Inductive frame_item := FMsg (m : Message) | FErr (e : option FrameError).

(** One [read_message] per turn, until it fails.  Each success consumes at
    least the four length bytes, so [length (avail r)] turns are enough. *)
Fixpoint reader_task (fuel : nat) (r : Reader) : list frame_item :=
  match fuel with
  | O => []
  | S fuel' =>
      match read_message r with
      | (Ok m, r') => FMsg m :: reader_task fuel' r'
      | (Err e, _) => [FErr (if is_disconnect e then None else Some e)]
      end
  end.

(** ** [run] *)

Record conn := mkConn {
  now : Z;
  next_ping : Z;                     (* the interval's next deadline *)
  idle_deadline : Z;
  seq : Z;
  frames : list frame_item;          (* queued by the reader task *)
  frames_closed : bool;              (* the reader task is gone *)
  outbound : list Message;           (* queued by the application *)
  outbound_closed : bool;
  wr : Writer;
  inbound : list (str * Message);    (* handed to the application, in order *)
  inbound_closed : bool;
}.

Inductive turn := Break (reason : DisconnectReason) | Continue (c : conn) | Pending.

Definition set_wr (c : conn) (w : Writer) : conn :=
  mkConn (now c) (next_ping c) (idle_deadline c) (seq c) (frames c) (frames_closed c)
    (outbound c) (outbound_closed c) w (inbound c) (inbound_closed c).

(** [if write_message(..).is_err() { break WriteError }]. *)
Definition write_or_break (c : conn) (m : Message) : turn :=
  match write_message (wr c) m with
  | (Ok _, w) => Continue (set_wr c w)
  | (Err _, _) => Break WriteError
  end.

(** [Interval::tick] with [MissedTickBehavior::Delay]: a tick more than 5 ms
    late restarts the period from now. *)
Definition tick_next (ka : KeepAlive) (c : conn) : Z :=
  if next_ping c + 5 <? now c then now c + ka_interval ka else next_ping c + ka_interval ka.

Definition on_frame (ka : KeepAlive) (peer_id : str) (c : conn) (msg : Message) : turn :=
  let c := mkConn (now c) (next_ping c) (now c + idle_timeout ka) (seq c) (frames c)
             (frames_closed c) (outbound c) (outbound_closed c) (wr c) (inbound c) (inbound_closed c) in
  match msg with
  | Ping s => write_or_break c (Pong s)
  | Pong _ => Continue c
  | MHello _ => Continue c
  | other =>
      if inbound_closed c then Break PeerClosed
      else Continue (mkConn (now c) (next_ping c) (idle_deadline c) (seq c) (frames c)
             (frames_closed c) (outbound c) (outbound_closed c) (wr c)
             (inbound c ++ [(peer_id, other)]) (inbound_closed c))
  end.

(** One turn of the loop: the arms in the order of the [biased] select, the
    first one that is ready runs. *)
Definition run_turn (ka : KeepAlive) (peer_id : str) (c : conn) : turn :=
  if idle_deadline c <=? now c then Break IdleTimeout
  else if next_ping c <=? now c then
    let s := u64_wrap (seq c + 1) in
    write_or_break
      (mkConn (now c) (tick_next ka c) (idle_deadline c) s (frames c) (frames_closed c)
         (outbound c) (outbound_closed c) (wr c) (inbound c) (inbound_closed c)) (Ping s)
  else match outbound c with
  | msg :: rest =>
      write_or_break
        (mkConn (now c) (next_ping c) (idle_deadline c) (seq c) (frames c) (frames_closed c)
           rest (outbound_closed c) (wr c) (inbound c) (inbound_closed c)) msg
  | [] =>
      if outbound_closed c then Break PeerClosed
      else match frames c with
      | [] => if frames_closed c then Break PeerClosed else Pending
      | FErr None :: _ => Break PeerClosed
      | FErr (Some e) :: _ => Break (ProtocolError e)
      | FMsg msg :: rest =>
          on_frame ka peer_id
            (mkConn (now c) (next_ping c) (idle_deadline c) (seq c) rest (frames_closed c)
               (outbound c) (outbound_closed c) (wr c) (inbound c) (inbound_closed c)) msg
      end
  end.

(** The state [run] starts in, at time [t]. *)
Definition run_start (ka : KeepAlive) (t : Z) (w : Writer) : conn :=
  mkConn t (t + ka_interval ka) (t + idle_timeout ka) 0 [] false [] false w [] false.

(** What happens outside the loop, between two turns. *)
Inductive env_event :=
| Pass (d : Z)                  (* time *)
| Arrive (f : frame_item)       (* the reader queues a frame *)
| ReaderDone
| Push (m : Message)            (* the application queues a message *)
| AppGone.

Definition env_step (c : conn) (e : env_event) : conn :=
  let mk n fr fc ob oc :=
    mkConn n (next_ping c) (idle_deadline c) (seq c) fr fc ob oc (wr c) (inbound c) (inbound_closed c) in
  match e with
  | Pass d => mk (now c + Z.max 0 d) (frames c) (frames_closed c) (outbound c) (outbound_closed c)
  | Arrive f => mk (now c) (frames c ++ [f]) (frames_closed c) (outbound c) (outbound_closed c)
  | ReaderDone => mk (now c) (frames c) true (outbound c) (outbound_closed c)
  | Push m => mk (now c) (frames c) (frames_closed c) (outbound c ++ [m]) (outbound_closed c)
  | AppGone => mk (now c) (frames c) (frames_closed c) (outbound c) true
  end.

Definition pushed (e : env_event) : list Message := match e with Push m => [m] | _ => [] end.
Definition arrived (e : env_event) : list frame_item := match e with Arrive f => [f] | _ => [] end.

(** Any interleaving of environment events and turns that go on.  The indexes
    are what was pushed and what arrived, in order. *)
Inductive runs (ka : KeepAlive) (peer_id : str) (c0 : conn)
  : list Message → list frame_item → conn → Prop :=
| runs_start : runs ka peer_id c0 [] [] c0
| runs_env ps fs c e :
    runs ka peer_id c0 ps fs c →
    runs ka peer_id c0 (ps ++ pushed e) (fs ++ arrived e) (env_step c e)
| runs_turn ps fs c c' :
    runs ka peer_id c0 ps fs c → run_turn ka peer_id c = Continue c' →
    runs ka peer_id c0 ps fs c'.

(** Executable version of a schedule: [None] is one turn of the loop. *)
Fixpoint run_schedule (ka : KeepAlive) (peer_id : str) (c : conn) (sched : list (option env_event))
    : conn * option DisconnectReason :=
  match sched with
  | [] => (c, None)
  | Some e :: sched' => run_schedule ka peer_id (env_step c e) sched'
  | None :: sched' =>
      match run_turn ka peer_id c with
      | Break reason => (c, Some reason)
      | Continue c' => run_schedule ka peer_id c' sched'
      | Pending => run_schedule ka peer_id c sched'
      end
  end.

(** ** Lemmas: reading *)

(** A successful read consumes a frame. *)
Lemma read_message_consumes r m r' :
  read_message r = (Ok m, r') → (length (avail r') + 4 ≤ length (avail r))%nat.
Proof.
  unfold read_message, read_exact. destruct (4 <=? length (avail r))%nat eqn:E; [|done].
  apply Nat.leb_le in E. cbn [avail fault].
  case_match; [done|]. destruct (_ <=? _)%nat; [|done]. destruct (deserialize _); [|done].
  intros [= _ <-]. cbn [avail]. rewrite !length_drop. lia.
Qed.

Lemma reader_task_fuel n k r :
  (length (avail r) < n)%nat → (length (avail r) < k)%nat → reader_task n r = reader_task k r.
Proof.
  revert k r. induction n as [|n IH]; intros [|k] r Hn Hk; try lia. cbn [reader_task].
  destruct (read_message r) as [[m|e] r'] eqn:E; [|done]. f_equal.
  apply read_message_consumes in E. apply IH; lia.
Qed.

(** The reader task ends: [S (length (avail r))] turns always reach the
    error that stops it, more turns change nothing, and its queue is messages
    followed by exactly one end marker. *)
Theorem reader_task_ends r k :
  (length (avail r) < k)%nat →
  reader_task k r = reader_task (S (length (avail r))) r ∧
  ∃ ms e, reader_task k r = map FMsg ms ++ [FErr e].
Proof.
  intros Hk. split; [apply reader_task_fuel; lia|].
  revert r Hk. induction k as [|k IH]; intros r Hk; [lia|]. cbn [reader_task].
  destruct (read_message r) as [[m|e] r'] eqn:E; [|by exists []; eauto].
  apply read_message_consumes in E. destruct (IH r') as (ms & e & ->); [lia|].
  by exists (m :: ms), e.
Qed.

(** What a writer put on the wire, the reader turns into the same messages. *)
Fixpoint wire_of (ms : list Message) : option bytes :=
  match ms with
  | [] => Some []
  | m :: ms' => body ← serialize m; rest ← wire_of ms'; Some (frame_of body ++ rest)
  end.

Definition small (m : Message) : Prop :=
  ∀ body, serialize m = Some body → zlen body ≤ MAX_FRAME_LEN.

Context `{!SerdeLaws Message}.

Lemma reader_task_wire ms wire f k :
  wire_of ms = Some wire → Forall small ms → (length wire < k)%nat →
  reader_task k (mkReader wire f) = map FMsg ms ++
    [FErr (if decide (default UnexpectedEof f = UnexpectedEof) then None
           else if is_disconnect (Io (default UnexpectedEof f)) then None
                else Some (Io (default UnexpectedEof f)))].
Proof.
  revert wire k. induction ms as [|m ms IH]; intros wire k Hw Hs Hk; cbn [wire_of] in Hw.
  - injection Hw as <-. destruct k; [simpl in Hk; lia|]. cbn [reader_task map app].
    unfold read_message. rewrite read_exact_short by (cbn; lia). cbn [fault].
    case_decide; done.
  - apply list.Forall_cons in Hs as [Hm Hs]. destruct (serialize m) as [body|] eqn:E; [|done].
    cbn [mbind option_bind] in Hw. destruct (wire_of ms) as [rest|] eqn:Er; [|done].
    assert (wire = frame_of body ++ rest) as -> by (by apply (inj Some)). clear Hw.
    destruct k; [lia|]. cbn [reader_task].
    rewrite read_frame_of by (by apply Hm). rewrite (deserialize_serialize m body) by done.
    cbn [map app]. f_equal. apply IH; [done|done|]. rewrite length_app in Hk. unfold frame_of in Hk.
    rewrite length_app, length_to_be_bytes in Hk. lia.
Qed.

(** ** The handshake *)

(** Reading a greeting off the wire. *)
Lemma read_hello h body rest f :
  serialize (MHello h) = Some body → zlen body ≤ MAX_FRAME_LEN →
  read_message (mkReader (frame_of body ++ rest) f) = (Ok (MHello h), mkReader rest f).
Proof. intros Hb Hl. by rewrite read_frame_of, (deserialize_serialize _ _ Hb) by done. Qed.

(** Whether an expected id, if any, is the one reported. *)
Definition id_matches (expect : option str) (h : Hello) : Prop :=
  match expect with Some id => hello_device_id h = id | None => True end.
#[local] Instance id_matches_dec expect h : Decision (id_matches expect h).
Proof. destruct expect; unfold id_matches; apply _. Defined.

Lemma write_message_eq w m body :
  wfault w = None → serialize m = Some body → zlen body ≤ u32_max →
  write_message w m = (Ok tt, mkWriter (written w ++ frame_of body) None).
Proof.
  intros Hw Hb Hl. unfold write_message, write_all. rewrite Hb, Hw.
  rewrite (proj2 (Z.leb_le _ _)) by done. cbn [wfault written].
  unfold frame_of. by rewrite app_nil_r, <- app_assoc.
Qed.

(** The greeting is on the wire before anything is read. *)
Lemma handshake_writes r local expect body res w x :
  serialize (MHello local) = Some body → zlen body ≤ u32_max →
  handshake false (mkWriter [] None) r local expect = (res, w, x) → written w = frame_of body.
Proof.
  intros Hb Hl Hh. unfold handshake in Hh. rewrite (write_message_eq _ _ body) in Hh by done.
  cbn [written app] in Hh. repeat case_match; by simplify_eq.
Qed.

Lemma handshake_read w local expect peer body body' rest f :
  wfault w = None → serialize (MHello local) = Some body' → zlen body' ≤ u32_max →
  serialize (MHello peer) = Some body → zlen body ≤ MAX_FRAME_LEN →
  handshake false w (mkReader (frame_of body ++ rest) f) local expect =
  (if decide (protocol_version peer = PROTOCOL_VERSION) then
     if decide (id_matches expect peer)
     then Ok (mkHandshake peer (intersect (hello_caps local) (hello_caps peer)))
     else Err IdentityMismatch
   else Err (VersionMismatch PROTOCOL_VERSION (protocol_version peer)),
   mkWriter (written w ++ frame_of body') None, mkReader rest f).
Proof.
  intros Hw Hb' Hl' Hb Hl. unfold handshake.
  rewrite (write_message_eq w _ body') by done. rewrite (read_hello peer) by done.
  case_decide as Hv; [|by rewrite (proj2 (Z.eqb_neq _ _) Hv)].
  rewrite (proj2 (Z.eqb_eq _ _) Hv). cbn [negb].
  destruct expect as [id|]; cbn [id_matches]; [|by rewrite decide_True].
  case_decide; [by rewrite bool_decide_eq_false_2 by auto|by rewrite bool_decide_eq_true_2].
Qed.

(** (C32) The handshake, both sides: when each side reads what the other wrote,
    side [a] succeeds iff [b] speaks the same version and has the id [a]
    expects, and likewise [b]; the version is tested before the id.  When both
    succeed, each learnt the other's greeting and both computed the same
    capabilities, each of which both offered. *)
Theorem handshake_agreement a b ea eb body_a body_b ra rb wa wb xa xb fa fb :
  serialize (MHello a) = Some body_a → zlen body_a ≤ MAX_FRAME_LEN →
  serialize (MHello b) = Some body_b → zlen body_b ≤ MAX_FRAME_LEN →
  handshake false (mkWriter [] None) (mkReader (written wb) fa) a ea = (ra, wa, xa) →
  handshake false (mkWriter [] None) (mkReader (written wa) fb) b eb = (rb, wb, xb) →
  (is_ok ra = true ↔ protocol_version b = PROTOCOL_VERSION ∧ id_matches ea b) ∧
  (is_ok rb = true ↔ protocol_version a = PROTOCOL_VERSION ∧ id_matches eb a) ∧
  (protocol_version b ≠ PROTOCOL_VERSION →
   ra = Err (VersionMismatch PROTOCOL_VERSION (protocol_version b))) ∧
  (∀ ha hb, ra = Ok ha → rb = Ok hb →
     hs_peer ha = b ∧ hs_peer hb = a ∧ effective_caps ha = effective_caps hb ∧
     effective_caps ha = intersect (hello_caps a) (hello_caps b)).
Proof.
  intros Ha Hla Hb Hlb Ea Eb. unfold MAX_FRAME_LEN in *.
  pose proof (handshake_writes (mkReader (written wb) fa) a ea body_a ra wa xa Ha
    ltac:(unfold u32_max; lia) Ea) as Wa.
  pose proof (handshake_writes (mkReader (written wa) fb) b eb body_b rb wb xb Hb
    ltac:(unfold u32_max; lia) Eb) as Wb.
  rewrite Wb, <- (app_nil_r (frame_of body_b)) in Ea.
  rewrite Wa, <- (app_nil_r (frame_of body_a)) in Eb.
  rewrite (handshake_read _ a ea b body_b body_a) in Ea by (done || (unfold u32_max, MAX_FRAME_LEN; lia)).
  rewrite (handshake_read _ b eb a body_a body_b) in Eb by (done || (unfold u32_max, MAX_FRAME_LEN; lia)).
  injection Ea as <- _ _. injection Eb as <- _ _.
  split_and!; [repeat case_decide; cbn; naive_solver..|by intros; rewrite decide_False|].
  intros ha hb Eha Ehb. repeat case_decide; simplify_eq. cbn. split_and!; try done.
  apply intersect_comm.
Qed.

(** ** The loop *)

(** Messages the application sends and receives; the rest is the link's own. *)
Definition is_app (m : Message) : bool :=
  match m with MHello _ | Ping _ | Pong _ => false | _ => true end.
Definition app_msgs (ms : list Message) : list Message := base.filter (λ m, is_app m = true) ms.
Definition ping_seqs (ms : list Message) : list Z :=
  omap (λ m, match m with Ping s => Some s | _ => None end) ms.
Definition pong_seqs (ms : list Message) : list Z :=
  omap (λ m, match m with Pong s => Some s | _ => None end) ms.

Lemma wire_of_app a b :
  wire_of (a ++ b) = wa ← wire_of a; wb ← wire_of b; Some (wa ++ wb).
Proof.
  induction a as [|m a IH]; cbn [wire_of app].
  - cbn [mbind option_bind]. by destruct (wire_of b).
  - destruct (serialize m); cbn [mbind option_bind]; [|done]. rewrite IH.
    destruct (wire_of a); cbn [mbind option_bind]; [|done].
    destruct (wire_of b); cbn [mbind option_bind]; [|done]. by rewrite app_assoc.
Qed.

(** From [c] to [c'] the loop wrote [out] and took [taken] off the queue. *)
Record advanced (peer_id : str) (c c' : conn) (pushed_in : list Message)
    (arrived_in : list frame_item) (out taken : list Message) : Prop := {
  adv_wire : ∃ w, wire_of out = Some w ∧ written (wr c') = written (wr c) ++ w;
  adv_out : Forall (λ m, is_app m = true) (outbound c ++ pushed_in) →
            app_msgs out ++ outbound c' = outbound c ++ pushed_in;
  adv_frames : frames c ++ arrived_in = map FMsg taken ++ frames c';
  adv_in : inbound c' = inbound c ++ map (pair peer_id) (app_msgs taken);
  adv_pong : Forall (λ m, is_app m = true) (outbound c ++ pushed_in) →
             pong_seqs out = ping_seqs taken;
}.

Lemma write_or_break_Continue c m c' :
  write_or_break c m = Continue c' →
  ∃ w body, serialize m = Some body ∧ wire_of [m] = Some (frame_of body) ∧ c' = set_wr c w ∧
            written w = written (wr c) ++ frame_of body.
Proof.
  unfold write_or_break. destruct (write_message (wr c) m) as [[[]|] w] eqn:E; [|done].
  intros [= <-]. apply write_message_ok in E as (body & Hb & _ & _ & ->).
  eexists _, body. split_and!; [done| |done|done]. cbn [wire_of]. rewrite Hb.
  cbn [mbind option_bind]. by rewrite app_nil_r.
Qed.

Lemma app_msgs_cons m ms :
  app_msgs (m :: ms) = if is_app m then m :: app_msgs ms else app_msgs ms.
Proof. unfold app_msgs. rewrite list.filter_cons. by destruct (is_app m). Qed.

Lemma app_msgs_nil : app_msgs [] = [].
Proof. done. Qed.

Lemma app_msgs_app a b : app_msgs (a ++ b) = app_msgs a ++ app_msgs b.
Proof. apply list.filter_app. Qed.

(** Discharge the fields of [advanced] that compute. *)
Ltac adv :=
  split; cbn [set_wr wr outbound frames inbound]; rewrite ?app_msgs_cons, ?app_msgs_nil;
  cbn [is_app map app]; rewrite ?app_nil_r; try done.

(** One turn that goes on writes at most one message and takes at most one
    frame. *)
Lemma turn_advanced ka pid c c' :
  run_turn ka pid c = Continue c' → ∃ out taken, advanced pid c c' [] [] out taken.
Proof.
  unfold run_turn. destruct (idle_deadline c <=? now c); [done|].
  destruct (next_ping c <=? now c).
  { intros (w & body & Hb & Hw & -> & E)%write_or_break_Continue.
    exists [Ping (u64_wrap (seq c + 1))], []. adv. by exists (frame_of body). }
  destruct (outbound c) as [|msg rest] eqn:Eo.
  2: { intros (w & body & Hb & Hw & -> & E)%write_or_break_Continue.
    exists [msg], []. adv.
    - by exists (frame_of body).
    - rewrite Eo. intros [Hm _]%list.Forall_cons. by rewrite Hm.
    - rewrite Eo. intros [Hm _]%list.Forall_cons. by destruct msg. }
  destruct (outbound_closed c); [done|].
  destruct (frames c) as [|[msg|[e|]] rest] eqn:Ef; [by destruct (frames_closed c)| |done|done].
  unfold on_frame. cbn [now next_ping seq frames frames_closed outbound outbound_closed wr inbound
    inbound_closed idle_deadline].
  assert (∀ c1, wr c1 = wr c → outbound c1 = [] → frames c1 = rest →
    inbound c1 = inbound c ++ map (pair pid) (app_msgs [msg]) → ping_seqs [msg] = [] →
    ∃ out taken, advanced pid c c1 [] [] out taken) as Hquiet.
  { intros c1 H1 H2 H3 H4 H5. exists [], [msg]. adv; rewrite ?Eo, ?Ef, ?H2, ?H3, ?H4, ?app_msgs_cons, ?app_msgs_nil; try done.
    exists []. by rewrite H1, app_nil_r. }
  destruct msg; try (destruct (inbound_closed c); [done|]; intros [= <-]; by apply Hquiet);
    try (intros [= <-]; apply Hquiet; cbn; by rewrite ?app_nil_r).
  intros (w & body & Hb & Hw & -> & E)%write_or_break_Continue. cbn [wr] in E.
  exists [Pong seq0], [Ping seq0]. adv; rewrite ?Eo, ?Ef; try done.
  by exists (frame_of body).
Qed.

Lemma advanced_trans pid c0 c c' ps fs ps' fs' out out' tk tk' :
  advanced pid c0 c ps fs out tk → advanced pid c c' ps' fs' out' tk' →
  advanced pid c0 c' (ps ++ ps') (fs ++ fs') (out ++ out') (tk ++ tk').
Proof.
  intros [(w & Hw & Ew) Ho Hf Hi Hp] [(w' & Hw' & Ew') Ho' Hf' Hi' Hp'].
  assert (Forall (λ m, is_app m = true) (outbound c0 ++ ps ++ ps') →
    Forall (λ m, is_app m = true) (outbound c0 ++ ps) ∧
    Forall (λ m, is_app m = true) (outbound c ++ ps')) as Hsub.
  { rewrite app_assoc, list.Forall_app. intros [H1 H2]. split; [done|].
    rewrite <- (Ho H1), list.Forall_app in H1. apply list.Forall_app. tauto. }
  split.
  - exists (w ++ w'). rewrite wire_of_app, Hw, Hw', Ew', Ew. cbn. by rewrite app_assoc.
  - intros H1. destruct (Hsub H1) as [H2 H3].
    rewrite app_msgs_app, <- app_assoc, (Ho' H3), app_assoc, (Ho H2). by rewrite app_assoc.
  - by rewrite app_assoc, Hf, <- app_assoc, Hf', map_app, app_assoc.
  - by rewrite Hi', Hi, app_msgs_app, map_app, app_assoc.
  - intros H1. destruct (Hsub H1) as [H2 H3]. unfold pong_seqs, ping_seqs in *.
    by rewrite !omap_app, (Hp H2), (Hp' H3).
Qed.

Lemma env_advanced pid c e : advanced pid c (env_step c e) (pushed e) (arrived e) [] [].
Proof.
  destruct e; unfold env_step, pushed, arrived; adv; exists []; by rewrite app_nil_r.
Qed.

Lemma advanced_refl pid c : advanced pid c c [] [] [] [].
Proof. adv. exists []. by rewrite app_nil_r. Qed.

Lemma runs_advanced ka pid c0 ps fs c :
  runs ka pid c0 ps fs c → ∃ out taken, advanced pid c0 c ps fs out taken.
Proof.
  induction 1 as [|ps fs c e _ (out & tk & IH)|ps fs c c' _ (out & tk & IH) Ht].
  - exists [], []. apply advanced_refl.
  - exists (out ++ []), (tk ++ []). by eapply advanced_trans, env_advanced.
  - apply turn_advanced in Ht as (out' & tk' & Ht). exists (out ++ out'), (tk ++ tk').
    pose proof (advanced_trans _ _ _ _ _ _ _ _ _ _ _ _ IH Ht) as H1. by rewrite !app_nil_r in H1.
Qed.

(** The queue the reader makes of what [a] wrote starts with what [b] took. *)
Lemma taken_prefix taken rest out e extra :
  map FMsg taken ++ rest ++ extra = map FMsg out ++ [FErr e] →
  taken `prefix_of` out ∧ (rest ++ extra = [FErr e] → taken = out).
Proof.
  revert out. induction taken as [|m taken IH]; intros [|n out] H1; cbn in *.
  - split; [done|]. done.
  - split; [by apply prefix_nil|]. intros H2. rewrite H2 in H1. by destruct out.
  - destruct taken; by cbn in H1.
  - injection H1 as -> H1. apply IH in H1 as [Hp Hq]. split; [by apply prefix_cons|].
    intros H2. by rewrite (Hq H2).
Qed.

Lemma app_msgs_prefix a b : a `prefix_of` b → app_msgs a `prefix_of` app_msgs b.
Proof. intros [k ->]. rewrite app_msgs_app. by exists (app_msgs k). Qed.

Lemma Forall_small out ps rest :
  (∀ m, is_app m = false → small m) → app_msgs out ++ rest = ps → Forall small ps → Forall small out.
Proof.
  intros Hka <- [Ho _]%list.Forall_app. apply list.Forall_forall. intros m Hm.
  destruct (is_app m) eqn:E; [|by apply Hka]. rewrite list.Forall_forall in Ho.
  apply Ho. unfold app_msgs. by apply list_elem_of_filter.
Qed.

(** (C31) A link is a FIFO channel: connect two [run] loops, [b] reading through
    its reader task what [a] wrote, and let them run under any schedule.  The
    application at [b] has received a prefix of what the application at [a]
    pushed: in order, nothing twice, nothing made up, and no keepalive.  Once
    [a]'s queue is empty and [b] has consumed the stream up to its end, it has
    received everything. *)
Theorem link_fifo kaA kaB idA idB tA tB wB ps fsA a psB fsB extra b f k :
  (∀ m, is_app m = false → small m) → Forall small ps → Forall (λ m, is_app m = true) ps →
  runs kaA idB (run_start kaA tA (mkWriter [] None)) ps fsA a →
  (length (written (wr a)) < k)%nat →
  fsB ++ extra = reader_task k (mkReader (written (wr a)) f) →
  runs kaB idA (run_start kaB tB wB) psB fsB b →
  (map snd (inbound b)) `prefix_of` ps ∧ Forall (λ x, x.1 = idA) (inbound b) ∧
  (outbound a = [] → length (frames b ++ extra) = 1%nat → map snd (inbound b) = ps).
Proof.
  intros Hka Hsm Happ Ha Hk Hfs Hb.
  apply runs_advanced in Ha as (out & tkA & [(w & Hw & Ew) Ho _ _ _]).
  apply runs_advanced in Hb as (outB & tk & [_ _ Hf Hi _]). cbn in Ew, Hf, Hi, Ho.
  specialize (Ho Happ). rewrite Ew in *.
  assert (Forall small out) as Hso by (by eapply Forall_small).
  erewrite reader_task_wire in Hfs by done. rewrite Hf, <- app_assoc in Hfs.
  pose proof (taken_prefix _ _ _ _ _ Hfs) as [Hp Hq].
  assert (map snd (inbound b) = app_msgs tk) as Hin.
  { rewrite Hi. clear. induction (app_msgs tk); cbn; congruence. }
  split_and!.
  - rewrite Hin. etrans; [by apply app_msgs_prefix|]. by exists (outbound a).
  - rewrite Hi. apply list.Forall_forall. by intros x (m & -> & _)%list_elem_of_fmap.
  - intros He Hl. rewrite He, app_nil_r in Ho. rewrite Hin, <- Ho. f_equal. apply Hq.
    destruct (frames b ++ extra) as [|x [|y l]]; [done| |done].
    by apply app_inj_tail in Hfs as [_ ->].
Qed.

(** ** Keepalive *)

Lemma write_or_break_frames c m c' :
  write_or_break c m = Continue c' →
  frames c' = frames c ∧ idle_deadline c' = idle_deadline c ∧ now c' = now c.
Proof. intros (w & body & _ & _ & -> & _)%write_or_break_Continue. done. Qed.

(** A turn moves the deadline only when it takes a frame, and then outbound
    messages had all been written. *)
Lemma turn_deadline ka pid c c' :
  run_turn ka pid c = Continue c' →
  now c' = now c ∧
  ((frames c' = frames c ∧ idle_deadline c' = idle_deadline c) ∨
   (outbound c = [] ∧ (∃ m, frames c = FMsg m :: frames c') ∧
    idle_deadline c' = now c + idle_timeout ka)).
Proof.
  unfold run_turn. destruct (idle_deadline c <=? now c); [done|]. destruct (next_ping c <=? now c).
  { intros (H1 & H2 & H3)%write_or_break_frames. auto. }
  destruct (outbound c) as [|msg rest]; [|intros (H1 & H2 & H3)%write_or_break_frames; auto].
  destruct (outbound_closed c); [done|].
  destruct (frames c) as [|[m|[e|]] rest]; [by destruct (frames_closed c)| |done|done].
  unfold on_frame. intros Ht. destruct m; cbn in Ht;
    try (apply write_or_break_frames in Ht as (-> & -> & ->));
    try (destruct (inbound_closed c); [done|]); try (injection Ht as <-); eauto 10.
Qed.

Lemma silence_deadline ka pid t w ps c :
  runs ka pid (run_start ka t w) ps [] c → idle_deadline c = t + idle_timeout ka ∧ frames c = [].
Proof.
  intros Hr. remember [] as fs eqn:Efs in Hr. induction Hr as [|ps fs c e _ IH|ps fs c c' _ IH Ht].
  - done.
  - apply app_eq_nil in Efs as [-> He]. destruct (IH eq_refl) as [H1 H2].
    destruct e; cbn [env_step idle_deadline frames arrived] in *; done || by split.
  - destruct (IH Efs) as [H1 H2]. apply turn_deadline in Ht as [_ [[-> ->]|(_ & [m Hm] & _)]]; [done|].
    by rewrite H2 in Hm.
Qed.


(** Frames wait for the outbound queue: while the application keeps the
    outbound queue non-empty, no turn takes a frame, so a peer that is sending
    all the time is still declared idle. *)
Theorem outbound_starves_frames ka pid c c' :
  outbound c ≠ [] → run_turn ka pid c = Continue c' →
  frames c' = frames c ∧ idle_deadline c' = idle_deadline c.
Proof. intros Ho [_ [H1|(H1 & _)]]%turn_deadline; done. Qed.

(** The executable schedules are runs. *)
Lemma run_schedule_runs ka pid c0 ps fs c sched c' :
  runs ka pid c0 ps fs c → run_schedule ka pid c sched = (c', None) →
  runs ka pid c0 (ps ++ concat (map (λ o, from_option pushed [] o) sched))
    (fs ++ concat (map (λ o, from_option arrived [] o) sched)) c'.
Proof.
  revert ps fs c. induction sched as [|[e|] sched IH]; intros ps fs c Hr Hs; cbn [run_schedule] in Hs.
  - injection Hs as <-. cbn. by rewrite !app_nil_r.
  - apply (runs_env _ _ _ _ _ _ e) in Hr. apply (IH _ _ _ Hr) in Hs. cbn. by rewrite !app_assoc.
  - cbn. destruct (run_turn ka pid c) as [|c1|] eqn:Et; [done| |by eapply IH].
    apply (IH _ _ c1); [|done]. by eapply runs_turn.
Qed.
End connection.

(** ** Witnesses *)

Lemma message_bounded_small m : @small message_bounded m.
Proof. intros body [_ H]%bounded_serialize. done. Qed.

Definition sample_hello (id : str) : Hello := mkHello PROTOCOL_VERSION id id Caps_ALL.
Definition sample_url : Message := OpenUrl (lit "u").

(** Side [a] sends one message and one ping; side [b] reads both. *)
Definition sched_a : list (option env_event) := [Some (Push sample_url); None; Some (Pass 15000); None].
Definition sample_start (t : Z) : conn := run_start KeepAlive_default t (mkWriter [] None).
Definition sample_a : conn :=
  (@run_schedule message_bounded KeepAlive_default (lit "b") (sample_start 0) sched_a).1.
Definition sample_reader : Reader := mkReader (written (wr sample_a)) None.
Definition sched_b : list (option env_event) :=
  map (λ f, Some (Arrive f)) (@reader_task message_bounded (S (length (avail sample_reader))) sample_reader)
  ++ [None; None].
Definition sample_b : conn :=
  (@run_schedule message_bounded KeepAlive_default (lit "a") (sample_start 0) sched_b).1.

Lemma sample_a_runs :
  @runs message_bounded KeepAlive_default (lit "b") (sample_start 0) [sample_url] [] sample_a.
Proof.
  apply (@run_schedule_runs message_bounded _ _ _ [] [] (sample_start 0) sched_a).
  - apply runs_start.
  - vm_compute. reflexivity.
Qed.

Lemma sample_b_runs :
  @runs message_bounded KeepAlive_default (lit "a") (sample_start 0) []
    [FMsg sample_url; FMsg (Ping 1); FErr None] sample_b.
Proof.
  apply (@run_schedule_runs message_bounded _ _ _ [] [] (sample_start 0) sched_b).
  - apply runs_start.
  - vm_compute. reflexivity.
Qed.

Lemma reader_task_ends_witness :
  ∃ ms e, @reader_task message_bounded (S (length (avail sample_reader))) sample_reader
          = map FMsg ms ++ [FErr e].
Proof. apply (@reader_task_ends message_bounded sample_reader). lia. Defined.

Lemma handshake_agreement_witness :
  ∃ ra wa xa rb wb xb ha hb,
    @handshake message_bounded false (mkWriter [] None) (mkReader (written wb) None)
      (sample_hello (lit "a")) (Some (lit "b")) = (ra, wa, xa) ∧
    @handshake message_bounded false (mkWriter [] None) (mkReader (written wa) None)
      (sample_hello (lit "b")) None = (rb, wb, xb) ∧
    ra = Ok ha ∧ rb = Ok hb ∧ effective_caps ha = effective_caps hb.
Proof.
  set (wa := mkWriter (default [] (frame_of <$> @serialize _ message_bounded (MHello (sample_hello (lit "a"))))) None).
  set (wb := mkWriter (default [] (frame_of <$> @serialize _ message_bounded (MHello (sample_hello (lit "b"))))) None).
  eexists _, wa, _, _, wb, _, _, _.
  split; [vm_compute; reflexivity|]. split; [vm_compute; reflexivity|].
  split; [reflexivity|]. split; [reflexivity|].
  pose proof (@handshake_agreement message_bounded message_bounded_laws (sample_hello (lit "a"))
    (sample_hello (lit "b")) (Some (lit "b")) None _ _ _ _ wa wb _ _ None None
    eq_refl ltac:(vm_compute; discriminate) eq_refl ltac:(vm_compute; discriminate)
    ltac:(vm_compute; reflexivity) ltac:(vm_compute; reflexivity)) as (_ & _ & _ & Hall).
  destruct (Hall _ _ eq_refl eq_refl) as (_ & _ & Hc & _). exact Hc.
Defined.

Lemma link_fifo_witness : map snd (inbound sample_b) = [sample_url].
Proof.
  destruct (@link_fifo message_bounded message_bounded_laws KeepAlive_default KeepAlive_default
    (lit "a") (lit "b") 0 0 (mkWriter [] None) [sample_url] [] sample_a []
    [FMsg sample_url; FMsg (Ping 1); FErr None] [] sample_b None (S (length (avail sample_reader))))
    as (_ & _ & Hall).
  - intros m _. apply message_bounded_small.
  - repeat constructor. apply message_bounded_small.
  - repeat constructor.
  - exact sample_a_runs.
  - cbn [avail sample_reader]. lia.
  - vm_compute. reflexivity.
  - exact sample_b_runs.
  - apply Hall; vm_compute; reflexivity.
Defined.

Definition sample_silent : conn :=
  (@run_schedule message_bounded KeepAlive_default (lit "b") (sample_start 0)
     (sched_a ++ [Some (Pass 29999); None; Some (Pass 1)])).1.


Definition sample_busy : conn :=
  env_step (env_step (sample_start 0) (Arrive (FMsg (Pong 1)))) (Push sample_url).

Lemma outbound_starves_frames_witness :
  ∃ c', @run_turn message_bounded KeepAlive_default (lit "b") sample_busy = Continue c' ∧
        frames c' = [FMsg (Pong 1)] ∧ idle_deadline c' = 45000.
Proof.
  eexists. split; [vm_compute; reflexivity|].
  apply (@outbound_starves_frames message_bounded KeepAlive_default (lit "b") sample_busy).
  - done.
  - vm_compute. reflexivity.
Defined.
