(* ===== verification/Config.v ===== *)
(** * Config: [crates/qdrop-core/src/config.rs]

    The configuration record and its defaults, [ConfirmPolicy] with its two
    spellings in [config.toml], and loading.  TOML is an interface; what the
    policy's own (de)serialiser does with a boolean or a string is modelled.
    The theorem: every policy survives being written and read back, and
    exactly the documented spellings are accepted. *)
From S2P Require Import Prelude Text Frame Store Samples Net Peers.

(** ** [ConfirmPolicy] *)

Inductive ConfirmPolicy := Never | Unlisted | Always.
#[export] Instance ConfirmPolicy_eq_dec : EqDecision ConfirmPolicy.
Proof. solve_decision. Defined.

(** The untagged [Raw] of the deserialiser; any other TOML value is refused. *)
Inductive Raw := RawBool (b : bool) | RawStr (s : str) | RawOther.

Definition policy_serialize (p : ConfirmPolicy) : Raw :=
  match p with
  | Never => RawBool false
  | Unlisted => RawBool true
  | Always => RawStr (lit "strict")
  end.

Definition policy_deserialize (r : Raw) : option ConfirmPolicy :=
  match r with
  | RawBool false => Some Never
  | RawBool true => Some Unlisted
  | RawStr s =>
      let s := to_ascii_lowercase s in
      if bool_decide (s = lit "never") || bool_decide (s = lit "false") then Some Never
      else if bool_decide (s = lit "unlisted") || bool_decide (s = lit "true") then Some Unlisted
      else if bool_decide (s = lit "strict") || bool_decide (s = lit "always") then Some Always
      else None
  | RawOther => None
  end.

(** ** [Config] *)

Record Config := mkConfig {
  device_name : str;
  cfg_port : Z;
  sync_clipboard : bool;
  sync_images : bool;
  max_clipboard_bytes : Z;
  clipboard_history : Z;
  require_confirm : ConfirmPolicy;
  log_filter : str;
}.
#[export] Instance Config_eq_dec : EqDecision Config.
Proof. solve_decision. Defined.

(** [hostname()]: the trimmed output of the [hostname] command, when it ran
    successfully ([Some out]) and printed text. *)
Definition hostname (cmd : option bytes) : option str :=
  out ← cmd; _ ← guard (valid_str out); nonempty (Some (trim out)).

Definition default_device_name (e : env) (cmd : option bytes) : str :=
  match nonempty (e (lit "QDROP_DEVICE_NAME")) with
  | Some v => v
  | None => default (lit "qdrop-device") (hostname cmd)
  end.

Definition Config_default (e : env) (cmd : option bytes) : Config := {|
  device_name := default_device_name e cmd;
  cfg_port := DEFAULT_PORT;
  sync_clipboard := true;
  sync_images := true;
  max_clipboard_bytes := 1024 * 1024;
  clipboard_history := 25;
  require_confirm := Never;
  log_filter := lit "info";
|}.

Definition config_load_from `{Serde Config} (e : env) (cmd : option bytes) (s : fs) (p : path)
    : result FileError Config :=
  match read_to_string s p with
  | Ok text => match deserialize text with Some c => Ok c | None => Err Parsing end
  | Err NotFound => Ok (Config_default e cmd)
  | Err k => Err (FileIo k)
  end.

Definition to_toml `{Serde Config} (c : Config) : result FileError str :=
  ok_or Serializing (serialize c).

(** ** Theorems *)

(** The spellings [config.toml] accepts, up to ASCII case. *)
Definition spellings (p : ConfirmPolicy) : list str :=
  match p with
  | Never => [lit "never"; lit "false"]
  | Unlisted => [lit "unlisted"; lit "true"]
  | Always => [lit "strict"; lit "always"]
  end.

(** [require_confirm] survives the file, and a string is accepted exactly
    when it is, up to case, one of the two spellings of a policy. *)
Theorem policy_spellings p s :
  policy_deserialize (policy_serialize p) = Some p ∧
  (policy_deserialize (RawStr s) = Some p ↔ to_ascii_lowercase s ∈ spellings p).
Proof.
  split; [by destruct p|]. cbn [policy_deserialize]. set (t := to_ascii_lowercase s). clearbody t.
  repeat case_bool_decide; subst; cbn [orb];
    (split; [intros [= <-]; cbn; set_solver|]); destruct p; cbn; set_solver.
Qed.
