(* ===== verification/Bus.v ===== *)
(** * Bus: the peer bus ([crates/qdropd/src/bus.rs])

    Connected peers' outbound channels.  A sender is a handle on a shared,
    bounded [mpsc] channel, so the bus maps ids to channel names and the
    channels live in a store of their own.  The theorem: a broadcast appends
    one copy to every other connected peer's queue that has room, and touches
    nothing else. *)
From S2P Require Import Prelude Text Proto.

(** ** Bounded channels *)

Record chan := mkChan { queue : list Message; cap : nat; closed : bool }.

(** [Sender::try_send]: fails when the receiver is gone or the queue full. *)
Definition try_send (c : chan) (m : Message) : option chan :=
  if closed c then None
  else if (length (queue c) <? cap c)%nat then Some (mkChan (queue c ++ [m]) (cap c) (closed c))
  else None.

(** ** The bus *)

Record PeerBus := mkBus {
  senders : gmap str nat;      (* device id -> channel *)
  chans : gmap nat chan;
}.

Definition bus_insert (b : PeerBus) (id : str) (tx : nat) : PeerBus :=
  mkBus (<[id := tx]> (senders b)) (chans b).
Definition bus_remove (b : PeerBus) (id : str) : PeerBus :=
  mkBus (delete id (senders b)) (chans b).
Definition connected_ids (b : PeerBus) : list str := (map_to_list (senders b)).*1.
Definition sender (b : PeerBus) (id : str) : option nat := senders b !! id.
Definition bus_is_empty (b : PeerBus) : bool := bool_decide (senders b = ∅).

(** [try_send] through a handle; the result is whether it was queued. *)
Definition chan_try_send (b : PeerBus) (tx : nat) (m : Message) : bool * PeerBus :=
  match chans b !! tx ≫= λ c, try_send c m with
  | Some c => (true, mkBus (senders b) (<[tx := c]> (chans b)))
  | None => (false, b)
  end.

Definition broadcast (b : PeerBus) (m : Message) (except : option str) : PeerBus :=
  let targets := map snd (base.filter (λ x, except ≠ Some x.1) (map_to_list (senders b))) in
  foldl (λ b tx, (chan_try_send b tx m).2) b targets.

Definition send_to (b : PeerBus) (id : str) (m : Message) : bool * PeerBus :=
  match sender b id with
  | Some tx => chan_try_send b tx m
  | None => (false, b)
  end.

(** What is queued for a peer. *)
Definition queued (b : PeerBus) (id : str) : list Message :=
  match senders b !! id ≫= λ tx, chans b !! tx with Some c => queue c | None => [] end.

(** The connection takes what is queued for a peer. *)
Definition bus_recv (b : PeerBus) (id : str) : option (Message * PeerBus) :=
  tx ← senders b !! id;
  c ← chans b !! tx;
  match queue c with
  | [] => None
  | m :: q => Some (m, mkBus (senders b) (<[tx := mkChan q (cap c) (closed c)]> (chans b)))
  end.

(** Each connection has a channel of its own. *)
Definition bus_wf (b : PeerBus) : Prop :=
  ∀ id id' tx, senders b !! id = Some tx → senders b !! id' = Some tx → id = id'.

Lemma connected_ids_spec b id : id ∈ connected_ids b ↔ is_Some (senders b !! id).
Proof.
  unfold connected_ids. rewrite list_elem_of_fmap. split.
  - intros ([i x] & -> & Hx). exists x. by apply elem_of_map_to_list.
  - intros [x Hx]. exists (id, x). split; [done|]. by apply elem_of_map_to_list.
Qed.

(** ** Theorems *)

Lemma chan_try_send_senders b tx m : senders (chan_try_send b tx m).2 = senders b.
Proof. unfold chan_try_send. by case_match. Qed.

Lemma chan_try_send_other b tx m tx' :
  tx' ≠ tx → chans (chan_try_send b tx m).2 !! tx' = chans b !! tx'.
Proof. intros Hne. unfold chan_try_send. case_match; [|done]. cbn. by rewrite lookup_insert_ne. Qed.

Lemma chan_try_send_self b tx m :
  chans (chan_try_send b tx m).2 !! tx = (λ c, default c (try_send c m)) <$> chans b !! tx.
Proof.
  unfold chan_try_send. destruct (chans b !! tx) as [c|] eqn:E; cbn; [|by rewrite E].
  destruct (try_send c m) as [c'|] eqn:E'; cbn; [|by rewrite E]. by rewrite lookup_insert_eq.
Qed.

Lemma bus_recv_none b id : bus_recv b id = None ↔ queued b id = [].
Proof.
  unfold bus_recv, queued. destruct (senders b !! id) as [tx|]; cbn; [|done]. destruct (chans b !! tx) as [c|]; cbn; [|done].
  by destruct (queue c).
Qed.

Lemma bus_recv_some b id m b' :
  bus_wf b → bus_recv b id = Some (m, b') →
  queued b id = m :: queued b' id ∧ senders b' = senders b ∧ ∀ k, k ≠ id → queued b' k = queued b k.
Proof.
  intros Hb. unfold bus_recv, queued. destruct (senders b !! id) as [tx|] eqn:Es; cbn; [|done].
  destruct (chans b !! tx) as [c|] eqn:Ec; cbn; [|done]. destruct (queue c) as [|x q] eqn:Eq; [done|].
  intros [= <- <-]. cbn [senders chans]. rewrite Es. cbn. rewrite lookup_insert_eq. split_and!; [done..|].
  intros k Hk. destruct (senders b !! k) as [tk|] eqn:Ek; [|done]. cbn. rewrite lookup_insert_ne; [done|].
  intros ->. apply Hk. by eapply Hb.
Qed.

(** What sending adds to a queue. *)
Lemma send_to_queued b p m id m' :
  bus_wf b → m' ∈ queued (send_to b p m).2 id → m' ∈ queued b id ∨ m' = m ∧ p = id.
Proof.
  intros Hb. unfold send_to, sender, queued. destruct (senders b !! p) as [tx|] eqn:Ep; [|by left]. rewrite chan_try_send_senders.
  destruct (senders b !! id) as [ti|] eqn:Ei; [|by left]. cbn [mbind option_bind]. destruct (decide (ti = tx)) as [->|Hne].
  - pose proof (Hb p id tx Ep Ei) as ->. rewrite chan_try_send_self. destruct (chans b !! tx) as [c|]; [|by left]. cbn.
    unfold try_send. destruct (closed c); [by left|]. destruct (_ <? _)%nat; [|by left]. cbn.
    intros [?|?%list_elem_of_singleton]%elem_of_app; [by left|by right].
  - rewrite chan_try_send_other by done. by left.
Qed.
Lemma send_to_senders b p m : senders (send_to b p m).2 = senders b.
Proof. unfold send_to. case_match; [apply chan_try_send_senders|done]. Qed.

Lemma send_all_senders b m l : senders (foldl (λ b tx, (chan_try_send b tx m).2) b l) = senders b.
Proof.
  revert b. induction l as [|x l IH]; [done|]. intros b. cbn. by rewrite IH, chan_try_send_senders.
Qed.

Lemma send_all_chan b m l tx :
  NoDup l →
  chans (foldl (λ b tx, (chan_try_send b tx m).2) b l) !! tx =
  if decide (tx ∈ l) then (λ c, default c (try_send c m)) <$> chans b !! tx else chans b !! tx.
Proof.
  revert b. induction l as [|x l IH]; intros b Hl.
  - cbn. rewrite decide_False by apply not_elem_of_nil. done.
  - apply list.NoDup_cons in Hl as [Hx Hl]. cbn [foldl]. rewrite IH by done.
    destruct (decide (tx = x)) as [->|Hne].
    + rewrite decide_False by done. rewrite decide_True by left. apply chan_try_send_self.
    + rewrite chan_try_send_other by done. repeat case_decide; set_solver.
Qed.

Lemma targets_NoDup b except :
  bus_wf b → NoDup (map snd (base.filter (λ x, except ≠ Some x.1) (map_to_list (senders b)))).
Proof.
  intros Hb. apply NoDup_fmap_2_strong.
  - intros [i x] [j y] [_ Hi]%list_elem_of_filter [_ Hj]%list_elem_of_filter. cbn. intros ->.
    apply elem_of_map_to_list in Hi, Hj. by rewrite (Hb i j y Hi Hj).
  - apply list.NoDup_filter, NoDup_map_to_list.
Qed.

Lemma broadcast_queue b m except id tx c :
  bus_wf b → senders b !! id = Some tx → chans b !! tx = Some c →
  queued (broadcast b m except) id =
    (if decide (except ≠ Some id ∧ closed c = false ∧ (length (queue c) < cap c)%nat)
     then queue c ++ [m] else queue c).
Proof.
  intros Hb Hs Hc. unfold broadcast.
  unfold queued. rewrite send_all_senders, Hs. cbn [mbind option_bind].
  rewrite send_all_chan, Hc by (by apply targets_NoDup).
  set (ts := map snd _).
  assert (tx ∈ ts ↔ except ≠ Some id) as Hts.
  { unfold ts. rewrite list_elem_of_fmap. split.
    - intros ([i x] & -> & [Hi Hin]%list_elem_of_filter). cbn in *.
      apply elem_of_map_to_list in Hin. by rewrite (Hb id i x Hs Hin).
    - intros He. exists (id, tx). split; [done|]. apply list_elem_of_filter.
      split; [done|]. by apply elem_of_map_to_list. }
  cbn [fmap option_fmap option_map]. unfold try_send. destruct (decide (tx ∈ ts)) as [Hin|Hin].
  - apply Hts in Hin. destruct (closed c); [by rewrite decide_False by naive_solver|].
    destruct (length (queue c) <? cap c)%nat eqn:E.
    + apply Nat.ltb_lt in E. rewrite decide_True; [done|]. split_and!; [done|done|lia].
    + apply Nat.ltb_ge in E. rewrite decide_False; [done|]. intros (_ & _ & ?). lia.
  - rewrite decide_False; [done|]. intros (He & _). apply Hin. by apply Hts.
Qed.

Lemma broadcast_queued b m id tx c :
  bus_wf b → senders b !! id = Some tx → chans b !! tx = Some c →
  closed c = false → (length (queue c) < cap c)%nat →
  queued (broadcast b m None) id = queue c ++ [m].
Proof. intros. by rewrite (broadcast_queue b m None id tx c), decide_True. Qed.

(** [broadcast] to everyone but [except]: each other connected peer whose
    channel is open and has room gets exactly one copy, at the end of its
    queue; a full or closed channel is left alone (the update is dropped, no
    one waits), and so is [except]. *)
Theorem broadcast_spec b m except id tx c :
  bus_wf b → senders b !! id = Some tx → chans b !! tx = Some c →
  senders (broadcast b m except) = senders b ∧
  queued (broadcast b m except) id =
    (if decide (except ≠ Some id ∧ closed c = false ∧ (length (queue c) < cap c)%nat)
     then queue c ++ [m] else queue c).
Proof.
  intros Hb Hs Hc. split; [apply send_all_senders|by apply (broadcast_queue b m except id tx c)].
Qed.

Definition sample_bus : PeerBus :=
  mkBus {[ lit "a" := 0%nat; lit "b" := 1%nat ]}
    {[ 0%nat := mkChan [] 2 false; 1%nat := mkChan [Ping 1; Ping 2] 2 false ]}.

Lemma sample_bus_wf : bus_wf sample_bus.
Proof.
  intros id id' tx. unfold sample_bus; cbn [senders].
  rewrite !lookup_insert_Some, !lookup_singleton_Some. naive_solver.
Qed.

Lemma broadcast_spec_witness :
  queued (broadcast sample_bus (Ping 9) None) (lit "a") = [Ping 9] ∧
  queued (broadcast sample_bus (Ping 9) None) (lit "b") = [Ping 1; Ping 2].
Proof.
  split.
  - destruct (broadcast_spec sample_bus (Ping 9) None (lit "a") 0 (mkChan [] 2 false)
      sample_bus_wf eq_refl eq_refl) as [_ H]. exact H.
  - destruct (broadcast_spec sample_bus (Ping 9) None (lit "b") 1 (mkChan [Ping 1; Ping 2] 2 false)
      sample_bus_wf eq_refl eq_refl) as [_ H]. exact H.
Defined.
