(* ===== verification/FileXfer.v ===== *)
(** * FileXfer: file transfer ([crates/qdropd/src/filexfer.rs])

    Receiver: [on_start], [on_chunk], [on_end] and [handle_inbound] over the
    table of incoming blobs, the file store (handles share inodes, so two
    transfers that open one temporary name write to one file) and the bus.
    Sender: [stream_blob], [send_one], the retry loop and [send]; the upload of a
    clipboard image is a task with steps ([upload_step]).  I/O
    failures are inputs.  [Peers::load] is the registry read at that moment.

    The theorems: at most sixteen transfers are in progress and each handle
    holds exactly the bytes hashed so far; [on_end] accepts iff the digest and
    the size agree and then the new file has exactly the streamed content,
    otherwise no file appears; everything stays below the download directory;
    an existing file is not replaced; the frames of a whole transfer deliver the
    sender's bytes.  Both ends together are in [Transfer]. *)
From S2P Require Import Prelude Text Crypto Proto Frame Store Samples Net Peers Config Bus.

Definition SEND_ATTEMPTS : nat := 3.
Definition MAX_MEM_BLOB : Z := 64 * 1024 * 1024.
Definition MAX_CONCURRENT_INCOMING : nat := 16.

(** ** State *)

Record SendOutcome := mkOutcome {
  out_name : str;
  out_peer : str;
  out_ok : bool;
  out_detail : str;
}.

(** An open [File] is an inode and a position. *)
Inductive Sink :=
| SinkFile (tmp_path final_dir : path) (ino : nat) (pos : nat)
| SinkMemory (buf : bytes).

Record Incoming := mkIncoming {
  inc_name : str;
  inc_sink : Sink;
  inc_hasher : hasher;
  inc_written : Z;
  inc_declared : Z;
  inc_peer : str;
}.

Record FileXfer := mkXfer {
  bus : PeerBus;
  download_dir : path;
  confirm : ConfirmPolicy;
  next_id : Z;
  acks : gset Z;                          (* ids with a waiter *)
  ack_results : gmap Z (bool * str);      (* what waiters were told *)
  incoming : gmap (str * Z) Incoming;
  clip_sink : option (list bytes);        (* images handed over, if there is a sink *)
  disk : fs;
  notices : list (str * path * bool);     (* name, destination, pending review *)
}.

(** Failures of the file operations of one handler; [io_flush] is the number
    of bytes on disk when the final flush fails. *)
Record faults := mkFaults {
  io_mkdir : option str;
  io_create : option str;
  io_write : bool;
  io_flush : option nat;
  io_rename : option str;
}.
Definition no_faults : faults := mkFaults None None false None None.

Definition set_bus (x : FileXfer) (b : PeerBus) : FileXfer :=
  mkXfer b (download_dir x) (confirm x) (next_id x) (acks x) (ack_results x) (incoming x)
    (clip_sink x) (disk x) (notices x).
Definition set_incoming (x : FileXfer) (i : gmap (str * Z) Incoming) : FileXfer :=
  mkXfer (bus x) (download_dir x) (confirm x) (next_id x) (acks x) (ack_results x) i
    (clip_sink x) (disk x) (notices x).
Definition set_disk (x : FileXfer) (d : fs) : FileXfer :=
  mkXfer (bus x) (download_dir x) (confirm x) (next_id x) (acks x) (ack_results x) (incoming x)
    (clip_sink x) d (notices x).
Definition set_clip_sink (x : FileXfer) (c : option (list bytes)) : FileXfer :=
  mkXfer (bus x) (download_dir x) (confirm x) (next_id x) (acks x) (ack_results x) (incoming x)
    c (disk x) (notices x).
Definition set_acks (x : FileXfer) (a : gset Z) (r : gmap Z (bool * str)) : FileXfer :=
  mkXfer (bus x) (download_dir x) (confirm x) (next_id x) a r (incoming x)
    (clip_sink x) (disk x) (notices x).
Definition add_notice (x : FileXfer) (n : str * path * bool) : FileXfer :=
  mkXfer (bus x) (download_dir x) (confirm x) (next_id x) (acks x) (ack_results x) (incoming x)
    (clip_sink x) (disk x) (notices x ++ [n]).

Definition FileXfer_new (cfg : Config) (b : PeerBus) (dir : path) (sink : option (list bytes)) (d : fs)
    : FileXfer := mkXfer b dir (require_confirm cfg) 1 ∅ ∅ ∅ sink d [].

(** ** Helpers *)

(** [Path::join] on a path given by its components. *)
Definition pjoin (dir : path) (name : str) : path :=
  match components name with
  | RootDir :: _ => components name
  | cs => dir ++ base.filter (λ c, c ≠ CurDir) cs
  end.

(** [ps] is what [Peers::load] returns, if it succeeds. *)
Definition needs_confirm (ps : option Peers) (policy : ConfirmPolicy) (peer_id : str) : bool :=
  match policy with
  | Never => false
  | Always => true
  | Unlisted => negb (match ps with Some p => is_authorized p peer_id | None => false end)
  end.

Definition resolve_peer (ps : option Peers) (name : str) : option str :=
  ps ≫= λ p, match find p name with
             | Some q => Some (peer_device_id q)
             | None => peer_device_id <$> find_by_id p name
             end.

Definition peer_label (ps : option Peers) (id : str) : str :=
  match ps ≫= λ p, find_by_id p id with Some p => peer_name p | None => id end.

(** The candidate [{stem} ({i}){ext}] of [unique_dest]. *)
Definition candidate (name : str) (i : Z) : str :=
  let '(stem, ext) := match rsplit_once "."%byte name with
                      | Some (s, e) => (s, lit "." ++ e)
                      | None => (name, [])
                      end in
  stem ++ lit " (" ++ dec i ++ lit ")" ++ ext.

Definition unique_dest (d : fs) (dir : path) (name : str) : path :=
  let first := pjoin dir name in
  if negb (fs_exists d first) then first
  else match lfind (λ p, negb (fs_exists d p))
               (map (λ i, pjoin dir (candidate name (Z.of_nat i))) (List.seq 1 9999)) with
       | Some cand => cand
       | None => first
       end.

(** ** Receiving *)

Definition ack (x : FileXfer) (peer_id : str) (id : Z) (ok : bool) (detail : str) : FileXfer :=
  set_bus x (send_to (bus x) peer_id (BlobAck id ok detail)).2.
Definition reject (x : FileXfer) (peer_id : str) (id : Z) (detail : str) : FileXfer :=
  ack x peer_id id false detail.

Definition tmp_part (safe : str) (id : Z) : str := lit "." ++ safe ++ lit "." ++ dec id ++ lit ".part".

Definition start_incoming (x : FileXfer) (peer_id : str) (id : Z) (name : str) (size : Z) (s : Sink)
    : FileXfer :=
  set_incoming x (<[(peer_id, id) := mkIncoming name s hasher_new 0 size peer_id]> (incoming x)).

Definition on_start (io : faults) (ps : option Peers) (x : FileXfer)
    (peer_id : str) (id : Z) (name : str) (size : Z) (purpose : BlobPurpose) : FileXfer :=
  if (MAX_CONCURRENT_INCOMING <=? base.size (incoming x))%nat
  then reject x peer_id id (lit "too many concurrent transfers")
  else match purpose with
  | ClipboardImage =>
      match clip_sink x with
      | None => reject x peer_id id (lit "clipboard image sync not available")
      | Some _ =>
          if MAX_MEM_BLOB <? size then reject x peer_id id (lit "clipboard image too large")
          else start_incoming x peer_id id (lit "clipboard-image") size (SinkMemory [])
      end
  | File =>
      match safe_blob_name name with
      | None => reject x peer_id id (lit "unsafe filename")
      | Some safe =>
          let final_dir := if needs_confirm ps (confirm x) peer_id
                           then pjoin (download_dir x) (lit "pending") else download_dir x in
          match io_mkdir io with
          | Some e => reject x peer_id id (lit "cannot create download dir: " ++ e)
          | None =>
              let tmp_path := pjoin final_dir (tmp_part safe id) in
              match io_create io with
              | Some e => reject x peer_id id (lit "cannot create temp file: " ++ e)
              | None =>
                  let '(ino, d) := fs_create (disk x) tmp_path in
                  start_incoming (set_disk x d) peer_id id safe size (SinkFile tmp_path final_dir ino 0)
              end
          end
      end
  end.

(** The bookkeeping after a chunk was stored. *)
Definition chunk_stored (inc : Incoming) (s : Sink) (data : bytes) : Incoming :=
  mkIncoming (inc_name inc) s (hasher_update (inc_hasher inc) data) (inc_written inc + zlen data)
    (inc_declared inc) (inc_peer inc).

Definition on_chunk (io : faults) (x : FileXfer) (peer_id : str) (id : Z) (data : bytes) : FileXfer :=
  match incoming x !! (peer_id, id) with
  | None => x
  | Some inc =>
      match inc_sink inc with
      | SinkFile tmp_path final_dir ino pos =>
          if io_write io then
            let x := set_incoming x (delete (peer_id, id) (incoming x)) in
            let x := set_disk x (fs_remove (disk x) tmp_path) in
            reject x peer_id id (lit "write failed")
          else
            let x := set_disk x (fs_write_at (disk x) ino pos data) in
            set_incoming x (<[(peer_id, id) := chunk_stored inc
              (SinkFile tmp_path final_dir ino (pos + length data)) data]> (incoming x))
      | SinkMemory buf =>
          if MAX_MEM_BLOB <? zlen buf + zlen data then
            reject (set_incoming x (delete (peer_id, id) (incoming x))) peer_id id
              (lit "clipboard image too large")
          else
            set_incoming x (<[(peer_id, id) := chunk_stored inc (SinkMemory (buf ++ data)) data]>
              (incoming x))
      end
  end.

(** [cleanup]. *)
Definition cleanup (x : FileXfer) (s : Sink) : FileXfer :=
  match s with
  | SinkFile tmp_path _ _ _ => set_disk x (fs_remove (disk x) tmp_path)
  | SinkMemory _ => x
  end.

(** [flush] and [sync_all], whose errors the code ignores: when they fail,
    only a prefix of the file is on disk. *)
Definition flush_sink (io : faults) (d : fs) (s : Sink) : fs :=
  match s, io_flush io with
  | SinkFile _ _ ino _, Some kept =>
      mkFs (names d) (alter (λ n, mkInode (take kept (content n)) (mode n)) ino (inodes d)) (next_ino d)
  | _, _ => d
  end.

Section hashing.
Context `{Hashes}.

Definition on_end (io : faults) (ps : option Peers) (x : FileXfer) (peer_id : str) (id : Z)
    (sha : bytes) : FileXfer :=
  match incoming x !! (peer_id, id) with
  | None => x
  | Some inc =>
      let x := set_incoming x (delete (peer_id, id) (incoming x)) in
      let x := set_disk x (flush_sink io (disk x) (inc_sink inc)) in
      let got := hasher_finalize (inc_hasher inc) in
      if bool_decide (got ≠ sha) then
        reject (cleanup x (inc_sink inc)) peer_id id (lit "sha256 mismatch")
      else if negb (inc_declared inc =? 0) && negb (inc_written inc =? inc_declared inc) then
        reject (cleanup x (inc_sink inc)) peer_id id (lit "size mismatch")
      else match inc_sink inc with
      | SinkMemory bytes =>
          let x := set_clip_sink x (match clip_sink x with Some l => Some (l ++ [bytes]) | None => None end) in
          ack x peer_id id true (lit "clipboard-image")
      | SinkFile tmp_path final_dir _ _ =>
          let dest := unique_dest (disk x) final_dir (inc_name inc) in
          match (match io_rename io with
                 | Some e => Err e
                 | None => match fs_rename (disk x) tmp_path dest with
                           | Ok d => Ok d
                           | Err _ => Err (lit "not found")
                           end
                 end) with
          | Err e =>
              reject (set_disk x (fs_remove (disk x) tmp_path)) peer_id id (lit "rename failed: " ++ e)
          | Ok d =>
              let x := ack (set_disk x d) peer_id id true (inc_name inc) in
              add_notice x (inc_name inc, dest, needs_confirm ps (confirm x) peer_id)
          end
      end
  end.

Definition handle_inbound (io : faults) (ps : option Peers) (x : FileXfer) (peer_id : str)
    (msg : Message) : FileXfer :=
  match msg with
  | BlobStart id name size purpose => on_start io ps x peer_id id name size purpose
  | BlobChunk id data => on_chunk io x peer_id id data
  | BlobEnd id sha => on_end io ps x peer_id id sha
  | BlobAck id ok detail =>
      if decide (id ∈ acks x)
      then set_acks x (acks x ∖ {[ id ]}) (<[id := (ok, detail)]> (ack_results x))
      else x
  | _ => x
  end.

(** ** Sending *)

(** How the wait for the acknowledgement ends. *)
Inductive ack_wait := Acked (ok : bool) (detail : str) | AckDropped | AckTimedOut.

(** The frames of one blob; [pieces] are the buffers read from the source. *)
Definition blob_frames (id : Z) (name : str) (size : Z) (purpose : BlobPurpose) (pieces : list bytes)
    : list Message :=
  BlobStart id name size purpose :: map (BlobChunk id) pieces
  ++ [BlobEnd id (hasher_finalize (foldl hasher_update hasher_new pieces))].

(** [stream_blob]: the channel takes [room] frames before it closes ([None]:
    it stays open).  Returns the frames queued and the result. *)
Definition stream_blob (room : option nat) (id : Z) (name : str) (size : Z) (purpose : BlobPurpose)
    (pieces : list bytes) (wait : ack_wait) : list Message * result str str :=
  let frames := blob_frames id name size purpose pieces in
  let done := match wait with
              | Acked true detail => Ok detail
              | Acked false detail => Err (lit "peer rejected: " ++ detail)
              | AckDropped => Err (lit "ack channel dropped")
              | AckTimedOut => Err (lit "timed out waiting for peer ack")
              end in
  match room with
  | Some n =>
      if (n <? length frames)%nat then
        (take n frames,
         Err (if (n =? 0)%nat || (n =? S (length pieces))%nat then lit "connection closed"
              else lit "connection closed mid-transfer"))
      else (frames, done)
  | None => (frames, done)
  end.

(** [Source::Mem] is cut by [chunks(BLOB_CHUNK)]; [Source::File] by whatever
    [read] returns, at most a buffer at a time, until it returns nothing. *)
Definition mem_pieces (b : bytes) : list bytes := chunks (Z.to_nat BLOB_CHUNK) b.
Definition file_pieces_ok (contents : bytes) (pieces : list bytes) : Prop :=
  concat pieces = contents ∧ Forall (λ p, p ≠ [] ∧ zlen p ≤ BLOB_CHUNK) pieces.

(** [send_one] of a regular file of [size] bytes at [p] ([None]: [metadata]
    fails or it is not a regular file): the sender it streams through, the
    frames, the result, and the state afterwards. *)
Definition send_one (x : FileXfer) (peer : str) (p : path) (size : option Z) (room : option nat)
    (pieces : list bytes) (wait : ack_wait) : list Message * result str str * FileXfer :=
  match sender (bus x) peer with
  | None => ([], Err (lit "peer is not connected"), x)
  | Some _ =>
      match size, file_name p with
      | None, _ => ([], Err (lit "stat or not a regular file"), x)
      | _, None => ([], Err (lit "path has no filename"), x)
      | Some size, Some name =>
          let id := next_id x in
          let '(frames, r) := stream_blob room id name size File pieces wait in
          (frames, r,
           mkXfer (bus x) (download_dir x) (confirm x) (u64_wrap (id + 1)) (acks x ∖ {[ id ]})
             (ack_results x) (incoming x) (clip_sink x) (disk x) (notices x))
      end
  end.

(** [send_one_with_retry]: [attempts] are what successive [send_one]s would
    return, each with whether the peer is connected at the end of the wait. *)
Fixpoint send_retry (n : nat) (name label : str) (last : str) (attempts : list (result str str * bool))
    : SendOutcome :=
  match n, attempts with
  | S n', (Ok detail, _) :: _ => mkOutcome name label true detail
  | S n', (Err e, back) :: rest =>
      if (back : bool) then send_retry n' name label e rest else mkOutcome name label false e
  | _, _ => mkOutcome name label false last
  end.
Definition send_one_with_retry (ps : option Peers) (peer : str) (p : path)
    (attempts : list (result str str * bool)) : SendOutcome :=
  send_retry SEND_ATTEMPTS (default (lit "file") (file_name p)) (peer_label ps peer) [] attempts.

(** [send]: the peers addressed, then one outcome per peer and path. *)
Definition send (ps : option Peers) (x : FileXfer) (paths : list path) (to : option str)
    (one : str → path → SendOutcome) : list SendOutcome :=
  let go peers :=
    match peers with
    | [] => [mkOutcome [] (default [] to) false (lit "no connected peers")]
    | _ => concat (map (λ peer, map (one peer) paths) peers)
    end in
  match to with
  | Some name =>
      match sender (bus x) name with
      | Some _ => go [name]
      | None => match resolve_peer ps name with
                | Some id => go [id]
                | None => [mkOutcome [] name false (lit "no such paired peer")]
                end
      end
  | None => go (connected_ids (bus x))
  end.

(** [send_clip_image], which streams one blob after the other, as a task that
    others run beside: the peers still to come, and of the stream to the current
    one the sender it holds, its id and the frames left. *)
Record upload := mkUpload {
  up_png : bytes;
  up_peers : list str;
  up_stream : option (nat * Z * list Message);
}.

Definition send_clip_image (x : FileXfer) (png : bytes) : upload := mkUpload png (connected_ids (bus x)) None.

Definition start_ack (x : FileXfer) : FileXfer :=
  mkXfer (bus x) (download_dir x) (confirm x) (u64_wrap (next_id x + 1)) (acks x ∪ {[ next_id x ]})
    (ack_results x) (incoming x) (clip_sink x) (disk x) (notices x).
Definition end_ack (x : FileXfer) (id : Z) : FileXfer := set_acks x (acks x ∖ {[ id ]}) (ack_results x).

(** One step of it; [timed] tells that [ACK_TIMEOUT] has passed.  A full channel
    is waited for, a closed one ends the stream; afterwards comes the next peer,
    whatever the result. *)
Definition upload_step (timed : bool) (x : FileXfer) (u : upload) : FileXfer * option upload :=
  let at_peers ps s := Some (mkUpload (up_png u) ps s) in
  match up_stream u with
  | None =>
      match up_peers u with
      | [] => (x, None)
      | peer :: rest =>
          match sender (bus x) peer with
          | None => (x, at_peers rest None)
          | Some tx =>
              let id := next_id x in
              let png := up_png u in
              (start_ack x, at_peers rest (Some (tx, id,
                 blob_frames id (lit "clipboard.png") (zlen png) ClipboardImage (mem_pieces png))))
          end
      end
  | Some (tx, id, f :: fs) =>
      match chans (bus x) !! tx with
      | Some c =>
          if closed c then (end_ack x id, at_peers (up_peers u) None)
          else match chan_try_send (bus x) tx f with
               | (true, b) => (set_bus x b, at_peers (up_peers u) (Some (tx, id, fs)))
               | (false, _) => (x, Some u)
               end
      | None => (end_ack x id, at_peers (up_peers u) None)
      end
  | Some (tx, id, []) =>
      if timed || bool_decide (id ∉ acks x) then (end_ack x id, at_peers (up_peers u) None)
      else (x, Some u)
  end.
End hashing.

(** ** Lemmas: names *)

Lemma pjoin_plain dir n : plain_name n → pjoin dir n = dir ++ [Normal n].
Proof.
  intros (H0 & H1 & H2 & Hs). unfold pjoin, components. rewrite (split_no_sep _ _ Hs).
  rewrite !decide_False by done. cbn [map concat]. rewrite app_nil_r, piece_normal by done.
  rewrite list.filter_cons, decide_True by done. done.
Qed.

Lemma dec_fuel_no_slash f n acc : slash ∉ acc → slash ∉ dec_fuel f n acc.
Proof.
  revert n acc. induction f as [|f IH]; intros n acc Ha; [done|]. cbn [dec_fuel].
  assert (slash ∉ digit (n mod 10) :: acc) as Hd.
  { apply not_elem_of_cons. split; [|done]. intros E. apply (f_equal bval) in E. unfold digit in E.
    rewrite bval_zbyte_small in E by zdm. cbn in E. zdm. }
  destruct (n <? 10); [done|]. by apply IH.
Qed.

Lemma dec_no_slash n : slash ∉ dec n.
Proof. apply dec_fuel_no_slash, not_elem_of_nil. Qed.

(** A separator-free string longer than two bytes is a plain name. *)
Lemma plain_long s : slash ∉ s → (2 < length s)%nat → plain_name s.
Proof. intros Hs Hl. split_and!; [| | |done]; intros ->; cbn in Hl; lia. Qed.

Lemma not_in_app c (a b : str) : c ∉ a → c ∉ b → c ∉ a ++ b.
Proof. intros ? ?. by rewrite not_elem_of_app. Qed.

Lemma lit_no_slash (s : str) : forallb (λ b, negb (bool_decide (b = slash))) s = true → slash ∉ s.
Proof.
  rewrite forallb_forall. intros H Hin. apply list_elem_of_In, H in Hin.
  by rewrite bool_decide_eq_true_2 in Hin.
Qed.

Lemma tmp_part_plain safe id : plain_name safe → plain_name (tmp_part safe id).
Proof.
  intros (_ & _ & _ & Hs). unfold tmp_part. apply plain_long.
  - repeat apply not_in_app; try done; [by apply lit_no_slash|by apply lit_no_slash|apply dec_no_slash|by apply lit_no_slash].
  - rewrite !length_app. cbn. lia.
Qed.

Lemma tmp_part_ne safe id : tmp_part safe id ≠ safe.
Proof.
  unfold tmp_part. intros H. apply (f_equal length) in H. rewrite !length_app in H. cbn in H. lia.
Qed.

Lemma candidate_plain name i : plain_name name → plain_name (candidate name i).
Proof.
  intros (_ & _ & _ & Hs). unfold candidate.
  assert (∀ stem ext, slash ∉ stem → slash ∉ ext →
    plain_name (stem ++ lit " (" ++ dec i ++ lit ")" ++ ext)) as Hall.
  { intros stem ext H1 H2. apply plain_long.
    - repeat apply not_in_app; try done; [by apply lit_no_slash|apply dec_no_slash|by apply lit_no_slash].
    - rewrite !length_app. cbn. lia. }
  destruct (rsplit_once "."%byte name) as [[s e]|] eqn:E; [|by apply Hall, not_elem_of_nil].
  unfold rsplit_once in E. destruct (split_once _ (rev name)) as [[a b]|] eqn:E'; [|done].
  injection E as <- <-. apply split_once_Some in E' as [E' _].
  assert (∀ c, c ∈ a ∨ c ∈ b → c ∈ name) as Hin.
  { intros c Hc. apply elem_of_rev. rewrite E'. set_solver. }
  apply Hall.
  - rewrite elem_of_rev. auto.
  - apply not_in_app; [by apply lit_no_slash|]. rewrite elem_of_rev. auto.
Qed.

(** [unique_dest] is a child of the directory, and is free when any of the
    names it tries is. *)
Lemma unique_dest_child d dir name :
  plain_name name → ∃ n, plain_name n ∧ unique_dest d dir name = dir ++ [Normal n].
Proof.
  intros Hn. unfold unique_dest. destruct (negb _); [exists name; by rewrite pjoin_plain|].
  destruct (lfind _ _) as [c|] eqn:E; [|exists name; by rewrite pjoin_plain].
  apply lfind_Some in E as [(i & -> & _)%list_elem_of_fmap _].
  exists (candidate name (Z.of_nat i)). split; [by apply candidate_plain|].
  by apply pjoin_plain, candidate_plain.
Qed.

Definition dest_candidates (dir : path) (name : str) : list path :=
  pjoin dir name :: map (λ i, pjoin dir (candidate name (Z.of_nat i))) (List.seq 1 9999).

Lemma unique_dest_free d dir name :
  (∃ c, c ∈ dest_candidates dir name ∧ fs_exists d c = false) →
  fs_exists d (unique_dest d dir name) = false.
Proof.
  intros (c & Hc & Hf). unfold unique_dest. destruct (fs_exists d (pjoin dir name)) eqn:E; cbn [negb]; [|done].
  destruct (lfind _ _) as [p|] eqn:El; [apply lfind_Some in El as [_ H]; by apply negb_true_iff|].
  unfold dest_candidates in Hc. apply elem_of_cons in Hc as [->|Hc]; [congruence|].
  rewrite lfind_None in El. apply El in Hc. by rewrite Hf in Hc.
Qed.

Lemma unique_dest_ne_existing d dir name tmp :
  fs_exists d tmp = true → tmp ≠ pjoin dir name → unique_dest d dir name ≠ tmp.
Proof.
  intros He Hne. unfold unique_dest. destruct (negb _); [done|].
  destruct (lfind _ _) as [p|] eqn:El; [|done]. apply lfind_Some in El as [_ H].
  intros ->. by rewrite He in H.
Qed.

(** ** The invariant *)

Definition sink_tmp (s : Sink) : option path :=
  match s with SinkFile t _ _ _ => Some t | SinkMemory _ => None end.

(** The two directories files are received into. *)
Definition recv_dirs (x : FileXfer) : list path :=
  [download_dir x; download_dir x ++ [Normal (lit "pending")]].

(** An entry agrees with the disk: its handle is open on the temporary name
    and the file holds exactly the bytes hashed so far. *)
Definition entry_ok (x : FileXfer) (k : str * Z) (inc : Incoming) : Prop :=
  inc_written inc = zlen (inc_hasher inc) ∧
  match inc_sink inc with
  | SinkFile tmp dir ino pos =>
      dir ∈ recv_dirs x ∧ plain_name (inc_name inc) ∧
      tmp = dir ++ [Normal (tmp_part (inc_name inc) k.2)] ∧
      names (disk x) !! tmp = Some ino ∧
      (content <$> inodes (disk x) !! ino = Some (inc_hasher inc)) ∧
      pos = length (inc_hasher inc)
  | SinkMemory buf => buf = inc_hasher inc ∧ zlen buf ≤ MAX_MEM_BLOB
  end.

Record xfer_inv (x : FileXfer) : Prop := {
  inv_fs : fs_wf (disk x);
  inv_size : (base.size (incoming x) ≤ MAX_CONCURRENT_INCOMING)%nat;
  inv_entry k inc : incoming x !! k = Some inc → entry_ok x k inc;
  inv_tmp k k' inc inc' t :
    incoming x !! k = Some inc → incoming x !! k' = Some inc' →
    sink_tmp (inc_sink inc) = Some t → sink_tmp (inc_sink inc') = Some t → k = k';
}.

Lemma inv_ack x p i o d : xfer_inv x → xfer_inv (ack x p i o d).
Proof. by intros []. Qed.

Lemma inv_reject x p i d : xfer_inv x → xfer_inv (reject x p i d).
Proof. apply inv_ack. Qed.

Lemma inv_notice x n : xfer_inv x → xfer_inv (add_notice x n).
Proof. by intros []. Qed.

Lemma inv_clip x c : xfer_inv x → xfer_inv (set_clip_sink x c).
Proof. by intros []. Qed.

Lemma inv_acks x a r : xfer_inv x → xfer_inv (set_acks x a r).
Proof. by intros []. Qed.

Lemma inv_delete x k : xfer_inv x → xfer_inv (set_incoming x (delete k (incoming x))).
Proof.
  intros [Hf Hs He Ht]. split; cbn [set_incoming disk incoming download_dir].
  - done.
  - rewrite map_size_delete. case_match; [etrans; [apply Nat.le_pred_l|]|]; done.
  - intros k' inc [_ Hk]%lookup_delete_Some. by apply He.
  - intros k1 k2 i1 i2 t [_ H1]%lookup_delete_Some [_ H2]%lookup_delete_Some. by eapply Ht.
Qed.

(** The disk may change where no entry looks. *)
Lemma inv_set_disk x d :
  xfer_inv x → fs_wf d →
  (∀ k inc tmp dir ino pos,
     incoming x !! k = Some inc → inc_sink inc = SinkFile tmp dir ino pos →
     names d !! tmp = Some ino ∧ inodes d !! ino = inodes (disk x) !! ino) →
  xfer_inv (set_disk x d).
Proof.
  intros [Hf Hs He Ht] Hd Hk. split; cbn [set_disk disk incoming]; try done.
  intros k inc Hi. pose proof (He k inc Hi) as [Hw Hm]. split; [done|].
  destruct (inc_sink inc) as [tmp dir ino pos|buf] eqn:Es; [|done].
  destruct (Hk k inc tmp dir ino pos Hi Es) as [H1 H2].
  destruct Hm as (? & ? & ? & ? & ? & ?). split_and!; try done. cbn. by rewrite H2.
Qed.

(** Two entries never share an inode. *)
Lemma inv_ino x k k' inc inc' tmp dir ino pos tmp' dir' pos' :
  xfer_inv x → incoming x !! k = Some inc → incoming x !! k' = Some inc' →
  inc_sink inc = SinkFile tmp dir ino pos → inc_sink inc' = SinkFile tmp' dir' ino pos' → k = k'.
Proof.
  intros Hx H1 H2 E1 E2. pose proof (inv_entry x Hx k inc H1) as [_ M1].
  pose proof (inv_entry x Hx k' inc' H2) as [_ M2]. rewrite E1 in M1. rewrite E2 in M2.
  destruct M1 as (_ & _ & _ & N1 & _). destruct M2 as (_ & _ & _ & N2 & _).
  pose proof (fs_wf_inj _ (inv_fs x Hx) tmp tmp' ino N1 N2) as ->.
  eapply (inv_tmp x Hx k k' inc inc' tmp'); try done; by rewrite ?E1, ?E2.
Qed.

(** ** The handlers keep the invariant *)

Lemma inv_insert x k inc :
  xfer_inv x → (base.size (incoming x) < MAX_CONCURRENT_INCOMING)%nat ∨ is_Some (incoming x !! k) →
  entry_ok x k inc →
  (∀ k' inc' t, incoming x !! k' = Some inc' → sink_tmp (inc_sink inc) = Some t →
     sink_tmp (inc_sink inc') = Some t → k' = k) →
  xfer_inv (set_incoming x (<[k := inc]> (incoming x))).
Proof.
  intros [Hf Hs He Ht] Hroom Hok Hc. split; cbn [set_incoming disk incoming].
  - done.
  - rewrite map_size_insert. destruct (incoming x !! k) eqn:E; [done|].
    destruct Hroom as [Hr|[? Hr]]; [exact Hr|done].
  - intros k' inc' [[<- <-]|[_ Hk]]%lookup_insert_Some; [exact Hok|by apply He].
  - intros k1 k2 i1 i2 t [[<- <-]|[N1 H1]]%lookup_insert_Some [[<- <-]|[N2 H2]]%lookup_insert_Some E1 E2;
      [done|symmetry; by eapply Hc|by eapply Hc|by eapply Ht].
Qed.

(** The directory and temporary name [on_start] chooses. *)
Definition start_dir (ps : option Peers) (x : FileXfer) (peer : str) : path :=
  if needs_confirm ps (confirm x) peer then pjoin (download_dir x) (lit "pending") else download_dir x.
Definition start_tmp (ps : option Peers) (x : FileXfer) (peer : str) (id : Z) (safe : str) : path :=
  pjoin (start_dir ps x peer) (tmp_part safe id).

Lemma start_dir_recv ps x peer : start_dir ps x peer ∈ recv_dirs x.
Proof.
  unfold start_dir, recv_dirs. rewrite pjoin_plain; [case_match; set_solver|].
  apply plain_long; [by apply lit_no_slash|cbn; lia].
Qed.

(** No other transfer in progress uses the temporary name. *)
Definition tmp_free (x : FileXfer) (k : str * Z) (tmp : path) : Prop :=
  ∀ k' inc, incoming x !! k' = Some inc → sink_tmp (inc_sink inc) = Some tmp → k' = k.

Lemma inv_start_file ps x peer id safe size ino d :
  xfer_inv x → (base.size (incoming x) < MAX_CONCURRENT_INCOMING)%nat → plain_name safe →
  tmp_free x (peer, id) (start_tmp ps x peer id safe) →
  fs_create (disk x) (start_tmp ps x peer id safe) = (ino, d) →
  xfer_inv (start_incoming (set_disk x d) peer id safe size
              (SinkFile (start_tmp ps x peer id safe) (start_dir ps x peer) ino 0)).
Proof.
  intros Hx Hs Hp Hfree Ec. set (tmp := start_tmp ps x peer id safe) in *.
  assert (tmp = start_dir ps x peer ++ [Normal (tmp_part safe id)]) as Etmp
    by (by apply pjoin_plain, tmp_part_plain).
  pose proof (fs_create_wf (disk x) tmp (inv_fs x Hx)) as Hwf. rewrite Ec in Hwf. cbn [snd] in Hwf.
  destruct (fs_create_handle _ _ _ _ (inv_fs x Hx) Ec) as [Hn Hc].
  set (x0 := set_incoming x (delete (peer, id) (incoming x))).
  assert (xfer_inv (set_disk x0 d)) as H0.
  { apply inv_set_disk; [by apply inv_delete|done|]. cbn [x0 set_incoming incoming disk].
    intros k inc t dir i pos [Hne Hk]%lookup_delete_Some Es.
    destruct (inv_entry x Hx k inc Hk) as [_ Hm]. rewrite Es in Hm.
    destruct Hm as (_ & _ & _ & Ht & _). apply (fs_create_other (disk x) tmp ino d t i); try done.
    - apply (inv_fs x Hx).
    - intros ->. apply Hne. symmetry. apply (Hfree k inc Hk). by rewrite Es. }
  pose proof (inv_insert (set_disk x0 d) (peer, id)
    (mkIncoming safe (SinkFile tmp (start_dir ps x peer) ino 0) hasher_new 0 size peer) H0) as H1.
  unfold start_incoming, x0, set_incoming, set_disk in *.
  cbn [bus download_dir confirm next_id acks ack_results incoming clip_sink disk notices] in *.
  rewrite insert_delete_eq in H1. apply H1; clear H1.
  - left. eapply Nat.le_lt_trans; [|exact Hs]. rewrite map_size_delete.
    case_match; [apply Nat.le_pred_l|done].
  - split; [done|]. cbn. split_and!; try done. apply (start_dir_recv ps x peer).
  - intros k' inc' t [Hne Hk']%lookup_delete_Some [= <-] Et. exfalso. apply Hne. symmetry.
    by apply (Hfree k' inc').
Qed.

(** What the environment must not do for [on_start]: reuse the temporary name
    of another transfer. *)
Lemma inv_on_start io ps x peer id name size purpose :
  xfer_inv x →
  (∀ safe, purpose = File → safe_blob_name name = Some safe →
     tmp_free x (peer, id) (start_tmp ps x peer id safe)) →
  xfer_inv (on_start io ps x peer id name size purpose).
Proof.
  intros Hx Hfree. unfold on_start.
  destruct (MAX_CONCURRENT_INCOMING <=? _)%nat eqn:Es; [by apply inv_reject|].
  apply Nat.leb_gt in Es. destruct purpose.
  - destruct (safe_blob_name name) as [safe|] eqn:En; [|by apply inv_reject].
    destruct (io_mkdir io); [by apply inv_reject|]. destruct (io_create io); [by apply inv_reject|].
    fold (start_dir ps x peer). fold (start_tmp ps x peer id safe).
    destruct (fs_create _ _) as [ino d] eqn:Ec. apply inv_start_file; try done.
    + by apply safe_blob_name_plain in En as [? _].
    + by apply Hfree.
  - destruct (clip_sink x); [|by apply inv_reject]. destruct (MAX_MEM_BLOB <? size); [by apply inv_reject|].
    unfold start_incoming. apply inv_insert; [done|by left| |by intros ? ? ? _ [=]].
    split; [done|]. cbn. split; [done|]. vm_compute. discriminate.
Qed.

(** Once an entry is dropped, its file may change in any way. *)
Lemma inv_forget x k inc tmp dir ino pos d :
  xfer_inv x → incoming x !! k = Some inc → inc_sink inc = SinkFile tmp dir ino pos → fs_wf d →
  (∀ q i, names (disk x) !! q = Some i → q ≠ tmp →
     names d !! q = Some i ∧ inodes d !! i = inodes (disk x) !! i) →
  xfer_inv (set_disk (set_incoming x (delete k (incoming x))) d).
Proof.
  intros Hx Hk Es Hd Hq. apply inv_set_disk; [by apply inv_delete|done|].
  cbn [set_incoming incoming disk]. intros k' inc' t dir' i pos' [Hne Hk']%lookup_delete_Some Es'.
  destruct (inv_entry x Hx k' inc' Hk') as [_ Hm]. rewrite Es' in Hm.
  destruct Hm as (_ & _ & _ & Ht & _). apply Hq; [done|]. intros ->. apply Hne.
  apply (inv_tmp x Hx k k' inc inc' tmp); by rewrite ?Es, ?Es'.
Qed.

(** The store after removing a name, or writing through a handle. *)
Lemma fs_remove_other s p q i :
  names s !! q = Some i → q ≠ p →
  names (fs_remove s p) !! q = Some i ∧ inodes (fs_remove s p) !! i = inodes s !! i.
Proof. intros Hq Hne. cbn. by rewrite lookup_delete_ne. Qed.

Lemma fs_alter_other s p i f q j :
  fs_wf s → names s !! p = Some i → names s !! q = Some j → q ≠ p →
  names s !! q = Some j ∧ alter f i (inodes s) !! j = inodes s !! j.
Proof.
  intros Hs Hp Hq Hne. split; [done|]. apply lookup_alter_ne. intros ->.
  by apply Hne, (fs_wf_inj s Hs q p j).
Qed.

(** A stored chunk: the entry and its file grow together. *)
Lemma inv_chunk_file x k inc tmp dir ino pos data :
  xfer_inv x → incoming x !! k = Some inc → inc_sink inc = SinkFile tmp dir ino pos →
  xfer_inv (set_incoming (set_disk x (fs_write_at (disk x) ino pos data))
    (<[k := chunk_stored inc (SinkFile tmp dir ino (pos + length data)) data]> (incoming x))).
Proof.
  intros Hx Hk Es. pose proof (inv_entry x Hx k inc Hk) as [Hw Hm]. rewrite Es in Hm.
  destruct Hm as (Hdir & Hn & Etmp & Ht & Hc & Epos).
  set (d := fs_write_at (disk x) ino pos data).
  assert (xfer_inv (set_disk (set_incoming x (delete k (incoming x))) d)) as H0.
  { apply (inv_forget x k inc tmp dir ino pos); try done; [apply fs_alter_wf, (inv_fs x Hx)|].
    intros q i Hq Hne. by apply (fs_alter_other (disk x) tmp); [apply (inv_fs x Hx)|..]. }
  pose proof (inv_insert _ k (chunk_stored inc (SinkFile tmp dir ino (pos + length data)) data) H0) as H1.
  unfold set_incoming, set_disk in *.
  cbn [bus download_dir confirm next_id acks ack_results incoming clip_sink disk notices] in *.
  rewrite insert_delete_eq in H1. apply H1; clear H1.
  - left. eapply Nat.lt_le_trans; [|apply (inv_size x Hx)]. rewrite map_size_delete, Hk.
    apply Nat.lt_pred_l. intros Hz. apply map_size_empty_inv in Hz. by rewrite Hz, lookup_empty in Hk.
  - split; cbn [chunk_stored inc_written inc_hasher inc_sink inc_name]; unfold hasher_update.
    { rewrite Hw, zlen_app. done. }
    split_and!; try done.
    + cbn [disk d fs_write_at inodes]. rewrite lookup_alter_eq.
      destruct (inodes (disk x) !! ino) as [n|]; [|done]. cbn in *. injection Hc as Hc.
      by rewrite Hc, Epos, overwrite_end.
    + rewrite length_app, Epos. done.
  - intros k' inc' t [Hne Hk']%lookup_delete_Some Et Et'. exfalso. apply Hne. symmetry.
    apply (inv_tmp x Hx k' k inc' inc t); try done. by rewrite Es.
Qed.

Lemma inv_on_chunk io x peer id data : xfer_inv x → xfer_inv (on_chunk io x peer id data).
Proof.
  intros Hx. unfold on_chunk. destruct (incoming x !! (peer, id)) as [inc|] eqn:Ei; [|done].
  pose proof (inv_entry x Hx _ _ Ei) as [Hw Hm].
  destruct (inc_sink inc) as [tmp dir ino pos|buf] eqn:Es.
  - destruct (io_write io).
    + apply inv_reject, (inv_forget x (peer, id) inc tmp dir ino pos); try done.
      * apply fs_remove_wf, (inv_fs x Hx).
      * intros q i. apply fs_remove_other.
    + exact (inv_chunk_file x (peer, id) inc tmp dir ino pos data Hx Ei Es).
  - destruct Hm as [-> Hb]. destruct (MAX_MEM_BLOB <? _) eqn:Ec; zsolve.
    + by apply inv_reject, inv_delete.
    + apply inv_insert; [done|right; eauto| |by intros ? ? ? _ [=]]. split; cbn.
      * unfold hasher_update. rewrite zlen_app. lia.
      * split; [done|]. rewrite zlen_app. lia.
Qed.

Section receive.
Context `{Hashes}.

(** The disk [on_end] works on: the flushed one. *)
Lemma flush_sink_wf io d s : fs_wf d → fs_wf (flush_sink io d s).
Proof. intros Hd. unfold flush_sink. repeat case_match; try done. by apply fs_alter_wf. Qed.

Lemma flush_sink_names io d s : names (flush_sink io d s) = names d.
Proof. unfold flush_sink. by repeat case_match. Qed.

Lemma fs_exists_names d d' p : names d = names d' → fs_exists d p = fs_exists d' p.
Proof. intros E. unfold fs_exists. by rewrite E. Qed.

Lemma lfind_ext {A} (f g : A → bool) l : (∀ y, f y = g y) → lfind f l = lfind g l.
Proof. intros E. induction l as [|y l IH]; [done|]. cbn. by rewrite E, IH. Qed.

Lemma unique_dest_names d d' dir name : names d = names d' → unique_dest d dir name = unique_dest d' dir name.
Proof.
  intros E. unfold unique_dest. rewrite (fs_exists_names d d' _ E).
  rewrite (lfind_ext _ (λ p, negb (fs_exists d' p))); [done|].
  intros y. by rewrite (fs_exists_names d d' y E).
Qed.

(** Flushing, then removing or renaming the temporary name, leaves every other
    existing file alone. *)
Lemma flush_other io x k inc tmp dir ino pos q i :
  xfer_inv x → incoming x !! k = Some inc → inc_sink inc = SinkFile tmp dir ino pos →
  names (disk x) !! q = Some i → q ≠ tmp →
  inodes (flush_sink io (disk x) (inc_sink inc)) !! i = inodes (disk x) !! i.
Proof.
  intros Hx Hk Es Hq Hne. destruct (inv_entry x Hx k inc Hk) as [_ Hm]. rewrite Es in *.
  destruct Hm as (_ & _ & _ & Ht & _). unfold flush_sink. destruct (io_flush io); [|done]. cbn.
  by destruct (fs_alter_other (disk x) tmp ino (λ n0, mkInode (take n (content n0)) (mode n0)) q i
    (inv_fs x Hx) Ht Hq Hne).
Qed.

(** A free name among those [unique_dest] tries. *)
Definition dest_room (x : FileXfer) (peer : str) (id : Z) : Prop :=
  ∀ inc tmp dir ino pos, incoming x !! (peer, id) = Some inc → inc_sink inc = SinkFile tmp dir ino pos →
    ∃ c, c ∈ dest_candidates dir (inc_name inc) ∧ fs_exists (disk x) c = false.

Lemma inv_on_end io ps x peer id sha :
  xfer_inv x → dest_room x peer id → xfer_inv (on_end io ps x peer id sha).
Proof.
  intros Hx Hroom. unfold on_end. destruct (incoming x !! (peer, id)) as [inc|] eqn:Ei; [|done].
  destruct (inc_sink inc) as [tmp dir ino pos|buf] eqn:Es.
  2: { cbn [flush_sink cleanup]. pose proof (inv_delete x (peer, id) Hx) as Hd.
       repeat case_match; try (by apply inv_reject); by apply inv_ack, inv_clip. }
  set (fd := flush_sink io _ _). change (disk (set_incoming x _)) with (disk x) in fd.
  assert (names fd = names (disk x)) as En by apply flush_sink_names.
  assert (∀ q i, names (disk x) !! q = Some i → q ≠ tmp → inodes fd !! i = inodes (disk x) !! i) as Hino.
  { intros q i Hq Hne. unfold fd. rewrite <- Es. by eapply flush_other. }
  assert (fs_wf fd) as Hfd by (apply flush_sink_wf, (inv_fs x Hx)).
  assert (xfer_inv (set_disk (set_incoming x (delete (peer, id) (incoming x))) (fs_remove fd tmp))) as Hrm.
  { apply (inv_forget x (peer, id) inc tmp dir ino pos); try done; [by apply fs_remove_wf|].
    intros q i Hq Hne. destruct (fs_remove_other fd tmp q i) as [H1 H2]; [by rewrite En|done|].
    rewrite H2. split; [done|]. by eapply Hino. }
  case_bool_decide; [exact (inv_reject _ peer id _ Hrm)|].
  destruct (_ && _); [exact (inv_reject _ peer id _ Hrm)|]. cbn [disk set_disk].
  set (dest := unique_dest fd dir (inc_name inc)).
  destruct (io_rename io); [exact (inv_reject _ peer id _ Hrm)|].
  destruct (fs_rename fd tmp dest) as [d|] eqn:Er; [|exact (inv_reject _ peer id _ Hrm)].
  apply inv_notice, inv_ack. apply (inv_forget x (peer, id) inc tmp dir ino pos); try done.
  { by eapply fs_rename_wf. }
  intros q i Hq Hne. unfold fs_rename in Er. destruct (names fd !! tmp); [|done]. injection Er as <-.
  cbn [names inodes]. split; [|by eapply Hino]. rewrite lookup_insert_ne; [rewrite lookup_delete_ne by done; by rewrite <- En in Hq|].
  intros Edq. assert (fs_exists (disk x) q = false) as Hf.
  { rewrite <- Edq. unfold dest. rewrite (unique_dest_names fd (disk x)) by done.
    apply unique_dest_free. by eapply Hroom. }
  unfold fs_exists in Hf. by rewrite Hq in Hf.
Qed.

(** Steps of the receiver in which no temporary name is reused and a free
    destination exists. *)
Definition step_ok (ps : option Peers) (x : FileXfer) (peer : str) (msg : Message) : Prop :=
  match msg with
  | BlobStart id name size File =>
      ∀ safe, safe_blob_name name = Some safe → tmp_free x (peer, id) (start_tmp ps x peer id safe)
  | BlobEnd id _ => dest_room x peer id
  | _ => True
  end.

Lemma inv_handle_inbound io ps x peer msg :
  xfer_inv x → step_ok ps x peer msg → xfer_inv (handle_inbound io ps x peer msg).
Proof.
  intros Hx Hs. destruct msg; cbn [handle_inbound step_ok] in *; try done.
  - apply inv_on_start; [done|]. intros safe -> Hn. by apply Hs.
  - by apply inv_on_chunk.
  - by apply inv_on_end.
  - case_decide; [by apply inv_acks|done].
Qed.

(** Any number of frames, from any peers, with any I/O failures. *)
Inductive receives (x0 : FileXfer) : FileXfer → Prop :=
| receives_start : receives x0 x0
| receives_frame x io ps peer msg :
    receives x0 x → step_ok ps x peer msg → receives x0 (handle_inbound io ps x peer msg).


(** What the sender claims agrees with what was received. *)
Definition blob_valid (inc : Incoming) (sha : bytes) : Prop :=
  sha256 (inc_hasher inc) = sha ∧ (inc_declared inc = 0 ∨ zlen (inc_hasher inc) = inc_declared inc).
#[local] Instance blob_valid_dec inc sha : Decision (blob_valid inc sha).
Proof. unfold blob_valid. apply _. Defined.

Lemma size_check inc :
  inc_written inc = zlen (inc_hasher inc) →
  negb (inc_declared inc =? 0) && negb (inc_written inc =? inc_declared inc) = false ↔
  inc_declared inc = 0 ∨ zlen (inc_hasher inc) = inc_declared inc.
Proof. intros ->. rewrite andb_false_iff, !negb_false_iff, !Z.eqb_eq. done. Qed.

Lemma tmp_not_dest x k inc tmp dir ino pos :
  xfer_inv x → incoming x !! k = Some inc → inc_sink inc = SinkFile tmp dir ino pos →
  unique_dest (disk x) dir (inc_name inc) ≠ tmp.
Proof.
  intros Hx Hk Es. destruct (inv_entry x Hx k inc Hk) as [_ Hm]. rewrite Es in Hm.
  destruct Hm as (_ & Hn & Et & Hname & _). apply unique_dest_ne_existing.
  - apply bool_decide_eq_true. eauto.
  - rewrite pjoin_plain by done. rewrite Et. intros E. apply app_inj_tail in E as [_ E].
    injection E as E. by apply tmp_part_ne in E.
Qed.

(** The state after a refusal. *)
Lemma refused_effect x k tmp dir ino pos peer id why :
  let x' := reject (cleanup (set_disk (set_incoming x (delete k (incoming x))) (disk x))
                      (SinkFile tmp dir ino pos)) peer id why in
  incoming x' = delete k (incoming x) ∧ fs_stat (disk x') tmp = None ∧
  bus x' = (send_to (bus x) peer (BlobAck id false why)).2 ∧
  ∀ q, q ≠ tmp → fs_stat (disk x') q = fs_stat (disk x) q.
Proof.
  cbn [cleanup reject ack set_bus set_disk set_incoming incoming disk bus].
  rewrite fs_stat_remove, decide_True by done. split_and!; try done.
  intros q Hq. by rewrite fs_stat_remove, decide_False.
Qed.

(** The verdict of [on_end] on a file, with no I/O failure: what it does to
    the disk, and the acknowledgement it queues. *)
Lemma on_end_file ps x peer id sha inc tmp dir ino pos :
  xfer_inv x → incoming x !! (peer, id) = Some inc → inc_sink inc = SinkFile tmp dir ino pos →
  let dest := unique_dest (disk x) dir (inc_name inc) in
  let x' := on_end no_faults ps x peer id sha in
  incoming x' = delete (peer, id) (incoming x) ∧ fs_stat (disk x') tmp = None ∧
  if decide (blob_valid inc sha) then
     content <$> fs_stat (disk x') dest = Some (inc_hasher inc) ∧
     bus x' = (send_to (bus x) peer (BlobAck id true (inc_name inc))).2 ∧
     ∀ q, q ≠ dest → q ≠ tmp → fs_stat (disk x') q = fs_stat (disk x) q
  else
     (∃ why, bus x' = (send_to (bus x) peer (BlobAck id false why)).2) ∧
     ∀ q, q ≠ tmp → fs_stat (disk x') q = fs_stat (disk x) q.
Proof.
  intros Hx Hk Es dest x'. pose proof (tmp_not_dest x _ inc tmp dir ino pos Hx Hk Es) as Hne.
  destruct (inv_entry x Hx _ inc Hk) as [Hw Hm]. rewrite Es in Hm.
  destruct Hm as (_ & Hn & Et & Hname & Hc & _).
  assert (fs_stat (disk x) tmp = inodes (disk x) !! ino) as Hst by (unfold fs_stat; by rewrite Hname).
  unfold x', on_end. rewrite Hk, Es. cbn [flush_sink no_faults io_flush io_rename].
  change (disk (set_incoming x _)) with (disk x).
  destruct (bool_decide (hasher_finalize (inc_hasher inc) ≠ sha)) eqn:Eb.
  { apply bool_decide_eq_true in Eb. rewrite decide_False by (by intros [? _]).
    edestruct (refused_effect x (peer, id) tmp dir ino pos peer id) as (H1 & H2 & H3 & H4).
    split_and!; [exact H1|exact H2|eexists; exact H3|exact H4]. }
  apply bool_decide_eq_false, dec_stable in Eb.
  destruct (negb (inc_declared inc =? 0) && _) eqn:Ez.
  { rewrite decide_False by (intros [_ Hz]; apply (size_check inc Hw) in Hz; by rewrite Hz in Ez).
    edestruct (refused_effect x (peer, id) tmp dir ino pos peer id) as (H1 & H2 & H3 & H4).
    split_and!; [exact H1|exact H2|eexists; exact H3|exact H4]. }
  apply (size_check inc Hw) in Ez. rewrite decide_True by (by split). cbn [disk set_disk]. fold dest.
  destruct (fs_rename (disk x) tmp dest) as [d|] eqn:Er.
  2: { unfold fs_rename in Er. by rewrite Hname in Er. }
  cbn [add_notice ack set_bus set_disk incoming disk bus set_incoming].
  rewrite !(fs_stat_rename _ _ _ _ _ Er).
  rewrite (decide_False (P := tmp = dest)), !decide_True by done. rewrite Hst, Hc.
  split_and!; try done. intros q Hq1 Hq2. by rewrite (fs_stat_rename _ _ _ _ _ Er), !decide_False.
Qed.


(** ** A whole transfer *)

(** In the middle of receiving a file: the bytes so far. *)
Definition receiving (x : FileXfer) (peer : str) (id : Z) (safe : str) (size : Z) (tmp dir : path)
    (h : bytes) : Prop :=
  xfer_inv x ∧ ∃ ino, incoming x !! (peer, id)
    = Some (mkIncoming safe (SinkFile tmp dir ino (length h)) h (zlen h) size peer).

Lemma receiving_start ps x peer id name safe size :
  xfer_inv x → (base.size (incoming x) < MAX_CONCURRENT_INCOMING)%nat →
  safe_blob_name name = Some safe → tmp_free x (peer, id) (start_tmp ps x peer id safe) →
  let x' := handle_inbound no_faults ps x peer (BlobStart id name size File) in
  receiving x' peer id safe size (start_tmp ps x peer id safe) (start_dir ps x peer) [] ∧
  bus x' = bus x ∧
  ∀ q, q ≠ start_tmp ps x peer id safe → fs_stat (disk x') q = fs_stat (disk x) q.
Proof.
  intros Hx Hs Hn Hfree x'. pose proof (safe_blob_name_plain _ _ Hn) as [Hp _].
  unfold x', handle_inbound, on_start. rewrite (proj2 (Nat.leb_gt _ _) Hs), Hn.
  cbn [no_faults io_mkdir io_create]. fold (start_dir ps x peer). fold (start_tmp ps x peer id safe).
  destruct (fs_create (disk x) (start_tmp ps x peer id safe)) as [ino d] eqn:Ec. split_and!.
  - split; [by apply inv_start_file|]. exists ino. cbn. by rewrite lookup_insert_eq.
  - done.
  - intros q Hq. pose proof (fs_stat_create (disk x) (start_tmp ps x peer id safe) q (inv_fs x Hx)) as H1.
    rewrite Ec, decide_False in H1 by done. exact H1.
Qed.

Lemma receiving_chunk ps x peer id safe size tmp dir h data :
  receiving x peer id safe size tmp dir h →
  let x' := handle_inbound no_faults ps x peer (BlobChunk id data) in
  receiving x' peer id safe size tmp dir (h ++ data) ∧ bus x' = bus x ∧
  ∀ q, q ≠ tmp → fs_stat (disk x') q = fs_stat (disk x) q.
Proof.
  intros [Hx [ino Hk]] x'. unfold x', handle_inbound, on_chunk. rewrite Hk.
  cbn [inc_sink no_faults io_write]. destruct (inv_entry x Hx _ _ Hk) as [_ Hm].
  cbn [inc_sink] in Hm. destruct Hm as (_ & _ & _ & Hname & _). split_and!.
  - split; [exact (inv_chunk_file x (peer, id) _ tmp dir ino (length h) data Hx Hk eq_refl)|].
    exists ino. cbn. rewrite lookup_insert_eq. unfold chunk_stored, hasher_update. cbn.
    by rewrite zlen_app, length_app.
  - done.
  - intros q Hq. cbn [set_incoming set_disk disk]. unfold fs_write_at.
    rewrite (fs_stat_alter (disk x) tmp) by (done || apply (inv_fs x Hx)). by rewrite decide_False.
Qed.

Lemma receiving_chunks ps pieces x peer id safe size tmp dir h :
  receiving x peer id safe size tmp dir h →
  let x' := foldl (λ x m, handle_inbound no_faults ps x peer m) x (map (BlobChunk id) pieces) in
  receiving x' peer id safe size tmp dir (h ++ concat pieces) ∧ bus x' = bus x ∧
  ∀ q, q ≠ tmp → fs_stat (disk x') q = fs_stat (disk x) q.
Proof.
  revert x h. induction pieces as [|p pieces IH]; intros x h Hr; cbn [map foldl concat].
  { by rewrite app_nil_r. }
  destruct (receiving_chunk ps x peer id safe size tmp dir h p Hr) as (H1 & H2 & H3).
  destruct (IH _ _ H1) as (H4 & H5 & H6). rewrite app_assoc. split_and!; [done|congruence|].
  intros q Hq. by rewrite H6, H3.
Qed.

Lemma hasher_fold pieces h : foldl hasher_update h pieces = h ++ concat pieces.
Proof.
  revert h. induction pieces as [|p ps IH]; intros h; cbn; [by rewrite app_nil_r|].
  rewrite IH. unfold hasher_update. by rewrite app_assoc.
Qed.

(** Up to the last chunk: the bytes are in the temporary file, all other files
    are as they were. *)
Lemma receiving_all ps x peer id name safe pieces size :
  xfer_inv x → (base.size (incoming x) < MAX_CONCURRENT_INCOMING)%nat →
  safe_blob_name name = Some safe → tmp_free x (peer, id) (start_tmp ps x peer id safe) →
  let tmp := start_tmp ps x peer id safe in
  let x2 := foldl (λ x m, handle_inbound no_faults ps x peer m)
              (handle_inbound no_faults ps x peer (BlobStart id name size File)) (map (BlobChunk id) pieces) in
  receiving x2 peer id safe size tmp (start_dir ps x peer) (concat pieces) ∧ bus x2 = bus x ∧
  (∀ q, q ≠ tmp → fs_stat (disk x2) q = fs_stat (disk x) q) ∧
  (∀ q, q ≠ tmp → fs_exists (disk x2) q = fs_exists (disk x) q).
Proof.
  intros Hx Hs Hn Hfree tmp x2.
  destruct (receiving_start ps x peer id name safe size Hx Hs Hn Hfree) as (R1 & B1 & S1).
  destruct (receiving_chunks ps pieces _ peer id safe size _ _ _ R1) as (R2 & B2 & S2).
  assert (∀ q, q ≠ tmp → fs_stat (disk x2) q = fs_stat (disk x) q) as Hq.
  { intros q Hq. unfold x2. by rewrite S2, S1. }
  split_and!; [exact R2|unfold x2; congruence|done|].
  intros q Hne. rewrite !fs_exists_stat by (apply (inv_fs x Hx) || apply inv_fs, R2). by rewrite Hq.
Qed.

(** A file transfer delivers: the frames [stream_blob] makes of a source,
    cut into any pieces, handled in order by a receiver with a free slot and
    no I/O failure, leave exactly the source's bytes in one file directly below
    the download directory (its [pending] subdirectory when the sender is to
    be confirmed).  It has the name sent when that name is free, and is a new
    file whenever any name tried is free.  One positive acknowledgement is
    queued, the slot is freed, the temporary file is gone and nothing else on
    the disk has changed. *)
Theorem transfer_delivers ps x peer id name safe pieces :
  xfer_inv x → (base.size (incoming x) < MAX_CONCURRENT_INCOMING)%nat →
  safe_blob_name name = Some safe → tmp_free x (peer, id) (start_tmp ps x peer id safe) →
  let tmp := start_tmp ps x peer id safe in
  let dir := start_dir ps x peer in
  let x' := foldl (λ x m, handle_inbound no_faults ps x peer m) x
              (blob_frames id name (zlen (concat pieces)) File pieces) in
  ∃ n, plain_name n ∧
    content <$> fs_stat (disk x') (dir ++ [Normal n]) = Some (concat pieces) ∧
    fs_stat (disk x') tmp = None ∧
    (∀ q, q ≠ dir ++ [Normal n] → q ≠ tmp → fs_stat (disk x') q = fs_stat (disk x) q) ∧
    (fs_exists (disk x) (dir ++ [Normal safe]) = false → n = safe) ∧
    ((∃ c, c ∈ dest_candidates dir safe ∧ c ≠ tmp ∧ fs_exists (disk x) c = false) →
     fs_exists (disk x) (dir ++ [Normal n]) = false) ∧
    bus x' = (send_to (bus x) peer (BlobAck id true safe)).2 ∧
    incoming x' !! (peer, id) = None.
Proof.
  intros Hx Hs Hn Hfree tmp dir x'. pose proof (safe_blob_name_plain _ _ Hn) as [Hp _].
  destruct (receiving_all ps x peer id name safe pieces (zlen (concat pieces)) Hx Hs Hn Hfree)
    as ([I2 [ino Hk]] & B2 & S2 & E2).
  subst x'. unfold blob_frames. cbn [foldl]. rewrite foldl_app. cbn [foldl]. rewrite hasher_fold.
  set (x2 := foldl _ _ _) in *. cbn [handle_inbound hasher_new app].
  destruct (on_end_file ps x2 peer id (hasher_finalize (concat pieces)) _ tmp dir ino _ I2 Hk eq_refl)
    as (Hinc & Htmp & Hv).
  rewrite decide_True in Hv by (split; [done|by right]). destruct Hv as (Hc & Hb & Hoth).
  pose proof (tmp_not_dest x2 _ _ tmp dir ino _ I2 Hk eq_refl) as Hne. cbn [inc_name inc_hasher] in *.
  destruct (unique_dest_child (disk x2) dir safe Hp) as (n & Hpn & Hd).
  pose proof (unique_dest_free (disk x2) dir safe) as Hfr. rewrite Hd in *. exists n. split_and!.
  - done.
  - exact Hc.
  - exact Htmp.
  - intros q Hq1 Hq2. rewrite Hoth by done. by apply S2.
  - intros Hf. unfold unique_dest in Hd. rewrite pjoin_plain in Hd by done. rewrite E2, Hf in Hd.
    { apply app_inj_tail in Hd as [_ Hd]. by injection Hd as ->. }
    unfold tmp, start_tmp. rewrite pjoin_plain by (by apply tmp_part_plain). fold dir.
    intros E. apply app_inj_tail in E as [_ E]. injection E as E. by symmetry in E; apply tmp_part_ne in E.
  - intros (c & Hin & Hct & Hcf). rewrite <- E2 by done. apply Hfr. exists c. by rewrite E2.
  - by rewrite Hb, B2.
  - rewrite Hinc. by rewrite lookup_delete_eq.
Qed.

(** ** Confinement *)

(** A file directly below one of the receiving directories. *)
Definition below (x : FileXfer) (q : path) : Prop :=
  ∃ dir n, dir ∈ recv_dirs x ∧ q = dir ++ [Normal n].

Lemma entry_below x k inc tmp dir ino pos :
  xfer_inv x → incoming x !! k = Some inc → inc_sink inc = SinkFile tmp dir ino pos →
  below x tmp ∧ names (disk x) !! tmp = Some ino ∧ dir ∈ recv_dirs x ∧ plain_name (inc_name inc).
Proof.
  intros Hx Hk Es. destruct (inv_entry x Hx k inc Hk) as [_ Hm]. rewrite Es in Hm.
  destruct Hm as (Hdir & Hn & -> & Ht & _). split_and!; try done. by eexists dir, _.
Qed.

Lemma fs_stat_remove_ne s p q : q ≠ p → fs_stat (fs_remove s p) q = fs_stat s q.
Proof. intros Hq. by rewrite fs_stat_remove, decide_False. Qed.

Lemma flush_stat_ne io x k inc tmp dir ino pos q :
  xfer_inv x → incoming x !! k = Some inc → inc_sink inc = SinkFile tmp dir ino pos → q ≠ tmp →
  fs_stat (flush_sink io (disk x) (SinkFile tmp dir ino pos)) q = fs_stat (disk x) q.
Proof.
  intros Hx Hk Es Hq. destruct (entry_below x k inc tmp dir ino pos Hx Hk Es) as (_ & Ht & _).
  cbn [flush_sink]. destruct (io_flush io); [|done].
  rewrite (fs_stat_alter (disk x) tmp) by (done || apply (inv_fs x Hx)). by rewrite decide_False.
Qed.

Lemma on_end_confined io ps x peer id sha q :
  xfer_inv x → ¬ below x q → fs_stat (disk (on_end io ps x peer id sha)) q = fs_stat (disk x) q.
Proof.
  intros Hx Hq. unfold on_end. destruct (incoming x !! (peer, id)) as [inc|] eqn:Ei; [|done].
  destruct (inc_sink inc) as [tmp dir ino pos|buf] eqn:Es; [|by repeat case_match].
  destruct (entry_below x _ inc tmp dir ino pos Hx Ei Es) as (Hb & Ht & Hdir & Hn).
  assert (q ≠ tmp) as Hqt by (by intros ->).
  pose proof (flush_stat_ne io x _ inc tmp dir ino pos q Hx Ei Es Hqt) as Hfl.
  set (fd := flush_sink io _ _) in *. change (disk (set_incoming x _)) with (disk x) in fd.
  assert (fs_stat (fs_remove fd tmp) q = fs_stat (disk x) q) as Hrm
    by (by rewrite fs_stat_remove_ne by done).
  case_bool_decide; [exact Hrm|]. destruct (_ && _); [exact Hrm|]. cbn [disk set_disk].
  destruct (io_rename io); [exact Hrm|].
  destruct (fs_rename fd tmp _) as [d|] eqn:Er; [|exact Hrm].
  cbn [add_notice ack set_bus disk set_disk]. rewrite (fs_stat_rename _ _ _ _ _ Er).
  destruct (unique_dest_child fd dir (inc_name inc) Hn) as (n & _ & ->).
  rewrite decide_False by (intros ->; apply Hq; by exists dir, n). by rewrite decide_False.
Qed.


(** ** The table of transfers *)

(** Nobody else frees a slot: while sixteen transfers are in progress, a
    peer that owns none of them is refused every new transfer, whatever it
    sends, however long; only frames of the owners (a write error, an end) take
    an entry out, so transfers abandoned by a peer that went away block all
    others until the daemon restarts. *)
Theorem full_table_refuses io ps x peer msgs :
  base.size (incoming x) = MAX_CONCURRENT_INCOMING →
  (∀ id, incoming x !! (peer, id) = None) →
  incoming (foldl (λ x m, handle_inbound io ps x peer m) x msgs) = incoming x.
Proof.
  revert x. induction msgs as [|m msgs IH]; intros x Hs Hn; [done|]. cbn [foldl].
  assert (incoming (handle_inbound io ps x peer m) = incoming x) as E.
  { destruct m; cbn [handle_inbound]; try done.
    - unfold on_start. rewrite Hs. done.
    - unfold on_chunk. by rewrite Hn.
    - unfold on_end. by rewrite Hn.
    - by case_decide. }
  rewrite IH; rewrite ?E; done.
Qed.
End receive.

(** ** Sending *)

(** The retry loop: at most three attempts; the outcome is a success iff
    one of the first three succeeds and after each failure before it the peer
    was connected again; a failure reports the last error. *)
Theorem retry_outcome ps peer p attempts :
  let o := send_one_with_retry ps peer p attempts in
  (out_ok o = true ↔
     ∃ pre d back rest, attempts = pre ++ (Ok d, back) :: rest ∧ (length pre < SEND_ATTEMPTS)%nat ∧
       Forall (λ a, is_ok a.1 = false ∧ a.2 = true) pre ∧ out_detail o = d) ∧
  send_one_with_retry ps peer p (take SEND_ATTEMPTS attempts) = o.
Proof.
  unfold send_one_with_retry. generalize SEND_ATTEMPTS as n. intros n.
  generalize (default (lit "file") (file_name p)) as name. generalize (peer_label ps peer) as label.
  generalize (@nil byte) as last. intros last label name. revert n last.
  induction attempts as [|[r back] rest IH]; intros n last; cbn.
  { destruct n; cbn; (split; [|done]); split; [done| |done|];
      intros (pre & ? & ? & ? & E & _); by destruct pre. }
  destruct n as [|n]; cbn.
  { split; [|done]. split; [done|]. intros (pre & ? & ? & ? & _ & Hl & _). lia. }
  destruct r as [d|e]; cbn.
  { split; [|done]. split; [|done]. intros _. exists [], d, back, rest. split_and!; try done. cbn. lia. }
  destruct back; cbn.
  2: { split; [|done]. split; [done|]. intros (pre & d & b & rest' & E & _ & Hf & _).
       destruct pre as [|a pre]; [done|]. injection E as <- _.
       apply list.Forall_cons in Hf as [[_ ?] _]. done. }
  destruct (IH n e) as [IH1 IH2]. split; [|exact IH2]. rewrite IH1. split.
  - intros (pre & d & b & rest' & -> & Hl & Hf & Hd). exists ((Err e, true) :: pre), d, b, rest'.
    split_and!; try done; [cbn; lia|]. by apply list.Forall_cons.
  - intros (pre & d & b & rest' & E & Hl & Hf & Hd). destruct pre as [|a pre]; [done|].
    injection E as <- ->. apply list.Forall_cons in Hf as [_ Hf]. exists pre, d, b, rest'.
    split_and!; try done. cbn in Hl. lia.
Qed.

(** ** Witnesses *)

Definition empty_fs : fs := mkFs ∅ ∅ 0.
Lemma empty_fs_wf : fs_wf empty_fs.
Proof. split; cbn; intros; (by rewrite lookup_empty in *) || (by destruct H; rewrite lookup_empty in *). Qed.

Definition sample_config : Config := mkConfig (lit "n") DEFAULT_PORT true true 1048576 25 Never (lit "info").
Definition dl : path := [RootDir; Normal (lit "dl")].
Definition xfer_bus : PeerBus :=
  mkBus {[ lit "A" := 0%nat; lit "B" := 1%nat ]}
    {[ 0%nat := mkChan [] 256 false; 1%nat := mkChan [] 256 false ]}.
Definition x0 : FileXfer := FileXfer_new sample_config xfer_bus dl None empty_fs.

Lemma x0_inv : xfer_inv x0.
Proof.
  split; cbn [x0 FileXfer_new disk incoming].
  - apply empty_fs_wf.
  - rewrite map_size_empty. unfold MAX_CONCURRENT_INCOMING. lia.
  - intros k inc. by rewrite lookup_empty.
  - intros k k' inc inc' t. by rewrite lookup_empty.
Qed.

Lemma x0_free k tmp : tmp_free x0 k tmp.
Proof. intros k' inc Hk. cbn [x0 FileXfer_new incoming] in Hk. by rewrite lookup_empty in Hk. Qed.

(** Receiving "hello" in two chunks. *)
Definition hello_frames : list Message :=
  @blob_frames sample_hashes 7 (lit "a.txt") 5 File [lit "hel"; lit "lo"].
Definition recv (x : FileXfer) (peer : str) (m : Message) : FileXfer :=
  @handle_inbound sample_hashes no_faults None x peer m.
Definition x3 : FileXfer := foldl (λ x m, recv x (lit "A") m) x0 (take 3 hello_frames).

Lemma x3_receives : @receives sample_hashes x0 x3.
Proof.
  unfold x3. change (take 3 hello_frames) with
    [BlobStart 7 (lit "a.txt") 5 File; BlobChunk 7 (lit "hel"); BlobChunk 7 (lit "lo")].
  cbn [foldl]. repeat (apply receives_frame; [|first [done|intros safe _; apply x0_free]]).
  apply receives_start.
Qed.


Lemma x3_inv : xfer_inv x3.
Proof.
  unfold x3. change (take 3 hello_frames) with
    [BlobStart 7 (lit "a.txt") 5 File; BlobChunk 7 (lit "hel"); BlobChunk 7 (lit "lo")].
  cbn [foldl]. repeat (apply inv_handle_inbound; [|first [done|intros safe _; apply x0_free]]).
  apply x0_inv.
Qed.

Lemma x3_room : dest_room x3 (lit "A") 7.
Proof.
  intros inc tmp dir ino pos Hi Es. assert (Some inc = incoming x3 !! (lit "A", 7)) as E by done.
  vm_compute in E. injection E as ->. injection Es as _ <- _ _.
  exists (dl ++ [Normal (lit "a.txt")]). split; [|vm_compute; reflexivity].
  left.
Qed.


Lemma transfer_delivers_witness :
  ∃ n, content <$> fs_stat (disk (foldl (λ x m, recv x (lit "A") m) x0 hello_frames)) (dl ++ [Normal n])
       = Some (lit "hello").
Proof.
  destruct (@transfer_delivers sample_hashes None x0 (lit "A") 7 (lit "a.txt") (lit "a.txt")
    [lit "hel"; lit "lo"] x0_inv) as (n & _ & H & _).
  - vm_compute. lia.
  - vm_compute. reflexivity.
  - apply x0_free.
  - exists n. exact H.
Defined.


(** Sixteen transfers of peer A that were never finished. *)
Definition x_full : FileXfer :=
  foldl (λ x i, recv x (lit "A") (BlobStart (Z.of_nat i) (lit "a.txt") 5 File)) x0 (List.seq 0 16).

Lemma x_full_owner : map_Forall (λ k _, k.1 ≠ lit "B") (incoming x_full).
Proof. apply (bool_decide_unpack _). vm_compute. exact I. Qed.

Lemma full_table_refuses_witness :
  base.size (incoming x_full) = 16%nat ∧
  incoming (foldl (λ x m, recv x (lit "B") m) x_full hello_frames) = incoming x_full.
Proof.
  split; [vm_compute; reflexivity|].
  apply (@full_table_refuses sample_hashes no_faults None x_full (lit "B") hello_frames).
  - vm_compute. reflexivity.
  - intros id. destruct (incoming x_full !! (lit "B", id)) as [inc|] eqn:E; [|done].
    by apply x_full_owner in E.
Defined.

(** ** Behaviours worth knowing *)

(** Two peers that send files of the same name under the same transfer id
    open the same temporary file: here both transfers pass the digest check and
    the first is acknowledged as received, but the file that appears does not
    have the bytes its sender streamed. *)
Theorem shared_tmp_corrupts :
  let x := foldl (λ x '(p, m), recv x p m) x0
    [(lit "A", BlobStart 1 (lit "f") 2 File); (lit "B", BlobStart 1 (lit "f") 2 File);
     (lit "A", BlobChunk 1 (lit "aa")); (lit "B", BlobChunk 1 (lit "bb"));
     (lit "A", BlobEnd 1 (sample_digest (lit "aa")))] in
  queued (bus x) (lit "A") = [BlobAck 1 true (lit "f")] ∧
  content <$> fs_stat (disk x) (dl ++ [Normal (lit "f")]) = Some (lit "bb").
Proof. vm_compute. done. Qed.

(** A failed final flush is ignored: when the last bytes cannot be written
    (a full disk, reported only by [flush] or [sync_all]), the truncated file is
    renamed into place and acknowledged as received. *)
Theorem flush_error_ignored :
  let full_disk := mkFaults None None false (Some 3%nat) None in
  let x := @on_end sample_hashes full_disk None x3 (lit "A") 7 (sample_digest (lit "hello")) in
  queued (bus x) (lit "A") = [BlobAck 7 true (lit "a.txt")] ∧
  content <$> fs_stat (disk x) (dl ++ [Normal (lit "a.txt")]) = Some (lit "hel").
Proof. vm_compute. done. Qed.
