(* ===== verification/Transfer.v ===== *)
(** * Transfer: a file from one daemon to another

    Both ends of one transfer of [crates/qdropd/src/filexfer.rs] at once: the
    task of [send_one] with its waiter, the connection as a queue, the
    receiver's handlers, and the acknowledgement on its way back through the
    receiver's bus; in between, both daemons handle other frames, operations
    fail, and the connection may end.  [FileXfer] has the handlers.

    The theorem: whatever happens in between, a sender is told of success only
    if the receiver had the whole file at that time; and undisturbed, every run
    is finite and ends with success. *)
From S2P Require Import Prelude Text Crypto Proto Store Samples Peers Config Bus FileXfer.

(** Which transfer a frame belongs to. *)
Definition blob_id (m : Message) : option Z :=
  match m with BlobStart id _ _ _ | BlobChunk id _ | BlobEnd id _ => Some id | _ => None end.
Definition is_end (m : Message) : bool := match m with BlobEnd _ _ => true | _ => false end.

Section transfer.
Context `{Hashes}.

(** What one frame does outside its own transfer: nothing to the entries of
    others, and to the bus at most an acknowledgement for this one. *)
Lemma handle_effect io ps x peer msg :
  let x' := handle_inbound io ps x peer msg in
  download_dir x' = download_dir x ∧ confirm x' = confirm x ∧
  match blob_id msg with
  | Some i =>
      (bus x' = bus x ∨ ∃ ok d, bus x' = (send_to (bus x) peer (BlobAck i ok d)).2 ∧ (ok = true → is_end msg = true)) ∧
      ∀ k, k ≠ (peer, i) → incoming x' !! k = incoming x !! k
  | None => bus x' = bus x ∧ incoming x' = incoming x
  end.
Proof.
  destruct msg as [| | | |i name size purpose|i data|i sha|i ok detail| | |]; cbn [handle_inbound blob_id]; try done.
  - unfold on_start, start_incoming. cbn [is_end].
    repeat case_match; cbn; (split_and!; [done|done|first [by left | right; do 2 eexists; by split]|]);
      intros k Hk; rewrite ?lookup_insert_ne by done; done.
  - unfold on_chunk. cbn [is_end].
    repeat case_match; cbn; (split_and!; [done|done|first [by left | right; do 2 eexists; by split]|]);
      intros k Hk; rewrite ?lookup_insert_ne, ?lookup_delete_ne by done; done.
  - unfold on_end. cbn [is_end].
    destruct (incoming x !! (peer, i)) as [inc|]; [|by split_and!; [..|left|]].
    repeat case_match; cbn; unfold cleanup; repeat case_match; cbn;
      (split_and!; [done|done|first [by left | right; do 2 eexists; by split]|]);
      intros k Hk; rewrite ?lookup_delete_ne by done; done.
  - by case_decide.
Qed.

(** ** The two ends *)

Variable me : str.       (* the sender's id *)
Variable to : str.       (* the receiver's id *)
Variable id : Z.         (* of the transfer *)
Variable name : str.
Variable size : Z.       (* from the file's metadata *)
Variable pieces : list bytes.   (* what [read] returned, until it returned nothing *)

(** [stream_blob] and its waiter, in [send_one]. *)
Inductive send_task := Streaming (todo : list Message) | AwaitAck | Ended (r : result str str).
Record transfer := mkTransfer {
  x_task : send_task;
  x_snd : FileXfer;
  x_open : bool;               (* the connection of the sender it streams through *)
  x_wire : list Message;       (* queued or on the wire *)
  x_rcv : FileXfer;
}.

Definition frames : list Message := blob_frames id name size File pieces.

(** [send_one] up to its first frame. *)
Definition transfer_start (snd rcv : FileXfer) : transfer :=
  mkTransfer (Streaming frames) (set_acks snd (acks snd ∪ {[ id ]}) (ack_results snd)) true [] rcv.

(** The end of [send_one]: the waiter is forgotten. *)
Definition send_end (y : transfer) (r : result str str) : transfer :=
  mkTransfer (Ended r) (end_ack (x_snd y) id) (x_open y) (x_wire y) (x_rcv y).

(** A turn of the task: the next frame, or a look at the waiter; [timed] tells
    that [ACK_TIMEOUT] has passed. *)
Definition send_turn (timed : bool) (y : transfer) : transfer :=
  match x_task y with
  | Streaming (f :: rest) =>
      if x_open y then mkTransfer (Streaming rest) (x_snd y) (x_open y) (x_wire y ++ [f]) (x_rcv y)
      else send_end y (Err (match f with
                            | BlobChunk _ _ => lit "connection closed mid-transfer"
                            | _ => lit "connection closed"
                            end))
  | Streaming [] => mkTransfer AwaitAck (x_snd y) (x_open y) (x_wire y) (x_rcv y)
  | AwaitAck =>
      match ack_results (x_snd y) !! id with
      | Some (true, detail) => send_end y (Ok detail)
      | Some (false, detail) => send_end y (Err (lit "peer rejected: " ++ detail))
      | None => if timed then send_end y (Err (lit "timed out waiting for peer ack")) else y
      end
  | Ended _ => y
  end.

(** The receiver's turn with the oldest frame on the wire; and the sender's with
    what the receiver has queued for it. *)
Definition receiver_turn (io : faults) (ps : option Peers) (y : transfer) : transfer :=
  match x_wire y with
  | [] => y
  | m :: rest => mkTransfer (x_task y) (x_snd y) (x_open y) rest (handle_inbound io ps (x_rcv y) me m)
  end.
Definition answer_turn (io : faults) (ps : option Peers) (y : transfer) : transfer :=
  match bus_recv (bus (x_rcv y)) me with
  | Some (m, b) => mkTransfer (x_task y) (handle_inbound io ps (x_snd y) to m) (x_open y) (x_wire y) (set_bus (x_rcv y) b)
  | None => y
  end.

(** The file cannot be opened or read. *)
Definition read_failed (e : str) (y : transfer) : transfer :=
  match x_task y with Streaming _ => send_end y (Err e) | _ => y end.

(** What happens: the turns above; reading fails; the connection ends, and what was on the wire
    may be lost; either daemon handles another frame. *)
Inductive transfer_event :=
| XSend (timed : bool)
| XReadFail (e : str)
| XDeliver (io : faults) (ps : option Peers)
| XAnswer (io : faults) (ps : option Peers)
| XBreak (lost : bool)
| XOther (io : faults) (ps : option Peers) (peer : str) (msg : Message)
| XHear (io : faults) (ps : option Peers) (peer : str) (msg : Message).

Definition transfer_step (y : transfer) (e : transfer_event) : transfer :=
  match e with
  | XSend timed => send_turn timed y
  | XReadFail e => read_failed e y
  | XDeliver io ps => receiver_turn io ps y
  | XAnswer io ps => answer_turn io ps y
  | XBreak lost => mkTransfer (x_task y) (x_snd y) false (if lost then [] else x_wire y) (x_rcv y)
  | XOther io ps peer msg =>
      mkTransfer (x_task y) (x_snd y) (x_open y) (x_wire y) (handle_inbound io ps (x_rcv y) peer msg)
  | XHear io ps peer msg =>
      mkTransfer (x_task y) (handle_inbound io ps (x_snd y) peer msg) (x_open y) (x_wire y) (x_rcv y)
  end.

(** What is asked of the surroundings: no two transfers of the receiver share a
    temporary file and each finds a free name ([step_ok]); the final flush of
    this file succeeds; other frames are of other transfers; and nobody else
    acknowledges this one. *)
Definition event_ok (y : transfer) (e : transfer_event) : Prop :=
  match e with
  | XDeliver io ps => io_flush io = None ∧ match x_wire y with m :: _ => step_ok ps (x_rcv y) me m | [] => True end
  | XOther _ ps peer msg => step_ok ps (x_rcv y) peer msg ∧ (peer, blob_id msg) ≠ (me, Some id)
  | XHear _ _ _ msg => ∀ ok detail, msg ≠ BlobAck id ok detail
  | _ => True
  end.

(** The states gone through, and the state reached. *)
Inductive goes (y0 : transfer) : list transfer → transfer → Prop :=
| goes_start : goes y0 [] y0
| goes_step l y e : goes y0 l y → event_ok y e → goes y0 (l ++ [y]) (transfer_step y e).

(** The receiver has the file. *)
Definition has_file (y : transfer) : Prop :=
  ∃ dir n, dir ∈ recv_dirs (x_rcv y) ∧ plain_name n ∧
    content <$> fs_stat (disk (x_rcv y)) (dir ++ [Normal n]) = Some (concat pieces).

(** ** The invariant *)

(** [k] frames of the transfer were handled. *)
Record underway (k : nat) (y : transfer) : Prop := {
  uw_inv : xfer_inv (x_rcv y);
  uw_bus : bus_wf (bus (x_rcv y));
  uw_wire : x_wire y `prefix_of` drop k frames;
  uw_todo todo : x_task y = Streaming todo → x_open y = true → x_wire y ++ todo = drop k frames;
  uw_entry inc : incoming (x_rcv y) !! (me, id) = Some inc →
    (1 ≤ k ≤ S (length pieces))%nat ∧ ∃ safe tmp dir ino, inc =
      let h := concat (take (k - 1) pieces) in mkIncoming safe (SinkFile tmp dir ino (length h)) h (zlen h) size me;
}.

(** News of success, on its way or arrived. *)
Definition good_news (y : transfer) : Prop :=
  (∃ d, BlobAck id true d ∈ queued (bus (x_rcv y)) me) ∨ (∃ d, ack_results (x_snd y) !! id = Some (true, d)) ∨
  (∃ d, x_task y = Ended (Ok d)).

Lemma frames_lookup k m :
  frames !! k = Some m →
  (k = 0%nat ∧ m = BlobStart id name size File) ∨
  (∃ p, pieces !! (k - 1)%nat = Some p ∧ (0 < k)%nat ∧ m = BlobChunk id p) ∨
  (k = S (length pieces) ∧ m = BlobEnd id (hasher_finalize (concat pieces))).
Proof.
  unfold frames, blob_frames. destruct k as [|k]; cbn; [intros [= <-]; by left|]. rewrite Nat.sub_0_r. intros Hk. right.
  apply lookup_app_Some in Hk as [Hk|[Hl Hk]].
  - rewrite list_lookup_fmap in Hk. destruct (pieces !! k) as [p|]; [|done]. injection Hk as <-. left. eexists. split; [done|]. split; [lia|done].
  - rewrite length_map in *. right. apply list_lookup_singleton_Some in Hk as [Hk <-]. split; [lia|].
    f_equal. f_equal. by rewrite hasher_fold.
Qed.

(** [on_end] when the final flush succeeds: a positive acknowledgement means
    that the file is there. *)
Lemma on_end_told io ps x peer i sha inc tmp dir ino pos d :
  xfer_inv x → bus_wf (bus x) → io_flush io = None →
  incoming x !! (peer, i) = Some inc → inc_sink inc = SinkFile tmp dir ino pos →
  let x' := on_end io ps x peer i sha in
  BlobAck i true d ∈ queued (bus x') peer → BlobAck i true d ∈ queued (bus x) peer ∨
  ∃ n, plain_name n ∧ content <$> fs_stat (disk x') (dir ++ [Normal n]) = Some (inc_hasher inc).
Proof.
  intros Hx Hb Hf Hk Es x' Hd. destruct (inv_entry x Hx _ inc Hk) as [_ Hm]. rewrite Es in Hm. destruct Hm as (_ & Hn & _ & Hname & _).
  assert ((∃ why, bus x' = (send_to (bus x) peer (BlobAck i false why)).2) → BlobAck i true d ∈ queued (bus x) peer) as Hrej.
  { intros [why E]. rewrite E in Hd. by apply send_to_queued in Hd as [Hd|[[=] _]]. }
  assert (io_rename io = None → x' = on_end no_faults ps x peer i sha) as Hio.
  { intros Hr. unfold x', on_end. rewrite Hk. unfold flush_sink. rewrite Hf, Hr. by rewrite Es. }
  destruct (io_rename io) as [e|] eqn:Er.
  - left. apply Hrej. unfold x', on_end. rewrite Hk, Es. unfold flush_sink. rewrite Hf, Er.
    destruct (bool_decide _); [by eexists|]. destruct (negb _ && _); by eexists.
  - specialize (Hio eq_refl). destruct (on_end_file ps x peer i sha inc tmp dir ino pos Hx Hk Es) as (_ & _ & H3).
    rewrite <- Hio in H3. case_decide.
    + right. destruct H3 as (Hc & _ & _). destruct (unique_dest_child (disk x) dir (inc_name inc) Hn) as (n & Hpn & E).
      exists n. split; [done|]. by rewrite <- E.
    + left. apply Hrej. apply H3.
Qed.

Lemma bus_wf_same b b' : senders b' = senders b → bus_wf b → bus_wf b'.
Proof. intros E Hb i j tx. rewrite E. apply Hb. Qed.

Lemma handle_bus_wf io ps x peer msg : bus_wf (bus x) → bus_wf (bus (handle_inbound io ps x peer msg)).
Proof.
  intros Hb. destruct (handle_effect io ps x peer msg) as (_ & _ & He). destruct (blob_id msg).
  - destruct He as [[->|(ok & d & -> & _)] _]; [done|]. by apply (bus_wf_same (bus x)); [apply send_to_senders|].
  - by destruct He as [-> _].
Qed.

(** The receiver and the next frame. *)
Lemma next_frame k y m rest : underway k y → x_wire y = m :: rest → frames !! k = Some m ∧ rest `prefix_of` drop (S k) frames.
Proof.
  intros Hu Ew. pose proof (uw_wire k y Hu) as Hp. rewrite Ew in Hp. destruct Hp as [l Hl].
  assert (frames !! k = Some m) as Hk by (rewrite <- (Nat.add_0_r k), <- lookup_drop, Hl; done).
  split; [done|]. exists l. rewrite (drop_S _ _ _ Hk) in Hl. by injection Hl.
Qed.

Lemma start_entry io ps x safe' inc :
  incoming x !! (me, id) = None → incoming (on_start io ps x me id name size File) !! (me, id) = Some inc →
  safe_blob_name name = Some safe' →
  ∃ tmp dir ino, inc = mkIncoming safe' (SinkFile tmp dir ino 0) [] 0 size me.
Proof.
  intros Hn Hi Hs. unfold on_start in Hi. rewrite Hs in Hi.
  destruct (_ <=? _)%nat; [cbn in Hi; congruence|]. destruct (io_mkdir io); [cbn in Hi; congruence|].
  destruct (io_create io); [cbn in Hi; congruence|]. destruct (fs_create _ _) as [ino d]. cbn in Hi.
  rewrite lookup_insert_eq in Hi. injection Hi as <-. by eexists _, _, _.
Qed.

Lemma receiver_underway k io ps y :
  underway k y → event_ok y (XDeliver io ps) →
  let y' := receiver_turn io ps y in
  (∃ k', underway k' y') ∧
  ∀ d, BlobAck id true d ∈ queued (bus (x_rcv y')) me → BlobAck id true d ∈ queued (bus (x_rcv y)) me ∨ has_file y'.
Proof.
  intros Hu [Hfl Hok] y'. subst y'. unfold receiver_turn. destruct (x_wire y) as [|m rest] eqn:Ew; [split; [by exists k|by left]|].
  destruct (next_frame k y m rest Hu Ew) as [Hm Hrest]. pose proof Hu as [Hx Hb _ Htodo He].
  set (x := x_rcv y) in *. set (x' := handle_inbound io ps x me m).
  assert (xfer_inv x') as Hx' by (by apply inv_handle_inbound).
  assert (bus_wf (bus x')) as Hb' by (by apply handle_bus_wf).
  assert (∀ t, x_task y = Streaming t → x_open y = true → rest ++ t = drop (S k) frames) as Ht'.
  { intros t E1 E2. specialize (Htodo t E1 E2). rewrite Ew, (drop_S _ _ _ Hm) in Htodo. by injection Htodo. }
  destruct (handle_effect io ps x me m) as (Hdl & _ & Heff). fold x' in Hdl, Heff.
  apply frames_lookup in Hm as [[-> ->]|[(p & Hp & Hk & ->)|[-> ->]]]; cbn [blob_id] in Heff; destruct Heff as [Hbus _].
  - (* the start *)
    assert (incoming x !! (me, id) = None) as Hnone by (apply eq_None_not_Some; intros [inc Hi]; destruct (He inc Hi); lia).
    split.
    + exists 1%nat. split; cbn; try done. intros inc Hi. split; [lia|]. cbn. destruct (safe_blob_name name) as [safe|] eqn:Es.
      * destruct (start_entry io ps x safe inc Hnone Hi Es) as (tmp & dir & ino & ->). by exists safe, tmp, dir, ino.
      * exfalso. unfold x', handle_inbound, on_start in Hi. rewrite Es in Hi. case_match; cbn in Hi; congruence.
    + intros d Hd. left. change (BlobAck id true d ∈ queued (bus x') me) in Hd. destruct Hbus as [E|(ok & d' & E & Hok')]; rewrite E in Hd; [done|].
      apply send_to_queued in Hd as [?|[[= <- _] _]]; [done| |done]. by specialize (Hok' eq_refl).
  - (* a chunk *)
    split.
    + exists (S k). split; cbn; try done. intros inc' Hi. unfold x', handle_inbound, on_chunk in Hi.
      destruct (incoming x !! (me, id)) as [inc|] eqn:Ei; [|congruence].
      destruct (He inc eq_refl) as [Hkk (safe & tmp & dir & ino & ->)]. cbn [inc_sink] in Hi. split; [apply lookup_lt_Some in Hp; lia|].
      destruct (io_write io); cbn in Hi; [by rewrite lookup_delete_eq in Hi|]. rewrite lookup_insert_eq in Hi. injection Hi as <-.
      exists safe, tmp, dir, ino. unfold chunk_stored, hasher_update. cbn [inc_name inc_hasher inc_written inc_declared inc_peer].
      rewrite Nat.sub_0_r. replace (concat (take k pieces)) with (concat (take (k - 1) pieces) ++ p).
      * by rewrite length_app, zlen_app.
      * replace k with (S (k - 1)) at 2 by lia. rewrite (take_S_r _ _ p) by done. rewrite concat_app. cbn. by rewrite app_nil_r.
    + intros d Hd. left. change (BlobAck id true d ∈ queued (bus x') me) in Hd. destruct Hbus as [E|(ok & d' & E & Hok')]; rewrite E in Hd; [done|].
      apply send_to_queued in Hd as [?|[[= <- _] _]]; [done| |done]. by specialize (Hok' eq_refl).
  - (* the end *)
    split.
    + exists (S (S (length pieces))). split; cbn; try done. intros inc' Hi. exfalso.
      unfold x', handle_inbound, on_end in Hi. destruct (incoming x !! (me, id)) as [inc|] eqn:Ei; [|congruence].
      revert Hi. repeat case_match; cbn; unfold cleanup; repeat case_match; cbn; by rewrite lookup_delete_eq.
    + intros d Hd. change (BlobAck id true d ∈ queued (bus x') me) in Hd. destruct (incoming x !! (me, id)) as [inc|] eqn:Ei.
      2: { left. unfold x', handle_inbound, on_end in Hd. by rewrite Ei in Hd. }
      destruct (He inc eq_refl) as [_ (safe & tmp & dir & ino & Einc)].
      assert (dir ∈ recv_dirs x) as Hdir.
      { destruct (inv_entry x Hx _ inc Ei) as [_ Hq]. rewrite Einc in Hq. apply Hq. }
      destruct (on_end_told io ps x me id (hasher_finalize (concat pieces)) inc tmp dir ino _ d Hx Hb Hfl Ei
        ltac:(by rewrite Einc) Hd) as [?|(n & Hn & Hc)]; [by left|right]. exists dir, n. split_and!; [|done|].
      * change (dir ∈ recv_dirs x'). unfold recv_dirs in *. by rewrite Hdl.
      * rewrite Einc in Hc. cbn in Hc. rewrite Nat.sub_0_r, take_ge in Hc by lia. exact Hc.
Qed.

(** ** News of success *)

Lemma handle_acks io ps x peer msg :
  ack_results (handle_inbound io ps x peer msg) =
  match msg with
  | BlobAck i ok d => if decide (i ∈ acks x) then <[i := (ok, d)]> (ack_results x) else ack_results x
  | _ => ack_results x
  end.
Proof.
  destruct msg as [| | | |i nm sz purpose|i data|i sha|i ok detail| | |]; cbn [handle_inbound]; try done.
  - unfold on_start, start_incoming. by repeat case_match.
  - unfold on_chunk. by repeat case_match.
  - unfold on_end, cleanup. by repeat case_match.
  - by case_decide.
Qed.

Lemma answer_effect io ps y :
  answer_turn io ps y = y ∨ ∃ m b, bus_recv (bus (x_rcv y)) me = Some (m, b) ∧
    answer_turn io ps y = mkTransfer (x_task y) (handle_inbound io ps (x_snd y) to m) (x_open y) (x_wire y) (set_bus (x_rcv y) b).
Proof. unfold answer_turn. destruct (bus_recv _ _) as [[m b]|]; [right|by left]. by exists m, b. Qed.

Lemma other_entry io ps x peer msg : (peer, blob_id msg) ≠ (me, Some id) →
  incoming (handle_inbound io ps x peer msg) !! (me, id) = incoming x !! (me, id).
Proof.
  intros Hne. destruct (handle_effect io ps x peer msg) as (_ & _ & He). destruct (blob_id msg) as [i|]; destruct He as [_ He].
  - apply He. congruence.
  - by rewrite He.
Qed.

Lemma step_underway k y e : underway k y → event_ok y e → ∃ k', underway k' (transfer_step y e).
Proof.
  intros Hu Hok. destruct e as [timed|e|io ps|io ps|lost|io ps peer msg|io ps peer msg]; cbn [transfer_step].
  - exists k. pose proof Hu as [Hx Hb Hw Ht He]. unfold send_turn, send_end. destruct (x_task y) as [[|f rest]| |r] eqn:Et.
    + split; cbn; done.
    + destruct (x_open y) eqn:Eo; [|by split]. specialize (Ht _ eq_refl eq_refl). split; cbn; try done.
      * exists rest. by rewrite <- Ht, <- app_assoc.
      * intros todo [= <-] _. by rewrite <- Ht, <- app_assoc.
    + repeat case_match; try done; by split.
    + done.
  - exists k. unfold read_failed, send_end. destruct (x_task y); [|done..]. by destruct Hu.
  - by destruct (receiver_underway k io ps y Hu Hok).
  - exists k. destruct (answer_effect io ps y) as [->|(m & b & Hr & ->)]; [done|]. destruct Hu as [Hx Hb Hw Ht He].
    split; cbn; try done; [by destruct Hx|]. eapply bus_wf_same; [|exact Hb]. by apply (bus_recv_some _ _ _ _ Hb) in Hr as (_ & ? & _).
  - exists k. destruct Hu as [Hx Hb Hw Ht He]. split; cbn; try done. destruct lost; [apply prefix_nil|done].
  - exists k. destruct Hu as [Hx Hb Hw Ht He]. destruct Hok as [Hs Hne]. split; cbn; try done.
    + by apply inv_handle_inbound.
    + by apply handle_bus_wf.
    + intros inc. rewrite other_entry by done. apply He.
  - exists k. by destruct Hu.
Qed.

Lemma step_news k y e : underway k y → event_ok y e → good_news (transfer_step y e) → good_news y ∨ has_file (transfer_step y e).
Proof.
  intros Hu Hok Hg. destruct e as [timed|e|io ps|io ps|lost|io ps peer msg|io ps peer msg]; cbn [transfer_step] in *.
  - left. unfold send_turn, send_end in Hg. destruct (x_task y) as [[|f rest]| |r] eqn:Et.
    + destruct Hg as [?|[?|[d [=]]]]; [by left|by right; left].
    + destruct (x_open y); destruct Hg as [?|[?|[d [=]]]]; first [by left|by right; left].
    + destruct (ack_results (x_snd y) !! id) as [[[] d]|] eqn:Ea; [right; left; by exists d| |].
      * destruct Hg as [?|[?|[d' [=]]]]; first [by left|by right; left].
      * destruct timed; [destruct Hg as [?|[?|[d' [=]]]]; first [by left|by right; left]|done].
    + done.
  - left. unfold read_failed, send_end in Hg. destruct (x_task y) eqn:Et; [|done..].
    destruct Hg as [?|[?|[d [=]]]]; first [by left|by right; left].
  - destruct (receiver_underway k io ps y Hu Hok) as [_ Hn]. destruct Hg as [[d Hd]|[Hg|Hg]].
    + destruct (Hn d Hd); [left; left; by exists d|by right].
    + left. right. left. unfold receiver_turn in Hg. by destruct (x_wire y).
    + left. right. right. unfold receiver_turn in Hg. by destruct (x_wire y).
  - left. destruct (answer_effect io ps y) as [E|(m & b & Hr & E)]; rewrite E in Hg; [done|].
    apply (bus_recv_some _ _ _ _ (uw_bus k y Hu)) in Hr as (Hq & _ & _). destruct Hg as [[d Hd]|[[d Hd]|Hg]]; [..|by right; right].
    + left. exists d. rewrite Hq. by right.
    + cbn in Hd. rewrite handle_acks in Hd. destruct m as [| | | | | | |i ok detail| | |]; try (right; left; by exists d).
      case_decide; [|right; left; by exists d]. apply lookup_insert_Some in Hd as [[-> [= -> ->]]|[_ Hd]]; [|right; left; by exists d].
      left. exists d. rewrite Hq. left.
  - by left.
  - left. destruct Hok as [_ Hne]. destruct Hg as [[d Hd]|Hg]; [|by right]. left. exists d. cbn in Hd.
    destruct (handle_effect io ps (x_rcv y) peer msg) as (_ & _ & He). destruct (blob_id msg) as [i|].
    + destruct He as [[E|(ok & d' & E & _)] _]; rewrite E in Hd; [done|].
      apply send_to_queued in Hd as [?|[[= <- _ _] ->]]; [done|done|apply (uw_bus k y Hu)].
    + destruct He as [E _]. by rewrite E in Hd.
  - left. destruct Hg as [?|[[d Hd]|?]]; [by left| |by right; right]. right. left. exists d. cbn in Hd. rewrite handle_acks in Hd.
    destruct msg as [| | | | | | |i ok detail| | |]; try done. case_decide; [|done].
    apply lookup_insert_Some in Hd as [[-> _]|[_ Hd]]; [by destruct (Hok ok detail)|done].
Qed.

(** A transfer about to start: the receiver keeps its invariant and has no
    transfer of this id from this sender; nothing says yet that it succeeded. *)
Record fresh_transfer (snd rcv : FileXfer) : Prop := {
  fr_inv : xfer_inv rcv;
  fr_bus : bus_wf (bus rcv);
  fr_entry : incoming rcv !! (me, id) = None;
  fr_queue d : BlobAck id true d ∉ queued (bus rcv) me;
  fr_result : ack_results snd !! id = None;
}.

Lemma goes_news snd rcv l y :
  fresh_transfer snd rcv → goes (transfer_start snd rcv) l y →
  (∃ k, underway k y) ∧ (good_news y → ∃ z, z ∈ l ++ [y] ∧ has_file z).
Proof.
  intros [Hx Hb He Hq Hr]. induction 1 as [|l y e _ [[k IH] IHg] Hok].
  - split.
    + exists 0%nat. split; cbn; try done; [apply prefix_nil|by intros todo [= <-]|]. intros inc. by rewrite He.
    + intros [[d Hd]|[[d Hd]|[d [=]]]]; [by apply Hq in Hd|]. cbn in Hd. congruence.
  - split; [by apply (step_underway k)|]. intros Hg. apply (step_news k) in Hg as [Hg|Hg]; [| |done..].
    + destruct (IHg Hg) as (z & Hz & Hf). exists z. split; [|done]. apply elem_of_app. by left.
    + eexists. split; [|exact Hg]. apply elem_of_app. right. left.
Qed.

(** ** Undisturbed *)

(** The turns of the two ends when nothing fails. *)
Variable ps : option Peers.
Definition calm (e : transfer_event) : Prop := e = XSend false ∨ e = XDeliver no_faults ps ∨ e = XAnswer no_faults ps.

(** A receiver that can take the file, whose queue for the sender is empty. *)
Record can_receive (rcv : FileXfer) (safe : str) : Prop := {
  cr_inv : xfer_inv rcv;
  cr_bus : bus_wf (bus rcv);
  cr_room : (base.size (incoming rcv) < MAX_CONCURRENT_INCOMING)%nat;
  cr_name : safe_blob_name name = Some safe;
  cr_tmp : tmp_free rcv (me, id) (start_tmp ps rcv me id safe);
  cr_size : size = zlen (concat pieces);
  cr_link : ∃ tx c, senders (bus rcv) !! me = Some tx ∧ chans (bus rcv) !! tx = Some c ∧
    closed c = false ∧ queue c = [] ∧ (0 < cap c)%nat;
}.

(** What is left to do. *)
Definition transfer_load (y : transfer) : nat :=
  match x_task y with Streaming todo => 2 + 3 * length todo | AwaitAck => 1 | Ended _ => 0 end
  + 2 * length (x_wire y) + length (queued (bus (x_rcv y)) me).

Section undisturbed.
Variables (snd rcv : FileXfer) (safe : str).
Hypothesis Hrcv : can_receive rcv safe.

(** The receiver after [k] frames. *)
Definition handled (k : nat) : FileXfer :=
  foldl (λ x m, handle_inbound no_faults ps x me m) rcv (take k frames).

Lemma handled_next k m : frames !! k = Some m → handle_inbound no_faults ps (handled k) me m = handled (S k).
Proof. intros Hm. unfold handled. by rewrite (take_S_r _ _ _ Hm), foldl_app. Qed.

Lemma frames_length : length frames = S (S (length pieces)).
Proof. unfold frames, blob_frames. cbn. rewrite length_app, length_map. cbn. lia. Qed.

Lemma handled_bus k : (k < length frames)%nat → bus (handled k) = bus rcv.
Proof.
  rewrite frames_length. destruct Hrcv as [Hx _ Hroom Hn Hfree _ _]. destruct k as [|k]; [done|]. intros Hk. unfold handled, frames, blob_frames.
  cbn [take foldl]. destruct (receiving_start ps rcv me id name safe size Hx Hroom Hn Hfree) as (R1 & B1 & _).
  rewrite take_app_le by (rewrite length_map; lia). rewrite <- fmap_take.
  destruct (receiving_chunks ps (take k pieces) _ me id safe size _ _ _ R1) as (_ & B2 & _). etrans; [exact B2|exact B1].
Qed.

Lemma queued_start : queued (bus rcv) me = [].
Proof. destruct (cr_link _ _ Hrcv) as (tx & c & Hs & Hc & _ & Hq & _). unfold queued. rewrite Hs. cbn. by rewrite Hc. Qed.

Lemma handled_all :
  queued (bus (handled (length frames))) me = [BlobAck id true safe] ∧ bus_wf (bus (handled (length frames))) ∧
  ∃ n, plain_name n ∧ content <$> fs_stat (disk (handled (length frames))) (start_dir ps rcv me ++ [Normal n]) = Some (concat pieces).
Proof.
  destruct Hrcv as [Hx Hb Hroom Hn Hfree Hsz (tx & c & Hs & Hc & Hcl & Hq & Hcap)].
  destruct (transfer_delivers ps rcv me id name safe pieces Hx Hroom Hn Hfree) as (n & Hpn & Hcont & _ & _ & _ & _ & Hbus & _).
  rewrite <- Hsz in Hcont, Hbus. unfold handled. rewrite take_ge by done. fold frames in Hcont, Hbus. rewrite Hbus. split_and!.
  - unfold send_to, sender. rewrite Hs. unfold queued. rewrite chan_try_send_senders, Hs. cbn [mbind option_bind].
    rewrite chan_try_send_self, Hc. cbn. unfold try_send. rewrite Hcl, Hq, (proj2 (Nat.ltb_lt _ _)) by (cbn; lia). done.
  - by apply (bus_wf_same (bus rcv)); [apply send_to_senders|].
  - by exists n.
Qed.

(** Where an undisturbed transfer is: [k] frames are handled, and the
    acknowledgement has been heard or not. *)
Definition unheard (k : nat) (y : transfer) : Prop :=
  x_rcv y = handled k ∧ id ∈ acks (x_snd y) ∧ ack_results (x_snd y) !! id = None.
Definition heard (k : nat) (y : transfer) : Prop :=
  k = length frames ∧ (∃ b, x_rcv y = set_bus (handled k) b) ∧ queued (bus (x_rcv y)) me = [] ∧
  ack_results (x_snd y) !! id = Some (true, safe).
Record on_course (k : nat) (y : transfer) : Prop := {
  oc_open : x_open y = true;
  oc_bus : bus_wf (bus (x_rcv y));
  oc_handled : (k ≤ length frames)%nat;
  oc_task : match x_task y with
            | Streaming todo => x_wire y ++ todo = drop k frames
            | AwaitAck => x_wire y = drop k frames
            | Ended r => r = Ok safe ∧ x_wire y = [] ∧ k = length frames
            end;
  oc_rcv : match x_task y with Ended _ => ∃ b, x_rcv y = set_bus (handled k) b | _ => unheard k y ∨ heard k y end;
}.

Lemma queued_handled k : (k < length frames)%nat → queued (bus (handled k)) me = [].
Proof. intros Hk. rewrite handled_bus by done. apply queued_start. Qed.

Lemma queue_end y m b :
  bus_wf (bus (x_rcv y)) → bus_recv (bus (x_rcv y)) me = Some (m, b) → queued (bus (x_rcv y)) me = m :: queued b me.
Proof. intros Hb Hr. by apply (bus_recv_some _ _ _ _ Hb) in Hr as (-> & _). Qed.

(** Only the last frame is answered. *)
Lemma unheard_answer k y m b :
  (k ≤ length frames)%nat → unheard k y → bus_recv (bus (x_rcv y)) me = Some (m, b) →
  k = length frames ∧ m = BlobAck id true safe ∧ queued b me = [].
Proof.
  intros Hk (E & _ & _) Hr. rewrite E in Hr. destruct (decide (k = length frames)) as [->|Hne].
  - destruct handled_all as (Hq & Hb & _). apply (bus_recv_some _ _ _ _ Hb) in Hr as (Hr & _). rewrite Hq in Hr.
    by injection Hr as <- <-.
  - assert (bus_recv (bus (handled k)) me = None) as Hn by (apply bus_recv_none, queued_handled; lia). congruence.
Qed.

Lemma wire_course k y m rest :
  on_course k y → x_wire y = m :: rest → frames !! k = Some m ∧ unheard k y ∧ (k < length frames)%nat.
Proof.
  intros [_ _ _ Ht Hr] Ew.
  assert (∃ l, m :: l = drop k frames) as [l El].
  { destruct (x_task y) as [todo| |r]; rewrite Ew in Ht; [by eexists|by eexists|by destruct Ht as (_ & ? & _)]. }
  assert (frames !! k = Some m) as Hm by (rewrite <- (Nat.add_0_r k), <- lookup_drop, <- El; done).
  pose proof (lookup_lt_Some _ _ _ Hm). split_and!; [done| |done].
  destruct (x_task y); [|..|by destruct Ht as (_ & ? & _); congruence];
    (destruct Hr as [Hr|(-> & _)]; [done|lia]).
Qed.

Lemma course_deliver k y : on_course k y →
  let y' := receiver_turn no_faults ps y in
  (∃ k', on_course k' y') ∧ (y' = y ∨ (transfer_load y' < transfer_load y)%nat).
Proof.
  intros Hc y'. subst y'. unfold receiver_turn. destruct (x_wire y) as [|m rest] eqn:Ew; [split; [by exists k|by left]|].
  destruct (wire_course k y m rest Hc Ew) as (Hm & Hu & Hk). destruct Hc as [Ho Hb _ Ht Hr]. pose proof Hu as (E & Ha & Hn).
  rewrite E, (handled_next k m Hm). split.
  - exists (S k). split; cbn [x_open x_rcv x_task x_wire].
    + done.
    + rewrite <- (handled_next k m Hm), <- E. by apply handle_bus_wf.
    + done.
    + rewrite (drop_S _ _ _ Hm), Ew in Ht. destruct (x_task y) as [todo| |r]; [by injection Ht|by injection Ht|by destruct Ht as (_ & ? & _)].
    + destruct (x_task y) as [todo| |r]; [left; by split_and!..|destruct Ht as (_ & ? & _); congruence].
  - right. unfold transfer_load. cbn [x_task x_wire x_rcv]. rewrite Ew, E, (queued_handled k) by done.
    assert (length (queued (bus (handled (S k))) me) ≤ 1)%nat.
    { destruct (decide (S k = length frames)) as [->|]; [rewrite (proj1 handled_all); cbn; lia|]. rewrite queued_handled by lia. cbn. lia. }
    cbn [length]. lia.
Qed.

Lemma course_answer k y : on_course k y →
  let y' := answer_turn no_faults ps y in
  (∃ k', on_course k' y') ∧ (y' = y ∨ (transfer_load y' < transfer_load y)%nat).
Proof.
  intros Hc y'. pose proof (oc_bus k y Hc) as Hb. subst y'. destruct (answer_effect no_faults ps y) as [->|(m & b & Hr & ->)]; [split; [by exists k|by left]|].
  pose proof (queue_end y m b Hb Hr) as Hq. split; [|right; unfold transfer_load; cbn; rewrite Hq; cbn; lia].
  exists k. destruct Hc as [Ho _ Hk Ht Hrc]. split; cbn; [done| |done|done|].
  { eapply bus_wf_same; [|exact Hb]. by apply (bus_recv_some _ _ _ _ Hb) in Hr as (_ & ? & _). }
  destruct (x_task y) as [todo| |r] eqn:Et; [| |destruct Hrc as [b' ->]; by exists b].
  all: right; destruct Hrc as [Hu|(_ & _ & Hq' & _)]; [|by rewrite Hq' in Hq].
  all: destruct (unheard_answer k y m b Hk Hu Hr) as (-> & -> & Hq0); destruct Hu as (E & Ha & Hn).
  all: split_and!; [done|cbn; rewrite E; by exists b|done|].
  all: cbn; rewrite decide_True by done; cbn; by rewrite lookup_insert_eq.
Qed.

Lemma course_send k y : on_course k y →
  let y' := send_turn false y in
  (∃ k', on_course k' y') ∧ (y' = y ∨ (transfer_load y' < transfer_load y)%nat).
Proof.
  intros Hc y'. pose proof Hc as [Ho Hb Hk Ht Hr]. subst y'. unfold send_turn, send_end. destruct (x_task y) as [[|f rest]| |r] eqn:Et.
  - split; [|right; unfold transfer_load; cbn; rewrite Et; cbn; lia]. exists k. split; cbn; try done. by rewrite app_nil_r in Ht.
  - rewrite Ho. split; [|right; unfold transfer_load; cbn; rewrite Et, length_app; cbn; lia].
    exists k. split; cbn; try done. by rewrite <- app_assoc.
  - destruct Hr as [(_ & _ & Hn)|(Hall & Hset & Hq & Hres)]; [rewrite Hn; split; [by exists k|by left]|].
    rewrite Hres. split; [|right; unfold transfer_load; cbn; rewrite Et; lia].
    exists k. split; cbn; try done. split_and!; [done| |done]. rewrite Ht, Hall. by apply drop_ge.
  - split; [by exists k|by left].
Qed.

Lemma calm_course k y e : on_course k y → calm e →
  (∃ k', on_course k' (transfer_step y e)) ∧ (transfer_step y e = y ∨ (transfer_load (transfer_step y e) < transfer_load y)%nat).
Proof. intros Hc [->|[->| ->]]; [by apply (course_send k)|by apply (course_deliver k)|by apply (course_answer k)]. Qed.

Lemma course_ends k y : on_course k y → (∀ e, calm e → transfer_step y e = y) → x_task y = Ended (Ok safe) ∧ has_file y.
Proof.
  intros Hc Hrest. pose proof Hc as [Ho Hb Hk Ht Hr].
  assert (send_turn false y = y) as Hs by (apply (Hrest (XSend false)); by left).
  assert (receiver_turn no_faults ps y = y) as Hd by (apply (Hrest (XDeliver no_faults ps)); right; by left).
  assert (answer_turn no_faults ps y = y) as Ha by (apply (Hrest (XAnswer no_faults ps)); right; by right).
  unfold send_turn in Hs. destruct (x_task y) as [[|f rest]| |r] eqn:Et.
  - apply (f_equal x_task) in Hs. cbn in Hs. congruence.
  - rewrite Ho in Hs. apply (f_equal x_task) in Hs. cbn in Hs. rewrite Et in Hs. injection Hs as E%(f_equal length). cbn in E. lia.
  - exfalso. destruct Hr as [Hu|(_ & _ & _ & Hres)]; [|by rewrite Hres in Hs; apply (f_equal x_task) in Hs; cbn in Hs; congruence].
    destruct (x_wire y) as [|m rest] eqn:Ew.
    2: { unfold receiver_turn in Hd. rewrite Ew in Hd. apply (f_equal x_wire) in Hd. cbn in Hd. rewrite Ew in Hd.
         apply (f_equal length) in Hd. cbn in Hd. lia. }
    assert (k = length frames) as ->.
    { destruct (decide (k = length frames)); [done|]. apply (f_equal length) in Ht. rewrite length_drop in Ht. cbn [length] in Ht. lia. }
    destruct Hu as (E & Hin & Hn). unfold answer_turn in Ha. rewrite E in Ha.
    destruct (bus_recv (bus (handled (length frames))) me) as [[m b]|] eqn:Er.
    + destruct (unheard_answer (length frames) y m b) as (_ & -> & _); [done|by split_and!|by rewrite E|].
      apply (f_equal (λ y, ack_results (x_snd y) !! id)) in Ha. cbn in Ha. rewrite decide_True in Ha by done. cbn in Ha.
      rewrite lookup_insert_eq in Ha. congruence.
    + apply bus_recv_none in Er. by rewrite (proj1 handled_all) in Er.
  - destruct Ht as (-> & _ & ->). split; [done|]. destruct Hr as [b E]. destruct handled_all as (_ & _ & n & Hn & Hf).
    exists (start_dir ps rcv me), n. rewrite E. split_and!; [|done|done].
    assert (start_dir ps rcv me ∈ recv_dirs rcv) as Hdir by apply start_dir_recv.
    assert (∀ l, download_dir (foldl (λ x m, handle_inbound no_faults ps x me m) rcv l) = download_dir rcv) as Hdl.
    { intros l. induction l as [|m l IH] using rev_ind; [done|]. rewrite foldl_app. cbn [foldl].
      by rewrite (proj1 (handle_effect no_faults ps _ me m)). }
    unfold recv_dirs in *. cbn [set_bus download_dir]. unfold handled. by rewrite Hdl.
Qed.

Lemma course_start : ack_results snd !! id = None → on_course 0 (transfer_start snd rcv).
Proof.
  intros Hn. split; cbn; [done|apply Hrcv|lia|done|]. left. split_and!; [done|cbn; set_solver|done].
Qed.

Lemma course_run es : ack_results snd !! id = None → Forall calm es → ∃ k, on_course k (foldl transfer_step (transfer_start snd rcv) es).
Proof.
  intros Hn. induction es as [|e es IH] using rev_ind; intros Hes; [exists 0%nat; by apply course_start|].
  apply Forall_app in Hes as [Hes He]. destruct (IH Hes) as [k Hk]. rewrite foldl_app. cbn [foldl].
  inversion He; subst. by destruct (calm_course k _ e Hk) as [? _].
Qed.
End undisturbed.

End transfer.

(** ** Behaviours worth knowing *)

(** The file of the samples, from "A" to a daemon that has not received any. *)
Definition sent_pieces : list bytes := [lit "hel"; lit "lo"].
Definition sample_sender : FileXfer := FileXfer_new sample_config xfer_bus dl None empty_fs.
Definition sample_transfer : list transfer_event → transfer :=
  foldl (@transfer_step sample_hashes (lit "A") (lit "B") 7)
    (@transfer_start sample_hashes 7 (lit "a.txt") 5 sent_pieces sample_sender x0).
Definition sample_turns : list transfer_event :=
  [XSend false; XDeliver no_faults None; XSend false; XSend false; XDeliver no_faults None; XDeliver no_faults None;
   XSend false; XDeliver no_faults None; XSend false; XAnswer no_faults None; XSend false].

(** An acknowledgement is matched by the transfer's id alone: here "C", which
    the file is not for, acknowledges the transfer to "B"; the sender is told of
    success although "B" has not handled a single frame. *)
Theorem ack_from_another_peer :
  let y := sample_transfer ([XSend false; XSend false; XSend false; XSend false; XSend false;
             XHear no_faults None (lit "C") (BlobAck 7 true (lit "a.txt")); XSend false]) in
  x_task y = Ended (Ok (lit "a.txt")) ∧ x_rcv y = x0.
Proof. by vm_compute. Qed.

(** ** Witness *)

Lemma xfer_bus_wf : bus_wf xfer_bus.
Proof. intros id id' tx. unfold xfer_bus; cbn [senders]. rewrite !lookup_insert_Some, !lookup_singleton_Some. naive_solver. Qed.

Lemma sample_fresh : @fresh_transfer (lit "A") 7 sample_sender x0.
Proof. split; [apply x0_inv|apply xfer_bus_wf|reflexivity| |reflexivity]. intros d. apply not_elem_of_nil. Qed.

Lemma sample_can_receive : @can_receive (lit "A") 7 (lit "a.txt") 5 sent_pieces None x0 (lit "a.txt").
Proof.
  split; [apply x0_inv|apply xfer_bus_wf|vm_compute; lia|by vm_compute|apply x0_free|done|].
  exists 0%nat, (mkChan [] 256 false). split_and!; try done. cbn. lia.
Qed.

