(* ===== verification/Transport.v ===== *)
(** * Transport: who dials whom ([crates/qdropd/src/transport.rs], [backoff.rs])

    The connection manager: a table of peers, each with a role fixed by the
    order of the device ids, a dial loop when we are the dialer, a connection
    task when we accept.  The manager's loop is a step function over its
    messages; spawned tasks are named, so that which ones run is part of the
    state.  Dialing and accepting compose TLS ([Trust]) and the handshake
    ([Connection]).

    The theorems: of two devices exactly one dials; at most one dial loop per
    peer runs and only for peers in the table; a roster change drops what is no
    longer trusted and starts what became so; a dialed or accepted connection
    belongs to the device the roster names; the backoff doubles up to its
    maximum. *)
From S2P Require Import Prelude Text Proto Frame Samples Net Peers Trust Connection Bus Store.

(** ** [backoff.rs] (durations in nanoseconds) *)

Record Backoff := mkBackoff { bo_base : Z; bo_max : Z; bo_current : Z }.
Definition Backoff_new (base max : Z) : Backoff := mkBackoff base max base.
Definition backoff_reset (b : Backoff) : Backoff := mkBackoff (bo_base b) (bo_max b) (bo_base b).

(** [draw n] is the value drawn uniformly from [0..=n]. *)
Definition next_delay (draw : Z → Z) (b : Backoff) : Z * Backoff :=
  let ceiling := bo_current b in
  let millis := Z.max (ceiling / 1000000) 1 mod 2 ^ 64 in
  (draw millis * 1000000, mkBackoff (bo_base b) (bo_max b) (Z.min (bo_current b * 2) (bo_max b))).

Fixpoint delays (draw : Z → Z) (n : nat) (b : Backoff) : list Z :=
  match n with
  | O => []
  | S n' => let '(d, b') := next_delay draw b in d :: delays draw n' b'
  end.

(** ** Roles *)

Inductive Role := Dialer | Acceptor.
#[export] Instance Role_eq_dec : EqDecision Role.
Proof. solve_decision. Defined.

Definition role_for (own_id peer_id : str) : Role :=
  if bytes_ltb own_id peer_id then Dialer else Acceptor.

(** ** State *)

Record DiscoveredPeer := mkDiscovered {
  dp_device_id : str;
  dp_device_name : str;
  dp_fingerprint : str;
  dp_addrs : list SocketAddr;
}.

(** The reason strings of [PeerDisconnected]. *)
Inductive Cause := Unpaired | Replaced | Down (reason : DisconnectReason).

Inductive TransportEvent :=
| PeerConnected (device_id device_name : str) (caps : Caps) (addr : option SocketAddr)
| PeerDisconnected (device_id : str) (reason : Cause).

(** [addrs_tx] is the current value of the watch channel, [task] the name of
    the spawned task. *)
Record PeerEntry := mkEntry {
  entry_role : Role;
  entry_name : str;
  connected : bool;
  addrs_tx : option (list SocketAddr);
  task : option nat;
}.
Definition PeerEntry_new (r : Role) : PeerEntry := mkEntry r [] false None None.

Inductive TaskKind := DialLoop (id : str) | DriveConn (id : str).
#[export] Instance TaskKind_eq_dec : EqDecision TaskKind.
Proof. solve_decision. Defined.

Record Manager := mkManager {
  t_peers : gmap str PeerEntry;
  t_discovered : gmap str DiscoveredPeer;
  t_senders : gmap str nat;              (* the bus: id -> outbound channel *)
  t_events : list TransportEvent;
  t_tasks : gmap nat TaskKind;           (* tasks running *)
  t_next : nat;
}.

Inductive Internal :=
| Found (p : DiscoveredPeer)
| Lost (device_id : str)
| RosterChanged
| InboundReady (peer : Hello) (caps : Caps)
| ConnUp (peer_id device_name : str) (caps : Caps) (addr : option SocketAddr) (outbound : nat)
| ConnDown (peer_id : str) (reason : DisconnectReason).

Definition set_peers (m : Manager) (p : gmap str PeerEntry) : Manager :=
  mkManager p (t_discovered m) (t_senders m) (t_events m) (t_tasks m) (t_next m).
Definition set_discovered (m : Manager) (d : gmap str DiscoveredPeer) : Manager :=
  mkManager (t_peers m) d (t_senders m) (t_events m) (t_tasks m) (t_next m).
Definition set_senders (m : Manager) (s : gmap str nat) : Manager :=
  mkManager (t_peers m) (t_discovered m) s (t_events m) (t_tasks m) (t_next m).
Definition emit (m : Manager) (e : TransportEvent) : Manager :=
  mkManager (t_peers m) (t_discovered m) (t_senders m) (t_events m ++ [e]) (t_tasks m) (t_next m).

(** [tokio::spawn] and [JoinHandle::abort]. *)
Definition spawn_task (m : Manager) (k : TaskKind) : nat * Manager :=
  (t_next m, mkManager (t_peers m) (t_discovered m) (t_senders m) (t_events m)
               (<[t_next m := k]> (t_tasks m)) (S (t_next m))).
Definition abort (m : Manager) (t : nat) : Manager :=
  mkManager (t_peers m) (t_discovered m) (t_senders m) (t_events m) (delete t (t_tasks m)) (t_next m).

(** ** The manager *)

(** Append the static addresses not already listed. *)
Definition merge_addrs (addrs static : list SocketAddr) : list SocketAddr :=
  foldl (λ l sa, if decide (sa ∈ l) then l else l ++ [sa]) addrs static.

Definition ensure_peer (own_id : str) (r : RosterInner) (m : Manager) (p : DiscoveredPeer) : Manager :=
  let id := dp_device_id p in
  let role := role_for own_id id in
  let entry := default (PeerEntry_new role) (t_peers m !! id) in
  let entry := mkEntry (entry_role entry) (dp_device_name p) (connected entry) (addrs_tx entry) (task entry) in
  match role with
  | Dialer =>
      let addrs := merge_addrs (dp_addrs p) (static_addrs_for r id) in
      match addrs_tx entry with
      | Some _ =>
          set_peers m (<[id := mkEntry (entry_role entry) (entry_name entry) (connected entry)
                                 (Some addrs) (task entry)]> (t_peers m))
      | None =>
          let '(t, m) := spawn_task m (DialLoop id) in
          set_peers m (<[id := mkEntry (entry_role entry) (entry_name entry) (connected entry)
                                 (Some addrs) (Some t)]> (t_peers m))
      end
  | Acceptor => set_peers m (<[id := entry]> (t_peers m))
  end.

Definition static_peers (r : RosterInner) : list DiscoveredPeer :=
  map (λ '(id, name, addrs), mkDiscovered id name [] addrs) (peers_with_static_addrs r).

(** Ensure each trusted peer of a list. *)
Definition ensure_trusted (own_id : str) (r : RosterInner) (m : Manager) (ps : list DiscoveredPeer)
    : Manager :=
  foldl (λ m p, if is_trusted_id r (dp_device_id p) then ensure_peer own_id r m p else m) m ps.

(** Drop one peer that is no longer trusted. *)
Definition drop_peer (m : Manager) (id : str) : Manager :=
  let m := set_senders m (delete id (t_senders m)) in
  match t_peers m !! id with
  | None => m
  | Some entry =>
      let m := set_peers m (delete id (t_peers m)) in
      let m := match task entry with Some t => abort m t | None => m end in
      if connected entry then emit m (PeerDisconnected id Unpaired) else m
  end.

Definition on_roster_changed (own_id : str) (r : RosterInner) (m : Manager) : Manager :=
  let trusted := roster_ids r in
  let dropped := base.filter (λ id, id ∉ trusted) (map_to_list (t_peers m)).*1 in
  let m := foldl drop_peer m dropped in
  let seed := foldl (λ s p, match s !! dp_device_id p with
                            | Some _ => s
                            | None => <[dp_device_id p := p]> s
                            end) (t_discovered m) (static_peers r) in
  ensure_trusted own_id r m (map_to_list seed).*2.

Definition on_inbound (own_id : str) (m : Manager) (peer : Hello) (caps : Caps) : Manager :=
  let peer_id := hello_device_id peer in
  match role_for own_id peer_id with
  | Dialer => m
  | Acceptor =>
      let entry := default (PeerEntry_new Acceptor) (t_peers m !! peer_id) in
      let '(conn, m) :=
        match task entry with
        | Some old =>
            let m := abort m old in
            if connected entry then (false, emit m (PeerDisconnected peer_id Replaced)) else (false, m)
        | None => (connected entry, m)
        end in
      let '(t, m) := spawn_task m (DriveConn peer_id) in
      set_peers m (<[peer_id := mkEntry (entry_role entry) (hello_device_name peer) conn
                                  (addrs_tx entry) (Some t)]> (t_peers m))
  end.

Definition on_conn_up (m : Manager) (peer_id device_name : str) (caps : Caps)
    (addr : option SocketAddr) (outbound : nat) : Manager :=
  let m := match t_peers m !! peer_id with
           | Some e => set_peers m (<[peer_id := mkEntry (entry_role e) device_name true
                                                  (addrs_tx e) (task e)]> (t_peers m))
           | None => m
           end in
  emit (set_senders m (<[peer_id := outbound]> (t_senders m)))
    (PeerConnected peer_id device_name caps addr).

Definition on_conn_down (m : Manager) (peer_id : str) (reason : DisconnectReason) : Manager :=
  let m := set_senders m (delete peer_id (t_senders m)) in
  let m := match t_peers m !! peer_id with
           | Some e =>
               set_peers m (<[peer_id := mkEntry (entry_role e) (entry_name e) false (addrs_tx e)
                 (if decide (entry_role e = Acceptor) then None else task e)]> (t_peers m))
           | None => m
           end in
  emit m (PeerDisconnected peer_id (Down reason)).

(** One turn of [manager]; [r] is the roster it reads. *)
Definition manager_step (own_id : str) (r : RosterInner) (m : Manager) (msg : Internal) : Manager :=
  match msg with
  | Found p =>
      let m := set_discovered m (<[dp_device_id p := p]> (t_discovered m)) in
      if is_trusted_id r (dp_device_id p) then ensure_peer own_id r m p else m
  | Lost id =>
      let m := set_discovered m (delete id (t_discovered m)) in
      let fallback := static_addrs_for r id in
      match t_peers m !! id with
      | Some e =>
          match addrs_tx e with
          | Some _ => set_peers m (<[id := mkEntry (entry_role e) (entry_name e) (connected e)
                                             (Some fallback) (task e)]> (t_peers m))
          | None => m
          end
      | None => m
      end
  | RosterChanged => on_roster_changed own_id r m
  | InboundReady peer caps => on_inbound own_id m peer caps
  | ConnUp id name caps addr out => on_conn_up m id name caps addr out
  | ConnDown id reason => on_conn_down m id reason
  end.

(** Before the loop: peers with a static address. *)
Definition manager_start (own_id : str) (r : RosterInner) : Manager :=
  ensure_trusted own_id r (mkManager ∅ ∅ ∅ [] ∅ 0) (static_peers r).

(** ** Connecting *)

Section connect.
Context `{KeyPairs, Serde Message}.

(** What one candidate address gives: no TCP connection, or a TLS session to
    run with our verifier and then the stream of the handshake. *)
Record Dialed := mkDialed {
  d_tls : (bytes → result CertError unit) → TlsOutcome;
  d_elapsed : bool;
  d_reader : Reader;
}.

(** One address of [dial_once]. *)
Definition dial_addr (local : Hello) (expect : bytes) (peer_id : str) (d : option Dialed)
    : option Handshake :=
  match d with
  | None => None
  | Some d =>
      match connect (d_tls d) expect with
      | Err _ => None
      | Ok _ => match handshake (d_elapsed d) (mkWriter [] None) (d_reader d) local (Some peer_id) with
                | (Ok hs, _, _) => Some hs
                | _ => None
                end
      end
  end.

Fixpoint dial_once (local : Hello) (expect : bytes) (peer_id : str) (net : SocketAddr → option Dialed)
    (addrs : list SocketAddr) : option (SocketAddr * Handshake) :=
  match addrs with
  | [] => None
  | a :: rest =>
      match dial_addr local expect peer_id (net a) with
      | Some hs => Some (a, hs)
      | None => dial_once local expect peer_id net rest
      end
  end.

(** One round of [dial_loop]: wait for an address change, or dial and back
    off. *)
Inductive dial_wait := WaitForAddrs | DialedThenSleep (conn : option (SocketAddr * Handshake)) (delay : Z).

Definition dial_round (draw : Z → Z) (local : Hello) (r : RosterInner) (peer_id : str)
    (net : SocketAddr → option Dialed) (addrs : list SocketAddr) (b : Backoff) : dial_wait * Backoff :=
  match addrs, key_for_id r peer_id with
  | _ :: _, Some expect =>
      let conn := dial_once local expect peer_id net addrs in
      let b := match conn with Some _ => backoff_reset b | None => b end in
      let '(delay, b) := next_delay draw b in
      (DialedThenSleep conn delay, b)
  | _, _ => (WaitForAddrs, b)
  end.

(** One accepted connection of [spawn_accept_loop]; the roster may be reloaded
    between the TLS handshake, the recheck and the id lookup. *)
Definition accept_conn (tls : (bytes → result CertError unit) → TlsOutcome) (elapsed : bool)
    (rd : Reader) (local : Hello) (r_hs r_recheck r_lookup : RosterInner) : option Internal :=
  match accept tls r_hs r_recheck with
  | Err _ => None
  | Ok key =>
      let expect_id := rp_device_id <$> peer_for_key r_lookup key in
      match handshake elapsed (mkWriter [] None) rd local expect_id with
      | (Ok hs, _, _) => Some (InboundReady (hs_peer hs) (effective_caps hs))
      | _ => None
      end
  end.
End connect.

(** ** Roles *)

(** Arbitration: of two different devices exactly one dials the other, and
    a device never dials itself. *)
Theorem exactly_one_dials a b :
  (a ≠ b → (role_for a b = Dialer ∧ role_for b a = Acceptor) ∨
           (role_for a b = Acceptor ∧ role_for b a = Dialer)) ∧
  role_for a a = Acceptor.
Proof.
  unfold role_for. rewrite bytes_ltb_irrefl. split; [|done]. intros Hne.
  destruct (bytes_ltb a b) eqn:E1; [rewrite (bytes_ltb_asym a b E1); auto|].
  destruct (bytes_ltb b a) eqn:E2; [auto|]. by destruct Hne; apply bytes_ltb_total.
Qed.

(** ** Backoff *)

Lemma backoff_current draw b i :
  bo_current b ≤ bo_max b → 0 < bo_current b →
  let b' := Nat.iter i (λ b, (next_delay draw b).2) b in
  bo_current b' = Z.min (bo_current b * 2 ^ Z.of_nat i) (bo_max b)
  ∧ bo_max b' = bo_max b ∧ bo_base b' = bo_base b.
Proof.
  intros Hc Hp. induction i as [|i IH].
  - cbn. rewrite Z.mul_1_r. lia.
  - change (Nat.iter (S i) (λ b, (next_delay draw b).2) b)
      with ((next_delay draw (Nat.iter i (λ b, (next_delay draw b).2) b)).2).
    destruct IH as (IH1 & IH2 & IH3). cbn zeta in *. unfold next_delay at 1 3 5.
    cbn [snd bo_current bo_max bo_base]. rewrite IH1, IH2, IH3. split_and!; try done. rewrite Nat2Z.inj_succ, Z.pow_succ_r by lia.
    assert (0 < 2 ^ Z.of_nat i) by lia. nia.
Qed.

Lemma iter_comm {A} (f : A → A) n x : Nat.iter n f (f x) = f (Nat.iter n f x).
Proof. induction n as [|n IH]; [done|]. exact (f_equal f IH). Qed.

Lemma delays_nth draw n b i d :
  delays draw n b !! i = Some d →
  d = (next_delay draw (Nat.iter i (λ b, (next_delay draw b).2) b)).1.
Proof.
  revert b i. induction n as [|n IH]; intros b i; cbn [delays]; [done|].
  destruct (next_delay draw b) as [d0 b'] eqn:E. destruct i as [|i].
  - intros [= <-]. change (d0 = (next_delay draw b).1). by rewrite E.
  - intros H%IH. rewrite H. replace b' with (next_delay draw b).2 by (by rewrite E).
    by rewrite (iter_comm (λ b, (next_delay draw b).2)).
Qed.

(** The reconnect schedule: after a reset or from the start, the delay
    before the [i]-th retry is at most [base * 2^i] and at most [max] (rounded
    down to milliseconds), whatever is drawn. *)
Theorem backoff_schedule draw base max n i d :
  1000000 ≤ base → base ≤ max → max < 2 ^ 64 →
  (∀ k, 0 ≤ k → 0 ≤ draw k ≤ k) →
  delays draw n (Backoff_new base max) !! i = Some d →
  0 ≤ d ≤ Z.min (base * 2 ^ Z.of_nat i) max.
Proof.
  intros Hb Hm Hlt Hdraw Hd. apply delays_nth in Hd.
  destruct (backoff_current draw (Backoff_new base max) i) as (E & _); [cbn; lia..|].
  unfold next_delay at 1 in Hd. cbn [fst] in Hd. rewrite E in Hd. cbn [Backoff_new bo_current bo_max] in Hd.
  assert (0 < 2 ^ Z.of_nat i) by lia. set (c := Z.min (base * 2 ^ Z.of_nat i) max) in *.
  assert (1000000 ≤ c < 2 ^ 64) by (unfold c; nia).
  assert (1 ≤ c / 1000000 ≤ c) as Hq by zdm. assert (c / 1000000 * 1000000 ≤ c) by zdm.
  clear E. clearbody c. set (q := c / 1000000) in *. clearbody q. rewrite Z.max_l, Z.mod_small in Hd by lia.
  assert (0 ≤ draw q ≤ q) by (apply Hdraw; lia). lia.
Qed.

(** ** The invariant of the manager *)

Record tinv (own : str) (m : Manager) : Prop := {
  ti_role id e : t_peers m !! id = Some e → entry_role e = role_for own id;
  ti_dialer id e :
    t_peers m !! id = Some e → role_for own id = Dialer →
    ∃ a t, addrs_tx e = Some a ∧ task e = Some t ∧ t_tasks m !! t = Some (DialLoop id);
  ti_acceptor id e :
    t_peers m !! id = Some e → role_for own id = Acceptor →
    addrs_tx e = None ∧ ∀ t, task e = Some t → (t < t_next m)%nat ∧ ∀ j, t_tasks m !! t ≠ Some (DialLoop j);
  ti_task t id :
    t_tasks m !! t = Some (DialLoop id) → ∃ e, t_peers m !! id = Some e ∧ task e = Some t;
  ti_next t : is_Some (t_tasks m !! t) → (t < t_next m)%nat;
  ti_disc id p : t_discovered m !! id = Some p → dp_device_id p = id;
}.

(** Replacing an entry by one with the same role, task and kind of address
    channel. *)
Lemma tinv_update own m id e e' :
  tinv own m → t_peers m !! id = Some e →
  entry_role e' = entry_role e → task e' = task e → (is_Some (addrs_tx e') ↔ is_Some (addrs_tx e)) →
  tinv own (set_peers m (<[id := e']> (t_peers m))).
Proof.
  intros [Hr Hd Ha Ht Hn Hdisc] He E1 E2 E3. split; cbn [set_peers t_peers t_tasks t_next t_discovered]; try done.
  - intros i x [[<- <-]|[_ Hx]]%lookup_insert_Some; [rewrite E1|]; eauto.
  - intros i x [[<- <-]|[_ Hx]]%lookup_insert_Some Hrole; [|by eapply Hd].
    destruct (Hd id e He Hrole) as (a & t & H1 & H2 & H3). rewrite E2.
    destruct (proj2 E3 ltac:(eauto)) as [a' Ha']. eauto.
  - intros i x [[<- <-]|[_ Hx]]%lookup_insert_Some Hrole; [|by eapply Ha].
    destruct (Ha id e He Hrole) as [H1 H2]. rewrite E2. split; [|done].
    apply eq_None_not_Some. rewrite E3, H1. by intros [].
  - intros t i Hti. destruct (Ht t i Hti) as (x & Hx & Hxt). destruct (decide (i = id)) as [->|Hne].
    + exists e'. rewrite lookup_insert_eq, E2. split; [done|]. congruence.
    + exists x. by rewrite lookup_insert_ne.
Qed.

(** State the invariant does not see. *)
Lemma tinv_emit own m e : tinv own m → tinv own (emit m e).
Proof. by intros []. Qed.
Lemma tinv_senders own m s : tinv own m → tinv own (set_senders m s).
Proof. by intros []. Qed.
Lemma tinv_discovered own m d :
  tinv own m → (∀ id p, d !! id = Some p → dp_device_id p = id) → tinv own (set_discovered m d).
Proof. intros [] Hd. by split. Qed.

(** Aborting, or the end of, a task that is not a dial loop. *)
Lemma tinv_abort own m t :
  tinv own m → (∀ j, t_tasks m !! t ≠ Some (DialLoop j)) → tinv own (abort m t).
Proof.
  intros [Hr Hd Ha Ht Hn Hdisc] Hnd. split; cbn [abort t_peers t_tasks t_next t_discovered]; try done.
  - intros id e He Hrole. destruct (Hd id e He Hrole) as (a & u & H1 & H2 & H3). exists a, u.
    split_and!; try done. rewrite lookup_delete_ne; [done|]. intros ->. by apply (Hnd id).
  - intros id e He Hrole. destruct (Ha id e He Hrole) as [H1 H2]. split; [done|]. intros u Hu.
    destruct (H2 u Hu) as [H3 H4]. split; [done|]. intros j [_ Hj]%lookup_delete_Some. by apply (H4 j).
  - intros u id [_ Hu]%lookup_delete_Some. by apply Ht.
  - intros u [k [_ Hk]%lookup_delete_Some]. by apply Hn.
Qed.

(** Spawning a task and recording it in the peer's entry. *)
Lemma tinv_spawn own m id e' k :
  tinv own m → entry_role e' = role_for own id → task e' = Some (t_next m) →
  match k with
  | DialLoop j => j = id ∧ role_for own id = Dialer ∧ is_Some (addrs_tx e') ∧ t_peers m !! id = None
  | DriveConn j => role_for own id = Acceptor ∧ addrs_tx e' = None
  end →
  let '(_, m') := spawn_task m k in tinv own (set_peers m' (<[id := e']> (t_peers m'))).
Proof.
  intros [Hr Hd Ha Ht Hn Hdisc] Hrole Htask Hk. cbn.
  assert (∀ u k', t_tasks m !! u = Some k' → u ≠ t_next m) as Hlt
    by (intros u k' Hu ->; assert (t_next m < t_next m)%nat by (apply Hn; eauto); lia).
  assert (∀ u k', t_tasks m !! u = Some k' → <[t_next m := k]> (t_tasks m) !! u = Some k') as Hkeep
    by (intros u k' Hu; rewrite lookup_insert_ne; [done|]; symmetry; eauto).
  split; cbn [t_peers t_tasks t_next t_discovered set_peers].
  - intros i x [[<- <-]|[_ Hx]]%lookup_insert_Some; eauto.
  - intros i x [[<- <-]|[_ Hx]]%lookup_insert_Some Hdial.
    + destruct k as [j|j]; [destruct Hk as (-> & _ & [a Ea] & _)|destruct Hk; congruence].
      exists a, (t_next m). by rewrite lookup_insert_eq.
    + destruct (Hd i x Hx Hdial) as (a & u & H1 & H2 & H3). exists a, u. auto.
  - intros i x [[<- <-]|[_ Hx]]%lookup_insert_Some Hacc.
    + destruct k as [j|j]; [destruct Hk as (_ & ? & _); congruence|]. destruct Hk as [_ Ea].
      split; [done|]. rewrite Htask. intros u [= <-]. split; [lia|]. by rewrite lookup_insert_eq.
    + destruct (Ha i x Hx Hacc) as [H1 H2]. split; [done|]. intros u Hu.
      destruct (H2 u Hu) as [H3 H4]. split; [lia|]. rewrite lookup_insert_ne by lia. done.
  - intros u i [[<- ->]|[Hne Hu]]%lookup_insert_Some.
    + destruct Hk as (-> & _). exists e'. by rewrite lookup_insert_eq.
    + destruct (Ht u i Hu) as (x & Hx & Hxu). destruct (decide (i = id)) as [->|Hni].
      * exfalso. destruct k as [j|j]; [destruct Hk as (_ & _ & _ & Hnone); congruence|].
        destruct Hk as [Hacc _]. destruct (Ha id x Hx Hacc) as [_ H2]. by apply (H2 u Hxu) in Hu.
      * exists x. by rewrite lookup_insert_ne.
  - intros u [k' [[<- _]|[_ Hu]]%lookup_insert_Some]; [lia|]. assert (u < t_next m)%nat; [|lia].
    apply Hn. eauto.
  - done.
Qed.

(** Any entry for a peer we accept from, as long as its task is no dial loop. *)
Lemma tinv_acceptor_entry own m id e' :
  tinv own m → role_for own id = Acceptor → entry_role e' = Acceptor → addrs_tx e' = None →
  (∀ t, task e' = Some t → (t < t_next m)%nat ∧ ∀ j, t_tasks m !! t ≠ Some (DialLoop j)) →
  tinv own (set_peers m (<[id := e']> (t_peers m))).
Proof.
  intros [Hr Hd Ha Ht Hn Hdisc] Hacc E1 E2 E3. split; cbn [set_peers t_peers t_tasks t_next t_discovered]; try done.
  - intros i x [[<- <-]|[_ Hx]]%lookup_insert_Some; [congruence|]; eauto.
  - intros i x [[<- <-]|[_ Hx]]%lookup_insert_Some Hrole; [congruence|by eapply Hd].
  - intros i x [[<- <-]|[_ Hx]]%lookup_insert_Some Hrole; [done|by eapply Ha].
  - intros t i Hti. destruct (Ht t i Hti) as (x & Hx & Hxt). destruct (decide (i = id)) as [->|Hne].
    + exfalso. destruct (Ha id x Hx Hacc) as [_ H2]. by apply (H2 t Hxt) in Hti.
    + exists x. by rewrite lookup_insert_ne.
Qed.

Lemma ensure_peer_inv own r m p : tinv own m → tinv own (ensure_peer own r m p).
Proof.
  intros Hm. unfold ensure_peer. set (id := dp_device_id p).
  destruct (role_for own id) eqn:Erole.
  - destruct (t_peers m !! id) as [e|] eqn:Ee; cbn [default from_option].
    + destruct (ti_dialer own m Hm id e Ee Erole) as (a & t & H1 & H2 & _). cbn. rewrite H1.
      apply (tinv_update own m id e); try done; cbn; rewrite H1; split; eauto.
    + apply (tinv_spawn own m id _ (DialLoop id)); try done.
  - destruct (t_peers m !! id) as [e|] eqn:Ee; cbn [default from_option].
    + apply (tinv_update own m id e); try done.
    + by apply tinv_acceptor_entry.
Qed.

Lemma ensure_trusted_inv own r m ps : tinv own m → tinv own (ensure_trusted own r m ps).
Proof.
  unfold ensure_trusted. revert m. induction ps as [|p ps IH]; intros m Hm; [done|]. cbn [foldl].
  apply IH. destruct (is_trusted_id _ _); [by apply ensure_peer_inv|done].
Qed.

Lemma drop_peer_inv own m id : tinv own m → tinv own (drop_peer m id).
Proof.
  intros Hm. unfold drop_peer. apply (tinv_senders own m (delete id (t_senders m))) in Hm.
  set (m0 := set_senders m _) in *. destruct (t_peers m0 !! id) as [e|] eqn:Ee; [|done].
  assert (tinv own (match task e with
                    | Some t => abort (set_peers m0 (delete id (t_peers m0))) t
                    | None => set_peers m0 (delete id (t_peers m0)) end)) as H.
  { destruct Hm as [Hr Hd Ha Ht Hn Hdisc].
    assert (∀ u j, t_tasks m0 !! u = Some (DialLoop j) → task e = Some u → j = id) as Hown.
    { intros u j Hu Heu. destruct (role_for own id) eqn:Erole.
      - destruct (Hd id e Ee Erole) as (_ & t & _ & Ht1 & Ht2). congruence.
      - destruct (Ha id e Ee Erole) as [_ H2]. by apply (H2 u Heu) in Hu. }
    destruct (task e) as [t|] eqn:Et; split;
      cbn [abort set_peers t_peers t_tasks t_next t_discovered]; try done;
      try (intros i x [_ Hx]%lookup_delete_Some; by eauto).
    - intros i x [Hne Hx]%lookup_delete_Some Hrole. destruct (Hd i x Hx Hrole) as (a & u & H1 & H2 & H3).
      exists a, u. split_and!; try done. rewrite lookup_delete_ne; [done|]. intros <-.
      apply Hne. symmetry. by eapply Hown.
    - intros i x [Hne Hx]%lookup_delete_Some Hrole. destruct (Ha i x Hx Hrole) as [H1 H2]. split; [done|].
      intros u Hu. destruct (H2 u Hu) as [H3 H4]. split; [done|]. intros j [_ Hj]%lookup_delete_Some.
      by apply (H4 j).
    - intros u i [Hne Hu]%lookup_delete_Some. destruct (Ht u i Hu) as (x & Hx & Hxu). exists x.
      split; [|done]. rewrite lookup_delete_ne; [done|]. intros <-. congruence.
    - intros u [k [_ Hk]%lookup_delete_Some]. apply Hn. eauto.
    - intros u i Hu. destruct (Ht u i Hu) as (x & Hx & Hxu). exists x.
      split; [|done]. rewrite lookup_delete_ne; [done|]. intros <-. congruence. }
  destruct (connected e); [by apply tinv_emit|done].
Qed.

Lemma drop_all_inv own m ids : tinv own m → tinv own (foldl drop_peer m ids).
Proof.
  revert m. induction ids as [|i ids IH]; intros m Hm; [done|]. cbn. by apply IH, drop_peer_inv.
Qed.

Lemma on_inbound_inv own m peer caps : tinv own m → tinv own (on_inbound own m peer caps).
Proof.
  intros Hm. unfold on_inbound. set (id := hello_device_id peer).
  destruct (role_for own id) eqn:Erole; [done|].
  assert (∀ e, e = default (PeerEntry_new Acceptor) (t_peers m !! id) →
    entry_role e = Acceptor ∧ addrs_tx e = None ∧
    ∀ t, task e = Some t → ∀ j, t_tasks m !! t ≠ Some (DialLoop j)) as He.
  { intros e ->. destruct (t_peers m !! id) as [e|] eqn:Ee; cbn; [|done].
    rewrite (ti_role own m Hm id e Ee), Erole. destruct (ti_acceptor own m Hm id e Ee Erole) as [H1 H2].
    split_and!; try done. intros t Ht. by apply (H2 t Ht). }
  set (e := default _ _) in *. destruct (He e eq_refl) as (E1 & E2 & E3).
  assert (∀ m' c, tinv own m' → tinv own
    (let '(t, m2) := spawn_task m' (DriveConn id) in
     set_peers m2 (<[id := mkEntry (entry_role e) (hello_device_name peer) c (addrs_tx e) (Some t)]> (t_peers m2)))) as Hsp.
  { intros m' c Hm'.
    apply (tinv_spawn own m' id (mkEntry (entry_role e) (hello_device_name peer) c (addrs_tx e) (Some (t_next m')))
      (DriveConn id)); cbn; congruence || done. }
  destruct (task e) as [t|] eqn:Et; [|by apply Hsp].
  assert (tinv own (abort m t)) as Hab by (apply tinv_abort; eauto).
  destruct (connected e); apply Hsp; [by apply tinv_emit|done].
Qed.

Lemma manager_step_inv own r m msg : tinv own m → tinv own (manager_step own r m msg).
Proof.
  intros Hm. destruct msg as [p|id| |peer caps|id name caps addr out|id reason]; cbn [manager_step].
  - set (m0 := set_discovered m _). assert (tinv own m0) as H0.
    { apply tinv_discovered; [done|]. intros i q [[<- <-]|[_ Hq]]%lookup_insert_Some; [done|].
      by apply (ti_disc own m Hm). }
    destruct (is_trusted_id _ _); [by apply ensure_peer_inv|done].
  - set (m0 := set_discovered m _). assert (tinv own m0) as H0.
    { apply tinv_discovered; [done|]. intros i q [_ Hq]%lookup_delete_Some. by apply (ti_disc own m Hm). }
    destruct (t_peers m0 !! id) as [e|] eqn:Ee; [|done]. destruct (addrs_tx e) eqn:Ea; [|done].
    apply (tinv_update own m0 id e); try done; cbn; rewrite Ea; split; eauto.
  - by apply ensure_trusted_inv, drop_all_inv.
  - by apply on_inbound_inv.
  - apply tinv_emit, tinv_senders. destruct (t_peers m !! id) as [e|] eqn:Ee; [|done].
    by apply (tinv_update own m id e).
  - apply tinv_emit. unfold on_conn_down. set (m0 := set_senders m _).
    assert (tinv own m0) as H0 by (by apply tinv_senders).
    destruct (t_peers m0 !! id) as [e|] eqn:Ee; [|done]. case_decide as Ha.
    + destruct (ti_acceptor own m0 H0 id e Ee) as [H1 _]; [by rewrite <- (ti_role own m0 H0 id e Ee)|].
      apply tinv_acceptor_entry; try done. by rewrite <- (ti_role own m0 H0 id e Ee).
    + by apply (tinv_update own m0 id e).
Qed.

(** The states the manager goes through, with the roster reloaded at will and
    connection tasks ending on their own. *)
Inductive reaches (own : str) : Manager → Prop :=
| reaches_start r : reaches own (manager_start own r)
| reaches_msg r m msg : reaches own m → reaches own (manager_step own r m msg)
| reaches_end m t id :
    reaches own m → t_tasks m !! t = Some (DriveConn id) → reaches own (abort m t).

Lemma reaches_inv own m : reaches own m → tinv own m.
Proof.
  induction 1 as [r|r m msg _ IH|m t id _ IH Ht].
  - apply ensure_trusted_inv. split; cbn; intros; try (by rewrite lookup_empty in *).
  - by apply manager_step_inv.
  - apply tinv_abort; [done|]. by rewrite Ht.
Qed.

(** (C27) One dial loop per peer: in every reachable state, whatever mDNS says,
    whoever connects and however the roster changes, each peer we are the
    dialer of has exactly one dial loop running as long as it is in the table,
    and no other dial loop runs (none for a peer we accept from, none for one
    that was dropped). *)
Theorem one_dial_loop own m :
  reaches own m →
  (∀ id e, t_peers m !! id = Some e → role_for own id = Dialer →
     ∃ t, t_tasks m !! t = Some (DialLoop id)) ∧
  (∀ t t' id, t_tasks m !! t = Some (DialLoop id) → t_tasks m !! t' = Some (DialLoop id) → t = t') ∧
  (∀ t id, t_tasks m !! t = Some (DialLoop id) → role_for own id = Dialer ∧ is_Some (t_peers m !! id)).
Proof.
  intros Hm%reaches_inv. split_and!.
  - intros id e He Hr. destruct (ti_dialer own m Hm id e He Hr) as (_ & t & _ & _ & Ht). eauto.
  - intros t t' id Ht Ht'. destruct (ti_task own m Hm t id Ht) as (e & He & E).
    destruct (ti_task own m Hm t' id Ht') as (e' & He' & E'). congruence.
  - intros t id Ht. destruct (ti_task own m Hm t id Ht) as (e & He & E). split; [|eauto].
    destruct (role_for own id) eqn:Er; [done|]. destruct (ti_acceptor own m Hm id e He Er) as [_ H2].
    by apply (H2 t E) in Ht.
Qed.

(** ** Roster changes *)

Lemma elem_of_roster_ids r id : id ∈ roster_ids r ↔ is_trusted_id r id = true.
Proof.
  unfold roster_ids, is_trusted_id. rewrite bool_decide_eq_true, list_elem_of_fmap. split.
  - intros ([i k] & -> & H%elem_of_map_to_list). eauto.
  - intros [k Hk]. exists (id, k). split; [done|]. by apply elem_of_map_to_list.
Qed.

Lemma drop_peer_lookup m id i :
  t_peers (drop_peer m id) !! i = (if decide (i = id) then None else t_peers m !! i) ∧
  t_senders (drop_peer m id) !! i = (if decide (i = id) then None else t_senders m !! i) ∧
  t_discovered (drop_peer m id) = t_discovered m.
Proof.
  unfold drop_peer. cbn [t_peers set_senders]. destruct (t_peers m !! id) as [e|] eqn:Ee.
  - destruct (task e), (connected e); cbn; (split_and!; [|by destruct (decide (i = id)) as [->|];
      rewrite ?lookup_delete_eq, ?lookup_delete_ne by done|done]);
      by destruct (decide (i = id)) as [->|]; rewrite ?lookup_delete_eq, ?lookup_delete_ne by done.
  - cbn. split_and!; [by case_decide; subst| |done].
    destruct (decide (i = id)) as [->|]; by rewrite ?lookup_delete_eq, ?lookup_delete_ne.
Qed.

Lemma drop_all_lookup m ids i :
  t_peers (foldl drop_peer m ids) !! i = (if decide (i ∈ ids) then None else t_peers m !! i) ∧
  t_senders (foldl drop_peer m ids) !! i = (if decide (i ∈ ids) then None else t_senders m !! i) ∧
  t_discovered (foldl drop_peer m ids) = t_discovered m.
Proof.
  revert m. induction ids as [|j ids IH]; intros m; cbn [foldl].
  { by rewrite !decide_False by apply not_elem_of_nil. }
  destruct (IH (drop_peer m j)) as (-> & -> & ->). destruct (drop_peer_lookup m j i) as (-> & -> & ->).
  split_and!; [..|done]; repeat case_decide; set_solver.
Qed.

(** What [ensure_peer] adds. *)
Lemma ensure_peer_lookup own r m p i :
  (is_Some (t_peers (ensure_peer own r m p) !! i) ↔ is_Some (t_peers m !! i) ∨ i = dp_device_id p) ∧
  t_senders (ensure_peer own r m p) = t_senders m.
Proof.
  unfold ensure_peer, spawn_task. repeat case_match; cbn [set_peers t_peers t_senders];
    (split; [|done]); rewrite lookup_insert_is_Some'; naive_solver.
Qed.

Lemma ensure_trusted_lookup own r m ps i :
  (is_Some (t_peers (ensure_trusted own r m ps) !! i) ↔
     is_Some (t_peers m !! i) ∨ ∃ p, p ∈ ps ∧ dp_device_id p = i ∧ is_trusted_id r i = true) ∧
  t_senders (ensure_trusted own r m ps) = t_senders m.
Proof.
  unfold ensure_trusted. revert m. induction ps as [|p ps IH]; intros m; cbn [foldl]; [set_solver|].
  destruct (IH (if is_trusted_id r (dp_device_id p) then ensure_peer own r m p else m)) as [H1 H2].
  rewrite H1, H2. destruct (is_trusted_id r (dp_device_id p)) eqn:E.
  - destruct (ensure_peer_lookup own r m p i) as [H3 H4]. rewrite H3, H4. set_solver.
  - split; [|done]. split; [set_solver|]. intros [?|(q & Hq & <- & Hi)]; [by left|].
    apply elem_of_cons in Hq as [->|Hq]; [congruence|]. set_solver.
Qed.

(** The seed map holds every discovered peer and every static one. *)
Lemma seed_lookup (d : gmap str DiscoveredPeer) ps :
  let s := foldl (λ s p, match s !! dp_device_id p with
                         | Some _ => s | None => <[dp_device_id p := p]> s end) d ps in
  (∀ i p, d !! i = Some p → s !! i = Some p) ∧
  (∀ p, p ∈ ps → is_Some (s !! dp_device_id p)) ∧
  ((∀ i p, d !! i = Some p → dp_device_id p = i) → ∀ i p, s !! i = Some p → dp_device_id p = i).
Proof.
  revert d. induction ps as [|q ps IH]; intros d; cbn [foldl].
  { split_and!; try done. by intros p Hp%not_elem_of_nil. }
  destruct (IH (match d !! dp_device_id q with Some _ => d | None => <[dp_device_id q := q]> d end))
    as (H1 & H2 & H3).
  split_and!.
  - intros i p Hp. apply H1. destruct (d !! dp_device_id q) eqn:E; [done|].
    rewrite lookup_insert_ne; [done|]. intros <-. congruence.
  - intros p [->|Hp]%elem_of_cons; [|by apply H2].
    destruct (d !! dp_device_id q) as [x|] eqn:E; [exists x; by apply H1|].
    exists q. apply H1. by rewrite lookup_insert_eq.
  - intros Hd. apply H3. destruct (d !! dp_device_id q) eqn:E; [done|].
    intros i p [[<- <-]|[_ Hp]]%lookup_insert_Some; [done|by apply Hd].
Qed.

(** Unpairing and pairing take effect at once: after a roster change, in
    any reachable state, no peer of the table and no dial loop is for an
    untrusted device, the bus no longer holds the dropped peers, and every
    trusted device we are the dialer of that is known from mDNS or from a
    static address is being dialed. *)
Theorem roster_change_applied own r m :
  reaches own m →
  let m' := manager_step own r m RosterChanged in
  (∀ id, is_Some (t_peers m' !! id) → is_trusted_id r id = true) ∧
  (∀ t id, t_tasks m' !! t = Some (DialLoop id) → is_trusted_id r id = true) ∧
  (∀ id, is_Some (t_peers m !! id) → is_trusted_id r id = false → t_senders m' !! id = None) ∧
  (∀ p, t_discovered m !! dp_device_id p = Some p ∨ p ∈ static_peers r →
     is_trusted_id r (dp_device_id p) = true → role_for own (dp_device_id p) = Dialer →
     ∃ t, t_tasks m' !! t = Some (DialLoop (dp_device_id p))).
Proof.
  intros Hr m'. pose proof (reaches_inv own m Hr) as Hm.
  assert (tinv own m') as Hm' by (by apply manager_step_inv).
  subst m'. cbn [manager_step] in *. unfold on_roster_changed in *.
  set (dropped := base.filter _ _) in *. set (m1 := foldl drop_peer m dropped) in *.
  set (seed := foldl _ (t_discovered m1) _) in *.
  assert (∀ i, i ∈ dropped ↔ is_Some (t_peers m !! i) ∧ is_trusted_id r i = false) as Hdr.
  { intros i. unfold dropped. rewrite list_elem_of_filter, elem_of_roster_ids, not_true_iff_false.
    rewrite list_elem_of_fmap. split; [|intros [[e He] Hi]; split; [done|]; exists (i, e); split; [done|]].
    - intros [Hi ([j e] & -> & He%elem_of_map_to_list)]. eauto.
    - by apply elem_of_map_to_list. }
  assert (t_discovered m1 = t_discovered m) as Edisc by apply (drop_all_lookup m dropped []).
  destruct (seed_lookup (t_discovered m1) (static_peers r)) as (S1 & S2 & S3). fold seed in S1, S2, S3.
  assert (∀ i p, seed !! i = Some p → dp_device_id p = i) as Hkey.
  { apply S3. rewrite Edisc. apply (ti_disc own m Hm). }
  assert (∀ id, is_Some (t_peers (ensure_trusted own r m1 (map_to_list seed).*2) !! id) →
    is_trusted_id r id = true) as Htr.
  { intros id [[e He]|(p & _ & _ & ?)]%ensure_trusted_lookup; [|done].
    destruct (drop_all_lookup m dropped id) as (E & _). fold m1 in E. rewrite E in He.
    case_decide as Hd; [done|]. destruct (is_trusted_id r id) eqn:Et; [done|]. destruct Hd. apply Hdr. eauto. }
  split_and!.
  - exact Htr.
  - intros t id Ht. destruct (ti_task own _ Hm' t id Ht) as (e & He & _). apply Htr. eauto.
  - intros id He Hi. destruct (ensure_trusted_lookup own r m1 (map_to_list seed).*2 id) as [_ ->].
    destruct (drop_all_lookup m dropped id) as (_ & E & _). fold m1 in E. rewrite E.
    rewrite decide_True; [done|]. by apply Hdr.
  - intros p Hp Ht Hrole.
    assert (is_Some (t_peers (ensure_trusted own r m1 (map_to_list seed).*2) !! dp_device_id p)) as [e He].
    { assert (is_Some (seed !! dp_device_id p)) as [q Hq].
      { destruct Hp as [Hp|Hp]; [|by apply S2]. exists p. apply S1. by rewrite Edisc. }
      apply ensure_trusted_lookup. right. exists q. split; [|split; [by apply Hkey|done]].
      apply list_elem_of_fmap. exists (dp_device_id p, q). split; [done|]. by apply elem_of_map_to_list. }
    destruct (ti_dialer own _ Hm' _ e He Hrole) as (_ & t & _ & _ & Ht'). eauto.
Qed.

(** ** Authentication of connections *)

Section authentication.
Context `{KeyPairs, Serde Message}.

Lemma handshake_ok elapsed w rd local expect hs w' rd' :
  handshake elapsed w rd local expect = (Ok hs, w', rd') →
  (∀ id, expect = Some id → hello_device_id (hs_peer hs) = id) ∧
  protocol_version (hs_peer hs) = PROTOCOL_VERSION ∧
  effective_caps hs = intersect (hello_caps local) (hello_caps (hs_peer hs)).
Proof.
  unfold handshake. destruct elapsed; [done|]. destruct (write_message w _) as [[[]|k] w1]; [|done].
  destruct (read_message rd) as [[msg|e] rd1]; [|done]. destruct msg; try done.
  destruct (_ =? PROTOCOL_VERSION) eqn:Ev; cbn [negb]; [|done]. zsolve.
  destruct expect as [id|]; [case_bool_decide as Hid; [done|]|]; intros [= <- _ _]; cbn; [|done].
  split_and!; try done. by intros i [= <-].
Qed.

(** [rustls] returns a session only when our verifier accepted the end-entity
    certificate. *)
Definition tls_verified (tls : (bytes → result CertError unit) → TlsOutcome) : Prop :=
  ∀ v cert certs, tls v = TlsUp (cert :: certs) → v cert = Ok tt.

(** A dialed connection is with the right device: when [dial_once] reports
    a connection, it is on the first address of the list that worked, the TLS
    peer presented a certificate with exactly the pinned key, and the device
    that answered the handshake reported the id we meant to dial. *)
Theorem dial_authenticated local expect peer_id net addrs a hs :
  length expect = 32%nat → (∀ x d, net x = Some d → tls_verified (d_tls d)) →
  dial_once local expect peer_id net addrs = Some (a, hs) →
  (∃ before after, addrs = before ++ a :: after ∧
     Forall (λ x, dial_addr local expect peer_id (net x) = None) before) ∧
  hello_device_id (hs_peer hs) = peer_id ∧
  ∃ d certs, net a = Some d ∧ d_tls d (verify_server_cert expect) = TlsUp certs ∧
    ∀ cert rest, certs = cert :: rest → peer_key_from_cert cert = Some expect.
Proof.
  intros He Hv. induction addrs as [|x addrs IH]; cbn [dial_once]; [done|].
  destruct (dial_addr local expect peer_id (net x)) as [hs'|] eqn:Ed.
  - intros [= <- <-]. split; [exists [], addrs; by split|]. unfold dial_addr, connect in Ed.
    destruct (net x) as [d|] eqn:En; [|done].
    destruct (d_tls d (verify_server_cert expect)) as [| |certs] eqn:Et; [done|done|].
    destruct (handshake _ _ _ _ _) as [[[h|] w] rd] eqn:Eh; [|done]. injection Ed as <-.
    apply handshake_ok in Eh as [Hid _]. split; [by apply Hid|]. exists d, certs. split_and!; try done.
    intros cert rest ->. apply (Hv x d En) in Et. unfold verify_server_cert in Et.
    destruct (peer_key_from_cert cert) as [k|] eqn:Ek; [|done].
    destruct (Crypto.ct_eq k expect) eqn:Ec; [|done].
    apply Crypto.ct_eq_iff in Ec; [by subst|by eapply peer_key_from_cert_length|done].
  - intros Hd. destruct (IH Hd) as ((before & after & -> & Hb) & H2). split; [|done].
    exists (x :: before), after. split; [done|]. by apply list.Forall_cons.
Qed.

(** Whom an accepted connection is from, if the roster is the same at the recheck
    and at the lookup. *)
Lemma accepted_peer tls elapsed rd local r_hs r peer caps :
  tls_verified tls →
  accept_conn tls elapsed rd local r_hs r r = Some (InboundReady peer caps) →
  ∃ key p, by_key r !! key = Some p ∧ hello_device_id peer = rp_device_id p ∧ is_trusted_key r_hs key = true ∧
    caps = intersect (hello_caps local) (hello_caps peer).
Proof.
  intros Hv. unfold accept_conn, accept.
  destruct (tls (verify_client_cert r_hs)) as [| |[|cert certs]] eqn:Et; try done.
  destruct (peer_key_from_cert cert) as [key|] eqn:Ek; [|done].
  destruct (is_trusted_key r key) eqn:Etr; [|done]. unfold is_trusted_key in Etr.
  apply bool_decide_eq_true in Etr as [p Hp]. unfold peer_for_key. rewrite Hp. cbn [fmap option_fmap option_map].
  destruct (handshake _ _ _ _ _) as [[[h|] w] rd'] eqn:Eh; [|done]. intros [= <- <-].
  apply handshake_ok in Eh as (Hid & _ & Hc). exists key, p. split_and!; try done; [by apply Hid|].
  apply Hv in Et. unfold verify_client_cert in Et. rewrite Ek in Et.
  by destruct (is_trusted_key r_hs key).
Qed.
End authentication.

(** ** Witnesses *)

Lemma backoff_schedule_witness :
  delays (λ n, n) 8 (Backoff_new 1000000000 60000000000) !! 7%nat = Some 60000000000 ∧
  0 ≤ 60000000000 ≤ Z.min (1000000000 * 2 ^ 7) 60000000000.
Proof.
  split; [vm_compute; reflexivity|].
  apply (backoff_schedule (λ n, n) 1000000000 60000000000 8 7); try lia. vm_compute. reflexivity.
Defined.

Definition t_roster : RosterInner := @from_peers hex_b64 no_resolver [alice; bob].
Definition found_b : Internal := Found (mkDiscovered (lit "id-b") (lit "b") [] [SocketAddr_new (V4 10 0 0 2) 47654]).
Definition t1 : Manager := manager_step (lit "id-a") t_roster (manager_start (lit "id-a") t_roster) found_b.

Lemma t1_reaches : reaches (lit "id-a") t1.
Proof. apply reaches_msg, reaches_start. Qed.

Lemma one_dial_loop_witness :
  is_Some (t_peers t1 !! lit "id-b") ∧ ∃ t, t_tasks t1 !! t = Some (DialLoop (lit "id-b")).
Proof.
  split; [vm_compute; eauto|]. destruct (one_dial_loop (lit "id-a") t1 t1_reaches) as [H _].
  eapply H; vm_compute; reflexivity.
Defined.

(** Bob is unpaired. *)
Definition t_roster' : RosterInner := @from_peers hex_b64 no_resolver [alice].

Lemma roster_change_applied_witness :
  is_trusted_id t_roster' (lit "id-b") = false ∧
  (∀ t id, t_tasks (manager_step (lit "id-a") t_roster' t1 RosterChanged) !! t = Some (DialLoop id) →
     is_trusted_id t_roster' id = true).
Proof.
  split; [vm_compute; reflexivity|].
  destruct (roster_change_applied (lit "id-a") t_roster' t1 t1_reaches) as (_ & H & _). exact H.
Defined.

(** The frame of a greeting, as the other side writes it. *)
Definition hello_wire (h : Hello) : bytes :=
  default [] (frame_of <$> @serialize _ message_bounded (MHello h)).
Definition hello_b : Hello := sample_hello (lit "id-b").

Lemma sample_handshake_tls : tls_verified sample_handshake.
Proof. intros v cert certs. apply sample_handshake_verified. Qed.

Definition sample_net (a : SocketAddr) : option Dialed :=
  if decide (port a = 1) then None else Some (mkDialed sample_handshake false (mkReader (hello_wire hello_b) None)).

Lemma dial_authenticated_witness :
  ∃ hs, @dial_once sample_keys message_bounded (sample_hello (lit "id-a")) (sample_key true) (lit "id-b")
    sample_net [SocketAddr_new (V4 1 1 1 1) 1; SocketAddr_new (V4 1 1 1 1) 2]
    = Some (SocketAddr_new (V4 1 1 1 1) 2, hs) ∧ hello_device_id (hs_peer hs) = lit "id-b".
Proof.
  eexists. split; [vm_compute; reflexivity|].
  apply (@dial_authenticated sample_keys message_bounded (sample_hello (lit "id-a")) (sample_key true)
    (lit "id-b") sample_net [SocketAddr_new (V4 1 1 1 1) 1; SocketAddr_new (V4 1 1 1 1) 2]
    (SocketAddr_new (V4 1 1 1 1) 2)).
  - reflexivity.
  - intros x d Hx. unfold sample_net in Hx. case_decide; [done|]. injection Hx as <-. apply sample_handshake_tls.
  - vm_compute. reflexivity.
Defined.

Definition hello_a : Hello := sample_hello (lit "id-a").


(** ** Behaviours worth knowing *)

(** A roster reload at the wrong moment skips the identity check: here the
    TLS peer is Alice's device, which is unpaired after the recheck and before
    the id lookup; no id is then expected, and the connection reaches the
    manager under Bob's device id, which the peer simply claims. *)
Theorem accept_race_impersonates :
  @accept_conn sample_keys message_bounded sample_handshake false (mkReader (hello_wire hello_b) None)
    (sample_hello (lit "id-c")) t_roster t_roster (@from_peers hex_b64 no_resolver [bob])
  = Some (InboundReady hello_b Caps_ALL) ∧
  is_trusted_key (@from_peers hex_b64 no_resolver [bob]) (sample_key true) = false.
Proof. vm_compute. done. Qed.

(** A late [ConnDown] hits the newer connection: the old connection ends
    by itself when its replacement is already queued; the manager starts the
    new task, then handles the old end and forgets the new task, which keeps
    running; the next inbound connection does not replace it, and two
    connection tasks run for one peer. *)
Theorem stale_conn_down :
  let own := lit "id-c" in
  let step := manager_step own t_roster in
  let m1 := step (manager_start own t_roster) (InboundReady hello_a Caps_ALL) in
  let m2 := step m1 (ConnUp (lit "id-a") (lit "a") Caps_ALL None 0) in
  let m3 := abort m2 0 in                                    (* the first task has ended *)
  let m4 := step m3 (InboundReady hello_a Caps_ALL) in       (* queued before that *)
  let m5 := step m4 (ConnDown (lit "id-a") PeerClosed) in    (* sent by the first task *)
  let m6 := step m5 (ConnUp (lit "id-a") (lit "a") Caps_ALL None 1) in
  let m7 := step m6 (InboundReady hello_a Caps_ALL) in
  task <$> t_peers m6 !! lit "id-a" = Some None ∧
  map_to_list (t_tasks m7) ≡ₚ [(1%nat, DriveConn (lit "id-a")); (2%nat, DriveConn (lit "id-a"))].
Proof. vm_compute. split; [reflexivity|]. apply Permutation_refl || apply perm_swap. Qed.
