(* ===== verification/Lifecycle.v ===== *)
(** * Lifecycle: a connection from its announcement to its end

    [drive_connection], [TransportConfig] and the texts of
    [DisconnectReason] and of the disconnect events of
    [crates/qdropd/src/transport.rs] and [connection.rs], on the manager of
    [Transport].

    The theorems: while a connection is up the bus has its channel, whatever
    happens to other peers, and its end takes the channel off and is reported
    once; and a connection that was accepted before its peer was unpaired, or
    whose key was replaced, is kept although the key is no longer trusted. *)
From S2P Require Import Prelude Text Crypto Proto Frame Store Samples Net Peers Trust Connection Transport.

(** ** [TransportConfig] *)

Record TransportConfig := mkTransportConfig {
  tc_local : Hello;
  tc_roster : RosterInner;
  tc_keepalive : KeepAlive;
  tc_backoff_base : Z;      (* milliseconds *)
  tc_backoff_max : Z;
  tc_connect_timeout : Z;
}.
(** The identity and the TLS configuration made of it are not kept here. *)
Definition TransportConfig_new (local : Hello) (r : RosterInner) : TransportConfig :=
  mkTransportConfig local r KeepAlive_default 1000 60000 10000.

(** ** Texts *)

Section texts.
(** [Display] of a [FrameError]. *)
Variable frame_text : FrameError → str.

Definition reason_text (r : DisconnectReason) : str :=
  match r with
  | PeerClosed => lit "peer closed the connection"
  | IdleTimeout => lit "idle timeout"
  | WriteError => lit "write error"
  | ProtocolError e => lit "protocol error: " ++ frame_text e
  end.
Definition cause_text (c : Cause) : str :=
  match c with
  | Unpaired => lit "peer unpaired"
  | Replaced => lit "replaced by a newer inbound connection"
  | Down r => reason_text r
  end.
End texts.

(** ** [drive_connection] *)

(** What the task of a connection sends to the manager: the announcement, and
    its end with the reason [connection::run] gave ([None]: aborted before). *)
Definition drive_connection (peer_id device_name : str) (caps : Caps) (addr : option SocketAddr) (out_tx : nat)
    (reason : option DisconnectReason) : list Internal :=
  ConnUp peer_id device_name caps addr out_tx
  :: match reason with Some r => [ConnDown peer_id r] | None => [] end.

(** Messages about other peers; the roster that is read with each. *)
Definition about_other (id : str) (x : RosterInner * Internal) : Prop :=
  match x.2 with
  | Found _ | Lost _ => True
  | RosterChanged => is_trusted_id x.1 id = true
  | InboundReady peer _ => hello_device_id peer ≠ id
  | ConnUp i _ _ _ _ | ConnDown i _ => i ≠ id
  end.

Definition event_of (ev : TransportEvent) : str :=
  match ev with PeerConnected id _ _ _ | PeerDisconnected id _ => id end.
Definition events_about (id : str) (m : Manager) : list TransportEvent :=
  base.filter (λ ev, event_of ev = id) (t_events m).

(** What the bus and the events say of [id] is the same. *)
Definition same_for (id : str) (m m' : Manager) : Prop :=
  t_senders m' !! id = t_senders m !! id ∧ events_about id m' = events_about id m.

#[export] Instance same_for_preorder id : PreOrder (same_for id).
Proof. split; [by split|]. intros a b c [H1 H2] [H3 H4]. split; congruence. Qed.

Lemma events_about_emit id m ev :
  events_about id (emit m ev) = events_about id m ++ if decide (event_of ev = id) then [ev] else [].
Proof. unfold events_about. cbn [emit t_events]. rewrite list.filter_app, list.filter_cons. by case_decide. Qed.

Lemma emit_other id m ev : event_of ev ≠ id → same_for id m (emit m ev).
Proof. intros Hne. split; [done|]. by rewrite events_about_emit, decide_False, app_nil_r. Qed.

Lemma ensure_peer_same own r m p id : same_for id m (ensure_peer own r m p).
Proof. unfold ensure_peer, spawn_task. by repeat case_match. Qed.

Lemma ensure_trusted_same own r m ps id : same_for id m (ensure_trusted own r m ps).
Proof.
  unfold ensure_trusted. revert m. induction ps as [|p ps IH]; intros m; [done|]. cbn [foldl].
  etrans; [|apply IH]. destruct (is_trusted_id _ _); [apply ensure_peer_same|done].
Qed.

Lemma drop_peer_same m i id : i ≠ id → same_for id m (drop_peer m i).
Proof.
  intros Hne. unfold drop_peer. assert (same_for id m (set_senders m (delete i (t_senders m)))) as Hs.
  { split; [|done]. cbn. by rewrite lookup_delete_ne. }
  destruct (t_peers _ !! i) as [e|]; [|done]. etrans; [exact Hs|].
  destruct (task e), (connected e); try done;
    (etrans; [|by apply emit_other]; done).
Qed.

Lemma drop_all_same m ids id : id ∉ ids → same_for id m (foldl drop_peer m ids).
Proof.
  revert m. induction ids as [|i ids IH]; intros m Hi; [done|]. apply not_elem_of_cons in Hi as [Hne Hi].
  cbn [foldl]. etrans; [|by apply IH]. by apply drop_peer_same.
Qed.

Lemma about_other_same own r m msg id : about_other id (r, msg) → same_for id m (manager_step own r m msg).
Proof.
  unfold about_other. cbn [fst snd]. destruct msg; cbn [manager_step]; intros Hother.
  - destruct (is_trusted_id _ _); [|done]. etrans; [|apply ensure_peer_same]. done.
  - by repeat case_match.
  - unfold on_roster_changed. etrans; [|apply ensure_trusted_same]. apply drop_all_same.
    intros [Hni _]%list_elem_of_filter. apply Hni. by apply elem_of_roster_ids.
  - unfold on_inbound. destruct (role_for _ _); [done|]. unfold spawn_task.
    destruct (task _) as [old|]; [|done]. destruct (connected _); [|done].
    etrans; [by apply (emit_other id (abort m old) (PeerDisconnected (hello_device_id peer) Replaced))|]. done.
  - unfold on_conn_up. etrans; [|by apply emit_other]. split; [|by case_match].
    cbn [set_senders t_senders]. rewrite lookup_insert_ne by done. by case_match.
  - unfold on_conn_down. etrans; [|by apply emit_other]. split; [|by case_match].
    case_match; cbn; by rewrite lookup_delete_ne.
Qed.

Definition manager_run (own : str) (m : Manager) (xs : list (RosterInner * Internal)) : Manager :=
  foldl (λ m x, manager_step own x.1 m x.2) m xs.

Lemma manager_run_same own m xs id : Forall (about_other id) xs → same_for id m (manager_run own m xs).
Proof.
  intros H. revert m. induction H as [|[r msg] xs Hx _ IH]; intros m; [done|]. cbn [manager_run foldl].
  etrans; [|apply IH]. by apply about_other_same.
Qed.

(** (C24) A connection's life on the bus: from its announcement to its end, and
    whatever other peers, mDNS and roster changes that keep the peer trusted do
    in between, the bus has exactly the channel of this connection for the peer;
    its end takes the channel off; and the events about the peer are one
    connection, with its name, capabilities and address, and one disconnection,
    with its reason. *)
Theorem connection_lifecycle own m id name caps addr out reason xs r r' :
  Forall (about_other id) xs →
  drive_connection id name caps addr out (Some reason) = [ConnUp id name caps addr out; ConnDown id reason] ∧
  let m1 := manager_run own (manager_step own r m (ConnUp id name caps addr out)) xs in
  let m2 := manager_step own r' m1 (ConnDown id reason) in
  t_senders m1 !! id = Some out ∧ t_senders m2 !! id = None ∧
  events_about id m1 = events_about id m ++ [PeerConnected id name caps addr] ∧
  events_about id m2 = events_about id m ++ [PeerConnected id name caps addr; PeerDisconnected id (Down reason)].
Proof.
  intros Hx. split; [done|]. intros m1 m2.
  destruct (manager_run_same own (manager_step own r m (ConnUp id name caps addr out)) xs id Hx) as [Hs He].
  fold m1 in Hs, He. cbn [manager_step] in Hs, He. unfold on_conn_up in Hs, He. rewrite events_about_emit in He.
  cbn [event_of] in He. rewrite decide_True in He by done.
  assert (events_about id m1 = events_about id m ++ [PeerConnected id name caps addr]) as E1.
  { rewrite He. by destruct (t_peers m !! id). }
  split_and!.
  - rewrite Hs. cbn. by rewrite lookup_insert_eq.
  - transitivity (delete id (t_senders m1) !! id); [|apply lookup_delete_eq].
    subst m2. cbn [manager_step]. unfold on_conn_down. by destruct (t_peers (set_senders m1 _) !! id).
  - done.
  - subst m2. cbn [manager_step]. unfold on_conn_down. rewrite events_about_emit. cbn [event_of].
    rewrite decide_True by done. change (?x ++ [?a; ?b]) with (x ++ ([a] ++ [b])). rewrite app_assoc, <- E1. f_equal.
    by destruct (t_peers (set_senders m1 _) !! id).
Qed.

(** A late arrival outlives its pairing: the accept task checks the key,
    then queues the connection; if the peer is unpaired and the roster change is
    handled first, the manager takes the connection without looking at the roster
    again, and the unpaired device is on the bus, which is all that clipboard,
    files and links ask. *)
Theorem late_inbound_kept :
  let own := lit "id-c" in
  let m0 := manager_start own t_roster in
  let m1 := manager_step own roster_empty m0 RosterChanged in             (* everyone is unpaired *)
  let m2 := manager_step own roster_empty m1 (InboundReady hello_a Caps_ALL) in
  let m3 := manager_step own roster_empty m2 (ConnUp (lit "id-a") (lit "a") Caps_ALL None 0) in
  is_trusted_id roster_empty (lit "id-a") = false ∧
  t_senders m3 !! lit "id-a" = Some 0%nat ∧ connected <$> t_peers m3 !! lit "id-a" = Some true.
Proof. by vm_compute. Qed.

(** A replaced key keeps its connection: the roster change drops the peers
    whose id is gone, and a connection is known by its id only; so when the key
    of a registry entry is replaced (the device was paired anew, because the old
    key was lost, say), the connection that was authenticated with the old key
    stays on the bus, although no roster trusts that key any more. *)
Definition alice_rekeyed : Peer := @Peer_new hex_b64 (peer_name alice) (peer_device_id alice) (replicate 32 Byte.x03).
Theorem rekeyed_connection_kept :
  (∀ own r m id, is_trusted_id r id = true →
     t_senders (manager_step own r m RosterChanged) !! id = t_senders m !! id) ∧
  let own := lit "id-c" in
  let r := @from_peers hex_b64 no_resolver [alice] in
  let r' := @from_peers hex_b64 no_resolver [alice_rekeyed] in
  let up := @accept_conn sample_keys message_bounded sample_handshake false (mkReader (hello_wire hello_a) None)
              (sample_hello own) r r r in
  up = Some (InboundReady hello_a Caps_ALL) ∧                    (* with the old key *)
  is_trusted_key r' (sample_key true) = false ∧
  let m := manager_run own (manager_start own r)
             [(r, InboundReady hello_a Caps_ALL); (r, ConnUp (lit "id-a") (lit "a") Caps_ALL None 0); (r', RosterChanged)] in
  t_senders m !! lit "id-a" = Some 0%nat ∧ connected <$> t_peers m !! lit "id-a" = Some true.
Proof.
  split; [|by vm_compute]. intros own r m id Ht. by apply (about_other_same own r m RosterChanged id).
Qed.

(** ** Witnesses *)

Lemma connection_lifecycle_witness :
  let m := manager_run (lit "id-c") (manager_step (lit "id-c") t_roster (manager_start (lit "id-c") t_roster)
             (ConnUp (lit "id-a") (lit "a") Caps_ALL None 3)) [(t_roster, RosterChanged); (t_roster, found_b)] in
  t_senders m !! lit "id-a" = Some 3%nat.
Proof.
  destruct (connection_lifecycle (lit "id-c") (manager_start (lit "id-c") t_roster) (lit "id-a") (lit "a") Caps_ALL None 3
    PeerClosed [(t_roster, RosterChanged); (t_roster, found_b)] t_roster t_roster) as (_ & H & _);
    [repeat constructor; by vm_compute|exact H].
Defined.
