(* ===== verification/Auth.v ===== *)
(** * Auth: pre-authorised senders and links

    [crates/qdropd/src/auth.rs], [weblink.rs], [crates/qdrop-core/src/sysinfo.rs]
    and the gate they share with file transfer ([needs_confirm] of
    [FileXfer]).  The registry is the content of [peers.toml] ([None] when it
    cannot be loaded); each handler reads and writes it as the code does.

    The theorems: a link is launched only if the allowlist accepts it and the
    policy lets the sender through; recording an authorisation touches the one
    entry that matches; what the three confirmation policies let through; and
    what a paired peer can do to its own authorisation. *)
From S2P Require Import Prelude Text Proto Frame Store Samples Net Peers Config Bus FileXfer.

(** ** [sysinfo.rs] *)

Definition macs_still_match (recorded observed : list str) : bool :=
  match recorded with [] => true | _ => existsb (λ m, bool_decide (m ∈ observed)) recorded end.

(** [hostname] with its fallback (the command is the one of [Config]). *)
Definition sys_hostname (cmd : option bytes) : str := default (lit "unknown") (hostname cmd).

(** [local_macs]: the interfaces' addresses, without the zero one, sorted and
    without repetitions. *)
Definition bytes_leb (a b : str) : bool := negb (bytes_ltb b a).
Definition local_macs (interfaces : list (bytes * str)) : list str :=
  dedup (sort_by bytes_leb
    (map (λ m, to_ascii_lowercase m.2) (base.filter (λ m, m.1 ≠ replicate 6 Byte.x00) interfaces))).

Definition local_device_info (cmd : option bytes) (interfaces : list (bytes * str)) (os : str) : DeviceInfo :=
  mkDeviceInfo (sys_hostname cmd) (local_macs interfaces) os.

(** ** [weblink.rs] *)

Inductive link_action :=
| LinkRefused
| LinkHeld (summary body : str)                          (* a notification, nothing launched *)
| LinkOpened (launcher argument : str) (summary body : str).   (* then, if it starts, a notification *)

(** [handle_inbound]; [macos] is the target of the build. *)
Definition link_inbound (macos : bool) (ps : option Peers) (confirm : ConfirmPolicy) (peer_id url : str)
    : link_action :=
  if negb (is_allowed_url url) then LinkRefused
  else if needs_confirm ps confirm peer_id then
    LinkHeld (lit "Link from a device") (peer_label ps peer_id ++ lit " wants to open: " ++ url)
  else
    LinkOpened (if macos then lit "open" else lit "xdg-open") url
      (lit "Opened a link") (lit "From " ++ peer_label ps peer_id ++ lit ": " ++ url).

Inductive DispatchError := SchemeNotAllowed | NoSuchPeer (name : str) | NoConnectedPeers.

Definition dispatch (ps : option Peers) (b : PeerBus) (url : str) (to : option str)
    : result DispatchError nat * PeerBus :=
  if negb (is_allowed_url url) then (Err SchemeNotAllowed, b)
  else
    let go targets :=
      match targets with
      | [] => (Err NoConnectedPeers, b)
      | _ => let '(n, b) := foldl (λ '(n, b) id, let '(q, b) := send_to b id (OpenUrl url) in
                                                 (if (q : bool) then S n else n, b)) (0%nat, b) targets in
             (Ok n, b)
      end in
    match to with
    | Some name => match sender b name with
                   | Some _ => go [name]
                   | None => match resolve_peer ps name with
                             | Some id => go [id]
                             | None => (Err (NoSuchPeer name), b)
                             end
                   end
    | None => go (connected_ids b)
    end.

(** ** [auth.rs] *)

(** The receiving end of a one-shot channel. *)
Inductive waiter := Waiting | Got (info : DeviceInfo) | SenderGone.

Record AuthManager := mkAuth {
  au_bus : PeerBus;
  pending : gmap str nat;               (* peer id -> the exchange waiting for its reply *)
  waiters : list waiter;                (* by exchange *)
  registry : option Peers;              (* peers.toml *)
  au_notices : list (str * str);        (* desktop notifications: title, body *)
}.

Definition AuthManager_new (b : PeerBus) (reg : option Peers) : AuthManager :=
  mkAuth b ∅ [] reg [].

Inductive AuthError := NotConnected | ChannelClosed | NoReply | NotPaired | RegistryError.

Definition authorize_entry (info : DeviceInfo) (authorized : bool) (p : Peer) : Peer :=
  mkPeer (peer_name p) (peer_device_id p) (peer_public_key p) (last_seen p) authorized
    (info_macs info) (Some (info_hostname info)) (address p).

(** [record]: load, update the first entry whose name or id is [device_id],
    save. *)
Definition record (reg : option Peers) (device_id : str) (info : DeviceInfo) (authorized : bool)
    : result AuthError Peers :=
  match reg with
  | None => Err RegistryError
  | Some ps => match find_any ps device_id with
               | None => Err NotPaired
               | Some _ => Ok (update_any ps device_id (authorize_entry info authorized))
               end
  end.

(** Save what [record] returns; an error leaves the file alone. *)
Definition recorded (a : AuthManager) (device_id : str) (info : DeviceInfo)
    : result AuthError () * AuthManager :=
  match record (registry a) device_id info true with
  | Ok ps => (Ok (), mkAuth (au_bus a) (pending a) (waiters a) (Some ps) (au_notices a))
  | Err e => (Err e, a)
  end.

Definition auth_notice (a : AuthManager) (title body : str) : AuthManager :=
  mkAuth (au_bus a) (pending a) (waiters a) (registry a) (au_notices a ++ [(title, body)]).

(** A sender that goes away, and one that sends, is noticed by the exchange that
    still waits. *)
Definition wake (w : waiter) (x : waiter) : waiter := match x with Waiting => w | _ => x end.
Definition settle (a : AuthManager) (peer_id : str) (w : waiter) : AuthManager :=
  match pending a !! peer_id with
  | None => a
  | Some n => mkAuth (au_bus a) (delete peer_id (pending a)) (alter (wake w) n (waiters a))
                (registry a) (au_notices a)
  end.

Definition auth_send (a : AuthManager) (peer_id : str) (msg : Message) : bool * AuthManager :=
  let '(queued, b) := send_to (au_bus a) peer_id msg in
  (queued, mkAuth b (pending a) (waiters a) (registry a) (au_notices a)).

Definition auth_inbound (mine : DeviceInfo) (a : AuthManager) (peer_id : str) (msg : Message)
    : AuthManager :=
  match msg with
  | AuthRequest mutual info =>
      let '(_, a) := auth_send a peer_id (AuthReply true mine) in
      if mutual then
        match recorded a peer_id info with
        | (Ok _, a) => auth_notice a (lit "Device authorized")
                         (info_hostname info ++ lit " can now send here unattended")
        | (Err _, a) => a
        end
      else a
  | AuthReply _ info => settle a peer_id (Got info)
  | _ => a
  end.

(** [exchange], up to its await: register the waiter, which drops the sender of
    an exchange already waiting for the same peer, and send the request. *)
Definition exchange_start (mine : DeviceInfo) (a : AuthManager) (peer_id : str) (mutual : bool)
    : result AuthError nat * AuthManager :=
  let a := settle a peer_id SenderGone in
  let n := length (waiters a) in
  let a := mkAuth (au_bus a) (<[peer_id := n]> (pending a)) (waiters a ++ [Waiting]) (registry a)
             (au_notices a) in
  let '(queued, a) := auth_send a peer_id (AuthRequest mutual mine) in
  if queued then (Ok n, a) else (Err NotConnected, settle a peer_id SenderGone).

(** [exchange], after its await: what the timed wait gives, and the entry of
    that peer taken out.  [None]: still waiting. *)
Definition exchange_finish (a : AuthManager) (peer_id : str) (n : nat) (timed_out : bool)
    : option (result AuthError DeviceInfo * AuthManager) :=
  let done out := Some (out, settle a peer_id SenderGone) in
  match waiters a !! n with
  | Some (Got info) => done (Ok info)
  | Some SenderGone => done (Err ChannelClosed)
  | _ => if timed_out then done (Err NoReply) else None
  end.

Definition authorize_start (mine : DeviceInfo) (a : AuthManager) (peer_id : str) (mutual : bool)
    : result AuthError nat * AuthManager :=
  match sender (au_bus a) peer_id with
  | None => (Err NotConnected, a)
  | Some _ => exchange_start mine a peer_id mutual
  end.

Definition authorize_finish (a : AuthManager) (peer_id : str) (n : nat) (timed_out : bool)
    : option (result AuthError str * AuthManager) :=
  match exchange_finish a peer_id n timed_out with
  | None => None
  | Some (Err e, a) => Some (Err e, a)
  | Some (Ok info, a) =>
      match recorded a peer_id info with
      | (Err e, a) => Some (Err e, a)
      | (Ok _, a) => Some (Ok (info_hostname info), a)
      end
  end.

(** [refresh], up to its await: nothing for a peer that is not authorised. *)
Definition refresh_start (mine : DeviceInfo) (a : AuthManager) (peer_id : str)
    : option (list str * nat) * AuthManager :=
  match registry a ≫= λ ps, find_by_id ps peer_id with
  | Some p =>
      if authorized p then
        match exchange_start mine a peer_id false with
        | (Err _, a) => (None, a)
        | (Ok n, a) => (Some (macs p, n), a)
        end
      else (None, a)
  | None => (None, a)
  end.

Definition refresh_finish (a : AuthManager) (peer_id : str) (known : list str) (n : nat)
    (timed_out : bool) : option AuthManager :=
  match exchange_finish a peer_id n timed_out with
  | None => None
  | Some (Err _, a) => Some a
  | Some (Ok info, a) =>
      let a := if negb (macs_still_match known (info_macs info))
               then auth_notice a (lit "Authorized device on a new network")
                      (info_hostname info ++ lit " — still trusted (its key is pinned)")
               else a in
      Some (recorded a peer_id info).2
  end.

(** ** Links *)

(** (C37) A link is launched only when the allowlist accepts it and the policy
    does not hold it back: never, for the strict policy; only from an
    authorised peer, for the default of confirmation; the peer's string is the
    launcher's single argument.  Everything else is refused, or held with a
    notification that launches nothing. *)
Theorem link_gate macos ps confirm peer url :
  (∀ prog arg s b, link_inbound macos ps confirm peer url = LinkOpened prog arg s b →
     arg = url ∧ is_allowed_url url = true ∧ confirm ≠ Always ∧ prog ∈ [lit "open"; lit "xdg-open"] ∧
     (confirm = Unlisted → ∃ p, ps = Some p ∧ is_authorized p peer = true)) ∧
  (is_allowed_url url = false → link_inbound macos ps confirm peer url = LinkRefused) ∧
  (is_allowed_url url = true → confirm = Never →
   ∃ prog s b, link_inbound macos ps confirm peer url = LinkOpened prog url s b).
Proof.
  unfold link_inbound. split_and!.
  - intros prog arg s b. destruct (is_allowed_url url); cbn [negb]; [|done].
    destruct (needs_confirm ps confirm peer) eqn:En; [done|]. intros [= <- <- <- <-].
    split_and!; [done|done| | |].
    + by intros ->.
    + destruct macos; [left|right; left].
    + intros ->. cbn in En. destruct ps as [p|]; [|done]. exists p. split; [done|].
      by destruct (is_authorized p peer).
  - by intros ->.
  - intros -> ->. eauto.
Qed.

(** The check is on the trimmed text, the launcher gets the text as sent:
    a URL with surrounding white space and control characters is accepted and
    handed over with them. *)
Theorem link_untrimmed :
  let url := Byte.x20 :: lit "https://example.com" ++ [Byte.x0a; Byte.x0b] in
  (∃ s b, link_inbound false None Never (lit "p") url = LinkOpened (lit "xdg-open") url s b) ∧
  existsb bad_url_char (chars url) = true.
Proof. split; [by repeat eexists|by vm_compute]. Qed.

(** ** Authorisation *)

(** Device ids are unique, so an entry of the registry is the one its id finds. *)
Lemma find_by_id_elem ps p : peers_wf ps → p ∈ ps → find_by_id ps (peer_device_id p) = Some p.
Proof.
  unfold find_by_id, peers_wf. induction ps as [|q ps IH]; intros Hwf Hin; [by apply not_elem_of_nil in Hin|].
  cbn [map lfind] in *. apply list.NoDup_cons in Hwf as [Hq Hwf].
  apply elem_of_cons in Hin as [->|Hin]; [by rewrite bool_decide_eq_true_2|].
  rewrite bool_decide_eq_false_2; [by apply IH|]. intros Heq. apply Hq. apply list_elem_of_fmap.
  exists p. split; [congruence|done].
Qed.

(** In-place updates that keep the ids: what the other ids look up to. *)
Lemma find_by_id_update ps x f id p :
  (∀ q, peer_device_id (f q) = peer_device_id q) → find_any ps x = Some p →
  find_by_id (update_any ps x f) id =
  if decide (peer_device_id p = id ∧ find_by_id ps id = Some p) then Some (f p) else find_by_id ps id.
Proof.
  intros Hf. unfold find_any, update_any, find_by_id.
  induction ps as [|q ps IH]; [done|]. cbn [lfind update_first].
  destruct (matches_any x q) eqn:Em.
  - intros [= ->]. cbn [lfind]. rewrite Hf. destruct (bool_decide (peer_device_id p = id)) eqn:Ei.
    + apply bool_decide_eq_true in Ei. by rewrite decide_True.
    + apply bool_decide_eq_false in Ei. by rewrite decide_False by tauto.
  - intros Hp. cbn [lfind]. specialize (IH Hp). destruct (bool_decide (peer_device_id q = id)) eqn:Ei.
    + rewrite decide_False; [done|]. intros [_ [= ->]]. apply lfind_Some in Hp as [_ Hp]. congruence.
    + done.
Qed.

(** Recording an authorisation is precise: when the entry that [record]
    finds is the one with that device id, exactly that device becomes
    authorised, keeping its key, name and address, and every other device's
    authorisation is as before. *)
Theorem record_precise ps id info p ps' other :
  peers_wf ps → find_any ps id = Some p → peer_device_id p = id →
  record (Some ps) id info true = Ok ps' →
  is_authorized ps' id = true ∧ find_by_id ps' id = Some (authorize_entry info true p) ∧
  (other ≠ id → find_by_id ps' other = find_by_id ps other).
Proof.
  intros Hwf Hf Hid Hr. cbn in Hr. rewrite Hf in Hr. injection Hr as <-.
  assert (find_by_id ps id = Some p) as Hp.
  { rewrite <- Hid. apply find_by_id_elem; [done|]. by apply find_any_Some in Hf as [Hin _]. }
  assert (find_by_id (update_any ps id (authorize_entry info true)) id = Some (authorize_entry info true p)) as E.
  { rewrite (find_by_id_update ps id _ id p) by done. by rewrite decide_True. }
  split_and!; [unfold is_authorized; by rewrite E|done|].
  intros Hne. rewrite (find_by_id_update ps id _ other p) by done. rewrite decide_False; [done|].
  intros [? _]. congruence.
Qed.

(** A name can shadow an id: [record] takes the first entry whose name or
    id matches, so a paired device that named itself after another device's id
    is authorised in its place. *)
Theorem record_misdirected :
  let mallory := mkPeer (lit "id-b") (lit "id-m") [] None false [] None None in
  let victim := mkPeer (lit "bob") (lit "id-b") [] None false [] None None in
  ∃ ps', record (Some [mallory; victim]) (lit "id-b") (mkDeviceInfo [] [] []) true = Ok ps' ∧
    is_authorized ps' (lit "id-m") = true ∧ is_authorized ps' (lit "id-b") = false.
Proof. eexists. split; [vm_compute; reflexivity|]. vm_compute. done. Qed.

(** A paired peer can authorise itself: one [AuthRequest] with the mutual
    flag, which it may send unasked, sets its own flag in our registry, and from
    then on its links are opened and its files land in the download directory
    although confirmation is required of unlisted peers. *)
Theorem mutual_request_authorizes mine a peer info ps p :
  registry a = Some ps → peers_wf ps → find_any ps peer = Some p → peer_device_id p = peer →
  let a' := auth_inbound mine a peer (AuthRequest true info) in
  ∃ ps', registry a' = Some ps' ∧ is_authorized ps' peer = true ∧
    needs_confirm (registry a') Unlisted peer = false.
Proof.
  intros Hreg Hwf Hf Hid a'. subst a'. cbn [auth_inbound]. unfold auth_send.
  destruct (send_to _ _ _) as [q b]. unfold recorded, record. cbn [registry]. rewrite Hreg, Hf.
  cbn [auth_notice registry]. eexists. split; [done|].
  assert (is_authorized (update_any ps peer (authorize_entry info true)) peer = true) as E.
  { unfold is_authorized. rewrite (find_by_id_update ps peer _ peer p) by done.
    rewrite decide_True; [done|]. split; [done|]. rewrite <- Hid at 1.
    apply find_by_id_elem; [done|]. by apply find_any_Some in Hf as [Hin _]. }
  split; [done|]. cbn. by rewrite E.
Qed.

(** ** Exchanges *)

(** What can happen to the manager while an exchange waits. *)
Inductive auth_event :=
| AeInbound (peer : str) (msg : Message)
| AeStart (peer : str) (mutual : bool)
| AeFinish (peer : str) (n : nat) (timed_out : bool).

Definition auth_event_step (mine : DeviceInfo) (a : AuthManager) (e : auth_event) : AuthManager :=
  match e with
  | AeInbound peer msg => auth_inbound mine a peer msg
  | AeStart peer mutual => (exchange_start mine a peer mutual).2
  | AeFinish peer n timed => match exchange_finish a peer n timed with Some (_, a) => a | None => a end
  end.

(** Events that leave the exchange with [peer] alone. *)
Definition leaves_alone (peer : str) (e : auth_event) : Prop :=
  match e with
  | AeInbound p (AuthReply _ _) => p ≠ peer
  | AeInbound _ _ => True
  | AeStart p _ | AeFinish p _ _ => p ≠ peer
  end.

Lemma recorded_waiters a peer info :
  pending (recorded a peer info).2 = pending a ∧ waiters (recorded a peer info).2 = waiters a.
Proof. unfold recorded. by destruct (record _ _ _ _). Qed.

Lemma auth_send_waiters a peer m :
  pending (auth_send a peer m).2 = pending a ∧ waiters (auth_send a peer m).2 = waiters a.
Proof. unfold auth_send. by destruct (send_to _ _ _). Qed.

(** Each exchange waits on a receiver of its own. *)
Definition auth_wf (a : AuthManager) : Prop :=
  (∀ p n, pending a !! p = Some n → (n < length (waiters a))%nat) ∧
  (∀ p q n, pending a !! p = Some n → pending a !! q = Some n → p = q).

Lemma settle_wf a p w : auth_wf a → auth_wf (settle a p w).
Proof.
  intros [Hl Hi]. unfold settle. destruct (pending a !! p) as [n|]; [|done].
  split; cbn [pending waiters]; intros *; rewrite ?length_alter, ?lookup_delete_Some.
  - intros [_ ?]. eauto.
  - intros [_ ?] [_ ?]. eauto.
Qed.

Lemma settle_other a p w peer n :
  auth_wf a → p ≠ peer → pending a !! peer = Some n →
  pending (settle a p w) !! peer = Some n ∧ waiters (settle a p w) !! n = waiters a !! n.
Proof.
  intros [_ Hi] Hne Hp. unfold settle. destruct (pending a !! p) as [m|] eqn:E; [|done].
  cbn [pending waiters]. rewrite lookup_delete_ne by done. split; [done|].
  apply list_lookup_alter_ne. intros ->. eauto.
Qed.

Lemma settle_got a p w n info :
  waiters a !! n = Some (Got info) → waiters (settle a p w) !! n = Some (Got info).
Proof.
  intros Hn. unfold settle. destruct (pending a !! p) as [m|]; [|done]. cbn [waiters].
  rewrite list_lookup_alter. case_decide; subst; by rewrite Hn.
Qed.

Lemma exchange_start_shape mine a p mutual :
  let a0 := settle a p SenderGone in
  let a1 := mkAuth (au_bus a0) (<[p := length (waiters a0)]> (pending a0)) (waiters a0 ++ [Waiting])
              (registry a0) (au_notices a0) in
  let r := exchange_start mine a p mutual in
  let a2 := (auth_send a1 p (AuthRequest mutual mine)).2 in
  r = (Ok (length (waiters a0)), a2) ∨ r = (Err NotConnected, settle a2 p SenderGone).
Proof.
  intros a0 a1 r a2. subst r a2. unfold exchange_start. fold a0. fold a1.
  destruct (auth_send a1 p _) as [q a2]. destruct q; [by left|by right].
Qed.

Lemma register_wf a p b r m :
  auth_wf a → pending a !! p = None →
  auth_wf (mkAuth b (<[p := length (waiters a)]> (pending a)) (waiters a ++ [Waiting]) r m).
Proof.
  intros [Hl Hi] Hp. split; cbn [pending waiters]; intros *;
    rewrite ?length_app, ?lookup_insert_Some; cbn [length].
  - intros [[<- <-]|[_ H]]; [lia|]. apply Hl in H. lia.
  - intros [[<- <-]|[Hq H]] [[<- Hn]|[Hr H']]; [done| | |eauto];
      [apply Hl in H'; lia|apply Hl in H; lia].
Qed.

Lemma settle_none a p w : pending (settle a p w) !! p = None.
Proof.
  unfold settle. destruct (pending a !! p) eqn:E; [|done]. cbn [pending]. apply lookup_delete_eq.
Qed.

Lemma waiters_eq_wf a b : pending b = pending a → waiters b = waiters a → auth_wf a → auth_wf b.
Proof. unfold auth_wf. by intros -> ->. Qed.

Lemma auth_send_wf a p m : auth_wf a → auth_wf (auth_send a p m).2.
Proof. destruct (auth_send_waiters a p m). by apply waiters_eq_wf. Qed.

Lemma exchange_start_wf mine a p mutual : auth_wf a → auth_wf (exchange_start mine a p mutual).2.
Proof.
  intros Hwf. destruct (exchange_start_shape mine a p mutual) as [-> | ->]; cbn [snd];
    [|apply settle_wf]; apply auth_send_wf, register_wf; auto using settle_wf, settle_none.
Qed.

Lemma auth_inbound_waiters mine a p msg :
  match msg with
  | AuthReply _ info => auth_inbound mine a p msg = settle a p (Got info)
  | _ => pending (auth_inbound mine a p msg) = pending a ∧ waiters (auth_inbound mine a p msg) = waiters a
  end.
Proof.
  destruct msg; try done. cbn [auth_inbound].
  pose proof (auth_send_waiters a p (AuthReply true mine)) as [H1 H2].
  destruct (auth_send a p (AuthReply true mine)) as [q b]. cbn [snd] in *. destruct mutual; [|done].
  pose proof (recorded_waiters b p info) as [H3 H4].
  destruct (recorded b p info) as [[?|?] c]; cbn [snd auth_notice pending waiters] in *; by rewrite H3, H4.
Qed.

Lemma auth_event_wf mine a e : auth_wf a → auth_wf (auth_event_step mine a e).
Proof.
  intros Hwf. destruct e as [p msg|p mutual|p n timed]; cbn [auth_event_step].
  - pose proof (auth_inbound_waiters mine a p msg) as H.
    destruct msg; try (destruct H; by eapply waiters_eq_wf). rewrite H. by apply settle_wf.
  - by apply exchange_start_wf.
  - unfold exchange_finish. destruct (waiters a !! n) as [[]|]; destruct timed; try done; by apply settle_wf.
Qed.

Lemma event_leaves_alone mine a peer n e :
  auth_wf a → leaves_alone peer e → pending a !! peer = Some n →
  pending (auth_event_step mine a e) !! peer = Some n ∧
  waiters (auth_event_step mine a e) !! n = waiters a !! n.
Proof.
  intros Hwf Hok Hp. destruct e as [p msg|p mutual|p k timed]; cbn [auth_event_step leaves_alone] in *.
  - pose proof (auth_inbound_waiters mine a p msg) as H.
    destruct msg; try (destruct H as [-> ->]; done). rewrite H. by apply settle_other.
  - assert (pending a !! peer = Some n ∧ (n < length (waiters (settle a p SenderGone)))%nat) as [_ Hn].
    { split; [done|]. destruct (settle_wf a p SenderGone Hwf) as [Hl _].
      by apply (Hl peer), (settle_other a p SenderGone peer n). }
    pose proof (settle_other a p SenderGone peer n Hwf Hok Hp) as [H1 H2].
    set (a0 := settle a p SenderGone) in *.
    assert (auth_wf a0) as Hwf0 by by apply settle_wf.
    pose proof (register_wf a0 p (au_bus a0) (registry a0) (au_notices a0) Hwf0 (settle_none _ _ _)) as Hwf1.
    set (a1 := mkAuth _ _ _ _ _) in Hwf1.
    assert (pending a1 !! peer = Some n ∧ waiters a1 !! n = waiters a !! n) as [P1 P2].
    { subst a1. cbn [pending waiters]. rewrite lookup_insert_ne by done. split; [done|].
      by rewrite lookup_app_l. }
    pose proof (auth_send_waiters a1 p (AuthRequest mutual mine)) as [E1 E2].
    destruct (exchange_start_shape mine a p mutual) as [-> | ->]; fold a0; fold a1; cbn [snd].
    + by rewrite E1, E2.
    + set (a2 := (auth_send a1 p (AuthRequest mutual mine)).2) in *.
      assert (auth_wf a2) as Hwf2 by by apply auth_send_wf.
      rewrite <- E1 in P1. rewrite <- E2 in P2.
      destruct (settle_other a2 p SenderGone peer n Hwf2 Hok P1) as [-> ->]. done.
  - unfold exchange_finish. destruct (waiters a !! k) as [[]|]; destruct timed; try done; by apply settle_other.
Qed.

Lemma events_leave_alone mine peer n es a :
  auth_wf a → Forall (leaves_alone peer) es → pending a !! peer = Some n →
  let b := foldl (auth_event_step mine) a es in
  auth_wf b ∧ pending b !! peer = Some n ∧ waiters b !! n = waiters a !! n.
Proof.
  revert a. induction es as [|e es IH]; intros a Hwf Hok Hp; [done|]. cbn [foldl].
  apply list.Forall_cons in Hok as [He Hes].
  destruct (event_leaves_alone mine a peer n e Hwf He Hp) as [H1 H2]. rewrite <- H2.
  apply IH; [by apply auth_event_wf|done|done].
Qed.

Lemma event_got mine a e n info :
  waiters a !! n = Some (Got info) → waiters (auth_event_step mine a e) !! n = Some (Got info).
Proof.
  intros Hn. destruct e as [p msg|p mutual|p k timed]; cbn [auth_event_step].
  - pose proof (auth_inbound_waiters mine a p msg) as H.
    destruct msg; try (destruct H as [_ ->]; done). rewrite H. by apply settle_got.
  - destruct (exchange_start_shape mine a p mutual) as [-> | ->]; cbn [snd]; try apply settle_got;
      rewrite (proj2 (auth_send_waiters _ _ _)); cbn [waiters]; by apply lookup_app_l_Some, settle_got.
  - unfold exchange_finish. destruct (waiters a !! k) as [[]|]; destruct timed; try done; by apply settle_got.
Qed.

Lemma events_got mine es a n info :
  waiters a !! n = Some (Got info) → waiters (foldl (auth_event_step mine) a es) !! n = Some (Got info).
Proof. revert a. induction es as [|e es IH]; intros a Hn; [done|]. apply IH, event_got, Hn. Qed.

Lemma exchange_start_ok mine a peer mutual n a1 :
  auth_wf a → exchange_start mine a peer mutual = (Ok n, a1) →
  auth_wf a1 ∧ pending a1 !! peer = Some n ∧ waiters a1 !! n = Some Waiting ∧
  n = length (waiters a) ∧ registry a1 = registry a.
Proof.
  intros Hwf Hs. pose proof (exchange_start_wf mine a peer mutual Hwf) as Hwf1. rewrite Hs in Hwf1.
  assert (length (waiters (settle a peer SenderGone)) = length (waiters a)
          ∧ registry (settle a peer SenderGone) = registry a) as [Hl Hr].
  { unfold settle. destruct (pending a !! peer); [|done]. cbn [waiters registry]. by rewrite length_alter. }
  destruct (exchange_start_shape mine a peer mutual) as [E|E]; rewrite Hs in E; [|done].
  injection E as -> ->. split; [done|].
  destruct (auth_send_waiters (mkAuth (au_bus (settle a peer SenderGone))
    (<[peer := length (waiters (settle a peer SenderGone))]> (pending (settle a peer SenderGone)))
    (waiters (settle a peer SenderGone) ++ [Waiting]) (registry (settle a peer SenderGone))
    (au_notices (settle a peer SenderGone))) peer (AuthRequest mutual mine)) as [-> ->].
  cbn [pending waiters]. rewrite lookup_insert_eq, lookup_app_r, Nat.sub_diag by done.
  split_and!; [done|done|done|]. unfold auth_send. by destruct (send_to _ _ _).
Qed.

(** (C36) An exchange gets its peer's reply: whatever happens on the other
    peers' behalf before the reply, and whatever happens after it, even another
    exchange with the same peer, the exchange completes with the information
    the peer sent. *)
Theorem exchange_delivers mine a peer mutual n a1 before ok info after timed :
  auth_wf a → exchange_start mine a peer mutual = (Ok n, a1) →
  Forall (leaves_alone peer) before →
  let a2 := foldl (auth_event_step mine) a1
              (before ++ AeInbound peer (AuthReply ok info) :: after) in
  exchange_finish a2 peer n timed = Some (Ok info, settle a2 peer SenderGone).
Proof.
  intros Hwf Hs Hb a2. apply exchange_start_ok in Hs as (Hwf1 & Hp & Hw & _); [|done].
  destruct (events_leave_alone mine peer n before a1 Hwf1 Hb Hp) as (Hwf2 & Hp2 & Hw2).
  assert (waiters a2 !! n = Some (Got info)) as Hgot.
  { subst a2. rewrite foldl_app. cbn [foldl]. apply events_got. cbn [auth_event_step auth_inbound].
    unfold settle. rewrite Hp2. cbn [waiters]. rewrite list_lookup_alter. rewrite decide_True by done. by rewrite Hw2, Hw. }
  unfold exchange_finish. by rewrite Hgot.
Qed.

(** Two exchanges with one peer fail each other: the second registration
    drops the first one's channel, and the first one's clean-up then removes
    the second one's, so both end with a closed channel and a reply that
    arrives afterwards goes nowhere. *)
Theorem concurrent_exchanges_fail mine a peer mutual1 mutual2 n1 n2 a1 a2 ok info :
  auth_wf a → exchange_start mine a peer mutual1 = (Ok n1, a1) →
  exchange_start mine a1 peer mutual2 = (Ok n2, a2) →
  ∃ a3, exchange_finish a2 peer n1 false = Some (Err ChannelClosed, a3) ∧
    auth_inbound mine a3 peer (AuthReply ok info) = a3 ∧
    exchange_finish a3 peer n2 false = Some (Err ChannelClosed, a3).
Proof.
  intros Hwf H1 H2. apply exchange_start_ok in H1 as (Hwf1 & Hp1 & Hw1 & _); [|done].
  assert (waiters a2 !! n1 = Some SenderGone) as Hg.
  { destruct (exchange_start_shape mine a1 peer mutual2) as [E|E]; rewrite H2 in E; [|done].
    injection E as _ ->. rewrite (proj2 (auth_send_waiters _ _ _)). cbn [waiters].
    apply lookup_app_l_Some. unfold settle. rewrite Hp1. cbn [waiters].
    rewrite list_lookup_alter, decide_True by done. by rewrite Hw1. }
  apply exchange_start_ok in H2 as (Hwf2 & Hp2 & Hw2 & _); [|done].
  assert (waiters (settle a2 peer SenderGone) !! n2 = Some SenderGone) as Hg2.
  { unfold settle. rewrite Hp2. cbn [waiters]. rewrite list_lookup_alter, decide_True by done. by rewrite Hw2. }
  pose proof (settle_none a2 peer SenderGone) as Hnone.
  exists (settle a2 peer SenderGone).
  assert (∀ w, settle (settle a2 peer SenderGone) peer w = settle a2 peer SenderGone) as Hid.
  { intros w. unfold settle at 1. by rewrite Hnone. }
  unfold exchange_finish. rewrite Hg, Hg2, Hid. split_and!; [done|apply Hid|done].
Qed.

(** ** Witnesses *)

Definition sample_auth_peer (name id : String.string) : Peer :=
  mkPeer (lit name) (lit id) [] None false [] None None.
Definition sample_registry : Peers := [sample_auth_peer "alice" "id-a"; sample_auth_peer "bob" "id-b"].
Definition sample_info : DeviceInfo := mkDeviceInfo (lit "host") [lit "aa:bb"] (lit "linux").
Definition sample_auth : AuthManager :=
  AuthManager_new (mkBus {[ lit "id-a" := 0%nat; lit "id-b" := 1%nat ]}
    {[ 0%nat := mkChan [] 8 false; 1%nat := mkChan [] 8 false ]}) (Some sample_registry).

Lemma sample_registry_wf : peers_wf sample_registry.
Proof. by apply (bool_decide_unpack _). Qed.
Lemma sample_auth_wf : auth_wf sample_auth.
Proof. split; intros *; cbn [sample_auth AuthManager_new pending]; by rewrite lookup_empty. Qed.

Lemma record_precise_witness :
  ∃ ps', record (Some sample_registry) (lit "id-b") sample_info true = Ok ps' ∧
    is_authorized ps' (lit "id-b") = true ∧
    find_by_id ps' (lit "id-a") = find_by_id sample_registry (lit "id-a").
Proof.
  eexists. split; [reflexivity|].
  destruct (record_precise sample_registry (lit "id-b") sample_info (sample_auth_peer "bob" "id-b") _
    (lit "id-a") sample_registry_wf eq_refl eq_refl eq_refl) as (H & _ & Ho).
  split; [exact H|]. apply Ho. by apply (bool_decide_unpack _).
Defined.

Lemma mutual_request_authorizes_witness :
  ∃ ps', registry (auth_inbound sample_info sample_auth (lit "id-b") (AuthRequest true sample_info)) = Some ps' ∧
    is_authorized ps' (lit "id-b") = true.
Proof.
  destruct (mutual_request_authorizes sample_info sample_auth (lit "id-b") sample_info sample_registry
    (sample_auth_peer "bob" "id-b") eq_refl sample_registry_wf eq_refl eq_refl) as (ps' & H1 & H2 & _).
  exists ps'. split; [exact H1|exact H2].
Defined.

Lemma exchange_delivers_witness :
  ∃ a1 a2, exchange_start sample_info sample_auth (lit "id-b") true = (Ok 0%nat, a1) ∧
    exchange_finish (foldl (auth_event_step sample_info) a1
      [AeStart (lit "id-a") false; AeInbound (lit "id-b") (AuthReply true sample_info);
       AeStart (lit "id-b") false]) (lit "id-b") 0 false = Some (Ok sample_info, a2).
Proof.
  eexists _, _. split; [vm_compute; reflexivity|].
  apply (exchange_delivers sample_info sample_auth (lit "id-b") true 0 _ [AeStart (lit "id-a") false]
    true sample_info [AeStart (lit "id-b") false] false sample_auth_wf eq_refl).
  repeat constructor. by apply (bool_decide_unpack _).
Defined.

Lemma concurrent_exchanges_fail_witness :
  ∃ a1 a2 a3, exchange_start sample_info sample_auth (lit "id-b") true = (Ok 0%nat, a1) ∧
    exchange_start sample_info a1 (lit "id-b") false = (Ok 1%nat, a2) ∧
    exchange_finish a3 (lit "id-b") 1 false = Some (Err ChannelClosed, a3).
Proof.
  eexists _, _. 
  destruct (concurrent_exchanges_fail sample_info sample_auth (lit "id-b") true false 0 1 _ _ true sample_info
    sample_auth_wf eq_refl eq_refl) as (a3 & _ & _ & H).
  exists a3. split; [vm_compute; reflexivity|]. split; [vm_compute; reflexivity|exact H].
Defined.
