(* ===== verification/History.v ===== *)
(** * History: the ring of recent clipboard entries

    [crates/qdropd/src/history.rs] over the file store of [Store]: the entries
    in memory, their image files and the index file below the history
    directory.  Which system calls fail is an input of every operation, the
    JSON codec is the interface [Serde] and the image decoder a parameter.

    The theorems: the history is a bounded list of exactly what was recorded,
    whatever the failures; it survives a restart; listing shows one line. *)
From S2P Require Import Prelude Text Crypto Proto Frame Store Samples Net Peers Config Bus FileXfer.

(** ** Data *)

Inductive Body := Text (text : str) | Image (file : str) (w h : Z).

Record Entry := mkEntry { body : Body; when : Z; origin : str; hash : str }.

#[global] Instance Body_eq_dec : EqDecision Body.
Proof. solve_decision. Defined.
#[global] Instance Entry_eq_dec : EqDecision Entry.
Proof. solve_decision. Defined.

(** [Entry::preview]: U+23CE for a line feed, U+00D7 between the sizes. *)
Definition preview (e : Entry) : str :=
  match body e with
  | Text text => utf8_encode (map (λ c, if c =? 10 then 0x23CE else c) (take 60 (chars text)))
  | Image _ w h => lit "[image " ++ dec w ++ utf8_encode [0xD7] ++ dec h ++ lit "]"
  end.

Inductive Restored := RText (text : str) | RImage (png : bytes).

Record History := mkHistory {
  hdir : path;
  hmax : nat;
  entries : list Entry;      (* newest first *)
  next_file : Z;             (* u64, wraps *)
  hdisk : fs;
}.

Definition hex (bs : bytes) : str := concat (map hex02 bs).

Definition history_dir (e : env) : str :=
  match config_dir e with Some d => path_join d (lit "history") | None => lit "qdrop-history" end.

(** ** Operations *)

Definition png_name (n : Z) : str := dec n ++ lit ".png".
Definition index_path (dir : path) : path := pjoin dir (lit "index.json").

Section history.
Context `{Hashes, Serde (list Entry)}.
(** [image::load_from_memory], reduced to the size it reports. *)
Variable image_size : bytes → option (Z * Z).

Definition max_list (l : list Z) : option Z :=
  match l with [] => None | x :: l => Some (fold_left Z.max l x) end.

(** The number in the name of an image file. *)
Definition file_number (e : Entry) : option Z :=
  match body e with
  | Image file _ _ => strip_suffix (lit ".png") file ≫= parse_u64
  | Text _ => None
  end.

Definition history_load (dir : path) (max : nat) (s : fs) : History :=
  let es := default [] (ok (fs_read s (index_path dir)) ≫= deserialize) in
  let es := take max es in
  let next := from_option (λ n, u64_wrap (n + 1)) 0 (max_list (omap file_number es)) in
  mkHistory dir max es next s.

Definition enabled (h : History) : bool := (0 <? hmax h)%nat.

(** What the system calls of one operation do. *)
Inductive png_write := PngWritten | PngNotCreated | PngCut (k : nat).
Record hist_io := mkIo {
  now : Z;
  png_io : png_write;
  rm_ok : bool;              (* [remove_file] of an evicted image *)
  index_steps : nat;         (* how many steps of [write_atomic] complete *)
  pid : Z;
}.

(** The eviction loop, from the back of the queue. *)
Fixpoint evict (dir : path) (max : nat) (rm : bool) (rq : list Entry) (s : fs) : list Entry * fs :=
  match rq with
  | [] => ([], s)
  | old :: rq' =>
      if (max <? length rq)%nat then
        evict dir max rm rq'
          (match body old with
           | Image file _ _ => if rm then fs_remove s (pjoin dir file) else s
           | Text _ => s
           end)
      else (rq, s)
  end.

Definition persist (dir : path) (io : hist_io) (q : list Entry) (s : fs) : fs :=
  match serialize q with
  | Some b => match write_atomic_ops (pid io) (index_path dir) [b] with
              | Some ops => foldl exec s (take (index_steps io) ops)
              | None => s
              end
  | None => s
  end.

Definition newest_is (h : History) (d : str) : bool :=
  match entries h with f :: _ => bool_decide (hash f = d) | [] => false end.

Definition push (h : History) (io : hist_io) (e : Entry) : History :=
  if newest_is h (hash e) then h
  else
    let '(rq, s) := evict (hdir h) (hmax h) (rm_ok io) (rev (e :: entries h)) (hdisk h) in
    mkHistory (hdir h) (hmax h) (rev rq) (next_file h) (persist (hdir h) io (rev rq) s).

Definition record_text (h : History) (io : hist_io) (text org : str) : History :=
  if negb (enabled h) || bool_decide (text = []) then h
  else push h io (mkEntry (Text text) (now io) org (hex (sha256 text))).

Definition record_image (h : History) (io : hist_io) (png : bytes) (org : str) : History :=
  if negb (enabled h) then h
  else
    let d := hex (sha256 png) in
    if newest_is h d then h
    else
      let '(w, ht) := default (0, 0) (image_size png) in
      let n := next_file h in
      let file := png_name n in
      let with_disk s := mkHistory (hdir h) (hmax h) (entries h) (u64_wrap (n + 1)) s in
      match png_io io with
      | PngNotCreated => with_disk (hdisk h)
      | PngCut k => with_disk (fs_write (hdisk h) (pjoin (hdir h) file) (take k png))
      | PngWritten =>
          push (with_disk (fs_write (hdisk h) (pjoin (hdir h) file) png)) io
            (mkEntry (Image file w ht) (now io) org d)
      end.

Definition history_get (h : History) (index : nat) : option Restored :=
  match entries h !! index with
  | None => None
  | Some e => match body e with
              | Text text => Some (RText text)
              | Image file _ _ => RImage <$> ok (fs_read (hdisk h) (pjoin (hdir h) file))
              end
  end.

(** [list], an object per entry. *)
Record Item := mkItem { it_index : nat; it_kind : str; it_preview : str; it_when : Z; it_origin : str }.

Definition name_of (ps : Peers) (org : str) : str :=
  if bool_decide (org = lit "local") then lit "local"
  else match find_by_id ps org with
       | Some p => peer_name p
       | None => utf8_encode (take 8 (chars org))
       end.

Definition history_list (ps : option Peers) (h : History) : list Item :=
  imap (λ i e, mkItem i (match body e with Text _ => lit "text" | Image _ _ _ => lit "image" end)
                 (preview e) (when e) (name_of (default [] ps) (origin e))) (entries h).

(** ** The reference: a bounded list of what was recorded *)

Definition restored_bytes (r : Restored) : bytes :=
  match r with RText t => t | RImage p => p end.

(** Newest first, at most [max], no repetition of the newest, no empty text. *)
Definition spec_record (max : nat) (l : list Restored) (r : Restored) : list Restored :=
  match max, r with
  | O, _ | _, RText [] => l
  | _, _ => match l with
            | y :: _ => if decide (sha256 (restored_bytes y) = sha256 (restored_bytes r)) then l
                        else take max (r :: l)
            | [] => [r]
            end
  end.

Inductive hist_op :=
| OText (io : hist_io) (text org : str)
| OImage (io : hist_io) (png : bytes) (org : str).

Definition hist_step (h : History) (o : hist_op) : History :=
  match o with
  | OText io text org => record_text h io text org
  | OImage io png org => record_image h io png org
  end.

(** An image whose file cannot be written is not recorded; no other failure
    matters. *)
Definition spec_step (max : nat) (l : list Restored) (o : hist_op) : list Restored :=
  match o with
  | OText _ text _ => spec_record max l (RText text)
  | OImage io png _ => match png_io io with PngWritten => spec_record max l (RImage png) | _ => l end
  end.

(** ** The invariant *)

Definition image_file (e : Entry) : option str :=
  match body e with Image f _ _ => Some f | Text _ => None end.

(** The entry's content is there and its hash is that of the content. *)
Definition entry_ok (dir : path) (next : Z) (s : fs) (e : Entry) : Prop :=
  match body e with
  | Text t => hash e = hex (sha256 t)
  | Image f _ _ => ∃ n c, f = png_name n ∧ 0 ≤ n < next ∧
                     fs_read s (pjoin dir f) = Ok c ∧ hash e = hex (sha256 c)
  end.

Record hist_wf (h : History) : Prop := {
  hw_len : (length (entries h) ≤ hmax h)%nat;
  hw_fs : fs_wf (hdisk h);
  hw_next : 0 ≤ next_file h;
  hw_ok : Forall (entry_ok (hdir h) (next_file h) (hdisk h)) (entries h);
  hw_files : NoDup (omap image_file (entries h));
}.

Definition shows (h : History) (l : list Restored) : Prop := ∀ i, history_get h i = l !! i.

(** ** Names *)

Lemma png_name_digit n : 0 ≤ n → ∃ b r, png_name n = b :: r ∧ is_ascii_digit b = true.
Proof.
  intros Hn. destruct (dec_value n Hn) as (_ & Hd & Hne). unfold png_name.
  destruct (dec n) as [|b r]; [done|]. exists b, (r ++ lit ".png"). split; [done|].
  cbn in Hd. by apply andb_true_iff in Hd as [-> _].
Qed.

Lemma png_name_inj n m : 0 ≤ n → 0 ≤ m → png_name n = png_name m → n = m.
Proof. intros Hn Hm E. apply app_inv_tail in E. by apply dec_inj. Qed.

Lemma png_path dir n : pjoin dir (png_name n) = dir ++ [Normal (png_name n)].
Proof.
  apply pjoin_plain, plain_long; unfold png_name.
  - apply not_in_app; [apply dec_no_slash|by apply lit_no_slash].
  - rewrite length_app. cbn. lia.
Qed.

Lemma index_path_eq dir : index_path dir = dir ++ [Normal (lit "index.json")].
Proof. apply pjoin_plain. split_and!; try done. by apply lit_no_slash. Qed.

Lemma parent_snoc dir n : parent (dir ++ [Normal n]) = Some dir.
Proof. unfold parent. rewrite rev_app_distr. cbn. by rewrite rev_involutive. Qed.

Lemma png_not_index dir n : 0 ≤ n → pjoin dir (png_name n) ≠ index_path dir.
Proof.
  intros Hn E. rewrite png_path, index_path_eq in E. apply app_inj_tail in E as [_ [= E]].
  destruct (png_name_digit n Hn) as (b & r & E' & Hb). rewrite E' in E. by injection E as -> _.
Qed.

Lemma png_not_tmp dir n p : 0 ≤ n → pjoin dir (png_name n) ≠ dir ++ [Normal (tmp_name (index_path dir) p)].
Proof.
  intros Hn E. rewrite png_path in E. apply app_inj_tail in E as [_ [= E]].
  destruct (png_name_digit n Hn) as (b & r & E' & Hb). rewrite E' in E. by injection E as -> _.
Qed.

Lemma hex_digit_inj a b : 0 ≤ a < 16 → 0 ≤ b < 16 → hex_digit a = hex_digit b → a = b.
Proof.
  intros Ha Hb E. apply (f_equal bval) in E. unfold hex_digit in E.
  destruct (a <? 10) eqn:?, (b <? 10) eqn:?; rewrite !bval_zbyte_small in E by lia; lia.
Qed.

Lemma hex_inj a b : hex a = hex b → a = b.
Proof.
  unfold hex. revert b. induction a as [|x a IH]; intros [|y b] E; try done.
  cbn in E. injection E as E1 E2 E. f_equal; [|by apply IH]. apply bval_inj.
  pose proof (bval_range x). pose proof (bval_range y).
  apply hex_digit_inj in E1; [|zdm..]. apply hex_digit_inj in E2; [|zdm..]. zdm.
Qed.

(** ** Steps on the store *)

(** A prefix of the steps of [write_atomic] touches two names only. *)
Lemma write_atomic_prefix_other pid s p cs ops k dir q :
  fs_wf s → write_atomic_ops pid p cs = Some ops → parent p = Some dir →
  q ≠ p → q ≠ dir ++ [Normal (tmp_name p pid)] →
  fs_stat (foldl exec s (take k ops)) q = fs_stat s q.
Proof.
  intros Hs Ho Hd Hp Ht. apply write_atomic_ops_eq in Ho as (dir' & Hd' & ->).
  rewrite Hd in Hd'. injection Hd' as <-. set (tmp := dir ++ _) in *.
  destruct (decide (k ≤ length (write_atomic_pre dir tmp cs))%nat) as [Hk|Hk].
  - rewrite take_app_le by done. apply (exec_all_on_other tmp); [done| |done].
    apply forallb_take, write_atomic_pre_on.
  - rewrite take_ge by (rewrite length_app; cbn [length]; lia).
    by apply (write_atomic_done pid s p cs dir Hs Hd).
Qed.

Lemma persist_other dir io q s p :
  fs_wf s → p ≠ index_path dir → p ≠ dir ++ [Normal (tmp_name (index_path dir) (pid io))] →
  fs_wf (persist dir io q s) ∧ fs_stat (persist dir io q s) p = fs_stat s p.
Proof.
  intros Hs Hp Ht. unfold persist. destruct (serialize q); [|done].
  destruct (write_atomic_ops _ _ _) as [ops|] eqn:E; [|done]. split; [by apply exec_all_wf|].
  apply (write_atomic_prefix_other _ _ _ _ _ _ dir _ Hs E); [|done|done].
  by rewrite index_path_eq, parent_snoc.
Qed.

Lemma persist_read_png dir io q s n :
  fs_wf s → 0 ≤ n →
  fs_read (persist dir io q s) (pjoin dir (png_name n)) = fs_read s (pjoin dir (png_name n)).
Proof.
  intros Hs Hn. unfold fs_read.
  destruct (persist_other dir io q s (pjoin dir (png_name n)) Hs) as [_ ->]; [|by apply png_not_tmp|done].
  by apply png_not_index.
Qed.

Lemma evict_spec dir max rm rq s :
  fs_wf s →
  let r := evict dir max rm rq s in
  r.1 = drop (length rq - max) rq ∧ fs_wf r.2 ∧
  (∀ q, (∀ f, f ∈ omap image_file (take (length rq - max) rq) → q ≠ pjoin dir f) →
        fs_stat r.2 q = fs_stat s q).
Proof.
  revert s. induction rq as [|old rq IH]; intros s Hs; cbn [evict]; [done|].
  destruct (max <? length (old :: rq))%nat eqn:E.
  2: { apply Nat.ltb_ge in E. replace (length (old :: rq) - max)%nat with 0%nat by lia. done. }
  apply Nat.ltb_lt in E. cbn [length] in *.
  replace (S (length rq) - max)%nat with (S (length rq - max)) by lia. cbn [drop take omap list_omap].
  set (s1 := match body old with Image _ _ _ => _ | _ => _ end).
  assert (fs_wf s1) as Hs1 by (subst s1; destruct (body old), rm; auto using fs_remove_wf).
  destruct (IH s1 Hs1) as (H1 & H2 & H3). split_and!; [done|done|].
  intros q Hq. rewrite H3.
  - subst s1. destruct (body old) as [|f w h] eqn:Eb; [done|].
    assert (image_file old = Some f) as Ef by (unfold image_file; by rewrite Eb).
    destruct rm; [|done]. rewrite fs_stat_remove, decide_False; [done|]. apply Hq. rewrite Ef. left.
  - intros f Hf. apply Hq. cbn [list_omap]. destruct (image_file old); [right|]; done.
Qed.

(** ** Recording *)

(** What an entry restores to. *)
Definition entry_value (dir : path) (s : fs) (e : Entry) : option Restored :=
  match body e with
  | Text text => Some (RText text)
  | Image file _ _ => RImage <$> ok (fs_read s (pjoin dir file))
  end.

Lemma history_get_value h i : history_get h i = entries h !! i ≫= entry_value (hdir h) (hdisk h).
Proof. unfold history_get. by destruct (entries h !! i). Qed.

(** An entry whose file is left alone stays as it is. *)
Lemma entry_frame dir next next' s s' e :
  entry_ok dir next s e → next ≤ next' →
  (∀ n, image_file e = Some (png_name n) → 0 ≤ n → n < next →
     fs_read s' (pjoin dir (png_name n)) = fs_read s (pjoin dir (png_name n))) →
  entry_ok dir next' s' e ∧ entry_value dir s' e = entry_value dir s e.
Proof.
  unfold entry_ok, entry_value, image_file. destruct (body e) as [t|f w ht]; [done|].
  intros (n & c & -> & Hn & Hr & Hh) Hle Hf. rewrite Hf by (done || lia). split; [|done].
  exists n, c. split_and!; [done|lia|lia|done|done].
Qed.

Lemma entry_ok_file dir next s e f :
  entry_ok dir next s e → image_file e = Some f → ∃ n, f = png_name n ∧ 0 ≤ n < next.
Proof.
  unfold entry_ok, image_file. destruct (body e); [done|]. intros (n & c & ? & ? & _) [= <-]. eauto.
Qed.

Lemma rev_drop_rev {A} max (l : list A) : rev (drop (length (rev l) - max) (rev l)) = take max l.
Proof.
  rewrite length_rev. rewrite <- (take_drop max l) at 2. rewrite rev_app_distr, drop_app_length'.
  - apply rev_involutive.
  - rewrite length_rev, length_drop. done.
Qed.

Lemma rev_take_rev {A} max (l : list A) (x : A) :
  x ∈ take (length (rev l) - max) (rev l) → x ∈ drop max l.
Proof.
  rewrite length_rev. rewrite <- (take_drop max l) at 2. rewrite rev_app_distr, take_app_length'.
  - by rewrite elem_of_rev.
  - rewrite length_rev, length_drop. done.
Qed.

(** Pushing a new entry keeps it and the newest of the others. *)
Lemma push_new h io e r l :
  hist_wf h → shows h l → (0 < hmax h)%nat →
  entry_ok (hdir h) (next_file h) (hdisk h) e →
  NoDup (omap image_file (e :: entries h)) →
  newest_is h (hash e) = false → entry_value (hdir h) (hdisk h) e = Some r →
  hist_wf (push h io e) ∧ shows (push h io e) (take (hmax h) (r :: l)) ∧
  hmax (push h io e) = hmax h ∧ next_file (push h io e) = next_file h.
Proof.
  intros [Hlen Hfs Hnext Hok _] Hsh Hmax He Hnd Hnew Hval. unfold push. rewrite Hnew.
  set (q := e :: entries h) in *.
  destruct (evict_spec (hdir h) (hmax h) (rm_ok io) (rev q) (hdisk h) Hfs) as (H1 & Hs1 & H3).
  destruct (evict _ _ _ _ _) as [rq s1]. cbn [fst snd] in *. subst rq. rewrite rev_drop_rev.
  cbn [hmax next_file].
  assert (Forall (entry_ok (hdir h) (next_file h) (hdisk h)) q) as Hq by by apply list.Forall_cons.
  set (s2 := persist _ _ _ _).
  assert (fs_wf s2) as Hs2.
  { subst s2. unfold persist. destruct (serialize _); [|done]. destruct (write_atomic_ops _ _ _); [|done].
    by apply exec_all_wf. }
  assert (Forall (λ x, entry_ok (hdir h) (next_file h) s2 x ∧
    entry_value (hdir h) s2 x = entry_value (hdir h) (hdisk h) x) (take (hmax h) q)) as Hkept.
  { apply list.Forall_forall. intros x Hx.
    assert (entry_ok (hdir h) (next_file h) (hdisk h) x) as Hxok.
    { apply list.Forall_forall with (x := x) in Hq; [done|]. by apply (subseteq_take (hmax h)). }
    apply (entry_frame _ _ _ _ _ _ Hxok); [done|]. intros n Hn Hn0 _. subst s2.
    rewrite persist_read_png by done. unfold fs_read. rewrite H3; [done|].
    intros f Hf. apply list_elem_of_omap in Hf as (y & Hy & Hyf). apply rev_take_rev in Hy.
    assert (entry_ok (hdir h) (next_file h) (hdisk h) y) as Hyok.
    { apply list.Forall_forall with (x := y) in Hq; [done|]. by apply (subseteq_drop (hmax h)). }
    destruct (entry_ok_file _ _ _ _ _ Hyok Hyf) as (m & -> & _). rewrite !png_path.
    intros [_ [= E]]%app_inj_tail. rewrite <- (take_drop (hmax h) q), omap_app in Hnd.
    apply list.NoDup_app in Hnd as (_ & Hnd & _). apply (Hnd (png_name n)).
    + apply list_elem_of_omap. eauto.
    + apply list_elem_of_omap. exists y. split; [done|]. by rewrite Hyf, E. }
  split_and!; [split; cbn [entries hmax hdisk hdir next_file]| |done|done].
  - rewrite length_take. lia.
  - done.
  - done.
  - eapply list.Forall_impl; [exact Hkept|]. by intros x [? _].
  - rewrite <- (take_drop (hmax h) q), omap_app in Hnd. by apply list.NoDup_app in Hnd as (? & _ & _).
  - intros i. rewrite history_get_value. cbn [entries hdir hdisk].
    destruct (take (hmax h) q !! i) as [x|] eqn:Ex; cbn [mbind option_bind].
    + assert (entry_value (hdir h) s2 x = entry_value (hdir h) (hdisk h) x) as ->.
      { rewrite list.Forall_lookup in Hkept. by destruct (Hkept i x Ex). }
      apply lookup_take_Some in Ex as [Ex Hi]. rewrite lookup_take_lt by done.
      destruct i as [|i]; [by injection Ex as <-|].
      change (entries h !! i = Some x) in Ex. change ((r :: l) !! S i) with (l !! i).
      rewrite <- Hsh, history_get_value, Ex. done.
    + apply lookup_ge_None in Ex. symmetry. apply lookup_ge_None. rewrite length_take. rewrite length_take in Ex.
      assert (length q = S (length (entries h))) as Eq by done. rewrite Eq in Ex. cbn [length].
      enough (length l ≤ length (entries h))%nat by lia.
      apply lookup_ge_None. rewrite <- Hsh, history_get_value.
      by rewrite (proj2 (lookup_ge_None _ _)).
Qed.

Lemma entry_ok_value dir next s e :
  entry_ok dir next s e → ∃ y, entry_value dir s e = Some y ∧ hash e = hex (sha256 (restored_bytes y)).
Proof.
  unfold entry_ok, entry_value. destruct (body e) as [t|f w ht]; [by exists (RText t)|].
  intros (n & c & -> & _ & -> & Hh). by exists (RImage c).
Qed.

Lemma newest_spec h l d :
  hist_wf h → shows h l →
  newest_is h (hex d) =
  match l with y :: _ => bool_decide (sha256 (restored_bytes y) = d) | [] => false end.
Proof.
  intros Hwf Hsh. specialize (Hsh 0%nat). rewrite history_get_value in Hsh. unfold newest_is.
  pose proof (hw_ok h Hwf) as Hok. destruct (entries h) as [|f es]; [by destruct l|].
  apply list.Forall_cons in Hok as [Hf _]. destruct (entry_ok_value _ _ _ _ Hf) as (y & Hy & Hh).
  cbn in Hsh. rewrite Hy in Hsh. destruct l as [|y' l]; [done|]. injection Hsh as ->. rewrite Hh.
  apply bool_decide_ext. split; [apply hex_inj|by intros ->].
Qed.

Lemma spec_record_cases max l r :
  max ≠ O → r ≠ RText [] →
  spec_record max l r =
  if match l with y :: _ => bool_decide (sha256 (restored_bytes y) = sha256 (restored_bytes r)) | [] => false end
  then l else take max (r :: l).
Proof.
  intros Hm Hr. destruct max as [|max]; [done|]. unfold spec_record.
  destruct r as [[|b t]|png]; try done; (destruct l as [|y l]; [by destruct max|]);
    case_decide; [by rewrite bool_decide_eq_true_2|by rewrite bool_decide_eq_false_2
      |by rewrite bool_decide_eq_true_2|by rewrite bool_decide_eq_false_2].
Qed.

(** Writing the next image file leaves every entry as it is. *)
Lemma write_next h l d :
  hist_wf h → shows h l → next_file h < u64_max →
  let h' := mkHistory (hdir h) (hmax h) (entries h) (u64_wrap (next_file h + 1))
              (fs_write (hdisk h) (pjoin (hdir h) (png_name (next_file h))) d) in
  hist_wf h' ∧ shows h' l.
Proof.
  intros [Hlen Hfs Hnext Hok Hnd] Hsh Hlt h'. subst h'. unfold u64_wrap.
  rewrite Z.mod_small by (unfold u64_max in *; lia).
  set (s := fs_write _ _ _).
  assert (Forall (λ x, entry_ok (hdir h) (next_file h + 1) s x ∧
    entry_value (hdir h) s x = entry_value (hdir h) (hdisk h) x) (entries h)) as Hall.
  { eapply list.Forall_impl; [exact Hok|]. intros x Hx. apply (entry_frame _ _ _ _ _ _ Hx); [lia|].
    intros n _ H1 H2. unfold fs_read. subst s. rewrite fs_stat_write_ne; [done|done|].
    rewrite !png_path. intros [_ [= E]]%app_inj_tail. apply png_name_inj in E; lia. }
  split; [split; cbn [entries hmax hdisk hdir next_file]|].
  - done.
  - by apply fs_write_wf.
  - lia.
  - eapply list.Forall_impl; [exact Hall|]. by intros x [? _].
  - done.
  - intros i. rewrite <- Hsh, !history_get_value. cbn [entries hdir hdisk].
    destruct (entries h !! i) as [x|] eqn:Ex; [|done]. cbn.
    rewrite list.Forall_lookup in Hall. by destruct (Hall i x Ex).
Qed.

Lemma bump_next h l :
  hist_wf h → shows h l → next_file h < u64_max →
  let h' := mkHistory (hdir h) (hmax h) (entries h) (u64_wrap (next_file h + 1)) (hdisk h) in
  hist_wf h' ∧ shows h' l.
Proof.
  intros [Hlen Hfs Hnext Hok Hnd] Hsh Hlt h'. subst h'. unfold u64_wrap.
  rewrite Z.mod_small by (unfold u64_max in *; lia). split; [split; cbn; try done; [lia|]|done].
  eapply list.Forall_impl; [exact Hok|]. intros x Hx. by apply (entry_frame _ _ (next_file h + 1) _ _ _ Hx); [lia|].
Qed.

Definition keeps (h h' : History) (l : list Restored) : Prop :=
  hist_wf h' ∧ shows h' l ∧ hmax h' = hmax h ∧ next_file h' ≤ next_file h + 1.

Ltac keep := unfold keeps; cbv beta iota; split_and!; done || lia.

Lemma record_text_spec h l io text org :
  hist_wf h → shows h l → keeps h (record_text h io text org) (spec_record (hmax h) l (RText text)).
Proof.
  intros Hwf Hsh. unfold record_text, enabled. destruct (hmax h) as [|m] eqn:Em;
    [change (negb (0 <? 0)%nat) with true; cbn [orb]; keep|].
  change (negb (0 <? S m)%nat) with false. cbn [orb].
  destruct (decide (text = [])) as [->|Ht]; [rewrite bool_decide_eq_true_2 by done; keep|].
  rewrite bool_decide_eq_false_2 by done.
  rewrite spec_record_cases by congruence.
  destruct (newest_is h (hex (sha256 text))) eqn:En; pose proof En as En';
    rewrite (newest_spec h l) in En' by done; cbn [restored_bytes]; rewrite En'.
  - unfold push. cbn [hash]. rewrite En. keep.
  - set (e := mkEntry _ _ _ _).
    destruct (push_new h io e (RText text) l Hwf Hsh) as (H1 & H2 & H3 & H4); try done; [lia|apply (hw_files h Hwf)|].
    rewrite Em in H2. keep.
Qed.

Lemma record_image_spec h l io png org :
  hist_wf h → shows h l → next_file h < u64_max →
  keeps h (record_image h io png org) (spec_step (hmax h) l (OImage io png org)).
Proof.
  intros Hwf Hsh Hlt. unfold record_image, enabled. cbn [spec_step].
  destruct (hmax h) as [|m] eqn:Em;
    [change (negb (0 <? 0)%nat) with true; destruct (png_io io); keep|].
  change (negb (0 <? S m)%nat) with false. cbv iota. rewrite <- Em.
  assert (u64_wrap (next_file h + 1) = next_file h + 1) as Ew
    by (unfold u64_wrap; apply Z.mod_small; pose proof (hw_next h Hwf); unfold u64_max in *; lia).
  destruct (newest_is h (hex (sha256 png))) eqn:En; pose proof En as En';
    rewrite (newest_spec h l) in En' by done.
  { rewrite spec_record_cases by (done || lia). cbn [restored_bytes]. rewrite En'.
    destruct (png_io io); keep. }
  destruct (default (0, 0) (image_size png)) as [w ht].
  destruct (png_io io) as [| |k].
  - rewrite spec_record_cases by (done || lia). cbn [restored_bytes]. rewrite En'.
    destruct (write_next h l png Hwf Hsh Hlt) as [Hwf' Hsh']. set (h' := mkHistory _ _ _ _ _) in *.
    set (e := mkEntry _ _ _ _).
    assert (fs_read (hdisk h') (pjoin (hdir h') (png_name (next_file h))) = Ok png) as Hr
      by apply fs_read_write, (hw_fs h Hwf).
    destruct (push_new h' io e (RImage png) l Hwf' Hsh') as (H1 & H2 & H3 & H4); [cbn; lia| | | | |].
    + exists (next_file h), png. split_and!; [done|apply (hw_next h Hwf)|cbn; lia|done|done].
    + cbn [omap list_omap]. change (image_file e) with (Some (png_name (next_file h))).
      apply list.NoDup_cons. split; [|apply (hw_files h Hwf)]. intros Hin.
      apply list_elem_of_omap in Hin as (x & Hx & Hxf). pose proof (hw_ok h Hwf) as Hok.
      rewrite list.Forall_forall in Hok. specialize (Hok x Hx).
      destruct (entry_ok_file _ _ _ _ _ Hok Hxf) as (n & E & Hn). apply png_name_inj in E; lia.
    + done.
    + unfold entry_value. cbn [body e]. by rewrite Hr.
    + unfold keeps; split_and!; [done|done|done|]. rewrite H4. cbn. lia.
  - destruct (bump_next h l Hwf Hsh Hlt). unfold keeps; split_and!; [done|done|done|cbn; lia].
  - destruct (write_next h l (take k png) Hwf Hsh Hlt). unfold keeps; split_and!; [done|done|done|cbn; lia].
Qed.

Lemma hist_step_spec h l o :
  hist_wf h → shows h l → next_file h < u64_max → keeps h (hist_step h o) (spec_step (hmax h) l o).
Proof. destruct o; [intros; by apply record_text_spec|apply record_image_spec]. Qed.

(** ** Restarting *)

(** The index file holds the entries (no file: no entry). *)
Definition saved (h : History) : Prop :=
  default [] (ok (fs_read (hdisk h) (index_path (hdir h))) ≫= deserialize) = entries h.

Lemma parse_digits_value s acc :
  forallb is_ascii_digit s = true →
  parse_digits acc s = Some (fold_left (λ acc b, acc * 10 + (bval b - 48)) s acc).
Proof.
  revert acc. induction s as [|b s IH]; intros acc Hs; [done|]. cbn in *.
  apply andb_true_iff in Hs as [-> Hs]. by apply IH.
Qed.

Lemma parse_dec n : 0 ≤ n ≤ u64_max → parse_u64 (dec n) = Some n.
Proof.
  intros Hn. destruct (dec_value n) as (Hv & Hd & Hne); [lia|]. unfold parse_u64, parse_uint.
  destruct (dec n) as [|b s] eqn:E; [done|].
  destruct (decide (b = "+"%byte)) as [->|Hb]; [by cbn in Hd|].
  rewrite parse_digits_value by done. unfold digits_value in Hv. rewrite Hv.
  by rewrite (proj2 (Z.leb_le _ _)) by lia.
Qed.

Lemma file_number_ok dir next s e :
  entry_ok dir next s e → next ≤ u64_max → ∀ n, image_file e = Some (png_name n) → 0 ≤ n →
  file_number e = Some n.
Proof.
  unfold entry_ok, image_file, file_number. destruct (body e) as [|f w ht]; [done|].
  intros (m & c & -> & Hm & _) Hle n [= E] Hn. apply png_name_inj in E; [|lia|lia]. subst m.
  unfold strip_suffix, png_name. rewrite decide_True by by exists (dec n).
  rewrite length_app. cbn [mbind option_bind].
  rewrite take_app_length' by (cbn [length lit]; lia). apply parse_dec. lia.
Qed.

Lemma max_list_ge l n : n ∈ l → ∃ m, max_list l = Some m ∧ n ≤ m.
Proof.
  assert (∀ l x, x ≤ fold_left Z.max l x ∧ ∀ y, y ∈ l → y ≤ fold_left Z.max l x) as Hf.
  { induction l0 as [|y l0 IH]; intros x; cbn; [split; [lia|by intros ? ?%not_elem_of_nil]|].
    destruct (IH (Z.max x y)) as [H1 H2]. split; [lia|]. intros z [->|Hz]%elem_of_cons; [lia|auto]. }
  destruct l as [|x l]; [by intros ?%not_elem_of_nil|]. intros Hin. eexists. split; [done|].
  destruct (Hf l x) as [H1 H2]. apply elem_of_cons in Hin as [->|Hin]; auto.
Qed.

Lemma max_list_elem l m : max_list l = Some m → m ∈ l.
Proof.
  assert (∀ l x, fold_left Z.max l x ∈ x :: l) as Hf.
  { induction l0 as [|y l0 IH]; intros x; cbn; [left|].
    specialize (IH (Z.max x y)). apply elem_of_cons in IH as [E|IH]; [|by do 2 right].
    rewrite E. destruct (Z.max_spec x y) as [[_ ->]|[_ ->]]; [right|]; left. }
  destruct l as [|x l]; [done|]. intros [= <-]. apply Hf.
Qed.

(** Loading what was saved: the same entries, and the next image file is one no
    entry uses. *)
Lemma load_saved h l :
  hist_wf h → shows h l → saved h → next_file h ≤ u64_max →
  let h' := history_load (hdir h) (hmax h) (hdisk h) in
  hist_wf h' ∧ shows h' l ∧ entries h' = entries h.
Proof.
  intros [Hlen Hfs Hnext Hok Hnd] Hsh Hsv Hmx h'.
  assert (entries h' = entries h) as He by (subst h'; cbn; rewrite Hsv; by apply take_ge).
  assert (∀ i, history_get h' i = history_get h i) as Hg
    by (intros i; rewrite !history_get_value; by rewrite He).
  assert (∀ n, n ∈ omap file_number (entries h) → 0 ≤ n < next_file h) as Hnum.
  { intros n (x & Hx & Hxn)%list_elem_of_omap. rewrite list.Forall_forall in Hok. specialize (Hok x Hx).
    unfold file_number in Hxn. destruct (body x) as [|f w ht] eqn:Eb; [done|].
    assert (image_file x = Some f) as Ef by (unfold image_file; by rewrite Eb).
    destruct (entry_ok_file _ _ _ _ _ Hok Ef) as (m & -> & Hm).
    pose proof (file_number_ok _ _ _ _ Hok Hmx m Ef ltac:(lia)) as Hfn.
    unfold file_number in Hfn. rewrite Eb, Hxn in Hfn. injection Hfn as ->. lia. }
  assert (next_file h' = from_option (λ n, n + 1) 0 (max_list (omap file_number (entries h)))) as Hn'.
  { subst h'. cbn. rewrite Hsv, take_ge by done. destruct (max_list _) as [m|] eqn:Em; [|done]. cbn.
    apply max_list_elem, Hnum in Em. apply Z.mod_small. unfold u64_max in *. lia. }
  split_and!; [|intros i; by rewrite Hg, Hsh|done].
  split.
  - rewrite He. done.
  - done.
  - rewrite Hn'. destruct (max_list _) as [m|] eqn:Em; cbn; [|lia]. apply max_list_elem, Hnum in Em. lia.
  - rewrite He. apply list.Forall_forall. intros x Hx. rewrite list.Forall_forall in Hok.
    specialize (Hok x Hx). unfold entry_ok in *.
    destruct (body x) as [|f w ht] eqn:Eb; [done|]. destruct Hok as (n & c & -> & Hn & Hr & Hh).
    exists n, c. split_and!; [done|lia| |done|done].
    assert (image_file x = Some (png_name n)) as Ef by (unfold image_file; by rewrite Eb).
    assert (file_number x = Some n) as Hfn.
    { eapply (file_number_ok (hdir h) (next_file h) (hdisk h)); [|done|done|lia].
      unfold entry_ok. rewrite Eb. eauto 6. }
    destruct (max_list_ge (omap file_number (entries h)) n) as (m & Em & Hle).
    { apply list_elem_of_omap. eauto. }
    rewrite Hn', Em. cbn. lia.
  - by rewrite He.
Qed.

(** The steps of one [write_atomic] with the contents handed over at once. *)
Definition all_steps : nat := 6.

Definition op_io (o : hist_op) : hist_io := match o with OText io _ _ | OImage io _ _ => io end.

Lemma push_saved `{!SerdeLaws (list Entry)} h io e :
  (∀ q, is_Some (serialize q)) → fs_wf (hdisk h) → saved h → (all_steps ≤ index_steps io)%nat →
  saved (push h io e) ∧ hdir (push h io e) = hdir h.
Proof.
  intros Htot Hfs Hsv Hio. unfold push. destruct (newest_is h (hash e)); [done|].
  destruct (evict_spec (hdir h) (hmax h) (rm_ok io) (rev (e :: entries h)) (hdisk h) Hfs) as (_ & Hs1 & _).
  destruct (evict _ _ _ _ _) as [rq s1]. cbn [snd] in Hs1. split; [|done].
  unfold saved. cbn [hdisk hdir entries]. unfold persist.
  destruct (Htot (rev rq)) as [b Hb]. rewrite Hb.
  assert (∃ ops, write_atomic_ops (pid io) (index_path (hdir h)) [b] = Some ops ∧ length ops = all_steps)
    as (ops & Ho & Hl).
  { unfold write_atomic_ops. rewrite index_path_eq, parent_snoc. eexists. split; [done|]. done. }
  rewrite Ho, take_ge by lia.
  assert (write_atomic (pid io) s1 (index_path (hdir h)) b = Ok (foldl exec s1 ops)) as Hw
    by (unfold write_atomic; by rewrite Ho).
  apply write_atomic_ok in Hw as [_ Hw]; [|done]. unfold fs_read. rewrite Hw. cbn.
  by rewrite (deserialize_serialize _ _ Hb).
Qed.

Lemma hist_step_saved `{!SerdeLaws (list Entry)} h o :
  (∀ q, is_Some (serialize q)) → hist_wf h → saved h → (all_steps ≤ index_steps (op_io o))%nat →
  saved (hist_step h o) ∧ hdir (hist_step h o) = hdir h.
Proof.
  intros Htot Hwf Hsv Hio. pose proof (hw_fs h Hwf) as Hfs.
  destruct o as [io text org|io png org]; cbn [hist_step op_io] in *.
  - unfold record_text. destruct (_ || _); [done|]. by apply push_saved.
  - unfold record_image. destruct (negb _); [done|]. destruct (newest_is _ _); [done|].
    destruct (default (0, 0) (image_size png)) as [w ht].
    assert (∀ n d, saved (mkHistory (hdir h) (hmax h) (entries h) n
      (fs_write (hdisk h) (pjoin (hdir h) (png_name (next_file h))) d))) as Hwr.
    { intros n d. unfold saved. cbn [hdisk hdir entries]. unfold fs_read. rewrite fs_stat_write_ne; [done|done|].
      apply not_eq_sym, png_not_index, (hw_next h Hwf). }
    destruct (png_io io); [|done|by split].
    match goal with |- saved (push ?h' _ ?e) ∧ _ => destruct (push_saved h' io e) as [H1 H2] end;
      [done|by apply fs_write_wf|apply Hwr|done|done].
Qed.

(** (C29) The history refines a bounded list: after any sequence of texts and
    images, with the removal of old files and the index write failing
    arbitrarily and an image that cannot be stored left out, entry [i] restores
    to item [i] of the reference list (newest first, at most [max] items, the
    newest never repeated), byte for byte, and nothing else can be restored. *)
Theorem history_refines h l ops :
  hist_wf h → shows h l → next_file h + zlen ops ≤ u64_max →
  let h' := foldl hist_step h ops in
  hist_wf h' ∧ shows h' (foldl (spec_step (hmax h)) l ops) ∧ (length (entries h') ≤ hmax h)%nat.
Proof.
  revert h l. induction ops as [|o ops IH]; intros h l Hwf Hsh Hn; cbn [foldl].
  - split_and!; [done..|apply (hw_len h Hwf)].
  - unfold zlen in *. cbn [length] in Hn.
    destruct (hist_step_spec h l o Hwf Hsh ltac:(lia)) as (H1 & H2 & H3 & H4).
    rewrite <- H3 in H2 |- *. by apply IH; [..|lia].
Qed.

(** (C30) The history survives a restart: if every index write completed, a
    daemon that loads the directory again has the same entries, each restoring
    to the same content, and its next image file overwrites none of theirs
    (the invariant holds again). *)
Theorem history_restart `{!SerdeLaws (list Entry)} h l ops :
  (∀ q : list Entry, is_Some (serialize q)) → hist_wf h → shows h l → saved h →
  next_file h + zlen ops ≤ u64_max → Forall (λ o, all_steps ≤ index_steps (op_io o))%nat ops →
  let h' := foldl hist_step h ops in
  let h'' := history_load (hdir h) (hmax h) (hdisk h') in
  hist_wf h'' ∧ entries h'' = entries h' ∧ shows h'' (foldl (spec_step (hmax h)) l ops).
Proof.
  intros Htot. revert h l. induction ops as [|o ops IH]; intros h l Hwf Hsh Hsv Hn Hio; cbn [foldl].
  - destruct (load_saved h l Hwf Hsh Hsv) as (? & ? & ?); [unfold zlen in Hn; cbn in Hn; lia|done].
  - apply list.Forall_cons in Hio as [Ho Hio]. unfold zlen in *. cbn [length] in Hn.
    destruct (hist_step_spec h l o Hwf Hsh ltac:(lia)) as (H1 & H2 & H3 & H4).
    destruct (hist_step_saved h o Htot Hwf Hsv Ho) as [H5 H6].
    rewrite <- H3 in H2 |- *. rewrite <- H6. by apply IH; [..|lia|].
Qed.

End history.

(** A fresh directory. *)
Lemma history_fresh `{Serde (list Entry)} dir max s :
  fs_wf s → fs_stat s (index_path dir) = None →
  let h := history_load dir max s in
  h = mkHistory dir max [] 0 s.
Proof. intros Hs Hi. unfold history_load, fs_read. rewrite Hi. cbn. by rewrite take_nil. Qed.

Lemma fresh_wf `{Hashes} dir max s : fs_wf s → hist_wf (mkHistory dir max [] 0 s).
Proof. intros Hs. by split; cbn; try done; try lia; constructor. Qed.

(** A listing is one line per entry: a text's preview is at most sixty
    characters and has no line feed. *)
Theorem preview_one_line t w o hsh :
  let p := preview (mkEntry (Text t) w o hsh) in
  (length (chars p) ≤ 60)%nat ∧ Byte.x0a ∉ p.
Proof.
  intros p. set (cs := map (λ c, if c =? 10 then 0x23CE else c) (take 60 (chars t))).
  assert (forallb is_scalar cs = true) as Hcs.
  { apply forallb_forall. intros c Hc. subst cs. apply in_map_iff in Hc as (d & <- & Hd).
    destruct (d =? 10); [done|]. pose proof (chars_scalar t) as Hs. rewrite forallb_forall in Hs.
    apply Hs. rewrite <- (take_drop 60 (chars t)). apply in_or_app. by left. }
  assert (p = utf8_encode cs) as -> by done. split.
  - rewrite chars_utf8_encode by done. subst cs. rewrite length_map, length_take. lia.
  - intros Hin. unfold utf8_encode in Hin. apply list_elem_of_In, in_concat in Hin as (x & Hx & Hin).
    apply in_map_iff in Hx as (c & <- & Hc).
    assert (c ≠ 10 ∧ is_scalar c = true) as [Hne Hsc].
    { split; [|rewrite forallb_forall in Hcs; by apply Hcs]. subst cs. apply in_map_iff in Hc as (d & <- & _).
      destruct (d =? 10) eqn:E; [done|]. by apply Z.eqb_neq. }
    apply is_scalar_spec in Hsc. unfold utf8_encode_char in Hin.
    destruct (c <? 0x80) eqn:E1; [|destruct (c <? 0x800) eqn:E2; [|destruct (c <? 0x10000) eqn:E3]];
    cbn [In] in Hin;
    repeat match goal with H : _ ∨ _ |- _ => destruct H as [H|H] end; try done;
    apply (f_equal bval) in Hin; rewrite bval_zbyte_small in Hin by zdm; cbn in Hin; zdm.
Qed.

(** ** Witnesses *)

#[global] Program Instance Body_countable : Countable Body :=
  inj_countable (λ b, match b with Text t => inl t | Image f w h => inr (f, w, h) end)
    (λ x, Some match x with inl t => Text t | inr (f, w, h) => Image f w h end) _.
Next Obligation. by intros []. Qed.
#[global] Program Instance Entry_countable : Countable Entry :=
  inj_countable (λ e, (body e, when e, origin e, hash e))
    (λ '(b, w, o, h), Some (mkEntry b w o h)) _.
Next Obligation. by intros []. Qed.

Definition entries_serde : Serde (list Entry) := countable_serde (list Entry).
Lemma entries_laws : @SerdeLaws (list Entry) entries_serde.
Proof. apply countable_serde_laws. Qed.

Definition sample_size (b : bytes) : option (Z * Z) := Some (1, 2).
Definition sample_hdir : path := [RootDir; Normal (lit "h")].
Definition sample_history : History := mkHistory sample_hdir 2 [] 0 sample_fs.
Definition good_io : hist_io := mkIo 7 PngWritten true 6 1.
Definition bad_io : hist_io := mkIo 8 PngWritten false 2 1.
Definition sample_ops : list hist_op :=
  [OText good_io (lit "a") (lit "local"); OImage good_io (lit "png") (lit "id-b");
   OImage good_io (lit "png") (lit "local"); OText good_io (lit "b") (lit "local")].

Lemma sample_shows : @shows sample_history [].
Proof. intros i. unfold history_get. cbn. by destruct i. Qed.

Lemma history_refines_witness :
  let h := foldl (@hist_step sample_hashes entries_serde sample_size) sample_history
             (sample_ops ++ [OImage bad_io (lit "q") (lit "local")]) in
  shows h [RImage (lit "q"); RText (lit "b")] ∧ (length (entries h) ≤ 2)%nat.
Proof.
  destruct (@history_refines sample_hashes entries_serde sample_size sample_history []
    (sample_ops ++ [OImage bad_io (lit "q") (lit "local")])) as (_ & H & Hl).
  - apply fresh_wf, sample_fs_wf.
  - apply sample_shows.
  - by vm_compute.
  - split; [exact H|exact Hl].
Defined.

Lemma history_restart_witness :
  let h' := foldl (@hist_step sample_hashes entries_serde sample_size) sample_history sample_ops in
  let h'' := @history_load entries_serde sample_hdir 2 (hdisk h') in
  entries h'' = entries h' ∧ shows h'' [RText (lit "b"); RImage (lit "png")].
Proof.
  destruct (@history_restart sample_hashes entries_serde sample_size entries_laws sample_history []
    sample_ops) as (_ & He & Hs).
  - intros q. by eexists.
  - apply fresh_wf, sample_fs_wf.
  - apply sample_shows.
  - by vm_compute.
  - by vm_compute.
  - repeat constructor; cbn; lia.
  - split; [exact He|exact Hs].
Defined.

(** Entries need not be distinct: only a repetition of the newest entry is
    skipped, so copying two texts in turn fills the ring with them. *)
Theorem history_repeats :
  let copy t := OText good_io (lit t) (lit "local") in
  let h := foldl (@hist_step sample_hashes entries_serde sample_size)
             (mkHistory sample_hdir 25 [] 0 sample_fs) [copy "a"; copy "b"; copy "a"; copy "b"] in
  map body (entries h) = [Text (lit "b"); Text (lit "a"); Text (lit "b"); Text (lit "a")].
Proof. vm_compute. reflexivity. Qed.
