(* ===== verification/Clipboard.v ===== *)
(** * Clipboard: the clipboard thread

    [crates/qdropd/src/clipboard.rs], with the snapshot of the platforms other
    than macOS (that one is in [Pasteboard]).  The system clipboard ([arboard])
    and the image codec ([image]) are the interface [Desktop]; what other
    programs do to the clipboard is a change of [board] between two turns of the
    loop.

    The theorems: what is applied for a peer is not reported back as a local
    copy; a local copy is reported once, unless it is concealed; and a copy
    equal to what was once applied is lost. *)
From S2P Require Import Prelude Text Crypto Store Samples.

(** ** The desktop *)

(** [arboard::Clipboard] and the two image conversions. *)
Class Desktop := {
  board : Type;
  img : Type;
  board_text : board → option str;
  board_image : board → option img;
  board_set_text : board → str → bool * board;
  board_set_image : board → img → bool * board;
  decode_image : bytes → option img;
  rgba_to_png : img → option bytes;
}.

Inductive LocalClip := LocalText (t : str) | LocalImage (png : bytes).

Definition clip_bytes (c : LocalClip) : bytes :=
  match c with LocalText t => t | LocalImage p => p end.

Inductive ClipCommand := ApplyText (t : str) | ApplyImage (png : bytes) | GetText.

Record Snapshot := mkSnapshot {
  token : Z;                     (* i64 *)
  concealed : bool;
  snap_text : option str;
  image_png : option bytes;
}.

(** [i64::from_le_bytes]. *)
Definition i64_of_le (bs : bytes) : Z :=
  let u := from_le_bytes bs in if u <? 2 ^ 63 then u else u - 2 ^ 64.

(** ** [linux_looks_concealed] *)

(** [str::to_lowercase], as far as ASCII patterns can tell: besides the ASCII
    letters, U+212A becomes [k] and U+0130 an [i] with a combining dot; every
    other character becomes characters outside ASCII. *)
Definition lower_char (c : Z) : list Z :=
  if (65 <=? c) && (c <=? 90) then [c + 32]
  else if c =? 0x212A then [107]
  else if c =? 0x130 then [105; 0x307]
  else [c].

Fixpoint occurs (pat s : list Z) : bool :=
  bool_decide (pat `prefix_of` s) || match s with [] => false | _ :: s' => occurs pat s' end.

(** [types] is the output of [wl-paste --list-types], if it ran successfully. *)
Definition linux_looks_concealed (types : option str) : bool :=
  match types with
  | Some s =>
      let cs := concat (map lower_char (chars s)) in
      occurs (chars (lit "x-kde-passwordmanagerhint")) cs || occurs (chars (lit "password")) cs
      || occurs (chars (lit "concealed")) cs
  | None => false
  end.

Section clipboard.
Context `{Hashes, Desktop}.

(** [Backend::set_text] and [set_image_png]. *)
Definition set_text (b : board) (t : str) : board := (board_set_text b t).2.
Definition set_image_png (b : board) (png : bytes) : board :=
  match decode_image png with Some i => (board_set_image b i).2 | None => b end.

(** [Backend::snapshot]. *)
Definition snapshot (b : board) (types : option str) (sync_images : bool) : Snapshot :=
  let text := nonempty (board_text b) in
  let image := if sync_images then board_image b ≫= rgba_to_png else None in
  let digest := sha256 (from_option (λ t, lit "t" ++ t) [] text ++ from_option (λ p, lit "i" ++ p) [] image) in
  mkSnapshot (i64_of_le (take 8 digest)) (linux_looks_concealed types) text image.

(** ** The thread *)

Record clip_thread := mkThread {
  desktop : board;
  last_token : option Z;
  suppress : option bytes;
  reported : list LocalClip;        (* sent on [local_changes] *)
  replied : list (option str);      (* answers to [GetText] *)
}.

Definition clip_start (b : board) (types : option str) (images : bool) : clip_thread :=
  mkThread b (Some (token (snapshot b types images))) None [] [].

(** What [cmd_rx.recv_timeout] returns; [types] and [images] are what the
    helper prints and the setting at that moment. *)
Inductive clip_event := Command (c : ClipCommand) | Timeout.

Definition clip_of (s : Snapshot) : option LocalClip :=
  match image_png s with
  | Some png => Some (LocalImage png)
  | None => LocalText <$> snap_text s
  end.

(** What the thread does with the snapshot of a poll. *)
Definition poll_with (t : clip_thread) (snap : Snapshot) : clip_thread :=
  if bool_decide (Some (token snap) = last_token t) then t
  else
    let t := mkThread (desktop t) (Some (token snap)) (suppress t) (reported t) (replied t) in
    if concealed snap then t
    else match clip_of snap with
         | None => t
         | Some clip =>
             if bool_decide (Some (sha256 (clip_bytes clip)) = suppress t)
             then mkThread (desktop t) (last_token t) None (reported t) (replied t)
             else mkThread (desktop t) (last_token t) (suppress t) (reported t ++ [clip]) (replied t)
         end.

Definition poll (t : clip_thread) (types : option str) (images : bool) : clip_thread :=
  poll_with t (snapshot (desktop t) types images).

Definition clip_step (t : clip_thread) (e : clip_event) (types : option str) (images : bool) : clip_thread :=
  match e with
  | Command (ApplyText text) =>
      let b := set_text (desktop t) text in
      mkThread b (Some (token (snapshot b types images))) (Some (sha256 text)) (reported t) (replied t)
  | Command (ApplyImage png) =>
      let b := set_image_png (desktop t) png in
      mkThread b (Some (token (snapshot b types images))) (Some (sha256 png)) (reported t) (replied t)
  | Command GetText =>
      mkThread (desktop t) (last_token t) (suppress t) (reported t)
        (replied t ++ [nonempty (snap_text (snapshot (desktop t) types false))])
  | Timeout => poll t types images
  end.

(** Another program changes the clipboard. *)
Definition user_copies (t : clip_thread) (b : board) : clip_thread :=
  mkThread b (last_token t) (suppress t) (reported t) (replied t).

(** ** What the thread reports *)

Lemma snapshot_types b ty ty' images :
  token (snapshot b ty images) = token (snapshot b ty' images) ∧
  clip_of (snapshot b ty images) = clip_of (snapshot b ty' images).
Proof. done. Qed.

(** A clipboard that has not changed since the last snapshot is not looked at. *)
Lemma poll_idle t ty ty' images :
  last_token t = Some (token (snapshot (desktop t) ty images)) → poll t ty' images = t.
Proof. intros Ht. unfold poll, poll_with. rewrite Ht. by rewrite bool_decide_eq_true_2. Qed.

Lemma polls_idle t ty images tys :
  last_token t = Some (token (snapshot (desktop t) ty images)) →
  foldl (λ t ty', clip_step t Timeout ty' images) t tys = t.
Proof.
  induction tys as [|ty' tys IH]; intros Ht; [done|]. cbn [foldl clip_step].
  rewrite (poll_idle t ty ty' images Ht). by apply IH.
Qed.

(** No echo: after a peer's text or image is put on the clipboard, polling
    it any number of times, whatever the helper prints and whether or not the
    write succeeded, reports nothing. *)
Theorem apply_no_echo t cmd ty images tys :
  cmd ≠ GetText →
  let t' := clip_step t (Command cmd) ty images in
  foldl (λ t ty', clip_step t Timeout ty' images) t' tys = t' ∧ reported t' = reported t.
Proof.
  intros Hc t'. split; [|by destruct cmd].
  apply (polls_idle t' ty). by destruct cmd.
Qed.

(** The clips a poll adds. *)
Definition poll_news (t : clip_thread) (ty : option str) (images : bool) : list LocalClip :=
  let snap := snapshot (desktop t) ty images in
  match clip_of snap with
  | Some c => if bool_decide (last_token t ≠ Some (token snap)) && negb (linux_looks_concealed ty)
                 && negb (bool_decide (suppress t = Some (sha256 (clip_bytes c))))
              then [c] else []
  | None => []
  end.

Lemma poll_reported t ty images : reported (poll t ty images) = reported t ++ poll_news t ty images.
Proof.
  unfold poll, poll_with, poll_news. set (snap := snapshot (desktop t) ty images).
  assert (concealed snap = linux_looks_concealed ty) as -> by done.
  destruct (decide (Some (token snap) = last_token t)) as [E|E].
  - rewrite bool_decide_eq_true_2 by done. destruct (clip_of snap); [|by rewrite app_nil_r].
    rewrite bool_decide_eq_false_2 by (intros []; congruence). by rewrite app_nil_r.
  - rewrite bool_decide_eq_false_2 by done. destruct (linux_looks_concealed ty).
    + cbn [reported]. destruct (clip_of snap); rewrite ?andb_false_r; by rewrite app_nil_r.
    + destruct (clip_of snap) as [c|]; [|by rewrite app_nil_r]. cbn [suppress].
      rewrite (bool_decide_eq_true_2 (last_token t ≠ _)) by congruence. cbn [negb andb].
      destruct (decide (suppress t = Some (sha256 (clip_bytes c)))) as [Es|Es].
      * rewrite !bool_decide_eq_true_2 by done. cbn. by rewrite app_nil_r.
      * rewrite !bool_decide_eq_false_2 by congruence. done.
Qed.

(** A local copy is reported, once and as it is, the image if there is one
    and otherwise the text, when it changes the token, is not concealed and is
    not the last thing applied; and nothing is reported otherwise. *)
Theorem poll_reports t ty images :
  let snap := snapshot (desktop t) ty images in
  let t' := clip_step t Timeout ty images in
  reported t' = reported t ++
    match clip_of snap with
    | Some c => if bool_decide (last_token t ≠ Some (token snap)) && negb (linux_looks_concealed ty)
                   && negb (bool_decide (suppress t = Some (sha256 (clip_bytes c))))
                then [c] else []
    | None => []
    end ∧
  ∀ ty', clip_step t' Timeout ty' images = t'.
Proof.
  intros snap t'. split; [apply poll_reported|].
  assert (desktop t' = desktop t ∧ last_token t' = Some (token snap)) as [Hd Hl].
  { subst t'. cbn [clip_step]. unfold poll, poll_with. fold snap. case_bool_decide as E; [done|].
    destruct (concealed snap); [done|]. destruct (clip_of snap); [|done]. by case_bool_decide. }
  intros ty'. apply (poll_idle t' ty). by rewrite Hd.
Qed.

(** A stale suppression loses a copy: [apply_no_echo] means the mark left
    by an applied text is never consumed by its echo, so when the user copies
    something else and later copies that same text, the second copy is
    dropped. *)
Theorem stale_suppress_drops t text ty images b1 b2 :
  let t1 := clip_step t (Command (ApplyText text)) ty images in
  let t2 := clip_step (user_copies t1 b1) Timeout None images in
  let t3 := clip_step (user_copies t2 b2) Timeout None images in
  (∀ c, clip_of (snapshot b1 None images) = Some c → sha256 (clip_bytes c) ≠ sha256 text) →
  clip_of (snapshot b2 None images) = Some (LocalText text) →
  reported t3 = reported t2.
Proof.
  intros t1 t2 t3 H1 H2.
  assert (suppress t2 = Some (sha256 text)) as Hs.
  { subst t2. cbn [clip_step]. unfold poll, poll_with. cbn [user_copies desktop last_token].
    case_bool_decide; [done|]. change (concealed (snapshot b1 None images)) with false.
    destruct (clip_of (snapshot b1 None images)) as [c|]; [|done]. cbn [suppress user_copies].
    rewrite bool_decide_eq_false_2; [done|]. intros [= E]. by eapply H1. }
  subst t3. clearbody t2. cbn [clip_step]. unfold poll, poll_with. cbn [user_copies desktop last_token].
  case_bool_decide; [done|]. change (concealed (snapshot b2 None images)) with false. rewrite H2.
  cbn [suppress user_copies]. rewrite Hs, bool_decide_eq_true_2; done.
Qed.

(** Concealed items stay: whatever happens to the thread, everything it
    reports was on the clipboard at a poll at which the helper showed no
    password hint. *)
Theorem reported_not_concealed t evs :
  let step t x := let '(b, e, ty, images) := (x : option board * clip_event * option str * bool) in
                  clip_step (from_option (user_copies t) t b) e ty images in
  ∀ c, c ∈ reported (foldl step t evs) → c ∈ reported t ∨
    ∃ b ty images, clip_of (snapshot b ty images) = Some c ∧ linux_looks_concealed ty = false.
Proof.
  intros step. revert t. induction evs as [|[[[b e] ty] images] evs IH]; intros t c; cbn [foldl]; [by left|].
  intros [Hc|Hc]%IH; [|by right]. cbn [step] in Hc.
  set (t0 := from_option (user_copies t) t b) in Hc.
  assert (reported t0 = reported t) as Hr by (subst t0; by destruct b).
  destruct e as [[text|png|]|]; cbn [clip_step reported] in Hc; try (left; by rewrite <- Hr).
  rewrite poll_reported in Hc. apply elem_of_app in Hc as [Hc|Hc]; [left; by rewrite <- Hr|].
  unfold poll_news in Hc.
  destruct (clip_of (snapshot (desktop t0) ty images)) as [c'|] eqn:Ec; [|by apply not_elem_of_nil in Hc].
  right. destruct (linux_looks_concealed ty) eqn:El;
    [rewrite andb_false_r in Hc; by apply not_elem_of_nil in Hc|].
  exists (desktop t0), ty, images. split; [|done]. rewrite Ec. f_equal.
  destruct (_ && _) in Hc; [|by apply not_elem_of_nil in Hc]. by apply list_elem_of_singleton in Hc.
Qed.

End clipboard.

(** ** Witnesses *)

(** A desktop whose clipboard holds a text and an image, and whose image codec
    is the identity. *)
Definition sample_desktop : Desktop := {|
  board := option str * option bytes;
  img := bytes;
  board_text := fst;
  board_image := snd;
  board_set_text := λ _ t, (true, (Some t, None));
  board_set_image := λ _ i, (true, (None, Some i));
  decode_image := Some;
  rgba_to_png := Some;
|}.

#[local] Existing Instance sample_hashes.
#[local] Existing Instance sample_desktop.

Lemma apply_no_echo_witness :
  let t := @clip_start sample_hashes sample_desktop (None, None) None true in
  let t' := clip_step t (Command (ApplyText (lit "x"))) None true in
  foldl (λ t ty', clip_step t Timeout ty' true) t' [None; Some (lit "text/plain")] = t' ∧ reported t' = [].
Proof. apply (@apply_no_echo sample_hashes sample_desktop). done. Defined.

Lemma stale_suppress_drops_witness :
  let t := @clip_start sample_hashes sample_desktop (None, None) None true in
  let t1 := clip_step t (Command (ApplyText (lit "x"))) None true in
  let t2 := clip_step (user_copies t1 (Some (lit "y"), None)) Timeout None true in
  let t3 := clip_step (user_copies t2 (Some (lit "x"), None)) Timeout None true in
  reported t2 = [LocalText (lit "y")] ∧ reported t3 = reported t2.
Proof.
  split; [vm_compute; reflexivity|].
  apply (@stale_suppress_drops sample_hashes sample_desktop _ (lit "x") None true); [|vm_compute; reflexivity].
  intros c Hc. vm_compute in Hc. injection Hc as <-. vm_compute. congruence.
Defined.
