(* ===== verification/Pasteboard.v ===== *)
(** * Pasteboard: the clipboard thread on macOS

    The module [macos] of [crates/qdropd/src/clipboard.rs]: the snapshot of the
    general pasteboard, and the thread of [Clipboard] with it.  The pasteboard
    is what [NSPasteboard] answers; the TIFF conversion is the image library's.

    The theorems: a concealed item is neither read nor reported, and the change
    count alone decides what is new. *)
From S2P Require Import Prelude Text Crypto Store Samples Clipboard.

(** [generalPasteboard] at one moment. *)
Record pasteboard := mkPasteboard {
  changeCount : Z;                      (* NSInteger *)
  pb_types : option (list str);
  pb_png : option bytes;                (* dataForType *)
  pb_tiff : option bytes;
  pb_string : option str;               (* stringForType *)
}.

Definition CONCEALED_TYPES : list str :=
  [lit "org.nspasteboard.ConcealedType"; lit "org.nspasteboard.TransientType";
   lit "org.nspasteboard.AutoGeneratedType"].

Section macos.
(** Load a TIFF and write it as PNG. *)
Variable tiff_to_png : bytes → option bytes.

Definition read_png (pb : pasteboard) : option bytes :=
  match pb_png pb with
  | Some data => Some data
  | None => pb_tiff pb ≫= tiff_to_png
  end.

Definition macos_concealed (pb : pasteboard) : bool :=
  match pb_types pb with
  | Some types => existsb (λ t, existsb (λ c, bool_decide (t = c)) CONCEALED_TYPES) types
  | None => false
  end.

Definition macos_snapshot (pb : pasteboard) (sync_images : bool) : Snapshot :=
  if macos_concealed pb then mkSnapshot (changeCount pb) true None None
  else
    let image := if sync_images then read_png pb else None in
    let text := match image with None => nonempty (pb_string pb) | Some _ => None end in
    mkSnapshot (changeCount pb) false text image.

(** An item that asks not to be looked at. *)
Definition hides_itself (pb : pasteboard) : Prop :=
  ∃ ts t, pb_types pb = Some ts ∧ t ∈ ts ∧ t ∈ CONCEALED_TYPES.

Lemma macos_concealed_spec pb : macos_concealed pb = true ↔ hides_itself pb.
Proof.
  unfold macos_concealed, hides_itself. destruct (pb_types pb) as [ts|]; [|by split; [|intros (? & ? & ? & _)]].
  rewrite existsb_exists. setoid_rewrite existsb_exists. setoid_rewrite bool_decide_eq_true.
  setoid_rewrite <- list_elem_of_In. naive_solver.
Qed.
#[local] Instance hides_itself_dec pb : Decision (hides_itself pb).
Proof. refine (cast_if (decide (macos_concealed pb = true))); by rewrite <- macos_concealed_spec. Defined.

Section thread.
Context `{Hashes, Desktop}.

(** A poll on macOS that sees [pb]. *)
Definition macos_poll (t : clip_thread) (pb : pasteboard) (images : bool) : clip_thread :=
  poll_with t (macos_snapshot pb images).

(** What a poll adds: an image before a text, images only if they are synced. *)
Definition macos_news (pb : pasteboard) (images : bool) : option LocalClip :=
  match (if images then read_png pb else None) with
  | Some png => Some (LocalImage png)
  | None => LocalText <$> nonempty (pb_string pb)
  end.

(** Polls on macOS: with the change count of the last look nothing is read
    or reported; an item one of whose types says concealed, transient or
    generated is passed over for good, as the same pasteboard is not looked at
    again; any other new item is reported exactly once, image before text, unless
    it is the content that was last applied for a peer, which is passed over
    once. *)
Theorem macos_poll_reports t pb images :
  let t' := macos_poll t pb images in
  last_token t' = Some (changeCount pb) ∧ macos_poll t' pb images = t' ∧
  reported t' = reported t ++
    (if decide (last_token t = Some (changeCount pb)) then []
     else if decide (hides_itself pb) then []
     else match macos_news pb images with
          | Some c => if decide (suppress t = Some (sha256 (clip_bytes c))) then [] else [c]
          | None => []
          end).
Proof.
  assert (∀ u, last_token u = Some (changeCount pb) → macos_poll u pb images = u) as Hidle.
  { intros u Hu. unfold macos_poll, poll_with, macos_snapshot.
    destruct (macos_concealed pb); cbn [token]; by rewrite bool_decide_eq_true_2. }
  intros t'. assert (last_token t' = Some (changeCount pb)) as Hl.
  { subst t'. unfold macos_poll, poll_with, macos_snapshot.
    destruct (macos_concealed pb); cbn [token concealed]; (case_bool_decide; [done|]); [done|].
    destruct (clip_of _); [|done]. by case_bool_decide. }
  split_and!; [done|by apply Hidle|]. subst t'. destruct (decide (last_token t = Some (changeCount pb))) as [E|E].
  { by rewrite Hidle, app_nil_r. }
  clear Hidle Hl. unfold macos_poll, poll_with, macos_snapshot.
  destruct (decide (hides_itself pb)) as [Hh|Hh]; rewrite <- macos_concealed_spec in Hh.
  { rewrite Hh. cbn [token concealed]. rewrite bool_decide_eq_false_2 by done. by rewrite app_nil_r. }
  apply not_true_is_false in Hh. rewrite Hh. cbn [token concealed]. rewrite bool_decide_eq_false_2 by done.
  unfold macos_news, clip_of. cbn [image_png snap_text].
  destruct (if images then read_png pb else None) as [png|]; [|destruct (nonempty (pb_string pb)); [|by rewrite app_nil_r]];
    cbn [fmap option_fmap option_map suppress reported];
    (case_bool_decide as Hb; case_decide; subst; try congruence; by rewrite ?app_nil_r).
Qed.
End thread.
End macos.
