(* ===== verification/Sync.v ===== *)
(** * Sync: clipboard synchronisation ([crates/qdropd/src/sync.rs])

    The task that turns local copies into broadcasts and remote updates into
    commands for the clipboard thread, and the task that applies images
    delivered as blobs.  The bus, the history and the clipboard thread are
    those of [Bus], [FileXfer], [History] and [Clipboard]; time is in
    milliseconds.

    The theorems: what each local copy puts on the bus; broadcasts are at
    least 300 ms apart; a remote update never causes a broadcast; a copy on
    one device ends on the other's clipboard and stops there; what the rate
    limit drops is lost; and an image that comes as a blob is applied although
    sync is paused. *)
From S2P Require Import Prelude Text Crypto Proto Frame Store Samples Net Peers Config Bus FileXfer History Clipboard.

Record Controls := mkControls { clipboard_paused : bool; sync_images_on : bool }.
Definition set_clipboard_paused (c : Controls) (v : bool) : Controls := mkControls v (sync_images_on c).
Definition set_sync_images (c : Controls) (v : bool) : Controls := mkControls (clipboard_paused c) v.

Definition min_gap : Z := 300.

(** Who waits for a [send_clip_image]: this task, or a request of the control
    socket. *)
Inductive uploader := BySync | ByRequest.

Record sync := mkSync {
  seq : Z;                              (* u64 *)
  last_synced : option bytes;
  last_broadcast : Z;
  filex : FileXfer;                     (* holds the bus *)
  hist : History;
  to_clip : list ClipCommand;           (* commands for the clipboard thread *)
  clip_blobs : list (uploader * upload);  (* [send_clip_image]s that run *)
}.

(** At the start, [last_broadcast] lies one gap back. *)
Definition sync_start (now : Z) (x : FileXfer) (h : History) : sync :=
  mkSync 0 None (now - min_gap) x h [] [].

Section sync.
Context `{Hashes, Serde (list Entry)}.
Variable image_size : bytes → option (Z * Z).
Variable own_id : str.
Variable max_text : Z.
(** Whether there is a clipboard ([clip] is [Some]). *)
Variable has_clip : bool.

Definition set_hist (s : sync) (h : History) : sync :=
  mkSync (seq s) (last_synced s) (last_broadcast s) (filex s) h (to_clip s) (clip_blobs s).
Definition set_synced (s : sync) (d : bytes) : sync :=
  mkSync (seq s) (Some d) (last_broadcast s) (filex s) (hist s) (to_clip s) (clip_blobs s).
Definition set_last_broadcast (s : sync) (now : Z) : sync :=
  mkSync (seq s) (last_synced s) now (filex s) (hist s) (to_clip s) (clip_blobs s).
Definition send_clip (s : sync) (c : ClipCommand) : sync :=
  mkSync (seq s) (last_synced s) (last_broadcast s) (filex s) (hist s) (to_clip s ++ [c]) (clip_blobs s).

(** [seq += 1] and the broadcast. *)
Definition broadcast_clip (s : sync) (entry : ClipEntry) : sync :=
  let n := u64_wrap (seq s + 1) in
  mkSync n (last_synced s) (last_broadcast s)
    (set_bus (filex s) (broadcast (bus (filex s)) (Clipboard n own_id [entry]) None))
    (hist s) (to_clip s) (clip_blobs s).

(** The branch on [local_rx]. *)
Definition sync_local (ctl : Controls) (now : Z) (io : hist_io) (s : sync) (c : LocalClip) : sync :=
  if clipboard_paused ctl then s
  else if now - last_broadcast s <? min_gap then s
  else
    let s := set_last_broadcast s now in
    match c with
    | LocalText text =>
        let s := set_hist s (record_text (hist s) io text (lit "local")) in
        if max_text <? zlen text then s
        else
          let h := sha256 text in
          if bool_decide (Some h = last_synced s) then s
          else broadcast_clip (set_synced s h) (ClipEntry_text text)
    | LocalImage png =>
        if sync_images_on ctl then
          let s := set_hist s (record_image image_size (hist s) io png (lit "local")) in
          let h := sha256 png in
          if bool_decide (Some h = last_synced s) then s
          else
            let s := set_synced s h in
            if zlen png <=? CLIP_IMAGE_INLINE_MAX then broadcast_clip s (ClipEntry_png png)
            else
              mkSync (seq s) (last_synced s) (last_broadcast s) (filex s) (hist s) (to_clip s)
                (clip_blobs s ++ [(BySync, send_clip_image (filex s) png)])
        else s
    end.

(** The branch on [clip_frames]. *)
Definition sync_remote (ctl : Controls) (io : hist_io) (s : sync) (peer_id : str) (msg : Message) : sync :=
  match msg with
  | Clipboard _ origin_id es =>
      if clipboard_paused ctl || bool_decide (origin_id = own_id) then s
      else if negb has_clip then s
      else
        match find_map as_text es with
        | Some text =>
            if max_text <? zlen text then s
            else
              let s := set_hist s (record_text (hist s) io text peer_id) in
              let h := sha256 text in
              if bool_decide (Some h = last_synced s) then s
              else send_clip (set_synced s h) (ApplyText text)
        | None =>
            if sync_images_on ctl then
              match find_map as_image es with
              | Some png =>
                  let s := set_hist s (record_image image_size (hist s) io png peer_id) in
                  let h := sha256 png in
                  if bool_decide (Some h = last_synced s) then s
                  else send_clip (set_synced s h) (ApplyImage png)
              | None => s
              end
            else s
        end
  | _ => s
  end.

(** The task that applies images delivered as blobs. *)
Definition sync_blob (s : sync) (png : bytes) : sync :=
  if has_clip then send_clip s (ApplyImage png) else s.

(** Does the task wait for a [send_clip_image] of its own? *)
Definition by_sync (x : uploader * upload) : bool := match x.1 with BySync => true | ByRequest => false end.
Definition sync_busy (s : sync) : bool := existsb by_sync (clip_blobs s).

(** A step of one of the uploads. *)
Definition upload_turn (s : sync) (k : nat) (timed : bool) : sync :=
  match clip_blobs s !! k with
  | Some (w, u) =>
      let '(x, u') := upload_step timed (filex s) u in
      mkSync (seq s) (last_synced s) (last_broadcast s) x (hist s) (to_clip s)
        (match u' with
         | Some u' => <[k := (w, u')]> (clip_blobs s)
         | None => delete k (clip_blobs s)
         end)
  | None => s
  end.

Inductive sync_event :=
| SLocal (now : Z) (c : LocalClip)
| SRemote (peer : str) (m : Message)
| SBlob (png : bytes).

Definition sync_step (s : sync) (x : Controls * hist_io * sync_event) : sync :=
  let '(ctl, io, e) := x in
  match e with
  | SLocal now c => sync_local ctl now io s c
  | SRemote peer m => sync_remote ctl io s peer m
  | SBlob png => sync_blob s png
  end.

(** ** What is sent *)

(** The event made the daemon send something. *)
Definition sends (s : sync) (x : Controls * hist_io * sync_event) : Prop :=
  filex (sync_step s x) ≠ filex s ∨ clip_blobs (sync_step s x) ≠ clip_blobs s.

Definition event_time (x : Controls * hist_io * sync_event) : Z :=
  match x.2 with SLocal now _ => now | _ => 0 end.

Lemma sync_remote_quiet ctl io s peer m :
  filex (sync_remote ctl io s peer m) = filex s ∧ clip_blobs (sync_remote ctl io s peer m) = clip_blobs s ∧
  last_broadcast (sync_remote ctl io s peer m) = last_broadcast s.
Proof.
  destruct m; try done. cbn [sync_remote]. destruct (_ || _); [done|]. destruct (negb has_clip); [done|].
  destruct (find_map as_text _); [by repeat case_match|]. destruct (sync_images_on ctl); [|done].
  destruct (find_map as_image _); [|done]. by case_bool_decide.
Qed.

Lemma sync_blob_quiet s png :
  filex (sync_blob s png) = filex s ∧ clip_blobs (sync_blob s png) = clip_blobs s ∧
  last_broadcast (sync_blob s png) = last_broadcast s.
Proof. unfold sync_blob. by destruct has_clip. Qed.

(** A local copy is dropped, or it is at least a gap after the last one and the
    clock restarts. *)
Lemma sync_local_time ctl now io s c :
  sync_local ctl now io s c = s ∨
  (min_gap ≤ now - last_broadcast s ∧ last_broadcast (sync_local ctl now io s c) = now).
Proof.
  unfold sync_local. destruct (clipboard_paused ctl); [by left|].
  destruct (now - last_broadcast s <? min_gap) eqn:E; zsolve; [by left|]. right. split; [lia|].
  destruct c as [t|png].
  - cbn [set_hist set_last_broadcast last_synced]. case_match; [done|]. by case_bool_decide.
  - destruct (sync_images_on ctl); [|done]. cbn [set_hist set_last_broadcast last_synced].
    case_bool_decide; [done|]. by case_match.
Qed.

Lemma sync_step_time s x :
  last_broadcast s ≤ last_broadcast (sync_step s x) ∧
  (sends s x → min_gap ≤ event_time x - last_broadcast s ∧ last_broadcast (sync_step s x) = event_time x).
Proof.
  destruct x as [[ctl io] [now c|peer m|png]]; unfold sends, event_time; cbn [sync_step snd].
  - destruct (sync_local_time ctl now io s c) as [->|[H1 ->]]; [split; [lia|by intros []]|].
    unfold min_gap in *. split; [lia|done].
  - destruct (sync_remote_quiet ctl io s peer m) as (H1 & H2 & H3). rewrite H3. split; [lia|].
    intros []; congruence.
  - destruct (sync_blob_quiet s png) as (H1 & H2 & H3). rewrite H3. split; [lia|]. intros []; congruence.
Qed.

Lemma sync_steps_time s xs : last_broadcast s ≤ last_broadcast (foldl sync_step s xs).
Proof.
  revert s. induction xs as [|x xs IH]; intros s; cbn [foldl]; [lia|].
  etrans; [apply sync_step_time|apply IH].
Qed.

(** The rate limit: in any run of the task, two events that make the
    daemon send anything (an inline update or an image stream) are at least
    300 ms apart. *)
Theorem broadcasts_spaced s before x between y :
  let s1 := foldl sync_step s before in
  let s2 := foldl sync_step (sync_step s1 x) between in
  sends s1 x → sends s2 y → min_gap ≤ event_time y - event_time x.
Proof.
  intros s1 s2 Hx Hy. apply sync_step_time in Hx as [_ Hx]. apply sync_step_time in Hy as [Hy _].
  pose proof (sync_steps_time (sync_step s1 x) between) as H1. fold s2 in H1. lia.
Qed.

(** What peers send is never sent on: any sequence of remote updates and
    delivered images leaves the bus, and so every other peer's queue,
    unchanged, and starts no stream. *)
Theorem remote_not_forwarded s xs :
  Forall (λ x : Controls * hist_io * sync_event, match x.2 with SLocal _ _ => False | _ => True end) xs →
  filex (foldl sync_step s xs) = filex s ∧ clip_blobs (foldl sync_step s xs) = clip_blobs s.
Proof.
  revert s. induction xs as [|x xs IH]; intros s Hx; [done|]. apply list.Forall_cons in Hx as [Hx Hxs].
  cbn [foldl]. destruct (IH (sync_step s x) Hxs) as [-> ->].
  destruct x as [[ctl io] [now c|peer m|png]]; [done|..]; cbn [sync_step].
  - by destruct (sync_remote_quiet ctl io s peer m) as (-> & -> & _).
  - by destruct (sync_blob_quiet s png) as (-> & -> & _).
Qed.

(** What was applied is not broadcast again: if the clipboard later reports
    the text of the last update applied, the daemon sends nothing, at whatever
    time and under whatever setting. *)
Theorem applied_not_rebroadcast ctl io s peer n org t :
  valid_str t → clipboard_paused ctl = false → org ≠ own_id → has_clip = true → zlen t ≤ max_text →
  let s' := sync_remote ctl io s peer (Clipboard n org [ClipEntry_text t]) in
  last_synced s' = Some (sha256 t) ∧
  ∀ ctl' now io', filex (sync_local ctl' now io' s' (LocalText t)) = filex s'.
Proof.
  intros Hv Hp Ho Hc Hl s'.
  assert (last_synced s' = Some (sha256 t)) as Hs.
  { subst s'. cbn [sync_remote]. rewrite Hp, Hc, bool_decide_eq_false_2 by done. cbn [orb negb find_map].
    change (as_text (ClipEntry_text t)) with (if decide (valid_str t) then Some t else None).
    rewrite decide_True by done. rewrite (proj2 (Z.ltb_ge _ _)) by lia. cbn [set_hist last_synced].
    by case_bool_decide. }
  split; [done|]. intros ctl' now io'. unfold sync_local.
  destruct (clipboard_paused ctl'); [done|]. case_match; [done|].
  cbn [set_hist set_last_broadcast last_synced]. case_match; [done|].
  by rewrite Hs, bool_decide_eq_true_2.
Qed.

(** The rate limit loses changes: a copy made within 300 ms of an accepted
    one is discarded, not delayed: the state is as if it had never been
    reported (and the clipboard thread reports each change once). *)
Theorem rate_limited_lost ctl now io s c d io' c' :
  clipboard_paused ctl = false → min_gap ≤ now - last_broadcast s → 0 ≤ d < min_gap →
  let s1 := sync_local ctl now io s c in
  last_broadcast s1 = now ∧ sync_local ctl (now + d) io' s1 c' = s1.
Proof.
  intros Hp Hg Hd s1.
  assert (last_broadcast s1 = now) as Hl.
  { destruct (sync_local_time ctl now io s c) as [E|[_ E]]; [|done]. subst s1.
    unfold sync_local in E |- *. rewrite Hp in *. rewrite (proj2 (Z.ltb_ge _ _)) in * by lia.
    destruct c as [t|png].
    - cbn [set_hist set_last_broadcast last_synced] in *. repeat case_match; done.
    - destruct (sync_images_on ctl); [|done]. cbn [set_hist set_last_broadcast last_synced] in *.
      case_bool_decide; [done|]. by case_match. }
  split; [done|]. unfold sync_local at 1. rewrite Hp, Hl.
  by rewrite (proj2 (Z.ltb_lt _ _)) by lia.
Qed.

(** Pausing does not stop images: while paused, an inline image from a peer
    is ignored, but one delivered as a blob, however it got there, is put on the
    clipboard. *)
Theorem paused_blob_applied io s images peer n org png :
  has_clip = true →
  let ctl := mkControls true images in
  sync_step s (ctl, io, SRemote peer (Clipboard n org [ClipEntry_png png])) = s ∧
  to_clip (sync_step s (ctl, io, SBlob png)) = to_clip s ++ [ApplyImage png].
Proof. intros Hc ctl. split; [done|]. cbn. unfold sync_blob. by rewrite Hc. Qed.

End sync.

(** ** Two devices *)

Section devices.
Context `{Hashes, Serde (list Entry), Desktop}.
Variable image_size : bytes → option (Z * Z).

(** What the clipboard promises after a successful write. *)
Class DesktopLaws := {
  get_after_set b t b' : board_set_text b t = (true, b') → board_text b' = Some t;
}.

(** A copy reaches the other device and stops there: a text copied on A
    (not paused, within the limits, not what A synced last) is queued for B
    once; B, given that update, puts exactly that text on its clipboard; B's
    clipboard thread then reports nothing, however often it polls, and B has
    sent nothing. *)
Theorem copy_reaches_peer `{!DesktopLaws}
    id_a id_b max_a max_b ctl_a ctl_b now io_a io_b (a b : sync) (th : clip_thread) t tx ch ty tys images :
  valid_str t → t ≠ [] → zlen t ≤ max_a → zlen t ≤ max_b → id_a ≠ id_b →
  clipboard_paused ctl_a = false → clipboard_paused ctl_b = false →
  min_gap ≤ now - last_broadcast a → last_synced a ≠ Some (sha256 t) → last_synced b ≠ Some (sha256 t) →
  bus_wf (bus (filex a)) → senders (bus (filex a)) !! id_b = Some tx →
  chans (bus (filex a)) !! tx = Some ch → closed ch = false → (length (queue ch) < cap ch)%nat →
  (board_set_text (desktop th) t).1 = true →
  let a' := sync_local image_size id_a max_a ctl_a now io_a a (LocalText t) in
  let m := Clipboard (u64_wrap (seq a + 1)) id_a [ClipEntry_text t] in
  let b' := sync_remote image_size id_b max_b true ctl_b io_b b id_a m in
  let th' := clip_step th (Command (ApplyText t)) ty images in
  queued (bus (filex a')) id_b = queue ch ++ [m] ∧
  to_clip b' = to_clip b ++ [ApplyText t] ∧
  board_text (desktop th') = Some t ∧
  reported (foldl (λ th ty', clip_step th Timeout ty' images) th' tys) = reported th ∧
  filex b' = filex b.
Proof.
  intros Hv Hne Hla Hlb Hid Hpa Hpb Hg Hsa Hsb Hbus Htx Hch Hcl Hcap Hset a' m b' th'.
  split_and!.
  - subst a'. unfold sync_local. rewrite Hpa. rewrite !(proj2 (Z.ltb_ge _ _)) by lia.
    cbn [set_hist set_last_broadcast last_synced]. rewrite bool_decide_eq_false_2 by congruence.
    cbn. fold m. by apply (broadcast_queued _ _ _ tx ch).
  - subst b' m. cbn [sync_remote]. rewrite Hpb, bool_decide_eq_false_2 by done. cbn [orb negb find_map].
    change (as_text (ClipEntry_text t)) with (if decide (valid_str t) then Some t else None).
    rewrite decide_True by done. rewrite (proj2 (Z.ltb_ge _ _)) by lia.
    cbn [set_hist last_synced]. by rewrite bool_decide_eq_false_2 by congruence.
  - subst th'. cbn [clip_step desktop]. unfold set_text.
    destruct (board_set_text (desktop th) t) as [ok bd] eqn:E. cbn in *. subst ok. by eapply get_after_set.
  - rewrite (polls_idle th' ty images tys) by done. done.
  - apply sync_remote_quiet.
Qed.
End devices.

(** ** Witnesses *)

#[local] Existing Instance sample_hashes.
#[local] Existing Instance sample_desktop.
#[local] Existing Instance entries_serde.

#[local] Instance sample_desktop_laws : DesktopLaws.
Proof. split. by intros [] t b' [= <-]. Qed.

Definition sample_xfer : FileXfer := mkXfer sample_bus [] Never 1 ∅ ∅ ∅ None sample_fs [].
Definition sample_sync : sync := sync_start 1000 sample_xfer sample_history.
Definition running : Controls := mkControls false true.
Definition local_at (now : Z) (t : str) : Controls * hist_io * sync_event :=
  (running, good_io, SLocal now (LocalText t)).

Lemma broadcasts_spaced_witness :
  let step := sync_step sample_size (lit "a") 100 true in
  let s1 := step sample_sync (local_at 1000 (lit "x")) in
  let s2 := foldl step s1 [local_at 1100 (lit "lost")] in
  seq (step s2 (local_at 1300 (lit "y"))) = 2 ∧ min_gap ≤ 1300 - 1000.
Proof.
  split; [vm_compute; reflexivity|].
  apply (broadcasts_spaced sample_size (lit "a") 100 true sample_sync [] (local_at 1000 (lit "x"))
           [local_at 1100 (lit "lost")] (local_at 1300 (lit "y"))); left; intros E;
    apply (f_equal (λ x, length (queued (bus x) (lit "a")))) in E; by vm_compute in E.
Defined.

Lemma remote_not_forwarded_witness :
  let xs := [(running, good_io, SRemote (lit "b") (Clipboard 1 (lit "b") [ClipEntry_text (lit "x")]));
             (running, good_io, SBlob (lit "png"))] in
  let s := foldl (sync_step sample_size (lit "a") 100 true) sample_sync xs in
  to_clip s = [ApplyText (lit "x"); ApplyImage (lit "png")] ∧ filex s = sample_xfer.
Proof.
  split; [vm_compute; reflexivity|].
  apply (remote_not_forwarded sample_size (lit "a") 100 true sample_sync). by repeat constructor.
Defined.

Lemma applied_not_rebroadcast_witness :
  let s' := sync_remote sample_size (lit "a") 100 true running good_io sample_sync (lit "b")
              (Clipboard 1 (lit "b") [ClipEntry_text (lit "x")]) in
  filex (sync_local sample_size (lit "a") 100 running 9999 good_io s' (LocalText (lit "x"))) = filex s'.
Proof.
  apply (applied_not_rebroadcast sample_size (lit "a") 100 true running good_io sample_sync (lit "b") 1 (lit "b")
           (lit "x")); [by apply valid_ascii|done|by vm_compute|done|by vm_compute].
Defined.

Lemma rate_limited_lost_witness :
  let s1 := sync_local sample_size (lit "a") 100 running 1000 good_io sample_sync (LocalText (lit "x")) in
  sync_local sample_size (lit "a") 100 running (1000 + 299) good_io s1 (LocalText (lit "y")) = s1.
Proof.
  apply (rate_limited_lost sample_size (lit "a") 100 running 1000 good_io sample_sync (LocalText (lit "x"))
           299 good_io (LocalText (lit "y"))); [done|by vm_compute|by vm_compute].
Defined.

Lemma paused_blob_applied_witness :
  to_clip (sync_step sample_size (lit "a") 100 true sample_sync
    (mkControls true true, good_io, SBlob (lit "png"))) = [ApplyImage (lit "png")].
Proof.
  apply (paused_blob_applied sample_size (lit "a") 100 true good_io sample_sync true (lit "b") 1 (lit "b") (lit "png")).
  done.
Defined.

Lemma copy_reaches_peer_witness :
  let a' := sync_local sample_size (lit "b") 100 running 1000 good_io sample_sync (LocalText (lit "x")) in
  queued (bus (filex a')) (lit "a") = [Clipboard 1 (lit "b") [ClipEntry_text (lit "x")]].
Proof.
  destruct (copy_reaches_peer sample_size (lit "b") (lit "a") 100 100 running running 1000 good_io good_io
    sample_sync sample_sync (@clip_start sample_hashes sample_desktop (None, None) None true) (lit "x") 0 (mkChan [] 2 false) None [None] true)
    as [E _]; try done; try (by vm_compute).
  - by apply valid_ascii.
  - apply sample_bus_wf.
  - cbn. lia.
Defined.
