(* ===== verification/Pairing.v ===== *)
(** * Pairing: the PIN-authenticated exchange ([crates/qdrop-core/src/pairing.rs])

    [exchange] is a program over a byte stream, the datatype [prog] of its
    reads and writes; two of them run against each other over two ordered byte
    queues, interleaved arbitrarily.  SPAKE2 is the interface [Spake], SHA-256
    and HMAC are [Hashes], the payload codec is [Serde].  Target resolution and
    dialling are functions of what mDNS reports and which connects succeed.

    The theorems: with equal PINs every interleaving ends with each side
    knowing the other's id, name and key; with PINs that do not agree, every
    interleaving ends with both sides refusing; whatever arrives on the stream,
    a peer is trusted only if its payload is authentic under the shared key;
    the addresses tried; what the final acknowledgement does not give; and that
    a silent dialler holds an offer. *)
From S2P Require Import Prelude Text Crypto Proto Frame Samples Net.

(** ** Data *)

Definition SPAKE_ID_A : bytes := lit "qdrop-pair-offerer".
Definition SPAKE_ID_B : bytes := lit "qdrop-pair-requester".
Definition MAX_PAIR_FRAME : Z := 4096.

Inductive Role := Offerer | Requester.

Record Paired := mkPaired { paired_id : str; paired_name : str; paired_key : bytes }.

Inductive PairError :=
| TargetNotFound (target : str)
| PairTimeout
| BadPin
| PeerAborted
| Protocol (what : str)
| PairIo (k : ErrorKind)
| PairOther.

Record PairPayload := mkPayload { pp_id : str; pp_name : str; pp_key : bytes }.
Record LocalInfo := mkLocalInfo { li_id : str; li_name : str; li_key : bytes }.
Definition LocalInfo_new (public_key : bytes) (device_id device_name : str) : LocalInfo :=
  mkLocalInfo device_id device_name public_key.

(** ** Programs over a stream *)

(** [write_all] (with its flush), [read_exact], and [read_exact] under a
    timeout ([None]: it elapsed). *)
Inductive prog (A : Type) :=
| Done (a : A)
| Write (bs : bytes) (k : result ErrorKind () → prog A)
| Read (n : nat) (k : result ErrorKind bytes → prog A)
| ReadTimed (n : nat) (k : option (result ErrorKind bytes) → prog A).
Arguments Done {A}.
Arguments Write {A}.
Arguments Read {A}.
Arguments ReadTimed {A}.

(** ** The exchange *)

(** [spake2::Spake2<Ed25519Group>]: a side's state and first message from the
    password, the two identities and its random scalar, and the shared key. *)
Class Spake := {
  spake_state : Type;
  start_a : bytes → bytes → bytes → bytes → spake_state * bytes;
  start_b : bytes → bytes → bytes → bytes → spake_state * bytes;
  spake_finish : spake_state → bytes → option bytes;
}.

Section exchange.
Context `{Hashes, Spake, Serde PairPayload}.

Definition derive (key label : bytes) : bytes := sha256 (label ++ [Byte.x00] ++ key).

Definition read_err (e : ErrorKind) : PairError :=
  if decide (e = UnexpectedEof) then PeerAborted else PairIo e.

Definition write_exact {A} (data : bytes) (fail : PairError → prog A) (k : prog A) : prog A :=
  Write data (λ r, match r with Ok _ => k | Err e => fail (PairIo e) end).

Definition write_chunk {A} (data : bytes) (fail : PairError → prog A) (k : prog A) : prog A :=
  if zlen data <=? u16_max then
    write_exact (to_be_bytes 2 (zlen data)) fail (write_exact data fail k)
  else fail (Protocol (lit "chunk too large")).

Definition read_into {A} (n : nat) (fail : PairError → prog A) (k : bytes → prog A) : prog A :=
  Read n (λ r, match r with Ok b => k b | Err e => fail (read_err e) end).

Definition read_chunk {A} (fail : PairError → prog A) (k : bytes → prog A) : prog A :=
  read_into 2 fail (λ len,
    let n := from_be_bytes len in
    if (n =? 0) || (MAX_PAIR_FRAME <? n) then fail (Protocol (lit "bad chunk length " ++ dec n))
    else read_into (Z.to_nat n) fail k).

(** [hmac_sha256(&recv_key, &their_payload)] and what follows it. *)
Definition finish_exchange (their_payload : bytes) : result PairError Paired :=
  match deserialize their_payload with
  | None => Err (Protocol (lit "decode"))
  | Some parsed =>
      if (length (pp_key parsed) =? 32)%nat
      then Ok (mkPaired (pp_id parsed) (pp_name parsed) (pp_key parsed))
      else Err (Protocol (lit "peer sent a malformed public key"))
  end.

Definition subkeys (role : Role) (key : bytes) : bytes * bytes :=
  match role with
  | Offerer => (derive key (lit "a2b"), derive key (lit "b2a"))
  | Requester => (derive key (lit "b2a"), derive key (lit "a2b"))
  end.

Definition spake_start (role : Role) (pin : str) (rnd : bytes) : spake_state * bytes :=
  match role with
  | Offerer => start_a pin SPAKE_ID_A SPAKE_ID_B rnd
  | Requester => start_b pin SPAKE_ID_A SPAKE_ID_B rnd
  end.

Definition payload_of (local : LocalInfo) : PairPayload :=
  mkPayload (li_id local) (li_name local) (li_key local).

Definition exchange (role : Role) (pin : str) (rnd : bytes) (local : LocalInfo)
    : prog (result PairError Paired) :=
  let fail e := Done (Err e) in
  let '(state, our_spake) := spake_start role pin rnd in
  write_chunk our_spake fail (
  read_chunk fail (λ their_spake,
  match spake_finish state their_spake with
  | None => fail (Protocol (lit "SPAKE2 finish failed"))
  | Some key =>
      let '(send_key, recv_key) := subkeys role key in
      match serialize (payload_of local) with
      | None => fail (Protocol (lit "encode"))
      | Some payload =>
          write_chunk payload fail (
          write_exact (hmac_sha256 send_key payload) fail (
          read_chunk fail (λ their_payload,
          read_into 32 fail (λ their_tag,
          if negb (ct_eq (hmac_sha256 recv_key their_payload) their_tag) then
            Write [Byte.x00] (λ _, fail BadPin)
          else
            write_exact [Byte.x01] fail (
            ReadTimed 1 (λ r,
              match r with
              | Some (Ok ack) => if bool_decide (ack = [Byte.x01]) then Done (finish_exchange their_payload)
                                 else fail PeerAborted
              | _ => fail PeerAborted
              end))))))
      end
  end)).

(** ** One side against any stream *)

(** What the program returns and writes, reading from [r]; [late]: the timed
    read elapses. *)
Fixpoint play {A} (p : prog A) (r : Reader) (late : bool) (out : bytes) : A * bytes :=
  match p with
  | Done a => (a, out)
  | Write bs k => play (k (Ok ())) r late (out ++ bs)
  | Read n k => let '(x, r) := read_exact n r in play (k x) r late out
  | ReadTimed n k => if late then play (k None) r late out
                     else let '(x, r) := read_exact n r in play (k (Some x)) r late out
  end.

Definition chunk (data : bytes) : bytes := to_be_bytes 2 (zlen data) ++ data.

(** The stream starts with the bytes read. *)
Lemma read_exact_ok n r b r' :
  read_exact n r = (Ok b, r') → length b = n ∧ avail r = b ++ avail r' ∧ fault r' = fault r.
Proof.
  unfold read_exact. destruct (n <=? length (avail r))%nat eqn:E; [|done].
  apply Nat.leb_le in E. intros [= <- <-]. cbn. rewrite length_take, take_drop. split_and!; [lia|done|done].
Qed.

Lemma play_read_chunk {A} (e : PairError → prog A) k r late out a o (P : A → Prop) :
  (∀ x r o', P (fst (play (e x) r late o')) → False) →
  play (read_chunk e k) r late out = (a, o) → P a →
  ∃ data r', avail r = chunk data ++ avail r' ∧ 0 < zlen data ≤ MAX_PAIR_FRAME ∧
    play (k data) r' late out = (a, o).
Proof.
  intros Hf Hp HP. unfold read_chunk, read_into in Hp. cbn [play] in Hp.
  destruct (read_exact 2 r) as [[len|x] r1] eqn:E1.
  2: { exfalso. eapply Hf. rewrite Hp. exact HP. }
  apply read_exact_ok in E1 as (Hl & Hr & _).
  destruct ((from_be_bytes len =? 0) || (MAX_PAIR_FRAME <? from_be_bytes len)) eqn:Eb.
  { exfalso. eapply Hf. rewrite Hp. exact HP. }
  apply orb_false_iff in Eb as [Eb1%Z.eqb_neq Eb2%Z.ltb_ge]. cbn [play] in Hp.
  pose proof (from_be_bytes_range len) as Hrange.
  destruct (read_exact (Z.to_nat (from_be_bytes len)) r1) as [[data|x] r2] eqn:E2.
  2: { exfalso. eapply Hf. rewrite Hp. exact HP. }
  apply read_exact_ok in E2 as (Hl2 & Hr2 & _). exists data, r2.
  assert (zlen data = from_be_bytes len) as Hz by (unfold zlen; rewrite Hl2; lia).
  split_and!; [|lia|lia|done]. unfold chunk. rewrite Hr, Hr2, app_assoc, Hz. f_equal. f_equal.
  rewrite <- (to_from_be_bytes len) at 1. by rewrite Hl.
Qed.

Lemma play_write_chunk {A} data (e : PairError → prog A) k r late out a o (P : A → Prop) :
  (∀ x r o', P (fst (play (e x) r late o')) → False) →
  play (write_chunk data e k) r late out = (a, o) → P a →
  zlen data ≤ u16_max ∧ play k r late (out ++ chunk data) = (a, o).
Proof.
  intros Hf Hp HP. unfold write_chunk in Hp. destruct (zlen data <=? u16_max) eqn:E; zsolve.
  - split; [done|]. cbn [play write_exact] in Hp. unfold chunk. by rewrite app_assoc.
  - exfalso. eapply Hf. rewrite Hp. exact HP.
Qed.

(** (C3) Nothing unauthenticated is trusted: whatever bytes an attacker puts on
    the stream, [exchange] returns a peer only if the stream carries a first
    message that gives a shared key, a payload followed by its HMAC under the
    receiving half of that key, and an acknowledgement; the identity returned is
    the one in that payload, with a 32-byte key. *)
Theorem exchange_authentic `{!HashLaws} role pin rnd local r late out peer o :
  play (exchange role pin rnd local) r late out = (Ok peer, o) →
  late = false ∧ length (paired_key peer) = 32%nat ∧
  ∃ msg key payload rest,
    spake_finish (spake_start role pin rnd).1 msg = Some key ∧
    avail r = chunk msg ++ chunk payload ++ hmac_sha256 (subkeys role key).2 payload ++ [Byte.x01] ++ rest ∧
    deserialize payload = Some (mkPayload (paired_id peer) (paired_name peer) (paired_key peer)).
Proof.
  unfold exchange. destruct (spake_start role pin rnd) as [st ours]. cbn [fst].
  set (P := λ x : result PairError Paired, x = Ok peer).
  assert (∀ x r o', P (fst (play (Done (Err x)) r late o')) → False) as Hf by done.
  intros Hp. apply (play_write_chunk _ _ _ _ _ _ _ _ P Hf) in Hp as [_ Hp]; [|done].
  apply (play_read_chunk _ _ _ _ _ _ _ P Hf) in Hp as (msg & r1 & Hr1 & _ & Hp); [|done].
  destruct (spake_finish st msg) as [key|] eqn:Ek; [|done].
  destruct (subkeys role key) as [sk rk] eqn:Es.
  destruct (serialize (payload_of local)) as [pl|]; [|done].
  apply (play_write_chunk _ _ _ _ _ _ _ _ P Hf) in Hp as [_ Hp]; [|done]. cbn [play write_exact] in Hp.
  apply (play_read_chunk _ _ _ _ _ _ _ P Hf) in Hp as (payload & r2 & Hr2 & _ & Hp); [|done].
  unfold read_into in Hp. cbn [play] in Hp.
  destruct (read_exact 32 r2) as [[tag|x] r3] eqn:E3; [|done].
  apply read_exact_ok in E3 as (Hl3 & Hr3 & _).
  destruct (ct_eq _ tag) eqn:Et; cbn [negb play write_exact] in Hp; [|done].
  apply ct_eq_iff in Et; [|apply hmac_length|done]. destruct late; [done|].
  destruct (read_exact 1 r3) as [[a|x] r4] eqn:E4; [|done]. apply read_exact_ok in E4 as (_ & Hr4 & _).
  cbn [play] in Hp. case_bool_decide as Ea; [subst a|done]. cbn [play] in Hp. injection Hp as Hp _.
  unfold finish_exchange in Hp. destruct (deserialize payload) as [pp|] eqn:Ed; [|done].
  destruct (length (pp_key pp) =? 32)%nat eqn:El; [|done]. injection Hp as <-. apply Nat.eqb_eq in El.
  split_and!; [done|done|]. exists msg, key, payload, (avail r4). rewrite Es. split_and!; [done| |by destruct pp].
  by rewrite Hr1, Hr2, Hr3, Hr4, <- Et.
Qed.

(** ** Two sides *)

(** Each side's program and the bytes on their way in each direction.  A
    stream whose writer has returned is closed: what is left can be read, then
    the reader sees the end of file. *)
Record conf := mkConf {
  left : prog (result PairError Paired);
  right : prog (result PairError Paired);
  to_right : bytes;
  to_left : bytes;
}.
Definition swap (c : conf) : conf := mkConf (right c) (left c) (to_left c) (to_right c).

Definition is_done {A} (p : prog A) : bool := match p with Done _ => true | _ => false end.

(** A read of [n] bytes: the bytes, the end of file, or nothing yet. *)
Definition try_read (n : nat) (q : bytes) (writer_done : bool) : option (result ErrorKind bytes * bytes) :=
  if (n <=? length q)%nat then Some (Ok (take n q), drop n q)
  else if writer_done then Some (Err UnexpectedEof, []) else None.

(** One operation of the left side; [None]: finished, or waiting for bytes. *)
Definition lstep (c : conf) : option conf :=
  match left c with
  | Done _ => None
  | Write bs k => Some (mkConf (k (Ok ())) (right c) (to_right c ++ bs) (to_left c))
  | Read n k =>
      match try_read n (to_left c) (is_done (right c)) with
      | Some (x, q) => Some (mkConf (k x) (right c) (to_right c) q)
      | None => None
      end
  | ReadTimed n k =>
      match try_read n (to_left c) (is_done (right c)) with
      | Some (x, q) => Some (mkConf (k (Some x)) (right c) (to_right c) q)
      | None => None
      end
  end.
Definition rstep (c : conf) : option conf := swap <$> lstep (swap c).

(** Any interleaving in which no timeout elapses. *)
Definition cstep (c d : conf) : Prop := lstep c = Some d ∨ rstep c = Some d.
Definition stuck (c : conf) : Prop := lstep c = None ∧ rstep c = None.

Lemma try_read_more n q extra w x q' :
  try_read n q false = Some (x, q') → try_read n (q ++ extra) w = Some (x, q' ++ extra).
Proof.
  unfold try_read. destruct (n <=? length q)%nat eqn:E; [|done]. apply Nat.leb_le in E.
  intros [= <- <-]. rewrite (proj2 (Nat.leb_le _ _)) by (rewrite length_app; lia).
  by rewrite take_app_le, drop_app_le by lia.
Qed.

(** What one operation of a side does to its own program, its input and its
    output, given whether the other side is done. *)
Definition own_step (p : prog (result PairError Paired)) (inq : bytes) (other_done : bool)
    : option (prog (result PairError Paired) * bytes * bytes) :=
  match p with
  | Done _ => None
  | Write bs k => Some (k (Ok ()), inq, bs)
  | Read n k => (λ '(x, q), (k x, q, [])) <$> try_read n inq other_done
  | ReadTimed n k => (λ '(x, q), (k (Some x), q, [])) <$> try_read n inq other_done
  end.

Lemma lstep_own c :
  lstep c = (λ '(p, q, o), mkConf p (right c) (to_right c ++ o) q) <$>
            own_step (left c) (to_left c) (is_done (right c)).
Proof.
  destruct c as [p r ab ba]. unfold lstep, own_step. cbn [left right to_left to_right].
  destruct p as [a|bs k|n k|n k]; try done;
    (destruct (try_read n ba (is_done r)) as [[x q]|]; [|done]; cbn; by rewrite app_nil_r).
Qed.

Lemma own_step_more p q extra w r :
  own_step p q false = Some r → own_step p (q ++ extra) w = Some (r.1.1, r.1.2 ++ extra, r.2).
Proof.
  destruct p as [a|bs k|n k|n k]; cbn [own_step]; [done|by intros [= <-]|..];
    (destruct (try_read n q false) as [[x q']|] eqn:E; [|done]; intros [= <-];
     by rewrite (try_read_more n q extra w x q' E)).
Qed.

Lemma own_step_done p q w r : own_step p q w = Some r → is_done p = false.
Proof. by destruct p. Qed.

(** Steps of the two sides commute. *)
Lemma steps_commute c d e :
  lstep c = Some d → rstep c = Some e → ∃ f, rstep d = Some f ∧ lstep e = Some f.
Proof.
  unfold rstep. intros Hd He. setoid_rewrite lstep_own. revert Hd He. rewrite !lstep_own.
  destruct c as [p r ab ba]. cbn [swap left right to_left to_right].
  destruct (own_step p ba (is_done r)) as [[[p' ba'] o]|] eqn:El; [|done].
  destruct (own_step r ab (is_done p)) as [[[r' ab'] o']|] eqn:Er; [|done].
  cbn [fmap option_fmap option_map]. intros [= <-] [= <-]. cbn [swap left right to_left to_right].
  rewrite (own_step_done _ _ _ _ El) in Er. rewrite (own_step_done _ _ _ _ Er) in El.
  exists (mkConf p' r' (ab' ++ o) (ba' ++ o')). cbn [swap left right to_left to_right].
  by rewrite (own_step_more _ _ _ _ _ Er), (own_step_more _ _ _ _ _ El).
Qed.

(** So every run reaches the one final configuration, in as many steps. *)
Lemma cstep_diamond c d e : cstep c d → cstep c e → d = e ∨ ∃ f, cstep d f ∧ cstep e f.
Proof.
  intros [Hd|Hd] [He|He].
  - left. congruence.
  - right. destruct (steps_commute c d e Hd He) as (f & ? & ?). exists f. split; [by right|by left].
  - right. destruct (steps_commute c e d He Hd) as (f & ? & ?). exists f. split; [by left|by right].
  - left. congruence.
Qed.

Lemma stuck_no_step c d : stuck c → cstep c d → False.
Proof. intros [? ?] [?|?]; congruence. Qed.

Lemma nsteps_final n c f d :
  nsteps cstep n c f → stuck f → cstep c d → ∃ m, n = S m ∧ nsteps cstep m d f.
Proof.
  intros Hn Hf. revert d. induction Hn as [c|n c e f Hce Hef IH]; intros d Hcd.
  - by destruct (stuck_no_step c d).
  - exists n. split; [done|]. destruct (cstep_diamond c d e Hcd Hce) as [->|(g & Hdg & Heg)]; [done|].
    destruct (IH Hf g Heg) as (m & -> & Hg). by econstructor.
Qed.

(** Every run from [c] is at most as long as this one, can be continued to
    [f], and ends nowhere else. *)
Lemma runs_end n c f : nsteps cstep n c f → stuck f →
  ∀ k d, nsteps cstep k c d → (k ≤ n)%nat ∧ nsteps cstep (n - k) d f ∧ (stuck d → d = f).
Proof.
  intros Hn Hf k d Hk. revert n Hn. induction Hk as [c|k c e d Hce Hed IH]; intros n Hn.
  - rewrite Nat.sub_0_r. split_and!; [lia|done|]. intros Hc. inversion Hn; subst; [done|].
    by destruct (stuck_no_step c y).
  - destruct (nsteps_final n c f e Hn Hf Hce) as (m & -> & Hm). destruct (IH m Hm) as (? & ? & ?).
    split_and!; [lia|done|done].
Qed.

(** ** Runs of the left side, and of the right side by symmetry *)

Lemma swap_swap c : swap (swap c) = c.
Proof. by destruct c. Qed.

Lemma cstep_swap c d : cstep c d → cstep (swap c) (swap d).
Proof.
  unfold cstep, rstep. rewrite swap_swap. intros [Hl|Hr]; [right; by rewrite Hl|left].
  destruct (lstep (swap c)) as [e|]; [|done]. injection Hr as <-. by rewrite swap_swap.
Qed.

Lemma run_swap p r ab ba p' r' ab' ba' :
  rtc cstep (mkConf p r ab ba) (mkConf p' r' ab' ba') → rtc cstep (mkConf r p ba ab) (mkConf r' p' ba' ab').
Proof.
  change (mkConf r p ba ab) with (swap (mkConf p r ab ba)).
  change (mkConf r' p' ba' ab') with (swap (mkConf p' r' ab' ba')).
  generalize (mkConf p r ab ba) (mkConf p' r' ab' ba'). intros c d.
  induction 1 as [c|c e d Hce _ IH]; [done|]. eapply rtc_l; [by apply cstep_swap|done].
Qed.

Lemma run_write bs k r ab ba :
  rtc cstep (mkConf (Write bs k) r ab ba) (mkConf (k (Ok ())) r (ab ++ bs) ba).
Proof. apply rtc_once. by left. Qed.

Lemma run_read n k r ab b ba :
  length b = n → rtc cstep (mkConf (Read n k) r ab (b ++ ba)) (mkConf (k (Ok b)) r ab ba).
Proof.
  intros <-. apply rtc_once. left. unfold lstep, try_read. cbn [left to_left].
  rewrite (proj2 (Nat.leb_le _ _)) by (rewrite length_app; lia).
  by rewrite take_app_length, drop_app_length.
Qed.

Lemma run_read_timed n k r ab b ba :
  length b = n → rtc cstep (mkConf (ReadTimed n k) r ab (b ++ ba)) (mkConf (k (Some (Ok b))) r ab ba).
Proof.
  intros <-. apply rtc_once. left. unfold lstep, try_read. cbn [left to_left].
  rewrite (proj2 (Nat.leb_le _ _)) by (rewrite length_app; lia).
  by rewrite take_app_length, drop_app_length.
Qed.

Lemma run_write_chunk data e k r ab ba :
  zlen data ≤ MAX_PAIR_FRAME →
  rtc cstep (mkConf (write_chunk data e k) r ab ba) (mkConf k r (ab ++ chunk data) ba).
Proof.
  intros Hd. unfold write_chunk. rewrite (proj2 (Z.leb_le _ _)) by (unfold MAX_PAIR_FRAME, u16_max in *; lia).
  etrans; [apply run_write|]. etrans; [apply run_write|]. unfold chunk. by rewrite app_assoc.
Qed.

Lemma run_read_chunk data e k r ab ba :
  0 < zlen data ≤ MAX_PAIR_FRAME →
  rtc cstep (mkConf (read_chunk e k) r ab (chunk data ++ ba)) (mkConf (k data) r ab ba).
Proof.
  intros Hd. unfold chunk. rewrite <- app_assoc.
  etrans; [by apply run_read, length_to_be_bytes|]. cbv beta iota zeta.
  rewrite from_to_be_bytes, Z.mod_small by (unfold MAX_PAIR_FRAME in *; lia).
  rewrite (proj2 (Z.eqb_neq _ _)), (proj2 (Z.ltb_ge _ _)) by lia.
  apply run_read. unfold zlen. lia.
Qed.

(** ** The outcome of an exchange *)

(** Every run is finite and ends with these results. *)
Definition ends_with (c : conf) (ra rb : result PairError Paired) : Prop :=
  ∃ n, ∀ k d, nsteps cstep k c d → (k ≤ n)%nat ∧ (stuck d → left d = Done ra ∧ right d = Done rb).

Lemma ends_with_run c ra rb ab ba : rtc cstep c (mkConf (Done ra) (Done rb) ab ba) → ends_with c ra rb.
Proof.
  intros (n & Hn)%rtc_nsteps. exists n. intros k d Hk.
  assert (stuck (mkConf (Done ra) (Done rb) ab ba)) as Hs by done.
  destruct (runs_end n c _ Hn Hs k d Hk) as (? & _ & Hd). split; [done|]. by intros ->%Hd.
Qed.

(** The two sides of a connection. *)
Record side := mkSide { s_pin : str; s_rnd : bytes; s_local : LocalInfo }.
Definition sides (a b : side) : conf :=
  mkConf (exchange Offerer (s_pin a) (s_rnd a) (s_local a))
         (exchange Requester (s_pin b) (s_rnd b) (s_local b)) [] [].

(** What a side answers, given its own check and the other's. *)
Definition verdict (mine theirs : bool) (payload : bytes) : result PairError Paired :=
  if mine then if theirs then finish_exchange payload else Err PeerAborted else Err BadPin.

(** [tag_ok mine theirs label payload]: the tag the other side made with its
    key passes this side's check. *)
Definition tag_ok (mine theirs label payload : bytes) : bool :=
  ct_eq (hmac_sha256 (derive mine label) payload) (hmac_sha256 (derive theirs label) payload).

(** After the tags: the confirmation bytes decide. *)
Definition confirm_tail (ok : bool) (payload : bytes) : prog (result PairError Paired) :=
  if negb ok then Write [Byte.x00] (λ _, Done (Err BadPin))
  else write_exact [Byte.x01] (λ e, Done (Err e))
    (ReadTimed 1 (λ r,
       match r with
       | Some (Ok ack) => if bool_decide (ack = [Byte.x01]) then Done (finish_exchange payload)
                          else Done (Err PeerAborted)
       | _ => Done (Err PeerAborted)
       end)).

Lemma confirm_run oka okb pla plb :
  ∃ ab ba, rtc cstep (mkConf (confirm_tail oka plb) (confirm_tail okb pla) [] [])
             (mkConf (Done (verdict oka okb plb)) (Done (verdict okb oka pla)) ab ba).
Proof.
  unfold confirm_tail, write_exact. 
  assert (∀ p k bs, (∃ ab ba, rtc cstep (mkConf (k (Ok ())) p bs []) (mkConf (Done (verdict oka okb plb))
    (Done (verdict okb oka pla)) ab ba)) → ∃ ab ba, rtc cstep (mkConf (Write bs k) p [] [])
    (mkConf (Done (verdict oka okb plb)) (Done (verdict okb oka pla)) ab ba)) as Hw.
  { intros p k bs (ab & ba & Hr). exists ab, ba. etrans; [apply run_write|done]. }
  destruct oka, okb; cbn [negb verdict] in *; apply Hw; eexists _, _.
  - etrans; [apply run_swap, run_write|]. cbv beta iota.
    etrans; [by apply (run_read_timed 1 _ _ _ [Byte.x01] [])|]. cbv beta iota.
    etrans; [by apply run_swap, (run_read_timed 1 _ _ _ [Byte.x01] [])|]. cbv beta iota.
    rewrite !bool_decide_eq_true_2 by done. done.
  - etrans; [apply run_swap, run_write|]. cbv beta iota.
    etrans; [by apply (run_read_timed 1 _ _ _ [Byte.x00] [])|]. cbv beta iota. done.
  - etrans; [apply run_swap, run_write|]. cbv beta iota.
    etrans; [by apply run_swap, (run_read_timed 1 _ _ _ [Byte.x00] [])|]. cbv beta iota. done.
  - etrans; [apply run_swap, run_write|]. done.
Qed.

#[local] Opaque ct_eq chunk.

Lemma exchange_run `{!HashLaws} a b sa sb ma mb ka kb pla plb :
  spake_start Offerer (s_pin a) (s_rnd a) = (sa, ma) → spake_start Requester (s_pin b) (s_rnd b) = (sb, mb) →
  spake_finish sa mb = Some ka → spake_finish sb ma = Some kb →
  serialize (payload_of (s_local a)) = Some pla → serialize (payload_of (s_local b)) = Some plb →
  0 < zlen ma ≤ MAX_PAIR_FRAME → 0 < zlen mb ≤ MAX_PAIR_FRAME →
  0 < zlen pla ≤ MAX_PAIR_FRAME → 0 < zlen plb ≤ MAX_PAIR_FRAME →
  let oka := tag_ok ka kb (lit "b2a") plb in
  let okb := tag_ok kb ka (lit "a2b") pla in
  ends_with (sides a b) (verdict oka okb plb) (verdict okb oka pla).
Proof.
  intros Ea Eb Eka Ekb Epa Epb Hma Hmb Hpa Hpb oka okb.
  destruct (confirm_run oka okb pla plb) as (ab & ba & Htail).
  apply (ends_with_run _ _ _ ab ba). unfold sides, exchange. rewrite Ea, Eb.
  etrans; [apply run_write_chunk; lia|]. etrans; [apply run_swap, run_write_chunk; lia|]. cbn [app].
  rewrite <- (app_nil_r (chunk mb)). etrans; [by apply run_read_chunk|]. cbv beta. rewrite Eka.
  rewrite <- (app_nil_r (chunk ma)). etrans; [by apply run_swap, run_read_chunk|]. cbv beta. rewrite Ekb.
  cbn [subkeys]. rewrite Epa, Epb.
  etrans; [apply run_write_chunk; lia|]. etrans; [apply run_write|]. cbv beta iota.
  etrans; [apply run_swap, run_write_chunk; lia|]. etrans; [apply run_swap, run_write|]. cbv beta iota.
  cbn [app]. rewrite <- (app_nil_r (hmac_sha256 _ plb)).
  etrans; [by apply run_read_chunk|]. cbv beta.
  etrans; [by apply run_read, hmac_length|]. cbv beta iota.
  rewrite <- (app_nil_r (hmac_sha256 _ pla)).
  etrans; [by apply run_swap, run_read_chunk|]. cbv beta.
  etrans; [by apply run_swap, run_read, hmac_length|]. cbv beta iota.
  subst oka okb. unfold tag_ok, confirm_tail in Htail |- *. exact Htail.
Qed.

#[local] Transparent chunk.

(** What SPAKE2 promises the two sides. *)
Class SpakeLaws := {
  spake_agree pin ra rb sa ma sb mb :
    spake_start Offerer pin ra = (sa, ma) → spake_start Requester pin rb = (sb, mb) →
    ∃ k, spake_finish sa mb = Some k ∧ spake_finish sb ma = Some k;
  spake_size role pin rnd : 0 < zlen (spake_start role pin rnd).2 ≤ MAX_PAIR_FRAME;
}.

Definition learned (l : LocalInfo) : Paired := mkPaired (li_id l) (li_name l) (li_key l).

(** (C1) Pairing with the right PIN: when both sides use the same PIN, every
    interleaving of their reads and writes is finite and ends with each side
    having learned exactly the other's device id, name and public key. *)
Theorem pairing_succeeds `{!HashLaws, !SpakeLaws, !SerdeLaws PairPayload} a b pla plb :
  s_pin a = s_pin b →
  serialize (payload_of (s_local a)) = Some pla → 0 < zlen pla ≤ MAX_PAIR_FRAME →
  serialize (payload_of (s_local b)) = Some plb → 0 < zlen plb ≤ MAX_PAIR_FRAME →
  length (li_key (s_local a)) = 32%nat → length (li_key (s_local b)) = 32%nat →
  ends_with (sides a b) (Ok (learned (s_local b))) (Ok (learned (s_local a))).
Proof.
  intros Hpin Epa Hpa Epb Hpb Hka Hkb.
  destruct (spake_start Offerer (s_pin a) (s_rnd a)) as [sa ma] eqn:Ea.
  destruct (spake_start Requester (s_pin b) (s_rnd b)) as [sb mb] eqn:Eb.
  pose proof (spake_size Offerer (s_pin a) (s_rnd a)) as Hma. rewrite Ea in Hma.
  pose proof (spake_size Requester (s_pin b) (s_rnd b)) as Hmb. rewrite Eb in Hmb.
  destruct (spake_agree (s_pin a) (s_rnd a) (s_rnd b) sa ma sb mb Ea) as (k & Eka & Ekb); [by rewrite Hpin|].
  pose proof (exchange_run a b sa sb ma mb k k pla plb Ea Eb Eka Ekb Epa Epb Hma Hmb Hpa Hpb) as Hend.
  assert (∀ l p, tag_ok k k l p = true) as Hok by (intros; apply ct_eq_iff; [apply hmac_length..|done]).
  cbv zeta in Hend. rewrite !Hok in Hend. cbn [verdict] in Hend. unfold finish_exchange in Hend.
  rewrite (deserialize_serialize _ _ Epa), (deserialize_serialize _ _ Epb) in Hend.
  cbn [payload_of pp_key pp_id pp_name] in Hend. rewrite Hka, Hkb in Hend. exact Hend.
Qed.

(** (C7) Pairing with PINs that do not agree fails closed: if the two sides end
    up with keys under which even one side's tag does not verify, every
    interleaving is finite and neither side returns a peer; the side that saw
    the bad tag reports a bad PIN, the other a bad PIN or an abort. *)
Theorem pairing_fails_closed `{!HashLaws, !SpakeLaws} a b sa sb ma mb ka kb pla plb :
  spake_start Offerer (s_pin a) (s_rnd a) = (sa, ma) → spake_start Requester (s_pin b) (s_rnd b) = (sb, mb) →
  spake_finish sa mb = Some ka → spake_finish sb ma = Some kb →
  serialize (payload_of (s_local a)) = Some pla → 0 < zlen pla ≤ MAX_PAIR_FRAME →
  serialize (payload_of (s_local b)) = Some plb → 0 < zlen plb ≤ MAX_PAIR_FRAME →
  hmac_sha256 (derive ka (lit "b2a")) plb ≠ hmac_sha256 (derive kb (lit "b2a")) plb →
  ∃ eb, (eb = BadPin ∨ eb = PeerAborted) ∧ ends_with (sides a b) (Err BadPin) (Err eb).
Proof.
  intros Ea Eb Eka Ekb Epa Hpa Epb Hpb Hne.
  pose proof (spake_size Offerer (s_pin a) (s_rnd a)) as Hma. rewrite Ea in Hma.
  pose proof (spake_size Requester (s_pin b) (s_rnd b)) as Hmb. rewrite Eb in Hmb.
  pose proof (exchange_run a b sa sb ma mb ka kb pla plb Ea Eb Eka Ekb Epa Epb Hma Hmb Hpa Hpb) as Hend.
  cbv zeta in Hend.
  assert (tag_ok ka kb (lit "b2a") plb = false) as Hbad.
  { destruct (tag_ok ka kb (lit "b2a") plb) eqn:E; [|done]. destruct Hne.
    by apply ct_eq_iff in E; [|apply hmac_length..]. }
  rewrite Hbad in Hend. cbn [verdict] in Hend.
  destruct (tag_ok kb ka (lit "a2b") pla); cbn [verdict] in Hend; eexists; (split; [|exact Hend]); auto.
Qed.

(** The acknowledgement is not authenticated: an attacker between two
    sides with the right PIN, who spoils the offerer's payload and turns the
    refusal byte into an approval, makes the offerer trust a peer that has
    refused it. *)
Theorem ack_forgeable `{!HashLaws, !SpakeLaws, !SerdeLaws PairPayload} a b sa sb ma mb k pla plb bad :
  spake_start Offerer (s_pin a) (s_rnd a) = (sa, ma) → spake_start Requester (s_pin b) (s_rnd b) = (sb, mb) →
  spake_finish sa mb = Some k → spake_finish sb ma = Some k →
  serialize (payload_of (s_local a)) = Some pla → zlen pla ≤ MAX_PAIR_FRAME →
  serialize (payload_of (s_local b)) = Some plb → 0 < zlen plb ≤ MAX_PAIR_FRAME →
  length (li_key (s_local b)) = 32%nat → 0 < zlen bad ≤ MAX_PAIR_FRAME →
  hmac_sha256 (derive k (lit "a2b")) bad ≠ hmac_sha256 (derive k (lit "a2b")) pla →
  let tag_a := hmac_sha256 (derive k (lit "a2b")) pla in
  let tag_b := hmac_sha256 (derive k (lit "b2a")) plb in
  fst (play (exchange Requester (s_pin b) (s_rnd b) (s_local b))
         (mkReader (chunk ma ++ chunk bad ++ tag_a) None) false []) = Err BadPin ∧
  fst (play (exchange Offerer (s_pin a) (s_rnd a) (s_local a))
         (mkReader (chunk mb ++ chunk plb ++ tag_b ++ [Byte.x01]) None) false []) = Ok (learned (s_local b)).
Proof.
  intros Ea Eb Eka Ekb Epa Hpa Epb Hpb Hkey Hbad Hne tag_a tag_b.
  pose proof (spake_size Offerer (s_pin a) (s_rnd a)) as Hma. rewrite Ea in Hma. cbn [snd] in Hma.
  pose proof (spake_size Requester (s_pin b) (s_rnd b)) as Hmb. rewrite Eb in Hmb. cbn [snd] in Hmb.
  assert (∀ d e (kk : prog (result PairError Paired)) r out, zlen d ≤ MAX_PAIR_FRAME →
    play (write_chunk d e kk) r false out = play kk r false (out ++ chunk d)) as Hw.
  { intros d e kk r out Hd. unfold write_chunk.
    rewrite (proj2 (Z.leb_le _ _)) by (unfold MAX_PAIR_FRAME, u16_max in *; lia).
    cbn [play write_exact]. unfold chunk. by rewrite app_assoc. }
  assert (∀ d e (kk : bytes → prog (result PairError Paired)) rest out, 0 < zlen d ≤ MAX_PAIR_FRAME →
    play (read_chunk e kk) (mkReader (chunk d ++ rest) None) false out = play (kk d) (mkReader rest None) false out) as Hr.
  { intros d e kk rest out Hd. unfold read_chunk, read_into, chunk. cbn [play]. rewrite <- app_assoc.
    rewrite read_exact_app by apply length_to_be_bytes.
    rewrite from_to_be_bytes, Z.mod_small by (unfold MAX_PAIR_FRAME in *; lia).
    rewrite (proj2 (Z.eqb_neq _ _)), (proj2 (Z.ltb_ge _ _)) by lia. cbn [orb play].
    by rewrite read_exact_app by (unfold zlen; lia). }
  unfold exchange. rewrite Ea, Eb. split.
  - rewrite Hw, Hr by lia. rewrite Ekb, Epb. cbn [subkeys]. rewrite Hw by lia. cbn [play write_exact].
    rewrite Hr by lia. unfold read_into. cbn [play]. rewrite <- (app_nil_r tag_a).
    rewrite read_exact_app by apply hmac_length.
    destruct (ct_eq _ tag_a) eqn:E; [|done]. apply ct_eq_iff in E; [done|apply hmac_length..].
  - rewrite Hw, Hr by lia. rewrite Eka, Epa. cbn [subkeys]. rewrite Hw by lia. cbn [play write_exact].
    rewrite Hr by lia. unfold read_into. cbn [play]. rewrite read_exact_app by apply hmac_length.
    assert (ct_eq (hmac_sha256 (derive k (lit "b2a")) plb) tag_b = true) as -> by (apply ct_eq_iff; [apply hmac_length..|done]).
    cbn [negb play write_exact]. unfold finish_exchange.
    rewrite (deserialize_serialize _ _ Epb). cbn [payload_of pp_key pp_id pp_name]. by rewrite Hkey.
Qed.

(** Only the last read has a time limit: a dialler that connects and then
    sends nothing holds the offer, with its PIN, for as long as it likes; the
    offerer has written its message and waits, under no timeout, for the first
    two bytes. *)
Theorem silent_dialler_holds_offer pin rnd local n k :
  zlen (spake_start Offerer pin rnd).2 ≤ u16_max → (length (chunk (spake_start Offerer pin rnd).2) < n)%nat →
  ∃ d, rtc cstep (mkConf (exchange Offerer pin rnd local) (Read n k) [] []) d ∧ stuck d ∧ ∃ wait, left d = Read 2 wait.
Proof.
  unfold exchange. destruct (spake_start Offerer pin rnd) as [state msg]. cbn [snd]. intros Hl Hn.
  unfold write_chunk at 1. rewrite (proj2 (Z.leb_le _ _)) by done. eexists. split_and!.
  - eapply rtc_l; [left; reflexivity|]. eapply rtc_l; [left; reflexivity|]. reflexivity.
  - split; [done|]. unfold rstep, lstep. cbn [swap left right to_left to_right is_done]. unfold try_read.
    rewrite (proj2 (Nat.leb_gt _ _)); [done|]. exact Hn.
  - by eexists.
Qed.

End exchange.

(** ** Finding the other device *)

(** What [connect] to an address does within its ten seconds. *)
Inductive connect_outcome := Connected | Refused (k : ErrorKind) | Hung.

Fixpoint connect_any_loop (outcome : SocketAddr → connect_outcome) (last_err : option ErrorKind)
    (addrs : list SocketAddr) : result PairError SocketAddr :=
  match addrs with
  | [] => Err match last_err with
              | Some e => PairIo e
              | None => Protocol (lit "no usable address for the target")
              end
  | addr :: rest =>
      match outcome addr with
      | Connected => Ok addr
      | Refused e => connect_any_loop outcome (Some e) rest
      | Hung => connect_any_loop outcome (Some TimedOut) rest
      end
  end.
Definition connect_any (outcome : SocketAddr → connect_outcome) (addrs : list SocketAddr)
    : result PairError SocketAddr := connect_any_loop outcome None addrs.

(** A resolved mDNS service. *)
Record Resolved := mkResolved {
  txt_name : option str;
  fullname : str;
  addresses : list IpAddr;
  res_port : Z;
}.
(** What the browser delivers before the ten seconds are over; [BrowseEnded]:
    its channel closes. *)
Inductive browse_event := ServiceResolved (i : Resolved) | OtherEvent | BrowseEnded.

Definition target_matches (target : str) (i : Resolved) : bool :=
  from_option (λ n, eq_ignore_ascii_case n target) false (txt_name i)
  || eq_ignore_ascii_case (default [] (strip_suffix (lit "." ++ PAIR_SERVICE_TYPE) (fullname i))) target.

Definition candidates (i : Resolved) : list SocketAddr :=
  sorted_dialable (map (λ a, SocketAddr_new a (res_port i)) (addresses i)).

Fixpoint browse_for (target : str) (evs : list browse_event) : option (list SocketAddr) :=
  match evs with
  | [] | BrowseEnded :: _ => None
  | OtherEvent :: evs => browse_for target evs
  | ServiceResolved i :: evs =>
      if target_matches target i then
        match candidates i with
        | [] => browse_for target evs
        | addrs => Some addrs
        end
      else browse_for target evs
  end.

(** [browse] is [None] when mDNS cannot be started. *)
Definition resolve_target (target : str) (browse : option (list browse_event))
    : result PairError (list SocketAddr) :=
  match parse_ip target with
  | Some i => Ok [SocketAddr_new i PAIR_PORT]
  | None =>
      match browse with
      | None => Err PairOther
      | Some evs => match browse_for target evs with
                    | Some addrs => Ok addrs
                    | None => Err (TargetNotFound target)
                    end
      end
  end.

(** ** The two commands, up to the exchange they run *)

Section commands.
Context `{Hashes, Spake, Serde PairPayload}.

(** [run_offer]: generate and announce the PIN, bind, advertise, wait for one
    dialler ([None]: the window passed).  The result is the PIN announced, if
    any, and the error or the program that runs on the connection. *)
Definition run_offer {E} (local : LocalInfo) (samples : list (result E bytes)) (bind advertise : bool)
    (accepted : option (result ErrorKind ())) (rnd : bytes)
    : option str * result PairError (prog (result PairError Paired)) :=
  match gen_pin samples with
  | Some (Ok pin) =>
      (Some pin,
       if negb bind then Err PairOther
       else if negb advertise then Err PairOther
       else match accepted with
            | None => Err PairTimeout
            | Some (Err k) => Err (PairIo k)
            | Some (Ok _) => Ok (exchange Offerer pin rnd local)
            end)
  | _ => (None, Err PairOther)
  end.

Definition run_request (local : LocalInfo) (target pin : str) (browse : option (list browse_event))
    (outcome : SocketAddr → connect_outcome) (rnd : bytes)
    : result PairError (SocketAddr * prog (result PairError Paired)) :=
  match resolve_target target browse with
  | Err e => Err e
  | Ok addrs => match connect_any outcome addrs with
                | Err e => Err e
                | Ok addr => Ok (addr, exchange Requester pin rnd local)
                end
  end.
End commands.

Lemma connect_any_loop_ok outcome le addrs a :
  connect_any_loop outcome le addrs = Ok a →
  ∃ l r, addrs = l ++ a :: r ∧ outcome a = Connected ∧ Forall (λ x, outcome x ≠ Connected) l.
Proof.
  revert le. induction addrs as [|x addrs IH]; intros le; [done|]. cbn [connect_any_loop].
  destruct (outcome x) eqn:E; [intros [= <-]; by exists [], addrs| |];
    intros (l & r & -> & Ha & Hl)%IH; exists (x :: l), r; (split_and!; [done|done|]);
    apply list.Forall_cons; (split; [congruence|done]).
Qed.

Lemma browse_for_ok target evs addrs :
  browse_for target evs = Some addrs →
  ∃ i, ServiceResolved i ∈ evs ∧ target_matches target i = true ∧ addrs = candidates i ∧ addrs ≠ [].
Proof.
  induction evs as [|[i| |] evs IH]; cbn [browse_for]; [done| | |done].
  - destruct (target_matches target i) eqn:Em.
    + destruct (candidates i) as [|a l] eqn:Ec.
      * intros (j & ? & ?)%IH. exists j. split; [by right|done].
      * intros [= <-]. exists i. rewrite Ec. split_and!; [left|done|done|done].
    + intros (j & ? & ?)%IH. exists j. split; [by right|done].
  - intros (j & ? & ?)%IH. exists j. split; [by right|done].
Qed.

(** Where a request connects: to the literal address on the pairing port;
    or, for a name, to an address of a service offering to pair whose name or
    instance matches the target, the first that accepts in the order of its
    dialable addresses, so no better-ranked one accepted. *)
Theorem run_request_target `{Hashes, Spake, Serde PairPayload} local target pin browse outcome rnd addr p :
  run_request local target pin browse outcome rnd = Ok (addr, p) →
  outcome addr = Connected ∧ p = exchange Requester pin rnd local ∧
  ((∃ i, parse_ip target = Some i ∧ addr = SocketAddr_new i PAIR_PORT) ∨
   ∃ evs i l r, browse = Some evs ∧ ServiceResolved i ∈ evs ∧ target_matches target i = true ∧
     candidates i = l ++ addr :: r ∧ Forall (λ x, outcome x ≠ Connected) l).
Proof.
  unfold run_request, resolve_target. destruct (parse_ip target) as [i|].
  - unfold connect_any. destruct (connect_any_loop _ _ _) as [a|] eqn:Ec; [|done]. intros [= <- <-].
    apply connect_any_loop_ok in Ec as (l & r & El & Ha & _). split_and!; [done|done|]. left.
    exists i. split; [done|]. destruct l as [|x [|]]; by injection El.
  - destruct browse as [evs|]; [|done]. destruct (browse_for target evs) as [addrs|] eqn:Eb; [|done].
    unfold connect_any. destruct (connect_any_loop _ _ _) as [a|] eqn:Ec; [|done]. intros [= <- <-].
    apply connect_any_loop_ok in Ec as (l & r & El & Ha & Hl).
    apply browse_for_ok in Eb as (i & Hi & Hm & -> & _). split_and!; [done|done|]. right.
    exists evs, i, l, r. done.
Qed.

(** ** Witnesses *)

#[global] Instance PairPayload_eq_dec : EqDecision PairPayload.
Proof. solve_decision. Defined.
#[global] Program Instance PairPayload_countable : Countable PairPayload :=
  inj_countable (λ p, (pp_id p, pp_name p, pp_key p)) (λ '(i, n, k), Some (mkPayload i n k)) _.
Next Obligation. by intros []. Qed.

(** A transparent stand-in for SPAKE2: the key is the password. *)
Definition sample_spake : Spake := {|
  spake_state := bytes;
  start_a := λ pin _ _ _, (pin, lit "A");
  start_b := λ pin _ _ _, (pin, lit "B");
  spake_finish := λ pin _, Some pin;
|}.
Definition payload_serde : Serde PairPayload := countable_serde PairPayload.

#[local] Existing Instance sample_hashes.
#[local] Existing Instance sample_hash_laws.
#[local] Existing Instance sample_spake.
#[local] Existing Instance payload_serde.

Lemma payload_laws : SerdeLaws PairPayload.
Proof. apply countable_serde_laws. Qed.
#[local] Existing Instance payload_laws.

#[local] Instance sample_spake_laws : SpakeLaws.
Proof.
  split.
  - intros pin ra rb sa ma sb mb [= <- <-] [= <- <-]. by exists pin.
  - by intros [].
Qed.

Definition sample_side (pin id : String.string) : side :=
  mkSide (lit pin) [] (mkLocalInfo (lit id) (lit id) (replicate 32 Byte.x07)).
Definition sample_payload (id : String.string) : bytes :=
  default [] (serialize (payload_of (s_local (sample_side "1" id)))).

Lemma pairing_succeeds_witness :
  ends_with (sides (sample_side "123456" "a") (sample_side "123456" "b"))
    (Ok (learned (s_local (sample_side "123456" "b")))) (Ok (learned (s_local (sample_side "123456" "a")))).
Proof.
  apply (pairing_succeeds (sample_side "123456" "a") (sample_side "123456" "b")
           (sample_payload "a") (sample_payload "b")); vm_compute; done.
Defined.

Lemma pairing_fails_closed_witness :
  ∃ eb, ends_with (sides (sample_side "111111" "a") (sample_side "222222" "b")) (Err BadPin) (Err eb).
Proof.
  destruct (@pairing_fails_closed sample_hashes sample_spake payload_serde _ _ (sample_side "111111" "a") (sample_side "222222" "b")
    (lit "111111") (lit "222222") (lit "A") (lit "B") (lit "111111") (lit "222222")
    (sample_payload "a") (sample_payload "b")) as (eb & _ & He); [vm_compute; done..|].
  by exists eb.
Defined.

Lemma exchange_authentic_witness :
  let tag := hmac_sha256 (derive (lit "123456") (lit "b2a")) (sample_payload "b") in
  let r := mkReader (chunk (lit "B") ++ chunk (sample_payload "b") ++ tag ++ [Byte.x01]) None in
  ∃ rest, avail r = chunk (lit "B") ++ chunk (sample_payload "b") ++ tag ++ [Byte.x01] ++ rest ∧
    length (paired_key (learned (s_local (sample_side "123456" "b")))) = 32%nat.
Proof.
  intros tag r.
  destruct (exchange_authentic Offerer (lit "123456") [] (s_local (sample_side "123456" "a")) r false []
    (learned (s_local (sample_side "123456" "b"))) (snd (play (exchange Offerer (lit "123456") []
      (s_local (sample_side "123456" "a"))) r false []))) as (_ & Hk & _); [vm_compute; reflexivity|].
  exists []. split; [|exact Hk]. by rewrite app_nil_r.
Defined.

Lemma ack_forgeable_witness :
  let a := sample_side "123456" "a" in
  let b := sample_side "123456" "b" in
  let tag_b := hmac_sha256 (derive (lit "123456") (lit "b2a")) (sample_payload "b") in
  fst (play (exchange Offerer (s_pin a) (s_rnd a) (s_local a))
         (mkReader (chunk (lit "B") ++ chunk (sample_payload "b") ++ tag_b ++ [Byte.x01]) None) false [])
  = Ok (learned (s_local b)).
Proof.
  intros a b tag_b.
  apply (@ack_forgeable sample_hashes sample_spake payload_serde _ _ _ a b (lit "123456") (lit "123456") (lit "A") (lit "B") (lit "123456")
           (sample_payload "a") (sample_payload "b") (lit "spoiled")); vm_compute; done.
Defined.

Lemma run_request_target_witness :
  run_request (s_local (sample_side "1" "a")) (lit "10.0.0.5") (lit "123456") None (λ _, Connected) []
  = Ok (SocketAddr_new (V4 10 0 0 5) PAIR_PORT,
        exchange Requester (lit "123456") [] (s_local (sample_side "1" "a"))) ∧
  ∃ i, parse_ip (lit "10.0.0.5") = Some i ∧ SocketAddr_new (V4 10 0 0 5) PAIR_PORT = SocketAddr_new i PAIR_PORT.
Proof.
  split; [reflexivity|].
  destruct (run_request_target (s_local (sample_side "1" "a")) (lit "10.0.0.5") (lit "123456") None
    (λ _, Connected) [] (SocketAddr_new (V4 10 0 0 5) PAIR_PORT) _ eq_refl) as (_ & _ & [H|H]); [exact H|].
  by destruct H as (? & ? & ? & ? & ? & _).
Defined.
