(* ===== verification/State.v ===== *)
(** * State: the published view of the daemon, and discovery

    [crates/qdrop-core/src/state.rs] ([state.json] and the [ago] strings),
    [crates/qdropd/src/state.rs] (the task that publishes it),
    [crates/qdropd/src/discovery.rs] (what mDNS reports become) and the
    start-up of [crates/qdropd/src/main.rs] that seeds the dialler from it.
    JSON is the interface [Serde], [Display] of a socket address a parameter.

    The theorems: the published state is exactly what the last event of each
    peer says, and reads back after every event; the address of the last
    outgoing connection is dialled at the next start; the strings of [ago];
    a device is never its own peer, and the record that disappears is the one
    that appeared. *)
From S2P Require Import Prelude Text Proto Frame Store Samples Net Peers Trust Connection Transport.

(** ** [state.json] *)

Record DaemonState := mkState {
  online : gmap str Z;
  seen : gmap str Z;            (* last_seen *)
  last_addr : gmap str str;
}.
Definition DaemonState_default : DaemonState := mkState ∅ ∅ ∅.

Definition state_load_from `{Serde DaemonState} (s : fs) (p : path) : result FileError DaemonState :=
  match fs_read s p with
  | Ok b => match deserialize b with Some st => Ok st | None => Err Parsing end
  | Err NotFound => Ok DaemonState_default
  | Err k => Err (FileIo k)
  end.

Definition state_save_to `{Serde DaemonState} (pid : Z) (s : fs) (st : DaemonState) (p : path)
    : result FileError fs :=
  match serialize st with
  | None => Err Serializing
  | Some b => map_err FileIo (write_atomic pid s p b)
  end.

Definition mark_online (now : Z) (id : str) (st : DaemonState) : DaemonState :=
  mkState (<[id := now]> (online st)) (seen st) (last_addr st).
Definition remember_addr (id addr : str) (st : DaemonState) : DaemonState :=
  mkState (online st) (seen st) (<[id := addr]> (last_addr st)).
Definition mark_offline (now : Z) (id : str) (st : DaemonState) : DaemonState :=
  mkState (delete id (online st)) (<[id := now]> (seen st)) (last_addr st).
Definition is_online (st : DaemonState) (id : str) : bool := bool_decide (is_Some (online st !! id)).

Definition ago (now then_unix : Z) : str :=
  if (then_unix =? 0) || (now <? then_unix) then lit "unknown"
  else
    let secs := now - then_unix in
    if secs <=? 59 then dec secs ++ lit "s ago"
    else if secs <=? 3599 then dec (secs / 60) ++ lit "m ago"
    else if secs <=? 86399 then dec (secs / 3600) ++ lit "h ago"
    else dec (secs / 86400) ++ lit "d ago".

(** ** The publishing task *)

Section publish.
Context `{Serde DaemonState}.
(** [SocketAddr::to_string]. *)
Variable show : SocketAddr → str.

Record publisher := mkPublisher {
  pub_state : DaemonState;
  pub_disk : fs;
  refreshed : list str;        (* peers whose [auth.refresh] was spawned *)
}.

(** [save_to], a failure of which is logged. *)
Definition save_state (pid : Z) (p : path) (x : publisher) : publisher :=
  match state_save_to pid (pub_disk x) (pub_state x) p with
  | Ok s => mkPublisher (pub_state x) s (refreshed x)
  | Err _ => x
  end.

Definition publish_start (pid : Z) (p : path) (s : fs) : publisher :=
  let st := default DaemonState_default (ok (state_load_from s p)) in
  save_state pid p (mkPublisher (mkState ∅ (seen st) (last_addr st)) s []).

Definition publish_step (pid : Z) (p : path) (x : publisher) (ev : Z * TransportEvent) : publisher :=
  let now := ev.1 in
  let x := match ev.2 with
           | PeerConnected id _ _ addr =>
               let st := mark_online now id (pub_state x) in
               let st := match addr with Some a => remember_addr id (show a) st | None => st end in
               mkPublisher st (pub_disk x) (refreshed x ++ [id])
           | PeerDisconnected id _ =>
               mkPublisher (mark_offline now id (pub_state x)) (pub_disk x) (refreshed x)
           end in
  save_state pid p x.

(** [main]: what the dialler is told before mDNS has resolved anything. *)
Definition seeds (ps : Peers) (cached : DaemonState) : list DiscoveredPeer :=
  omap (λ p, a ← last_addr cached !! peer_device_id p ≫= parse_socket_addr;
             Some (mkDiscovered (peer_device_id p) (peer_name p) (peer_public_key p) [a])) ps.

(** ** What is published *)

Definition event_id (ev : TransportEvent) : str :=
  match ev with PeerConnected id _ _ _ | PeerDisconnected id _ => id end.
Definition is_connect (ev : TransportEvent) : bool :=
  match ev with PeerConnected _ _ _ _ => true | _ => false end.

(** The last event of a peer. *)
Definition last_event (id : str) (evs : list (Z * TransportEvent)) : option (Z * TransportEvent) :=
  lfind (λ ev, bool_decide (event_id ev.2 = id)) (rev evs).

Lemma save_state_state pid p x : pub_state (save_state pid p x) = pub_state x.
Proof. unfold save_state. by destruct (state_save_to _ _ _ _). Qed.

Lemma save_state_wf pid p x : fs_wf (pub_disk x) → fs_wf (pub_disk (save_state pid p x)).
Proof.
  intros Hs. unfold save_state, state_save_to. destruct (serialize _) as [b|]; [|done].
  destruct (write_atomic pid (pub_disk x) p b) as [s'|] eqn:E; [|done]. cbn [map_err pub_disk].
  by apply write_atomic_ok in E as [? _].
Qed.

Lemma save_state_reads `{!SerdeLaws DaemonState} pid p x dir :
  fs_wf (pub_disk x) → (∀ st : DaemonState, is_Some (serialize st)) → parent p = Some dir →
  state_load_from (pub_disk (save_state pid p x)) p = Ok (pub_state x).
Proof.
  intros Hs Htot Hp. unfold save_state, state_save_to. destruct (Htot (pub_state x)) as [b Hb]. rewrite Hb.
  destruct (write_atomic pid (pub_disk x) p b) as [s'|] eqn:E; cbn [map_err pub_disk].
  - apply write_atomic_ok in E as [_ E]; [|done]. unfold state_load_from, fs_read. rewrite E. cbn [content].
    by rewrite (deserialize_serialize _ _ Hb).
  - unfold write_atomic, write_atomic_ops in E. by rewrite Hp in E.
Qed.

Lemma publish_step_online pid p x ev id :
  online (pub_state (publish_step pid p x ev)) !! id =
  if decide (event_id ev.2 = id) then (if is_connect ev.2 then Some ev.1 else None)
  else online (pub_state x) !! id.
Proof.
  unfold publish_step. rewrite save_state_state.
  destruct ev as [now [i nm c a|i r]]; cbn [fst snd event_id is_connect pub_state].
  - assert (∀ st, online (match a with Some a0 => remember_addr i (show a0) st | None => st end) = online st) as ->
      by by destruct a.
    cbn. case_decide as E; [subst; by rewrite lookup_insert_eq|by rewrite lookup_insert_ne].
  - cbn. case_decide as E; [subst; by rewrite lookup_delete_eq|by rewrite lookup_delete_ne].
Qed.

Lemma publish_wf pid p x evs : fs_wf (pub_disk x) → fs_wf (pub_disk (foldl (publish_step pid p) x evs)).
Proof.
  revert x. induction evs as [|ev evs IH]; intros x Hs; [done|]. apply IH. unfold publish_step.
  apply save_state_wf. by destruct ev as [now []].
Qed.

Lemma publish_online pid p x evs id :
  online (pub_state (foldl (publish_step pid p) x evs)) !! id =
  match last_event id evs with
  | Some ev => if is_connect ev.2 then Some ev.1 else None
  | None => online (pub_state x) !! id
  end.
Proof.
  induction evs as [|ev evs IH] using rev_ind; [done|]. rewrite foldl_app. cbn [foldl].
  rewrite publish_step_online. unfold last_event in *. rewrite rev_app_distr. cbn [rev app lfind].
  case_decide as E; [by rewrite bool_decide_eq_true_2|by rewrite bool_decide_eq_false_2].
Qed.

Lemma publish_reads `{!SerdeLaws DaemonState} pid p s evs dir :
  fs_wf s → (∀ st : DaemonState, is_Some (serialize st)) → parent p = Some dir →
  let x := foldl (publish_step pid p) (publish_start pid p s) evs in
  state_load_from (pub_disk x) p = Ok (pub_state x).
Proof.
  intros Hs Htot Hp x. assert (fs_wf (pub_disk (publish_start pid p s))) as Hs0 by by apply save_state_wf.
  subst x. destruct evs as [|ev evs _] using rev_ind.
  - cbn [foldl]. unfold publish_start. rewrite (save_state_reads pid p _ dir) by done. by rewrite save_state_state.
  - rewrite foldl_app. cbn [foldl]. unfold publish_step at 1 3. set (y := foldl _ _ evs).
    assert (fs_wf (pub_disk y)) by by apply publish_wf.
    rewrite (save_state_reads pid p _ dir); [by rewrite save_state_state| |done|done].
    by destruct ev as [now []].
Qed.


(** The last outgoing address is dialled at the next start: once a
    connection to a device at address [a] has been published, and until another
    address is published for it, a daemon that starts from the file is given
    that address for that device if it is paired. *)
Theorem redial_last_address `{!SerdeLaws DaemonState} pid p s dir evs now id nm caps a evs' ps q :
  fs_wf s → (∀ st : DaemonState, is_Some (serialize st)) → parent p = Some dir →
  parse_socket_addr (show a) = Some a → q ∈ ps → peer_device_id q = id →
  Forall (λ ev : Z * TransportEvent,
    match ev.2 with PeerConnected i _ _ (Some _) => i ≠ id | _ => True end) evs' →
  let x := foldl (publish_step pid p) (publish_start pid p s)
             (evs ++ (now, PeerConnected id nm caps (Some a)) :: evs') in
  ∃ st, state_load_from (pub_disk x) p = Ok st ∧
    mkDiscovered id (peer_name q) (peer_public_key q) [a] ∈ seeds ps st.
Proof.
  intros Hs Htot Hp Ha Hq Hid Hev x. exists (pub_state x). split; [by apply (publish_reads pid p s _ dir)|].
  assert (last_addr (pub_state x) !! id = Some (show a)) as Hl.
    { subst x. rewrite foldl_app. cbn [foldl]. set (y := publish_step pid p _ _).
      assert (last_addr (pub_state y) !! id = Some (show a)) as Hy.
      { subst y. unfold publish_step. rewrite save_state_state. cbn. by rewrite lookup_insert_eq. }
      clearbody y. revert y Hy. induction evs' as [|[n ev] evs' IH]; intros y Hy; [done|].
      apply list.Forall_cons in Hev as [He Hev]. cbn [foldl]. apply (IH Hev).
      unfold publish_step. rewrite save_state_state. destruct ev as [i nm' c [b|]|i r]; cbn in *; try done.
      by rewrite lookup_insert_ne. }
    apply list_elem_of_omap. exists q. split; [done|]. rewrite Hid, Hl. cbn. by rewrite Ha.
Qed.

End publish.

(** The strings of [ago]: for a time not in the future, the number printed
    is the age in the largest unit that fits, rounded down, and never overflows
    into the next unit. *)
Theorem ago_buckets now t :
  0 < t ≤ now →
  ∃ n, (ago now t = dec n ++ lit "s ago" ∧ n = now - t ∧ n < 60) ∨
       (ago now t = dec n ++ lit "m ago" ∧ n * 60 ≤ now - t < (n + 1) * 60 ∧ 1 ≤ n < 60) ∨
       (ago now t = dec n ++ lit "h ago" ∧ n * 3600 ≤ now - t < (n + 1) * 3600 ∧ 1 ≤ n < 24) ∨
       (ago now t = dec n ++ lit "d ago" ∧ n * 86400 ≤ now - t < (n + 1) * 86400 ∧ 1 ≤ n).
Proof.
  intros Ht. unfold ago. rewrite (proj2 (Z.eqb_neq _ _)), (proj2 (Z.ltb_ge _ _)) by lia. cbn [orb].
  destruct (now - t <=? 59) eqn:E1; zsolve; [exists (now - t); left; split_and!; [done|done|lia]|].
  destruct (now - t <=? 3599) eqn:E2; zsolve; [exists ((now - t) / 60); right; left; split; [done|zdm]|].
  destruct (now - t <=? 86399) eqn:E3; zsolve; [exists ((now - t) / 3600); right; right; left; split; [done|zdm]|].
  exists ((now - t) / 86400). right. right. right. split; [done|zdm].
Qed.

(** ** Discovery *)

(** A resolved service: the TXT values by key, the addresses, the port. *)
Record ResolvedService := mkService {
  svc_txt : str → option str;
  svc_addresses : list IpAddr;
  svc_port : Z;
}.
Definition TXT_DEVICE_ID : str := lit "id".
Definition TXT_DEVICE_NAME : str := lit "name".
Definition TXT_FINGERPRINT : str := lit "fp".

Definition to_peer (info : ResolvedService) (own_id : str) : option DiscoveredPeer :=
  match svc_txt info TXT_DEVICE_ID with
  | None => None
  | Some device_id =>
      if bool_decide (device_id = own_id) then None
      else
        let name := default device_id (svc_txt info TXT_DEVICE_NAME) in
        let fp := default device_id (svc_txt info TXT_FINGERPRINT) in
        match map (λ i, SocketAddr_new i (svc_port info)) (svc_addresses info) with
        | [] => None
        | addrs => Some (mkDiscovered device_id name fp addrs)
        end
  end.

Definition instance_of (fullname : str) : option str := strip_suffix (lit "." ++ SERVICE_TYPE) fullname.

Inductive mdns_event := MdnsResolved (info : ResolvedService) | MdnsRemoved (fullname : str) | MdnsOther.

(** The body of the browse loop: what it sends to the manager. *)
Definition browse_step (own_id : str) (e : mdns_event) : option Internal :=
  match e with
  | MdnsResolved info => Found <$> to_peer info own_id
  | MdnsRemoved fullname =>
      match instance_of fullname with
      | Some id => if bool_decide (id = own_id) then None else Some (Lost id)
      | None => None
      end
  | MdnsOther => None
  end.

(** What [start] registers. *)
Definition advertised_txt (device_id device_name : str) (key : str) : option str :=
  if bool_decide (key = TXT_DEVICE_ID) then Some device_id
  else if bool_decide (key = TXT_DEVICE_NAME) then Some device_name
  else if bool_decide (key = TXT_FINGERPRINT) then Some device_id
  else None.
Definition advertised_fullname (device_id : str) : str := device_id ++ lit "." ++ SERVICE_TYPE.

(** Discovery is consistent: a device's advertisement, resolved elsewhere
    with at least one address, appears as that device with its name and all its
    addresses on its port; its removal is reported for the same id; and the
    device itself ignores both. *)
Theorem advertised_seen id name port addrs other :
  addrs ≠ [] → id ≠ other →
  let svc := mkService (advertised_txt id name) addrs port in
  browse_step other (MdnsResolved svc) =
    Some (Found (mkDiscovered id name id (map (λ i, SocketAddr_new i port) addrs))) ∧
  browse_step other (MdnsRemoved (advertised_fullname id)) = Some (Lost id) ∧
  browse_step id (MdnsResolved svc) = None ∧
  browse_step id (MdnsRemoved (advertised_fullname id)) = None.
Proof.
  intros Ha Hid svc.
  assert (advertised_txt id name TXT_DEVICE_ID = Some id) as H1 by done.
  assert (advertised_txt id name TXT_DEVICE_NAME = Some name) as H2 by done.
  assert (advertised_txt id name TXT_FINGERPRINT = Some id) as H3 by done.
  assert (instance_of (advertised_fullname id) = Some id) as Hi.
  { unfold instance_of, strip_suffix, advertised_fullname.
    rewrite decide_True by by exists id. rewrite !length_app.
    rewrite take_app_length' by (cbn [length]; lia). done. }
  unfold browse_step, to_peer. cbn [svc svc_txt svc_addresses svc_port]. rewrite H1, H2, H3, Hi.
  rewrite !(bool_decide_eq_false_2 (id = other)), !(bool_decide_eq_true_2 (id = id)) by done.
  destruct addrs as [|i addrs]; [done|]. done.
Qed.

(** ** Witnesses *)

#[global] Instance DaemonState_eq_dec : EqDecision DaemonState.
Proof. solve_decision. Defined.
#[global] Program Instance DaemonState_countable : Countable DaemonState :=
  inj_countable (λ st, (online st, seen st, last_addr st)) (λ '(o, s, l), Some (mkState o s l)) _.
Next Obligation. by intros []. Qed.
Definition state_serde : Serde DaemonState := countable_serde DaemonState.
Lemma state_laws : @SerdeLaws DaemonState state_serde.
Proof. apply countable_serde_laws. Qed.

(** [Display] for v4 addresses. *)
Definition show_addr (a : SocketAddr) : str :=
  match ip a with V4 x y z w => show_v4 x y z w ++ lit ":" ++ dec (port a) | V6 _ => [] end.

Definition addr_b : SocketAddr := SocketAddr_new (V4 10 0 0 2) 47654.
Definition sample_events : list (Z * TransportEvent) :=
  [(5, PeerConnected (lit "id-b") (lit "b") Caps_ALL (Some addr_b)); (9, PeerConnected (lit "id-c") (lit "c") Caps_ALL None);
   (12, PeerDisconnected (lit "id-b") Unpaired)].


Lemma redial_last_address_witness :
  let q := mkPeer (lit "b") (lit "id-b") (lit "key") None false [] None None in
  let x := foldl (@publish_step state_serde show_addr 1 sample_file)
             (@publish_start state_serde 1 sample_file sample_fs) sample_events in
  ∃ st, @state_load_from state_serde (pub_disk x) sample_file = Ok st ∧
    mkDiscovered (lit "id-b") (lit "b") (lit "key") [addr_b] ∈ seeds [q] st.
Proof.
  intros q x.
  apply (@redial_last_address state_serde show_addr state_laws 1 sample_file sample_fs sample_dir [] 5 (lit "id-b") (lit "b")
    Caps_ALL addr_b [(9, PeerConnected (lit "id-c") (lit "c") Caps_ALL None);
                     (12, PeerDisconnected (lit "id-b") Unpaired)] [q] q).
  - apply sample_fs_wf.
  - intros st. by eexists.
  - reflexivity.
  - vm_compute. reflexivity.
  - left.
  - reflexivity.
  - by repeat constructor.
Defined.

Lemma ago_buckets_witness : ago 10000 1000 = lit "2h ago".
Proof.
  destruct (ago_buckets 10000 1000 ltac:(lia)) as (n & [(-> & -> & ?)|[(-> & ? & ?)|[(-> & ? & ?)|(-> & ? & ?)]]]);
    try lia. by assert (n = 2) as -> by lia.
Defined.

Lemma advertised_seen_witness :
  browse_step (lit "me") (MdnsRemoved (advertised_fullname (lit "you"))) = Some (Lost (lit "you")).
Proof.
  apply (advertised_seen (lit "you") (lit "yours") 47654 [V4 10 0 0 2] (lit "me")); [done|].
  by apply (bool_decide_unpack _).
Defined.
