(* ===== verification/Service.v ===== *)
(** * Service: what a device announces by mDNS, and how the programs end

    [Discovery] and its [start] of [crates/qdropd/src/discovery.rs],
    [PairAdvertisement] and the window of [run_offer] in
    [crates/qdrop-core/src/pairing.rs]; [main] and [wait_for_shutdown] of
    [crates/qdropd/src/main.rs], [main] of [crates/qdrop/src/main.rs], and the
    accept loop of [crates/qdropd/src/control.rs].  The
    mDNS daemon is the crate [mdns-sd]: an interface, with its documented
    behaviour as laws.

    The theorems: a daemon announces itself from its start to its shutdown, and
    what it announces is what others discover; an offer to pair is announced
    while it waits and not afterwards, and who asks for the device by name or id
    is led to its pairing port. *)
From S2P Require Import Prelude Text Crypto Proto Frame Store Net Peers Trust Connection Transport Pairing State.

(** ** mDNS *)

(** [ServiceInfo::new(..).enable_addr_auto()]. *)
Record ServiceInfo := mkInfo {
  si_type : str;
  si_instance : str;
  si_host : str;
  si_port : Z;
  si_txt : list (str * str);
}.
Definition get_fullname (i : ServiceInfo) : str := si_instance i ++ lit "." ++ si_type i.

(** The daemons of this machine and what they announce together; a call that
    fails leaves everything as it was. *)
Class Mdns := {
  mdns : Type;
  mdns_handle : Type;
  mdns_new : mdns → option (mdns_handle * mdns);
  mdns_valid : ServiceInfo → bool;                    (* [ServiceInfo::new] *)
  mdns_register : mdns_handle → ServiceInfo → mdns → option mdns;
  mdns_browse : mdns_handle → str → mdns → option mdns;
  mdns_unregister : mdns_handle → str → mdns → option mdns;  (* with the wait for it *)
  mdns_shutdown : mdns_handle → mdns → mdns;
  announced : mdns → list ServiceInfo;
}.
Class MdnsLaws `{Mdns} := {
  new_announced w h w' : mdns_new w = Some (h, w') → announced w' = announced w;
  register_announced h i w w' x :
    mdns_register h i w = Some w' → x ∈ announced w' ↔ x = i ∨ x ∈ announced w;
  browse_announced h ty w w' : mdns_browse h ty w = Some w' → announced w' = announced w;
  unregister_announced h n w w' x :
    mdns_unregister h n w = Some w' → x ∈ announced w' → get_fullname x ≠ n ∧ x ∈ announced w;
  shutdown_announced h w x : x ∈ announced (mdns_shutdown h w) → x ∈ announced w;
}.

(** What resolves from an announcement: the value of a key is its first one. *)
Definition txt_value (t : list (str * str)) (key : str) : option str :=
  snd <$> lfind (λ kv, bool_decide (kv.1 = key)) t.

Inductive MdnsError := MdnsDaemon | MdnsInfo | MdnsRegister | MdnsBrowse.

Section service.
Context `{Mdns}.

(** A handle that keeps a registration alive: [Discovery], [PairAdvertisement]. *)
Record Registration := mkRegistration { reg_daemon : mdns_handle; reg_fullname : str }.

(** [Discovery::shutdown], [PairAdvertisement::stop]. *)
Definition withdraw (r : Registration) (w : mdns) : mdns :=
  let w := match mdns_unregister (reg_daemon r) (reg_fullname r) w with Some w' => w' | None => w end in
  mdns_shutdown (reg_daemon r) w.

(** Start a daemon and register one service. *)
Definition announce (i : ServiceInfo) (w : mdns) : result MdnsError Registration * mdns :=
  match mdns_new w with
  | None => (Err MdnsDaemon, w)
  | Some (d, w) =>
      if negb (mdns_valid i) then (Err MdnsInfo, w)
      else match mdns_register d i w with
           | None => (Err MdnsRegister, w)
           | Some w => (Ok (mkRegistration d (get_fullname i)), w)
           end
  end.

Definition discovery_info (device_id device_name : str) (port : Z) : ServiceInfo :=
  mkInfo SERVICE_TYPE device_id (device_id ++ lit ".local.") port
    [(TXT_DEVICE_ID, device_id); (TXT_DEVICE_NAME, device_name); (TXT_FINGERPRINT, device_id)].

(** [discovery::start], up to the browse loop. *)
Definition discovery_start (device_id device_name : str) (port : Z) (w : mdns)
    : result MdnsError Registration * mdns :=
  match announce (discovery_info device_id device_name port) w with
  | (Err e, w) => (Err e, w)
  | (Ok r, w) =>
      match mdns_browse (reg_daemon r) SERVICE_TYPE w with
      | None => (Err MdnsBrowse, w)
      | Some w => (Ok r, w)
      end
  end.

(** [PairAdvertisement::start]. *)
Definition offer_info (device_id device_name : str) : ServiceInfo :=
  mkInfo PAIR_SERVICE_TYPE device_id (device_id ++ lit ".local.") PAIR_PORT
    [(lit "id", device_id); (lit "name", device_name)].
Definition advert_start (device_id device_name : str) (w : mdns) : result PairError Registration * mdns :=
  let '(r, w) := announce (offer_info device_id device_name) w in (map_err (λ _, PairOther) r, w).

(** The window of [run_offer], once the port is bound: what is announced while
    it waits for a connection, its outcome, and what is left. *)
Definition offer_window (local : LocalInfo) (accepted : option (result ErrorKind ())) (w : mdns)
    : result PairError () * list ServiceInfo * mdns :=
  match advert_start (li_id local) (li_name local) w with
  | (Err e, w) => (Err e, announced w, w)
  | (Ok advert, w) =>
      (match accepted with
       | None => Err PairTimeout
       | Some (Err k) => Err (PairIo k)
       | Some (Ok _) => Ok ()
       end, announced w, withdraw advert w)
  end.

(** ** Lemmas *)

Context `{!MdnsLaws}.

Lemma announce_ok i w r w' :
  announce i w = (Ok r, w') → reg_fullname r = get_fullname i ∧ ∀ x, x ∈ announced w' ↔ x = i ∨ x ∈ announced w.
Proof.
  unfold announce. destruct (mdns_new w) as [[d w1]|] eqn:En; [|done]. destruct (negb _); [done|].
  destruct (mdns_register d i w1) as [w2|] eqn:Er; [|done]. intros [= <- <-]. split; [done|]. intros x.
  by rewrite (register_announced d i w1 w2 x Er), (new_announced w d w1 En).
Qed.

Lemma withdraw_announced r w x : x ∈ announced (withdraw r w) → x ∈ announced w.
Proof.
  unfold withdraw. intros Hx%shutdown_announced. destruct (mdns_unregister _ _ w) as [w'|] eqn:E; [|done].
  by apply (unregister_announced _ _ _ _ _ E).
Qed.
Lemma withdraw_gone r w x :
  is_Some (mdns_unregister (reg_daemon r) (reg_fullname r) w) → x ∈ announced (withdraw r w) → get_fullname x ≠ reg_fullname r.
Proof.
  intros [w' E]. unfold withdraw. rewrite E. intros Hx%shutdown_announced. by apply (unregister_announced _ _ _ _ _ E).
Qed.

(** ** What others see *)

(** A service as the browser of discovery reports it, and as the one of pairing
    does. *)
Definition resolved (i : ServiceInfo) (addrs : list IpAddr) : ResolvedService :=
  mkService (txt_value (si_txt i)) addrs (si_port i).
Definition resolved_offer (i : ServiceInfo) (addrs : list IpAddr) : Resolved :=
  mkResolved (txt_value (si_txt i) (lit "name")) (get_fullname i) addrs (si_port i).

Lemma discovery_txt id name port key :
  txt_value (si_txt (discovery_info id name port)) key = advertised_txt id name key.
Proof.
  unfold txt_value, advertised_txt. cbn [si_txt discovery_info lfind fst].
  repeat case_bool_decide; cbn; congruence.
Qed.

Lemma advertised_instance id t : default [] (strip_suffix (lit "." ++ t) (id ++ lit "." ++ t)) = id.
Proof.
  unfold strip_suffix. rewrite decide_True by by exists id. rewrite !length_app.
  by rewrite take_app_length' by (cbn [length]; lia).
Qed.

(** A daemon announces itself while it runs: if discovery starts, the service
    announced is the one added, with the device's id, name and port in it;
    a device elsewhere that resolves it with some address finds exactly this
    device; nothing else changes; and after the shutdown, if it could be
    unregistered, no service of its name is announced. *)
Theorem discovery_lifetime id name port w r w' :
  discovery_start id name port w = (Ok r, w') →
  (∀ x, x ∈ announced w' ↔ x = discovery_info id name port ∨ x ∈ announced w) ∧
  (∀ other addrs, addrs ≠ [] → id ≠ other →
     browse_step other (MdnsResolved (resolved (discovery_info id name port) addrs)) =
     Some (Found (mkDiscovered id name id (map (λ i, SocketAddr_new i port) addrs)))) ∧
  (∀ x, x ∈ announced (withdraw r w') → x ∈ announced w' ∧
     (is_Some (mdns_unregister (reg_daemon r) (reg_fullname r) w') → get_fullname x ≠ advertised_fullname id)).
Proof.
  unfold discovery_start. destruct (announce _ w) as [[r1|e] w1] eqn:Ea; [|done].
  destruct (mdns_browse _ _ w1) as [w2|] eqn:Eb; [|done]. intros [= -> ->]. apply announce_ok in Ea as [Hn Ha].
  split_and!.
  - intros x. by rewrite (browse_announced _ _ _ _ Eb).
  - intros other addrs Hne Hid. destruct (advertised_seen id name port addrs other Hne Hid) as [Hs _].
    unfold browse_step, to_peer in *. cbn [resolved svc_txt svc_addresses svc_port si_port discovery_info] in *.
    by rewrite !discovery_txt.
  - intros x Hx. split; [by apply (withdraw_announced r)|]. intros Hu. pose proof (withdraw_gone r w' x Hu Hx) as Hg.
    by rewrite Hn in Hg.
Qed.

Lemma browse_for_skip target l evs :
  Forall (λ ev, match ev with
                | ServiceResolved i => target_matches target i = true → candidates i = []
                | OtherEvent => True
                | BrowseEnded => False
                end) l →
  browse_for target (l ++ evs) = browse_for target evs.
Proof.
  induction 1 as [|ev l Hev _ IH]; [done|]. destruct ev as [i| |]; [|done..]. cbn [app browse_for].
  destruct (target_matches target i); [by rewrite (Hev eq_refl)|done].
Qed.

(** An offer is found while it waits: its service is announced in the window
    (and, if it can be unregistered, not afterwards, when the exchange runs);
    and a device that asks for the offering device by its name or id, in any
    case, and whose browser reports that service with a dialable address before
    any other device that answers to it, gets exactly the dialable addresses,
    with the pairing port. *)
Theorem offer_is_found local accepted w target l addrs evs :
  is_ok (advert_start (li_id local) (li_name local) w).1 = true →
  let '(r, during, w') := offer_window local accepted w in
  let i := offer_info (li_id local) (li_name local) in
  (i ∈ during ∧ ∀ x, x ∈ announced w' → x ∈ during) ∧
  ((∀ d n v, is_Some (mdns_unregister d n v)) → ∀ x, x ∈ announced w' → get_fullname x ≠ get_fullname i) ∧
  (parse_ip target = None →
   eq_ignore_ascii_case (li_name local) target = true ∨ eq_ignore_ascii_case (li_id local) target = true →
   (∃ a, a ∈ addrs ∧ is_dialable a = true) →
   Forall (λ ev, match ev with
                 | ServiceResolved j => target_matches target j = true → candidates j = []
                 | OtherEvent => True
                 | BrowseEnded => False
                 end) l →
   ∃ found, resolve_target target (Some (l ++ ServiceResolved (resolved_offer i addrs) :: evs)) = Ok found ∧
     ∀ s, s ∈ found ↔ ∃ a, a ∈ addrs ∧ is_dialable a = true ∧ s = SocketAddr_new a PAIR_PORT).
Proof.
  intros Hok. unfold offer_window. destruct (advert_start _ _ w) as [[adv|e] w1] eqn:Ea; [|done].
  unfold advert_start in Ea. destruct (announce _ w) as [[r0|e] w0] eqn:En; [|done]. injection Ea as -> ->.
  apply announce_ok in En as [Hn Ha]. set (i := offer_info _ _) in *. split_and!.
  - apply Ha. by left.
  - intros x. apply withdraw_announced.
  - intros Hu x Hx. rewrite <- Hn. by apply (withdraw_gone adv w1).
  - intros Hip Hname (a & Hain & Had) Hl.
    assert (target_matches target (resolved_offer i addrs) = true) as Hm.
    { unfold target_matches. cbn [resolved_offer txt_name fullname]. unfold get_fullname. cbn [si_instance si_type i offer_info].
      rewrite advertised_instance. apply orb_true_iff. exact Hname. }
    assert (∀ s, s ∈ candidates (resolved_offer i addrs) ↔ ∃ a, a ∈ addrs ∧ is_dialable a = true ∧ s = SocketAddr_new a PAIR_PORT) as Hc.
    { intros s. unfold candidates. rewrite (proj1 (sorted_dialable_spec _)), list_elem_of_fmap. cbn [resolved_offer addresses res_port si_port i offer_info].
      split; [intros [(b & -> & Hb) Hd]; by exists b|intros (b & Hb & Hd & ->); split; [by exists b|done]]. }
    exists (candidates (resolved_offer i addrs)). split; [|exact Hc].
    unfold resolve_target. rewrite Hip, browse_for_skip by done. cbn [browse_for]. rewrite Hm.
    destruct (candidates (resolved_offer i addrs)) as [|s rest] eqn:Es; [|done]. exfalso.
    apply (not_elem_of_nil (SocketAddr_new a PAIR_PORT)). apply Hc. by exists a.
Qed.
End service.

(** ** How the programs end *)

(** What [main] makes of the result of [real_main] and [run]: the exit code and
    what goes to the error stream; [text] is the chain of an error's causes. *)
Definition daemon_exit {E A} (text : E → str) (r : result E A) : Z * str :=
  match r with Ok _ => (0, []) | Err e => (1, lit "qdropd: " ++ text e ++ [Byte.x0a]) end.
Definition client_exit {E A} (text : E → str) (r : result E A) : Z * str :=
  match r with Ok _ => (0, []) | Err e => (1, lit "qdrop: " ++ text e ++ [Byte.x0a]) end.

(** [wait_for_shutdown] on Unix: the signals still to come after the one that
    ends it, if one does; [term]: the handler of SIGTERM could be installed. *)
Inductive Signal := Interrupt | Terminate | OtherSignal.
Fixpoint wait_for_shutdown (term : bool) (signals : list Signal) : option (list Signal) :=
  match signals with
  | [] => None
  | Interrupt :: rest => Some rest
  | Terminate :: rest => if term then Some rest else wait_for_shutdown term rest
  | OtherSignal :: rest => wait_for_shutdown term rest
  end.

Theorem shutdown_waits term signals :
  is_Some (wait_for_shutdown term signals) ↔ Interrupt ∈ signals ∨ term = true ∧ Terminate ∈ signals.
Proof.
  induction signals as [|[] rest IH]; cbn [wait_for_shutdown].
  - split; [by intros []|]. intros [H|[_ H]]; by apply not_elem_of_nil in H.
  - split; [|by eexists]. intros _. left. left.
  - destruct term; [split; [intros _; right; split; [done|left]|by eexists]|].
    rewrite IH. split; [intros [?|[? _]]; [left; by right|done]|]. intros [H|[? _]]; [|done].
    left. apply elem_of_cons in H as [|]; done.
  - rewrite IH. set_solver.
Qed.

(** ** The accept loop of the control socket *)

(** One turn: a client gets a task of its own, an error is waited out for 200
    milliseconds.  The state is the clients served and the time spent waiting. *)
Definition ACCEPT_PAUSE : Z := 200.
Definition accept_turn {C} (st : list C * Z) (o : result ErrorKind C) : list C * Z :=
  match o with
  | Ok client => (st.1 ++ [client], st.2)
  | Err _ => (st.1, st.2 + ACCEPT_PAUSE)
  end.

(** Errors of [accept] never end the loop: every client that connects is served,
    in order, and each error costs the pause. *)
Theorem accept_loop_serves {C} (l : list (result ErrorKind C)) st :
  foldl accept_turn st l =
  (st.1 ++ omap ok l, st.2 + ACCEPT_PAUSE * zlen (base.filter (λ o, is_ok o = false) l)).
Proof.
  revert st. induction l as [|[client|k] l IH]; intros [served t]; cbn [foldl accept_turn fst snd omap list_omap ok].
  - cbn. by rewrite app_nil_r, Z.mul_0_r, Z.add_0_r.
  - rewrite IH. cbn [fst snd]. rewrite <- app_assoc, list.filter_cons, decide_False by done. done.
  - rewrite IH. cbn [fst snd]. rewrite list.filter_cons, decide_True by done. f_equal. unfold zlen. cbn [length]. lia.
Qed.

(** ** Witnesses *)

(** Daemons that announce what is registered with them. *)
Definition sample_mdns : Mdns := {|
  mdns := (nat * list (nat * ServiceInfo))%type;
  mdns_handle := nat;
  mdns_new w := Some (w.1, (S w.1, w.2));
  mdns_valid i := bool_decide (si_instance i ≠ []);
  mdns_register h i w := Some (w.1, (h, i) :: w.2);
  mdns_browse h ty w := Some w;
  mdns_unregister h n w := Some (w.1, base.filter (λ x, get_fullname x.2 ≠ n) w.2);
  mdns_shutdown h w := (w.1, base.filter (λ x, x.1 ≠ h) w.2);
  announced w := map snd w.2;
|}.

Lemma sample_mdns_laws : @MdnsLaws sample_mdns.
Proof.
  split; cbn.
  - by intros w h w' [= <- <-].
  - intros h i w w' x [= <-]. cbn. apply elem_of_cons.
  - by intros h ty w w' [= <-].
  - intros h n w w' x [= <-]. cbn. intros ([k y] & -> & [Hn Hin]%list_elem_of_filter)%list_elem_of_fmap. split; [done|].
    apply list_elem_of_fmap. by exists (k, y).
  - intros h w x ([k y] & -> & [_ Hin]%list_elem_of_filter)%list_elem_of_fmap. apply list_elem_of_fmap. by exists (k, y).
Qed.

Lemma discovery_lifetime_witness :
  ∃ r w, @discovery_start sample_mdns (lit "id-b") (lit "b") 47654 (0%nat, []) = (Ok r, w) ∧
  discovery_info (lit "id-b") (lit "b") 47654 ∈ @announced sample_mdns w ∧
  browse_step (lit "id-a") (MdnsResolved (resolved (discovery_info (lit "id-b") (lit "b") 47654) [V4 10 0 0 2])) =
    Some (Found (mkDiscovered (lit "id-b") (lit "b") (lit "id-b") [SocketAddr_new (V4 10 0 0 2) 47654])).
Proof.
  destruct (@discovery_start sample_mdns (lit "id-b") (lit "b") 47654 (0%nat, [])) as [[r|e] w] eqn:E; [|by vm_compute in E].
  exists r, w. split; [done|].
  destruct (@discovery_lifetime sample_mdns sample_mdns_laws _ _ _ _ _ _ E) as (Ha & Hseen & _).
  split; [apply Ha; by left|by apply Hseen].
Defined.

Lemma offer_is_found_witness :
  ∃ found, resolve_target (lit "LAPTOP") (Some [OtherEvent;
      ServiceResolved (resolved_offer (offer_info (lit "id-b") (lit "laptop")) [V4 10 0 0 2])]) = Ok found ∧
    SocketAddr_new (V4 10 0 0 2) PAIR_PORT ∈ found.
Proof.
  pose proof (@offer_is_found sample_mdns sample_mdns_laws (mkLocalInfo (lit "id-b") (lit "laptop") []) (Some (Ok ()))
    (0%nat, []) (lit "LAPTOP") [OtherEvent] [V4 10 0 0 2] [] eq_refl) as Ho.
  destruct (@offer_window sample_mdns _ _ _) as [[r during] w']. destruct Ho as (_ & _ & Hf).
  destruct Hf as (found & E & Hin); [by vm_compute|left; by vm_compute|exists (V4 10 0 0 2); split; [left|by vm_compute]|by repeat constructor|].
  exists found. split; [exact E|]. apply Hin. exists (V4 10 0 0 2). split_and!; [left|by vm_compute|done].
Defined.
