(* ===== verification/Quote.v ===== *)
(** * Quote: text handed to other interpreters

    [applescript_quote] and the notification commands of
    [crates/qdropd/src/notify.rs], [shell_quote] and [prompt_pin] of
    [crates/qdrop/src/main.rs].  The reading side is a reader of AppleScript
    string literals and of POSIX shell words.

    The theorems: whatever the text (a file name or a device name a peer
    chose), the interpreter reads back one literal, or one word, with exactly
    that text, so nothing of it is interpreted. *)
From S2P Require Import Prelude Text.

(** ** [notify.rs] *)

Definition applescript_char (c : Z) : list Z :=
  if (c =? 34) || (c =? 92) then [92; c]     (* double quote, backslash *)
  else if c =? 10 then [32]                  (* line feed *)
  else [c].
Definition applescript_quote (s : str) : str :=
  utf8_encode ([34] ++ concat (map applescript_char (chars s)) ++ [34]).

(** [notify]: the helper and its arguments. *)
Definition notify (macos : bool) (summary body : str) : str * list str :=
  if macos then
    (lit "osascript", [lit "-e"; lit "display notification " ++ applescript_quote body
                                   ++ lit " with title " ++ applescript_quote summary])
  else (lit "notify-send", [lit "--app-name=qdrop"; summary; body]).

(** An AppleScript string literal: after the opening quote, up to the first
    quote that is not escaped. *)
Fixpoint as_body (cs : list Z) : option (list Z * list Z) :=
  match cs with
  | [] => None
  | c :: r =>
      if c =? 34 then Some ([], r)
      else if c =? 92 then
        match r with
        | [] => None
        | e :: r' =>
            let x := if (e =? 34) || (e =? 92) then Some e
                     else if e =? 110 then Some 10 else if e =? 114 then Some 13
                     else if e =? 116 then Some 9 else None in
            match x, as_body r' with
            | Some x, Some (b, rest) => Some (x :: b, rest)
            | _, _ => None
            end
        end
      else match as_body r with Some (b, rest) => Some (c :: b, rest) | None => None end
  end.
Definition as_literal (cs : list Z) : option (list Z * list Z) :=
  match cs with c :: r => if c =? 34 then as_body r else None | [] => None end.

Definition one_line (c : Z) : Z := if c =? 10 then 32 else c.

Lemma applescript_scalar s :
  forallb is_scalar ([34] ++ concat (map applescript_char (chars s)) ++ [34]) = true.
Proof.
  apply forallb_forall. intros c Hc. apply in_app_or in Hc as [[<-|[]]|Hc]; [done|].
  apply in_app_or in Hc as [Hc|[<-|[]]]; [|done].
  apply in_concat in Hc as (l & Hl & Hc). apply in_map_iff in Hl as (x & <- & Hx).
  pose proof (chars_scalar s) as Hs. rewrite forallb_forall in Hs. specialize (Hs x Hx).
  unfold applescript_char in Hc. destruct ((x =? 34) || (x =? 92)).
  - by destruct Hc as [<-|[<-|[]]].
  - destruct (x =? 10); by destruct Hc as [<-|[]].
Qed.

Lemma as_body_quote cs rest :
  as_body (concat (map applescript_char cs) ++ 34 :: rest) = Some (map one_line cs, rest).
Proof.
  induction cs as [|c cs IH]; [done|]. cbn [map concat]. rewrite <- app_assoc.
  unfold applescript_char at 1, one_line at 1. destruct ((c =? 34) || (c =? 92)) eqn:E.
  - cbn [app as_body]. change (92 =? 34) with false. change (92 =? 92) with true. cbv iota.
    rewrite E, IH. cbn [map]. destruct (c =? 10) eqn:E10; [|done].
    apply Z.eqb_eq in E10. by subst.
  - apply orb_false_iff in E as [E1 E2]. destruct (c =? 10) eqn:E10.
    + cbn [app as_body]. change (32 =? 34) with false. change (32 =? 92) with false. cbv iota. by rewrite IH.
    + cbn [app as_body]. rewrite E1, E2, IH. done.
Qed.

(** No script injection: whatever follows in the script, the AppleScript
    reader takes [applescript_quote s] as one literal whose value is [s] on one
    line, and resumes exactly where the quote ends. *)
Theorem applescript_literal s rest :
  as_literal (chars (applescript_quote s) ++ rest) = Some (map one_line (chars s), rest).
Proof.
  unfold applescript_quote. rewrite chars_utf8_encode by apply applescript_scalar.
  cbn [app as_literal]. change (34 =? 34) with true. cbv iota. rewrite <- app_assoc. apply as_body_quote.
Qed.

(** ** [main.rs] *)

Section shell.
(** [char::is_alphanumeric]. *)
Variable alphanumeric : Z → bool.

Definition plain_char (c : Z) : bool := alphanumeric c || bool_decide (c ∈ [45; 95; 46]).

Definition shell_quote (s : str) : str :=
  if forallb plain_char (chars s) then s
  else utf8_encode ([39] ++ concat (map (λ c, if c =? 39 then [39; 92; 39; 39] else [c]) (chars s)) ++ [39]).

(** A word of the shell's grammar, as far as [shell_quote] needs it: single
    quotes, a backslash before one character, and characters that mean
    themselves. *)
Definition ascii_alnum (c : Z) : bool :=
  ((48 <=? c) && (c <=? 57)) || ((65 <=? c) && (c <=? 90)) || ((97 <=? c) && (c <=? 122)).
Definition literal_char (c : Z) : bool := (128 <=? c) || ascii_alnum c || bool_decide (c ∈ [45; 95; 46]).

Fixpoint sh_word (quoted : bool) (cs : list Z) : option (list Z) :=
  match cs with
  | [] => if quoted then None else Some []
  | c :: r =>
      if quoted then
        if c =? 39 then sh_word false r else cons c <$> sh_word true r
      else if c =? 39 then sh_word true r
      else if c =? 92 then match r with e :: r' => cons e <$> sh_word false r' | [] => None end
      else if literal_char c then cons c <$> sh_word false r
      else None
  end.

Lemma sh_word_plain cs : forallb literal_char cs = true → sh_word false cs = Some cs.
Proof.
  induction cs as [|c cs IH]; [done|]. cbn [forallb]. intros [Hc Hcs]%andb_true_iff. cbn [sh_word].
  assert (c ≠ 39 ∧ c ≠ 92) as [H1 H2].
  { split; intros ->; by vm_compute in Hc. }
  rewrite (proj2 (Z.eqb_neq _ _) H1), (proj2 (Z.eqb_neq _ _) H2), Hc, IH by done. done.
Qed.

Lemma sh_word_quoted cs :
  sh_word true (concat (map (λ c, if c =? 39 then [39; 92; 39; 39] else [c]) cs) ++ [39]) = Some cs.
Proof.
  induction cs as [|c cs IH]; [done|]. cbn [map concat]. rewrite <- app_assoc.
  destruct (c =? 39) eqn:E.
  - apply Z.eqb_eq in E. subst c. cbn [app sh_word].
    change (39 =? 39) with true. change (92 =? 39) with false. change (92 =? 92) with true. cbv iota.
    by rewrite IH.
  - cbn [app sh_word]. rewrite E, IH. done.
Qed.

(** The command line shown is the one meant: for every device name, the
    shell reads [shell_quote name] as one word with exactly that name, if the
    alphanumeric characters below 128 are the ASCII letters and digits. *)
Theorem shell_quote_word s :
  valid_str s → (∀ c, c < 128 → alphanumeric c = ascii_alnum c) →
  sh_word false (chars (shell_quote s)) = Some (chars s).
Proof.
  intros Hs Ha. unfold shell_quote. destruct (forallb plain_char (chars s)) eqn:E.
  - apply sh_word_plain. apply forallb_forall. intros c Hc. rewrite forallb_forall in E. specialize (E c Hc).
    unfold literal_char, plain_char in *. destruct (Z.leb_spec 128 c); [done|].
    by rewrite Ha in E.
  - rewrite chars_utf8_encode.
    + cbn [app sh_word]. change (39 =? 39) with true. cbv iota. apply sh_word_quoted.
    + apply forallb_forall. intros c Hc. apply in_app_or in Hc as [[<-|[]]|Hc]; [done|].
      apply in_app_or in Hc as [Hc|[<-|[]]]; [|done].
      apply in_concat in Hc as (l & Hl & Hc). apply in_map_iff in Hl as (x & <- & Hx).
      pose proof (chars_scalar s) as Hsc. rewrite forallb_forall in Hsc. specialize (Hsc x Hx).
      destruct (x =? 39); [by destruct Hc as [<-|[<-|[<-|[<-|[]]]]]|by destruct Hc as [<-|[]]].
Qed.
End shell.

Lemma shell_quote_word_witness :
  sh_word false (chars (shell_quote ascii_alnum (lit "it's; rm -rf ~"))) = Some (chars (lit "it's; rm -rf ~")).
Proof. apply (shell_quote_word ascii_alnum (lit "it's; rm -rf ~")); [by apply valid_ascii|done]. Defined.

(** [prompt_pin]: the line is accepted iff its trimmed text is six ASCII
    digits; it is returned as typed. *)
Definition prompt_pin (line : str) : option str :=
  let pin := trim line in
  if ((length pin =? 6)%nat && forallb (λ c, (48 <=? c) && (c <=? 57)) (chars pin)) then Some line else None.
