(* ===== verification/Control.v ===== *)
(** * Control: the control socket and the wiring of the daemon

    [crates/qdropd/src/control.rs] (requests and their answers) and the parts of
    [crates/qdropd/src/main.rs] that connect the components: the router of
    inbound frames and the two pollers that reload [peers.toml] and
    [config.toml].  The daemon is one record; its components share the bus,
    which is the one in its file transfer state, and the registry, which is
    [peers.toml].  The JSON of the socket is a parameter.

    The theorems: each kind of frame reaches one component; restoring an entry
    puts the recorded content on the clipboard; a text sent to a named peer
    reaches that peer only; what [status] shows; and where the commands differ
    from their documentation. *)
From S2P Require Import Prelude Text Crypto Proto Frame Store Samples Net Peers Config Bus FileXfer Trust Auth History Clipboard Sync State.

Record daemon := mkDaemon {
  d_controls : Controls;
  d_sync : sync;                 (* with the file transfer state, the bus and the history *)
  d_auth : AuthManager;          (* its bus is the shared one, its registry [peers.toml] *)
  d_opened : list (str * str);   (* links handed to a launcher *)
}.

Definition d_bus (d : daemon) : PeerBus := bus (filex (d_sync d)).
Definition d_registry (d : daemon) : option Peers := registry (d_auth d).

Definition with_filex (s : sync) (x : FileXfer) : sync :=
  mkSync (seq s) (last_synced s) (last_broadcast s) x (hist s) (to_clip s) (clip_blobs s).
Definition with_bus (d : daemon) (b : PeerBus) : daemon :=
  mkDaemon (d_controls d) (with_filex (d_sync d) (set_bus (filex (d_sync d)) b)) (d_auth d) (d_opened d).
Definition with_sync (d : daemon) (s : sync) : daemon :=
  mkDaemon (d_controls d) s (d_auth d) (d_opened d).
Definition with_controls (d : daemon) (c : Controls) : daemon :=
  mkDaemon c (d_sync d) (d_auth d) (d_opened d).

(** Running an operation of the authorisation component on the shared bus. *)
Definition shared_auth (d : daemon) : AuthManager :=
  mkAuth (d_bus d) (pending (d_auth d)) (waiters (d_auth d)) (registry (d_auth d)) (au_notices (d_auth d)).
Definition with_auth (d : daemon) (a : AuthManager) : daemon :=
  let d := with_bus d (au_bus a) in mkDaemon (d_controls d) (d_sync d) a (d_opened d).

(** ** Requests and answers *)

Inductive Request :=
| ClipPause | ClipResume | ClipStatus | Status
| RSend (paths : list path) (to : option str)
| ROpen (url : str) (to : option str)
| RAuth (name : str) (mutual : bool)
| ClipGet
| ClipSet (text : str)
| ClipHistory
| ClipRestore (index : nat)
| ClipSend (index : nat) (to : option str).

Record PeerRow := mkRow { row_name : str; row_id : str; row_online : bool; row_since : option Z; row_seen : option Z }.

(** The error answers, without their wording. *)
Inductive ControlError :=
| ClipboardUnavailable | NoSuchEntry | OpenRefused (e : DispatchError) | NoPeerMatching (name : str)
| AuthorizeFailed (e : AuthError) | BadRequest.

Inductive Response :=
| SStatus (port : Z) (paused images : bool) (connected_peers : list str) (rows : list PeerRow)
| SSent (ok : bool) (outcomes : list SendOutcome)
| SOpened (n : nat)
| SText (text : option str)
| SDone
| SEntries (items : list Item)
| SSentTo (ok : bool) (n : nat)
| SAuthorized (host : str)
| SAwaiting (id : str) (exchange : nat)      (* answered when the exchange finishes *)
| SError (what : ControlError).

Section control.
Context `{Hashes, Serde (list Entry)}.
Variable image_size : bytes → option (Z * Z).
Variable own_id : str.
Variable max_text : Z.
Variable has_clip : bool.
Variable port : Z.
Variable mine : DeviceInfo.
Variable macos : bool.

Definition status_json (st : DaemonState) (d : daemon) : Response :=
  SStatus port (clipboard_paused (d_controls d)) (sync_images_on (d_controls d)) (connected_ids (d_bus d))
    (map (λ p, mkRow (peer_name p) (peer_device_id p)
                 (bool_decide (peer_device_id p ∈ connected_ids (d_bus d)))
                 (online st !! peer_device_id p) (seen st !! peer_device_id p))
       (default [] (d_registry d))).

Definition to_thread (d : daemon) (c : ClipCommand) : daemon := with_sync d (send_clip (d_sync d) c).

(** [dispatch]: [st] is [state.json], [one] what sending one file to one peer
    does, [text] the answer of the clipboard thread. *)
Definition control_dispatch (st : DaemonState) (one : str → path → SendOutcome) (text : option str)
    (d : daemon) (req : Request) : Response * daemon :=
  let s := d_sync d in
  match req with
  | ClipPause => let d := with_controls d (set_clipboard_paused (d_controls d) true) in (status_json st d, d)
  | ClipResume => let d := with_controls d (set_clipboard_paused (d_controls d) false) in (status_json st d, d)
  | ClipStatus | Status => (status_json st d, d)
  | RSend paths to =>
      let outcomes := send (d_registry d) (filex s) paths to one in
      (SSent (negb (bool_decide (length outcomes = 0%nat)) && forallb out_ok outcomes) outcomes, d)
  | ROpen url to =>
      match dispatch (d_registry d) (d_bus d) url to with
      | (Ok n, b) => (SOpened n, with_bus d b)
      | (Err e, b) => (SError (OpenRefused e), with_bus d b)
      end
  | ClipGet => if has_clip then (SText text, to_thread d GetText) else (SError ClipboardUnavailable, d)
  | ClipSet t => if has_clip then (SDone, to_thread d (ApplyText t)) else (SError ClipboardUnavailable, d)
  | ClipHistory => (SEntries (history_list (d_registry d) (hist s)), d)
  | ClipRestore index =>
      match history_get (hist s) index with
      | Some (RText t) => if has_clip then (SDone, to_thread d (ApplyText t)) else (SError ClipboardUnavailable, d)
      | Some (RImage b) => if has_clip then (SDone, to_thread d (ApplyImage b)) else (SError ClipboardUnavailable, d)
      | None => (SError NoSuchEntry, d)
      end
  | ClipSend index to =>
      match history_get (hist s) index with
      | None => (SError NoSuchEntry, d)
      | Some (RText t) =>
          let msg := Clipboard 0 own_id [ClipEntry_text t] in
          let '(n, b) :=
            match to with
            | Some name =>
                match resolve_peer (d_registry d) name with
                | Some id => let '(q, b) := send_to (d_bus d) id msg in (if (q : bool) then 1%nat else 0%nat, b)
                | None => (0%nat, d_bus d)
                end
            | None => (length (connected_ids (d_bus d)), broadcast (d_bus d) msg None)
            end in
          (SSentTo (0 <? n)%nat n, with_bus d b)
      | Some (RImage b) =>
          (SDone, with_sync d (mkSync (seq s) (last_synced s) (last_broadcast s) (filex s) (hist s) (to_clip s)
                                 (clip_blobs s ++ [(ByRequest, send_clip_image (filex s) b)])))
      end
  | RAuth name mutual =>
      match resolve_peer (d_registry d) name with
      | None => (SError (NoPeerMatching name), d)
      | Some id =>
          match authorize_start mine (shared_auth d) id mutual with
          | (Err e, a) => (SError (AuthorizeFailed e), with_auth d a)
          | (Ok n, a) => (SAwaiting id n, with_auth d a)
          end
      end
  end.

(** The end of an [Auth] request. *)
Definition control_auth_finish (d : daemon) (id : str) (n : nat) (timed_out : bool)
    : option (Response * daemon) :=
  match authorize_finish (shared_auth d) id n timed_out with
  | None => None
  | Some (Ok host, a) => Some (SAuthorized host, with_auth d a)
  | Some (Err e, a) => Some (SError (AuthorizeFailed e), with_auth d a)
  end.

(** [handle]: one line, one answer; [parse] is [serde_json::from_str]. *)
Definition control_handle (parse : str → option Request) (st : DaemonState) (one : str → path → SendOutcome)
    (text : option str) (d : daemon) (line : str) : option Response * daemon :=
  match trim line with
  | [] => (None, d)
  | line => match parse line with
            | Some req => let '(r, d) := control_dispatch st one text d req in (Some r, d)
            | None => (Some (SError BadRequest), d)
            end
  end.

(** ** The router ([main]) *)

Definition route (io : hist_io) (faults : faults) (policy : ConfirmPolicy) (d : daemon)
    (peer : str) (msg : Message) : daemon :=
  let s := d_sync d in
  match msg with
  | Clipboard _ _ _ => with_sync d (sync_remote image_size own_id max_text has_clip (d_controls d) io s peer msg)
  | BlobStart _ _ _ _ | BlobChunk _ _ | BlobEnd _ _ | BlobAck _ _ _ =>
      with_sync d (with_filex s (handle_inbound faults (d_registry d) (filex s) peer msg))
  | OpenUrl url =>
      match link_inbound macos (d_registry d) policy peer url with
      | LinkOpened prog arg _ _ => mkDaemon (d_controls d) s (d_auth d) (d_opened d ++ [(prog, arg)])
      | _ => d
      end
  | AuthRequest _ _ | AuthReply _ _ => with_auth d (auth_inbound mine (shared_auth d) peer msg)
  | _ => d
  end.

(** ** What requests and frames do *)

(** Restoring brings back what was recorded: if the history shows the list
    [l], request [n] puts item [n] of [l] on the clipboard, the text or the image
    bytes as they were, and answers an error for any other number; nothing else
    changes. *)
Theorem restore_recorded st one text d n l :
  has_clip = true → shows (hist (d_sync d)) l →
  control_dispatch st one text d (ClipRestore n) =
  match l !! n with
  | Some (RText t) => (SDone, to_thread d (ApplyText t))
  | Some (RImage b) => (SDone, to_thread d (ApplyImage b))
  | None => (SError NoSuchEntry, d)
  end.
Proof.
  intros Hc Hs. unfold control_dispatch. rewrite (Hs n), Hc. by destruct (l !! n) as [[]|].
Qed.

Lemma send_to_others b id m id' :
  bus_wf b → id' ≠ id → queued (send_to b id m).2 id' = queued b id'.
Proof.
  intros Hb Hne. unfold send_to, sender. destruct (senders b !! id) as [tx|] eqn:E; [|done].
  unfold chan_try_send. destruct (chans b !! tx ≫= _) as [c|] eqn:Ec; [|done]. cbn [snd].
  unfold queued. cbn [senders chans]. destruct (senders b !! id') as [tx'|] eqn:E'; [|done]. cbn.
  rewrite lookup_insert_ne; [done|]. intros <-. apply Hne. by eapply Hb.
Qed.

(** A text goes where it is told: [clip --send n --to name] queues the
    recorded text once for the peer of that name, which must be connected with
    room in its queue, and leaves every other peer's queue alone. *)
Theorem clip_send_to_named st one text d n t name id tx c :
  bus_wf (d_bus d) → history_get (hist (d_sync d)) n = Some (RText t) →
  resolve_peer (d_registry d) name = Some id →
  senders (d_bus d) !! id = Some tx → chans (d_bus d) !! tx = Some c →
  closed c = false → (length (queue c) < cap c)%nat →
  let r := control_dispatch st one text d (ClipSend n (Some name)) in
  r.1 = SSentTo true 1 ∧
  queued (d_bus r.2) id = queue c ++ [Clipboard 0 own_id [ClipEntry_text t]] ∧
  (∀ id', id' ≠ id → queued (d_bus r.2) id' = queued (d_bus d) id').
Proof.
  intros Hb Hg Hr Htx Hch Hcl Hcap r. subst r. unfold control_dispatch. rewrite Hg, Hr.
  pose proof (send_to_others (d_bus d) id (Clipboard 0 own_id [ClipEntry_text t])) as Hoth.
  assert (send_to (d_bus d) id (Clipboard 0 own_id [ClipEntry_text t]) =
    (true, mkBus (senders (d_bus d)) (<[tx := mkChan (queue c ++ [Clipboard 0 own_id [ClipEntry_text t]]) (cap c) (closed c)]> (chans (d_bus d))))) as E.
  { unfold send_to, sender. rewrite Htx. unfold chan_try_send. rewrite Hch. cbn [mbind option_bind].
    unfold try_send. rewrite Hcl, (proj2 (Nat.ltb_lt _ _)) by done. done. }
  rewrite E in Hoth |- *. cbn [fst snd with_bus d_bus d_sync with_filex filex set_bus bus] in *. split_and!.
  - done.
  - unfold queued. cbn [senders chans]. rewrite Htx. cbn. by rewrite lookup_insert_eq.
  - intros id' Hne. by apply Hoth.
Qed.

(** An image ignores the target: [clip --send n --to name] of an image
    entry starts the same upload as without a target, to every connected peer,
    even if [name] is no peer at all (the answer comes when it has ended). *)
Theorem clip_send_image_everywhere st one text d n b name :
  history_get (hist (d_sync d)) n = Some (RImage b) →
  control_dispatch st one text d (ClipSend n (Some name)) = control_dispatch st one text d (ClipSend n None) ∧
  (control_dispatch st one text d (ClipSend n (Some name))).1 = SDone.
Proof.
  intros Hg. unfold control_dispatch. rewrite Hg. done.
Qed.

(** Status is live: the rows are the paired devices in their order, and a
    row is online iff the bus has a channel for that device; whatever
    [state.json] says only fills in the times. *)
Theorem status_rows st one text d rows p pa im cs :
  (control_dispatch st one text d Status).1 = SStatus p pa im cs rows →
  map row_id rows = map peer_device_id (default [] (d_registry d)) ∧
  ∀ r, r ∈ rows → row_online r = bool_decide (is_Some (senders (d_bus d) !! row_id r)).
Proof.
  cbn [control_dispatch fst]. unfold status_json. intros [= <- <- <- <- <-]. split; [by rewrite map_map|].
  intros r Hr. apply list_elem_of_fmap in Hr as (q & -> & Hq). cbn [row_online row_id].
  apply bool_decide_ext. apply connected_ids_spec.
Qed.

(** Frames are routed: a clipboard update leaves the transfers, the
    authorisations and the bus alone; a blob frame leaves the clipboard state
    and the authorisations alone; a link opens nothing unless the gate does; an
    authorisation frame touches neither clipboard nor transfers; and nothing
    but a link ever reaches the launcher. *)
Theorem route_separates io fl policy d peer msg :
  let d' := route io fl policy d peer msg in
  match msg with
  | Clipboard _ _ _ => filex (d_sync d') = filex (d_sync d) ∧ d_auth d' = d_auth d ∧ d_opened d' = d_opened d
  | BlobStart _ _ _ _ | BlobChunk _ _ | BlobEnd _ _ | BlobAck _ _ _ =>
      to_clip (d_sync d') = to_clip (d_sync d) ∧ hist (d_sync d') = hist (d_sync d) ∧
      d_auth d' = d_auth d ∧ d_opened d' = d_opened d
  | OpenUrl url => d_sync d' = d_sync d ∧ d_auth d' = d_auth d ∧
      (d_opened d' = d_opened d ∨
       ∃ prog s b, d_opened d' = d_opened d ++ [(prog, url)] ∧
         link_inbound macos (d_registry d) policy peer url = LinkOpened prog url s b)
  | AuthRequest _ _ | AuthReply _ _ =>
      to_clip (d_sync d') = to_clip (d_sync d) ∧ incoming (filex (d_sync d')) = incoming (filex (d_sync d)) ∧
      disk (filex (d_sync d')) = disk (filex (d_sync d)) ∧ d_opened d' = d_opened d
  | _ => d' = d
  end.
Proof.
  destruct msg; try done; cbn [route].
  - split_and!; [|done|done]. cbn [with_sync d_sync]. apply sync_remote_quiet.
  - unfold link_inbound. destruct (is_allowed_url url); cbn [negb]; [|by auto].
    destruct (needs_confirm _ _ _); [by auto|]. split_and!; [done|done|]. right. by repeat eexists.
Qed.

End control.

(** [qdrop copy] stays on this machine: the request only hands the text to
    the clipboard thread, which marks it as applied, so it is never reported as
    a local copy and no peer is ever sent it. *)
Theorem copy_stays_local `{Hashes, Serde (list Entry), Desktop} own_id port mine st one text d t th ty images tys :
  let r := control_dispatch own_id true port mine st one text d (ClipSet t) in
  let th' := clip_step th (Command (ApplyText t)) ty images in
  r.1 = SDone ∧ d_bus r.2 = d_bus d ∧ to_clip (d_sync r.2) = to_clip (d_sync d) ++ [ApplyText t] ∧
  reported (foldl (λ th ty', clip_step th Timeout ty' images) th' tys) = reported th.
Proof.
  intros r th'. split_and!; [done|done|done|]. by rewrite (polls_idle th' ty images tys).
Qed.

(** ** The pollers ([spawn_roster_reload], [spawn_config_reload]) *)

(** Every three seconds: the modification time seen last, and what it is now
    ([None]: no file). *)
Section pollers.
Context `{Base64}.
(** Name resolution, for configured addresses. *)
Variable resolve : str → result ErrorKind (list SocketAddr).

Record roster_poller := mkPoller { rp_last : option Z; rp_roster : RosterInner; rp_notified : nat }.

Definition roster_tick (w : roster_poller) (now : option Z) (load : result FileError Peers) : roster_poller :=
  if bool_decide (now = rp_last w) then w
  else match load with
       | Ok ps => mkPoller now (roster_load resolve (rp_roster w) ps) (S (rp_notified w))
       | Err _ => mkPoller now (rp_roster w) (rp_notified w)
       end.

Definition config_tick (last : option Z) (c : Controls) (now : option Z) (load : option Config)
    : option Z * Controls :=
  if bool_decide (now = last) then (last, c)
  else (now, match load with
             | Some cfg => set_sync_images c (sync_images cfg)
             | None => c
             end).

(** An edit that is noticed takes effect: when the modification time differs
    from the one seen last and the file loads, the roster trusts exactly the keys
    and ids of the file, whatever it trusted before, and the manager is told. *)
Theorem reload_exact w now ps key id :
  now ≠ rp_last w →
  let w' := roster_tick w now (Ok ps) in
  rp_notified w' = S (rp_notified w) ∧
  (is_trusted_key (rp_roster w') key = true ↔ ∃ p, p ∈ ps ∧ key_bytes p = Ok key) ∧
  (is_trusted_id (rp_roster w') id = true ↔ ∃ p, p ∈ ps ∧ peer_device_id p = id ∧ is_ok (key_bytes p) = true).
Proof.
  intros Hne w'. subst w'. unfold roster_tick. rewrite bool_decide_eq_false_2 by done. cbn [rp_notified rp_roster].
  split_and!; [done|apply trusted_key_iff|apply trusted_id_iff].
Qed.

(** An edit between start-up and the first look is missed: the daemon loads
    [peers.toml], then the poller notes the modification time; if the file was
    edited in between, every later tick sees that time unchanged and the roster
    stays the old one, however often it looks. *)
Theorem early_edit_missed ps m loads :
  let w := mkPoller m (from_peers resolve ps) 0 in
  foldl (λ w load, roster_tick w m load) w loads = w.
Proof.
  intros w. subst w. induction loads as [|l loads IH]; [done|]. cbn [foldl].
  unfold roster_tick at 2. cbn [rp_last]. by rewrite bool_decide_eq_true_2.
Qed.
End pollers.

(** ** Witnesses *)

#[local] Existing Instance sample_hashes.
#[local] Existing Instance entries_serde.

Definition sample_daemon : daemon :=
  let h := foldl (hist_step sample_size) sample_history
             [OText good_io (lit "old") (lit "local"); OImage good_io (lit "png") (lit "a")] in
  mkDaemon running (sync_start 1000 sample_xfer h)
    (AuthManager_new sample_bus (Some [sample_auth_peer "alice" "a"; sample_auth_peer "bob" "b"])) [].
Definition no_state : DaemonState := DaemonState_default.
Definition never_sent (peer : str) (p : path) : SendOutcome := mkOutcome [] peer false [].

Lemma sample_daemon_shows : shows (hist (d_sync sample_daemon)) [RImage (lit "png"); RText (lit "old")].
Proof. intros [|[|i]]; [vm_compute; reflexivity..|]. by destruct i. Qed.

Lemma restore_recorded_witness :
  (control_dispatch (lit "me") true 1 sample_info no_state never_sent None sample_daemon (ClipRestore 1)).2
  = to_thread sample_daemon (ApplyText (lit "old")).
Proof.
  rewrite (restore_recorded (lit "me") true 1 sample_info no_state never_sent None sample_daemon 1
             [RImage (lit "png"); RText (lit "old")] eq_refl sample_daemon_shows). reflexivity.
Defined.

Lemma clip_send_to_named_witness :
  let r := control_dispatch (lit "me") true 1 sample_info no_state never_sent None sample_daemon
             (ClipSend 1 (Some (lit "alice"))) in
  queued (d_bus r.2) (lit "a") = [Clipboard 0 (lit "me") [ClipEntry_text (lit "old")]].
Proof.
  destruct (clip_send_to_named (lit "me") true 1 sample_info no_state never_sent None sample_daemon 1 (lit "old")
    (lit "alice") (lit "a") 0 (mkChan [] 2 false)) as (_ & H & _);
    [apply sample_bus_wf|vm_compute; done|vm_compute; done|vm_compute; done|vm_compute; done|done|cbn; lia|exact H].
Defined.

Lemma clip_send_image_everywhere_witness :
  (control_dispatch (lit "me") true 1 sample_info no_state never_sent None sample_daemon
    (ClipSend 0 (Some (lit "nobody")))).1 = SDone.
Proof.
  apply (clip_send_image_everywhere (lit "me") true 1 sample_info no_state never_sent None sample_daemon 0 (lit "png")
           (lit "nobody")). vm_compute. reflexivity.
Defined.

Lemma status_rows_witness :
  ∃ rows, (control_dispatch (lit "me") true 1 sample_info no_state never_sent None sample_daemon Status).1
    = SStatus 1 false true (connected_ids sample_bus) rows ∧ map row_id rows = [lit "a"; lit "b"].
Proof.
  eexists. split; [reflexivity|].
  apply (status_rows (lit "me") true 1 sample_info no_state never_sent None sample_daemon _ 1 false true
    (connected_ids sample_bus)). reflexivity.
Defined.

Lemma reload_exact_witness :
  let w := @roster_tick hex_b64 no_resolver (mkPoller (Some 1) roster_empty 0) (Some 2) (Ok two_peers) in
  rp_notified w = 1%nat ∧
  (is_trusted_id (rp_roster w) (lit "zz") = true ↔
     ∃ p, p ∈ two_peers ∧ peer_device_id p = lit "zz" ∧ is_ok (@key_bytes hex_b64 p) = true).
Proof.
  destruct (@reload_exact hex_b64 no_resolver (mkPoller (Some 1) roster_empty 0) (Some 2) two_peers [] (lit "zz"))
    as (H1 & _ & H3); [done|]. split; [exact H1|exact H3].
Defined.
