(* ===== verification/Relay.v ===== *)
(** * Relay: how news reaches the transport manager

    The tasks around the manager of [crates/qdropd/src/transport.rs]: the browse
    loop of [discovery.rs], [spawn_discovery_forwarder], the poller of
    [peers.toml] in [main.rs] with the [watch] channel it notifies,
    [spawn_roster_watcher] and the manager's own queue; then [dial_loop], which
    waits on the [watch] channel of its peer's addresses.  The channels are
    [tokio]'s: the queues are bounded lists, the [watch] channel is an interface
    with its documented laws.

    The theorems: however the tasks are interleaved and whatever the registry
    and mDNS do, the tasks around the manager come to rest, and then the dial
    loops are those of the trusted peers that are known, no report and no change
    being lost; and a dial loop tries again in time, with the newest addresses. *)
From S2P Require Import Prelude Text Crypto Proto Frame Store Samples Net Peers Trust Connection Bus Transport Control State.

(** ** The [watch] channel of [tokio], with one receiver *)

Class Watch (A : Type) := {
  watch : Type;
  watch_new : A → watch;              (* [watch::channel] *)
  watch_send : watch → A → watch;
  watch_drop : watch → watch;         (* the sender is dropped *)
  watch_seen : watch → watch;         (* [borrow_and_update], or [changed] returning *)
  watch_value : watch → A;            (* [borrow] *)
  watch_unseen : watch → bool;        (* a value was sent since the last look *)
  watch_closed : watch → bool;
}.
Arguments watch A {_}.
Class WatchLaws (A : Type) `{Watch A} := {
  new_value (a : A) : watch_value (watch_new a) = a;
  new_unseen (a : A) : watch_unseen (watch_new a) = false;
  new_closed (a : A) : watch_closed (watch_new a) = false;
  send_value w (a : A) : watch_value (watch_send w a) = a;
  send_unseen w (a : A) : watch_unseen (watch_send w a) = true;
  send_closed w (a : A) : watch_closed (watch_send w a) = watch_closed w;
  drop_value w : watch_value (watch_drop w) = watch_value w;
  drop_unseen w : watch_unseen (watch_drop w) = watch_unseen w;
  drop_closed w : watch_closed (watch_drop w) = true;
  seen_value w : watch_value (watch_seen w) = watch_value w;
  seen_unseen w : watch_unseen (watch_seen w) = false;
  seen_closed w : watch_closed (watch_seen w) = watch_closed w;
}.

(** What [changed] does: it waits; it returns, because there is a new value; or
    it fails, because the sender is gone and its last value was seen. *)
Inductive watch_poll := Pending | Changed | Closed.
#[export] Instance watch_poll_eq_dec : EqDecision watch_poll.
Proof. solve_decision. Defined.
Definition watch_changed {A} `{Watch A} (w : watch A) : watch_poll :=
  if watch_unseen w then Changed else if watch_closed w then Closed else Pending.

Create HintDb relay discriminated.
#[export] Hint Rewrite @new_value @new_unseen @new_closed @send_value @send_unseen @send_closed @drop_value
  @drop_unseen @drop_closed @seen_value @seen_unseen @seen_closed using typeclasses eauto : relay.

(** ** The tasks around the manager *)

(** The queues' sizes. *)
Definition DISCOVERY_CHANNEL : nat := 64.
Definition INTERNAL_CHANNEL : nat := 64.

Section relay.
Context `{Base64, Watch unit}.
Variable resolve : str → result ErrorKind (list SocketAddr).
Variable own : str.

Inductive watcher := Watching | Telling | WatcherDone.
#[export] Instance watcher_eq_dec : EqDecision watcher.
Proof. solve_decision. Defined.

Record relay := mkRelay {
  y_mdns : list mdns_event;           (* reports the browse loop has not read *)
  y_discovery : list Internal;        (* [discovery_tx] to [discovery_rx] *)
  y_forward : option Internal;        (* read by the forwarder, not yet sent on *)
  y_poller : roster_poller;           (* with the shared roster *)
  y_notify : bool;                    (* loaded, not yet notified *)
  y_watch : watch unit;               (* [roster_tx] to [roster_rx] *)
  y_watcher : watcher;
  y_internal : list Internal;         (* [internal_tx] to [internal_rx] *)
  y_manager : Manager;
}.

Definition has_room (l : list Internal) (cap : nat) : bool := (length l <? cap)%nat.

(** One turn of the browse loop: a report is read and sent once there is room. *)
Definition browse_turn (y : relay) : relay :=
  match y_mdns y with
  | [] => y
  | e :: rest =>
      let sent d := mkRelay rest d (y_forward y) (y_poller y) (y_notify y) (y_watch y) (y_watcher y) (y_internal y) (y_manager y) in
      match browse_step own e with
      | None => sent (y_discovery y)
      | Some ev => if has_room (y_discovery y) DISCOVERY_CHANNEL then sent (y_discovery y ++ [ev]) else y
      end
  end.

(** [spawn_discovery_forwarder]: receive, then send. *)
Definition forwarder_turn (y : relay) : relay :=
  let go d f i := mkRelay (y_mdns y) d f (y_poller y) (y_notify y) (y_watch y) (y_watcher y) i (y_manager y) in
  match y_forward y with
  | Some ev => if has_room (y_internal y) INTERNAL_CHANNEL then go (y_discovery y) None (y_internal y ++ [ev]) else y
  | None => match y_discovery y with
            | ev :: rest => go rest (Some ev) (y_internal y)
            | [] => y
            end
  end.

(** One tick of [spawn_roster_reload]: the roster is replaced, and then the
    watchers are told. *)
Definition poller_turn (y : relay) (now : option Z) (load : result FileError Peers) : relay :=
  if y_notify y then y
  else
    let w := roster_tick resolve (y_poller y) now load in
    mkRelay (y_mdns y) (y_discovery y) (y_forward y) w (bool_decide (rp_notified w ≠ rp_notified (y_poller y)))
      (y_watch y) (y_watcher y) (y_internal y) (y_manager y).
Definition notify_turn (y : relay) : relay :=
  if y_notify y then
    mkRelay (y_mdns y) (y_discovery y) (y_forward y) (y_poller y) false (watch_send (y_watch y) ()) (y_watcher y)
      (y_internal y) (y_manager y)
  else y.

(** [spawn_roster_watcher]. *)
Definition watcher_turn (y : relay) : relay :=
  let go w st i := mkRelay (y_mdns y) (y_discovery y) (y_forward y) (y_poller y) (y_notify y) w st i (y_manager y) in
  match y_watcher y with
  | Watching => match watch_changed (y_watch y) with
                | Pending => y
                | Changed => go (watch_seen (y_watch y)) Telling (y_internal y)
                | Closed => go (y_watch y) WatcherDone (y_internal y)
                end
  | Telling => if has_room (y_internal y) INTERNAL_CHANNEL then go (y_watch y) Watching (y_internal y ++ [RosterChanged]) else y
  | WatcherDone => y
  end.

(** The manager's loop: the oldest message, with the roster in force. *)
Definition manager_turn (y : relay) : relay :=
  match y_internal y with
  | [] => y
  | msg :: rest =>
      mkRelay (y_mdns y) (y_discovery y) (y_forward y) (y_poller y) (y_notify y) (y_watch y) (y_watcher y) rest
        (manager_step own (rp_roster (y_poller y)) (y_manager y) msg)
  end.

(** The tasks' turns; and what comes from outside: mDNS reports, looks at the
    registry, and the messages and ends of connection tasks. *)
Inductive relay_event :=
| YBrowse | YForward | YNotify | YWatch | YManage
| YReport (e : mdns_event)
| YTick (now : option Z) (load : result FileError Peers)
| YPost (msg : Internal)
| YEnd (t : nat).

Definition relay_step (y : relay) (e : relay_event) : relay :=
  match e with
  | YBrowse => browse_turn y
  | YForward => forwarder_turn y
  | YNotify => notify_turn y
  | YWatch => watcher_turn y
  | YManage => manager_turn y
  | YReport r =>
      mkRelay (y_mdns y ++ [r]) (y_discovery y) (y_forward y) (y_poller y) (y_notify y) (y_watch y) (y_watcher y)
        (y_internal y) (y_manager y)
  | YTick now load => poller_turn y now load
  | YPost msg =>
      match msg with
      | InboundReady _ _ | ConnUp _ _ _ _ _ | ConnDown _ _ =>
          if has_room (y_internal y) INTERNAL_CHANNEL then
            mkRelay (y_mdns y) (y_discovery y) (y_forward y) (y_poller y) (y_notify y) (y_watch y) (y_watcher y)
              (y_internal y ++ [msg]) (y_manager y)
          else y
      | _ => y
      end
  | YEnd t =>
      match t_tasks (y_manager y) !! t with
      | Some (DriveConn _) =>
          mkRelay (y_mdns y) (y_discovery y) (y_forward y) (y_poller y) (y_notify y) (y_watch y) (y_watcher y)
            (y_internal y) (abort (y_manager y) t)
      | _ => y
      end
  end.

(** [manager] before its loop, with the three tasks spawned: the roster [r] was
    loaded at the start, when the registry had the time [last]; the seeds are
    queued. *)
Definition relay_start (r : RosterInner) (last : option Z) (seeds : list DiscoveredPeer) : relay :=
  mkRelay [] (map Found seeds) None (mkPoller last r 0) false (watch_new ()) Watching [] (manager_start own r).
Definition relay_run (y : relay) (es : list relay_event) : relay := foldl relay_step y es.

(** ** What the reports amount to *)

Definition learn (d : gmap str DiscoveredPeer) (msg : Internal) : gmap str DiscoveredPeer :=
  match msg with
  | Found p => <[dp_device_id p := p]> d
  | Lost id => delete id d
  | _ => d
  end.
Definition learn_all (d : gmap str DiscoveredPeer) (l : list Internal) : gmap str DiscoveredPeer := foldl learn d l.

(** Every report that has been made, read or not, after what the manager knows. *)
Definition in_flight (y : relay) : list Internal :=
  y_internal y ++ option_list (y_forward y) ++ y_discovery y ++ omap (browse_step own) (y_mdns y).
Definition reports (es : list relay_event) : list mdns_event :=
  omap (λ e, match e with YReport r => Some r | _ => None end) es.

(** What the manager's table has to be for the roster [r]. *)
Record current (r : RosterInner) (m : Manager) : Prop := {
  cu_trusted id : is_Some (t_peers m !! id) → role_for own id = Dialer → is_trusted_id r id = true;
  cu_known id : is_trusted_id r id = true → role_for own id = Dialer →
    is_Some (t_discovered m !! id) ∨ (∃ p, p ∈ static_peers r ∧ dp_device_id p = id) →
    is_Some (t_peers m !! id);
}.

(** Nothing left to do for the tasks. *)
Record relay_rests (y : relay) : Prop := {
  rr_mdns : y_mdns y = [];
  rr_discovery : y_discovery y = [];
  rr_forward : y_forward y = None;
  rr_notify : y_notify y = false;
  rr_watch : watch_unseen (y_watch y) = false;
  rr_watcher : y_watcher y ≠ Telling;
  rr_internal : y_internal y = [];
}.

(** A change of the roster that the manager has yet to hear of. *)
Definition told (y : relay) : Prop :=
  y_notify y = true ∨ watch_unseen (y_watch y) = true ∨ y_watcher y = Telling ∨ RosterChanged ∈ y_internal y.

Context {WL : WatchLaws unit}.

(** ** The manager's steps *)

Lemma ensure_peer_discovered r m p : t_discovered (ensure_peer own r m p) = t_discovered m.
Proof. unfold ensure_peer, spawn_task. by repeat case_match. Qed.
Lemma ensure_trusted_discovered r m ps : t_discovered (ensure_trusted own r m ps) = t_discovered m.
Proof.
  unfold ensure_trusted. revert m. induction ps as [|p ps IH]; intros m; [done|]. cbn [foldl]. rewrite IH.
  by case_match; rewrite ?ensure_peer_discovered.
Qed.

Lemma manager_learns r m msg : t_discovered (manager_step own r m msg) = learn (t_discovered m) msg.
Proof.
  destruct msg as [p|id| |peer caps|id name caps addr out|id reason]; cbn [manager_step learn].
  - case_match; by rewrite ?ensure_peer_discovered.
  - by repeat case_match.
  - unfold on_roster_changed. rewrite ensure_trusted_discovered. by apply (drop_all_lookup m _ []).
  - unfold on_inbound, spawn_task. repeat (case_match; simplify_eq; cbn [t_discovered set_peers abort emit]; try done).
  - unfold on_conn_up. by repeat case_match.
  - unfold on_conn_down. by case_match.
Qed.

(** Which ids a message that is no roster change adds to the table, or takes
    from it. *)
Lemma manager_step_peers r m msg id :
  msg ≠ RosterChanged → role_for own id = Dialer →
  is_Some (t_peers (manager_step own r m msg) !! id) ↔
  is_Some (t_peers m !! id) ∨ ∃ p, msg = Found p ∧ dp_device_id p = id ∧ is_trusted_id r id = true.
Proof.
  assert (∀ (t : gmap str PeerEntry) j e e', t !! j = Some e → is_Some (<[j := e']> t !! id) ↔ is_Some (t !! id)) as Hins.
  { intros t j e e' Hj. rewrite lookup_insert_is_Some'. split; [intros [->|?]; [by rewrite Hj|done]|by right]. }
  intros Hne Hrole. destruct msg as [p|j| |peer caps|j name caps addr out|j reason]; cbn [manager_step].
  - destruct (is_trusted_id r (dp_device_id p)) eqn:E.
    + rewrite (proj1 (ensure_peer_lookup _ _ _ _ _)). cbn [set_discovered t_peers]. naive_solver.
    + cbn [set_discovered t_peers]. split; [by left|]. intros [?|(q & [= <-] & <- & ?)]; congruence.
  - cbn [set_discovered t_peers]. destruct (t_peers m !! j) as [e|] eqn:Ej; [|naive_solver].
    destruct (addrs_tx e); [|naive_solver]. cbn [set_peers t_peers]. rewrite (Hins _ _ _ _ Ej). naive_solver.
  - done.
  - unfold on_inbound. destruct (role_for own (hello_device_id peer)) eqn:Er; [naive_solver|].
    assert (hello_device_id peer ≠ id) as Hid by congruence.
    unfold spawn_task. repeat case_match; simplify_eq; cbn [set_peers t_peers abort emit]; rewrite lookup_insert_ne by done; naive_solver.
  - unfold on_conn_up. destruct (t_peers m !! j) as [e|] eqn:Ej; cbn [emit set_senders set_peers t_peers];
      rewrite ?(Hins _ _ _ _ Ej); naive_solver.
  - unfold on_conn_down. cbn [set_senders t_peers]. destruct (t_peers m !! j) as [e|] eqn:Ej; cbn [emit set_senders set_peers t_peers];
      rewrite ?(Hins _ _ _ _ Ej); naive_solver.
Qed.

Lemma current_step r m msg : reaches own m → msg = RosterChanged ∨ current r m → current r (manager_step own r m msg).
Proof.
  intros Hm Hc. assert (msg = RosterChanged ∨ msg ≠ RosterChanged) as [->|Hne] by (destruct msg; auto).
  - destruct (roster_change_applied own r m Hm) as (H1 & H2 & _ & H4). split.
    + intros id Hid _. by apply H1.
    + intros id Ht Hr Hk. rewrite manager_learns in Hk. cbn [learn] in Hk.
      assert (∃ p, (t_discovered m !! dp_device_id p = Some p ∨ p ∈ static_peers r) ∧ dp_device_id p = id) as (p & Hp & <-).
      { destruct Hk as [[p Hp]|(p & Hp & <-)]; [|by eauto]. exists p.
        pose proof (ti_disc own m (reaches_inv own m Hm) id p Hp) as <-. by split; [left|]. }
      destruct (H4 p Hp Ht Hr) as [t Htk].
      destruct (ti_task own _ (manager_step_inv own r m RosterChanged (reaches_inv own m Hm)) t _ Htk) as (e & He & _). eauto.
  - destruct Hc as [?|[C1 C2]]; [done|]. split.
    + intros id Hid Hr. apply manager_step_peers in Hid as [Hid|(p & _ & _ & ?)]; auto.
    + intros id Ht Hr Hk. apply manager_step_peers; [done..|]. rewrite manager_learns in Hk.
      destruct Hk as [Hk|Hk]; [|left; apply C2; [done..|by right]].
      destruct msg as [p|j| |peer caps|j name caps addr out|j reason]; cbn [learn] in Hk;
        try (left; apply C2; [done..|by left]).
      * apply lookup_insert_is_Some' in Hk as [<-|Hk]; [right; by exists p|]. left. apply C2; [done..|by left].
      * left. apply C2; [done..|left]. destruct Hk as [q [_ Hq]%lookup_delete_Some]. by exists q.
Qed.
(** ** The invariant *)

Record relay_inv (y : relay) : Prop := {
  ri_reaches : reaches own (y_manager y);
  ri_open : watch_closed (y_watch y) = false;
  ri_watcher : y_watcher y ≠ WatcherDone;
  ri_told : told y ∨ current (rp_roster (y_poller y)) (y_manager y);
}.

Lemma tick_tells w now load :
  rp_notified (roster_tick resolve w now load) = rp_notified w → rp_roster (roster_tick resolve w now load) = rp_roster w.
Proof. unfold roster_tick. case_match; [done|]. destruct load; cbn; [lia|done]. Qed.

Lemma told_push y y' :
  (y_notify y = true → y_notify y' = true ∨ watch_unseen (y_watch y') = true) →
  (watch_unseen (y_watch y) = true → watch_unseen (y_watch y') = true ∨ y_watcher y' = Telling) →
  (y_watcher y = Telling → y_watcher y' = Telling ∨ RosterChanged ∈ y_internal y') →
  (RosterChanged ∈ y_internal y → RosterChanged ∈ y_internal y') → told y → told y'.
Proof. unfold told. tauto. Qed.

Lemma relay_step_inv y e : relay_inv y → relay_inv (relay_step y e).
Proof.
  assert (∀ (l : list Internal) x, RosterChanged ∈ l → RosterChanged ∈ l ++ [x]) as Happ by (intros; apply elem_of_app; by left).
  intros Hy. pose proof Hy as [Hr Ho Hw Ht]. destruct e as [| | | | |rep|now load|msg|t]; cbn [relay_step].
  - unfold browse_turn. destruct (y_mdns y); [done|]. destruct (browse_step own _); [|done]. by destruct (has_room _ _).
  - unfold forwarder_turn. repeat case_match; try done. split; cbn; try done. destruct Ht as [Ht|Ht]; [left|by right].
    revert Ht. apply told_push; cbn; auto.
  - unfold notify_turn. destruct (y_notify y); [|done]. split; cbn; try done; [by rewrite send_closed|].
    left. right. left. cbn. by rewrite send_unseen.
  - unfold watcher_turn. destruct (y_watcher y) eqn:Ew; [|case_match; [|done]|done].
    + unfold watch_changed. destruct (watch_unseen (y_watch y)); [|by rewrite Ho].
      split; cbn; try done; [by rewrite seen_closed|]. left. right. right. by left.
    + split; cbn; try done. left. right. right. right. cbn. apply elem_of_app. right. left.
  - unfold manager_turn. destruct (y_internal y) as [|msg rest] eqn:Ei; [done|]. split; cbn; try done; [by apply reaches_msg|].
    assert (msg = RosterChanged ∨ msg ≠ RosterChanged) as [->|Hne] by (destruct msg; auto).
    + right. apply current_step; [done|by left].
    + destruct Ht as [Ht|Ht]; [left|right; apply current_step; auto]. revert Ht. apply told_push; cbn; auto.
      rewrite Ei. intros [E|?]%elem_of_cons; [by rewrite E in Hne|done].
  - done.
  - unfold poller_turn. destruct (y_notify y) eqn:En; [done|]. split; cbn; try done.
    set (w := roster_tick _ _ _ _). destruct (decide (rp_notified w = rp_notified (y_poller y))) as [E|E].
    + pose proof (tick_tells _ _ _ E : rp_roster w = _) as E'. rewrite E'. destruct Ht as [Ht|Ht]; [left|by right]. revert Ht. apply told_push; cbn; try congruence; auto.
    + left. left. cbn. by apply bool_decide_eq_true.
  - repeat case_match; try done; (split; cbn; try done; destruct Ht as [Ht|Ht]; [left|by right]; revert Ht; apply told_push; cbn; auto).
  - repeat case_match; try done. split; cbn; try done; [by eapply reaches_end|].
    destruct Ht as [Ht|[C1 C2]]; [by left|right; by split].
Qed.

Lemma relay_start_inv r last seeds : relay_inv (relay_start r last seeds).
Proof.
  split; cbn; [constructor|by rewrite new_closed|done|]. right. unfold manager_start. split.
  - intros id [[? Hx]|(p & _ & <- & ?)]%ensure_trusted_lookup _; [cbn in Hx; by rewrite lookup_empty in Hx|done].
  - intros id Ht _ Hk. rewrite ensure_trusted_discovered in Hk. cbn in Hk.
    destruct Hk as [[? Hx]|(p & Hp & <-)]; [by rewrite lookup_empty in Hx|]. apply ensure_trusted_lookup. right. by exists p.
Qed.

(** ** No report is lost or reordered *)

Lemma learn_other d l msg l' : (∀ d, learn d msg = d) → learn_all d (l ++ msg :: l') = learn_all d (l ++ l').
Proof. intros Hm. unfold learn_all. rewrite !foldl_app. cbn [foldl]. by rewrite Hm. Qed.

Definition knowledge (y : relay) : gmap str DiscoveredPeer := learn_all (t_discovered (y_manager y)) (in_flight y).

Lemma relay_step_knows y e :
  knowledge (relay_step y e) = learn_all (knowledge y) (omap (browse_step own) (reports [e])).
Proof.
  unfold knowledge, in_flight. destruct e as [| | | | |rep|now load|msg|t]; cbn [relay_step reports omap list_omap].
  - unfold browse_turn. destruct (y_mdns y) as [|ev rest] eqn:Em; [by rewrite Em|]. cbn [omap list_omap].
    destruct (browse_step own ev) eqn:Eb; [|done]. case_match; [|cbn; by rewrite Em; cbn; rewrite Eb]. cbn. by rewrite <- !app_assoc.
  - unfold forwarder_turn. destruct (y_forward y) as [ev|] eqn:Ef.
    + case_match; [|by rewrite Ef]. cbn. by rewrite <- !app_assoc.
    + destruct (y_discovery y) eqn:Ed; [by rewrite Ef, Ed|]. done.
  - unfold notify_turn. by case_match.
  - unfold watcher_turn. repeat case_match; try done. cbn. rewrite <- app_assoc. by apply learn_other.
  - unfold manager_turn. destruct (y_internal y) as [|msg rest] eqn:Ei; [by rewrite Ei|]. cbn. by rewrite manager_learns.
  - cbn [y_mdns y_manager y_internal y_forward y_discovery]. rewrite omap_app, !app_assoc. unfold learn_all. by rewrite foldl_app.
  - unfold poller_turn. by case_match.
  - repeat case_match; try done; cbn [y_mdns y_manager y_internal y_forward y_discovery]; rewrite <- app_assoc; by apply learn_other.
  - by repeat case_match.
Qed.

Lemma relay_run_knows y es :
  knowledge (relay_run y es) = learn_all (knowledge y) (omap (browse_step own) (reports es)).
Proof.
  revert y. induction es as [|e es IH]; intros y; [done|]. cbn [relay_run foldl]. fold (relay_run (relay_step y e) es).
  rewrite IH, relay_step_knows. change (reports (e :: es)) with (reports ([e] ++ es)). unfold reports at 3. rewrite omap_app, omap_app.
  unfold learn_all. by rewrite foldl_app.
Qed.

Lemma relay_run_inv y es : relay_inv y → relay_inv (relay_run y es).
Proof. revert y. induction es as [|e es IH]; intros y Hy; [done|]. by apply IH, relay_step_inv. Qed.

(** ** Coming to rest *)

Definition task_turn (e : relay_event) : bool :=
  match e with YBrowse | YForward | YNotify | YWatch | YManage => true | _ => false end.

(** What is left to do. *)
Definition relay_load (y : relay) : nat :=
  4 * length (y_mdns y) + 3 * length (y_discovery y) + 2 * length (option_list (y_forward y))
  + 4 * Nat.b2n (y_notify y) + 3 * Nat.b2n (watch_unseen (y_watch y))
  + match y_watcher y with Telling => 3 | Watching => 1 | WatcherDone => 0 end + length (y_internal y).

Lemma task_turn_load y e : task_turn e = true → relay_step y e = y ∨ (relay_load (relay_step y e) < relay_load y)%nat.
Proof.
  destruct e; try done; intros _; cbn [relay_step]; unfold relay_load.
  - unfold browse_turn. destruct (y_mdns y) eqn:E; [by left|].
    destruct (browse_step own _); [case_match; [right|by left]|right]; cbn; rewrite ?length_app; cbn; lia.
  - unfold forwarder_turn. destruct (y_forward y) eqn:E.
    + case_match; [right|by left]. cbn. rewrite length_app. cbn. lia.
    + destruct (y_discovery y) eqn:E'; [by left|right]. cbn. lia.
  - unfold notify_turn. destruct (y_notify y) eqn:E; [right|by left]. cbn. rewrite send_unseen.
    destruct (watch_unseen (y_watch y)); cbn; lia.
  - unfold watcher_turn. destruct (y_watcher y) eqn:E; [|case_match; [right|by left]|by left].
    + unfold watch_changed. destruct (watch_unseen (y_watch y)) eqn:Eu.
      * right. cbn. rewrite seen_unseen. cbn. lia.
      * destruct (watch_closed (y_watch y)); [right|by left]. cbn. rewrite Eu. cbn. lia.
    + cbn. rewrite length_app. cbn. lia.
  - unfold manager_turn. destruct (y_internal y) eqn:E; [by left|right]. cbn. lia.
Qed.

Lemma tail_less {A} (x : A) l : l ≠ x :: l.
Proof. intros E%(f_equal length). cbn in E. lia. Qed.

Lemma rests_or_moves y : watch_closed (y_watch y) = false → y_watcher y ≠ WatcherDone →
  relay_rests y ∨ ∃ e, task_turn e = true ∧ relay_step y e ≠ y.
Proof.
  intros Ho Hw. destruct (y_internal y) as [|msg rest] eqn:Ei.
  2: { right. exists YManage. split; [done|]. cbn. unfold manager_turn. rewrite Ei.
       intros E%(f_equal y_internal). cbn in E. rewrite Ei in E. by eapply tail_less. }
  destruct (y_watcher y) eqn:Ew; [|right; exists YWatch|done].
  2: { split; [done|]. cbn. unfold watcher_turn. rewrite Ew, Ei. intros E%(f_equal y_watcher). cbn in E. congruence. }
  destruct (y_forward y) as [ev|] eqn:Ef.
  { right. exists YForward. split; [done|]. cbn. unfold forwarder_turn. rewrite Ef, Ei.
    intros E%(f_equal y_forward). cbn in E. congruence. }
  destruct (y_discovery y) as [|ev rest] eqn:Ed.
  2: { right. exists YForward. split; [done|]. cbn. unfold forwarder_turn. rewrite Ef, Ed.
       intros E%(f_equal y_forward). cbn in E. congruence. }
  destruct (y_mdns y) as [|ev rest] eqn:Em.
  2: { right. exists YBrowse. split; [done|]. cbn. unfold browse_turn. rewrite Em, Ed.
       destruct (browse_step own ev); intros E%(f_equal y_mdns); cbn in E; rewrite Em in E; by eapply tail_less. }
  destruct (y_notify y) eqn:En.
  { right. exists YNotify. split; [done|]. cbn. unfold notify_turn. rewrite En. intros E%(f_equal y_notify). cbn in E. congruence. }
  destruct (watch_unseen (y_watch y)) eqn:Eu.
  { right. exists YWatch. split; [done|]. cbn. unfold watcher_turn, watch_changed. rewrite Ew, Eu.
    intros E%(f_equal y_watcher). cbn in E. congruence. }
  left. split; try done. by rewrite Ew.
Qed.

Lemma in_flight_rests y : relay_rests y → in_flight y = [].
Proof. intros [E1 E2 E3 _ _ _ E4]. unfold in_flight. by rewrite E1, E2, E3, E4. Qed.

End relay.

(** ** [dial_loop] *)

(** Backoff within its limits: the ceiling is between a millisecond and the
    maximum, which fits in 64 bits of milliseconds. *)
Record backoff_ok (b : Backoff) : Prop := {
  bk_base : 1000000 ≤ bo_base b ≤ bo_max b;
  bk_max : bo_max b < 2 ^ 64;
  bk_current : bo_base b ≤ bo_current b ≤ bo_max b;
}.

Lemma backoff_reset_ok b : backoff_ok b → backoff_ok (backoff_reset b).
Proof. intros [? ? ?]. split; cbn; lia. Qed.

Lemma next_delay_bounds draw b :
  backoff_ok b → (∀ k, 0 ≤ k → 0 ≤ draw k ≤ k) →
  0 ≤ (next_delay draw b).1 ≤ bo_current b ∧ backoff_ok (next_delay draw b).2.
Proof.
  intros [Hb Hm Hc] Hd. unfold next_delay. cbn [fst snd]. split; [|split; cbn; lia].
  assert (1 ≤ bo_current b / 1000000 ≤ bo_current b) by zdm. assert (bo_current b / 1000000 * 1000000 ≤ bo_current b) by zdm.
  set (q := bo_current b / 1000000) in *. clearbody q. rewrite Z.max_l, Z.mod_small by lia.
  pose proof (Hd q). lia.
Qed.

Section dial.
Context `{KeyPairs, Serde Message, Watch (list SocketAddr), !WatchLaws (list SocketAddr)}.

Inductive dial_phase := DialTop | AwaitAddrs | Sleeping (until : Z) | DialEnded.
Record dial_task := mkDialTask { dt_backoff : Backoff; dt_addrs : watch (list SocketAddr); dt_phase : dial_phase }.

Definition dial_start (base max : Z) (addrs : list SocketAddr) : dial_task :=
  mkDialTask (Backoff_new base max) (watch_new addrs) DialTop.

(** One turn.  At the top the addresses and the key are read and dialled; [now]
    is the time (in nanoseconds) at which [dial_once] has returned, when the
    connection has ended.  The second component is the outcome of a dial.  When
    the sleep is over and the addresses changed, [select] takes either branch:
    [timer] says which. *)
Definition dial_turn (draw : Z → Z) (local : Hello) (peer_id : str) (r : RosterInner) (net : SocketAddr → option Dialed)
    (now : Z) (timer : bool) (t : dial_task) : dial_task * option (option (SocketAddr * Handshake)) :=
  let w := dt_addrs t in
  let wake := match watch_changed w with
              | Pending => t
              | Changed => mkDialTask (dt_backoff t) (watch_seen w) DialTop
              | Closed => mkDialTask (dt_backoff t) w DialEnded
              end in
  match dt_phase t with
  | DialTop =>
      match dial_round draw local r peer_id net (watch_value w) (dt_backoff t) with
      | (WaitForAddrs, b) => (mkDialTask b (watch_seen w) AwaitAddrs, None)
      | (DialedThenSleep conn delay, b) => (mkDialTask b (watch_seen w) (Sleeping (now + delay)), Some conn)
      end
  | AwaitAddrs => (wake, None)
  | Sleeping until =>
      if (until <=? now) && (timer || bool_decide (watch_changed w = Pending))
      then (mkDialTask (dt_backoff t) w DialTop, None)
      else (wake, None)
  | DialEnded => (t, None)
  end.

(** [ensure_peer] and [Lost] send addresses to a running loop. *)
Definition send_addrs (t : dial_task) (addrs : list SocketAddr) : dial_task :=
  mkDialTask (dt_backoff t) (watch_send (dt_addrs t) addrs) (dt_phase t).

(** A loop in between: its channel is open, its backoff in its limits, and a
    sleep ends at most the maximum after the last dial, at [last]. *)
Record dial_inv (last : Z) (t : dial_task) : Prop := {
  di_open : watch_closed (dt_addrs t) = false;
  di_backoff : backoff_ok (dt_backoff t);
  di_phase : dt_phase t ≠ DialEnded;
  di_sleep until : dt_phase t = Sleeping until → last ≤ until ≤ last + bo_max (dt_backoff t);
}.

Lemma dial_round_ok draw local r peer_id net addrs b :
  backoff_ok b → (∀ k, 0 ≤ k → 0 ≤ draw k ≤ k) →
  let '(w, b') := dial_round draw local r peer_id net addrs b in
  backoff_ok b' ∧ bo_max b' = bo_max b ∧ bo_base b' = bo_base b ∧
  ∀ conn delay, w = DialedThenSleep conn delay → 0 ≤ delay ≤ (if conn then bo_base b else bo_max b).
Proof.
  intros Hb Hd. unfold dial_round. destruct addrs as [|a addrs]; [by split_and!|]. destruct (key_for_id r peer_id); [|by split_and!].
  set (conn := dial_once _ _ _ _ _). set (b1 := if conn then _ else _).
  assert (backoff_ok b1 ∧ bo_max b1 = bo_max b ∧ bo_base b1 = bo_base b ∧ bo_current b1 ≤ if conn then bo_base b else bo_max b) as (Hb1 & Em & Eb & Hc).
  { unfold b1. destruct conn; split_and!; try done; [by apply backoff_reset_ok|]. apply Hb. }
  destruct (next_delay_bounds draw b1 Hb1 Hd) as [Hdel Hok]. destruct (next_delay draw b1) as [delay b2] eqn:E.
  injection E as <- <-. cbn [fst snd] in *. split_and!; try done. intros c d [= <- <-]. fold conn. lia.
Qed.
Lemma open_changed (w : watch (list SocketAddr)) :
  watch_closed w = false → watch_changed w = if watch_unseen w then Changed else Pending.
Proof. intros Hw. unfold watch_changed. rewrite Hw. by destruct (watch_unseen w). Qed.

Lemma dial_start_inv base max addrs last :
  1000000 ≤ base ≤ max → max < 2 ^ 64 → dial_inv last (dial_start base max addrs).
Proof. intros Hb Hm. split; cbn; [by rewrite new_closed|split; cbn; lia|done|done]. Qed.

Lemma send_addrs_inv last t addrs : dial_inv last t → dial_inv last (send_addrs t addrs).
Proof. intros [Ho Hb Hp Hs]. split; cbn; [by rewrite send_closed|done..]. Qed.

(** A turn keeps the invariant; a dial ends at [now]. *)
Lemma dial_turn_inv draw local peer_id r net now timer last t :
  (∀ k, 0 ≤ k → 0 ≤ draw k ≤ k) → dial_inv last t →
  let o := dial_turn draw local peer_id r net now timer t in
  dial_inv (if o.2 then now else last) o.1 ∧ bo_max (dt_backoff o.1) = bo_max (dt_backoff t) ∧
  ∀ conn, o.2 = Some (Some conn) → ∃ until, dt_phase o.1 = Sleeping until ∧ now ≤ until ≤ now + bo_base (dt_backoff t).
Proof.
  intros Hd [Ho Hb Hp Hs]. unfold dial_turn. rewrite (open_changed _ Ho). destruct (dt_phase t) as [| |until|] eqn:Ep; [| | |done].
  - pose proof (dial_round_ok draw local r peer_id net (watch_value (dt_addrs t)) (dt_backoff t) Hb Hd) as Hr.
    destruct (dial_round _ _ _ _ _ _ _) as [w b]. destruct Hr as (Hb' & Em & Eb & Hdel).
    destruct w as [|conn delay]; cbn; (split_and!; [split; cbn; [by rewrite seen_closed|done..|]|done|]); try done.
    + intros u [= <-]. pose proof (Hdel conn delay eq_refl). rewrite Em. destruct conn; destruct (bk_base _ Hb); lia.
    + intros c [= ->]. exists (now + delay). split; [done|]. pose proof (Hdel _ delay eq_refl). cbn in *. lia.
  - destruct (watch_unseen _); cbn; (split_and!; [split; cbn; rewrite ?seen_closed; try done|done|done]); congruence.
  - destruct (_ && _); [|destruct (watch_unseen _)]; cbn; (split_and!; [split; cbn; rewrite ?seen_closed; try done|done|done]).
    + congruence.
    + intros u E. apply Hs. congruence.
Qed.

Lemma dial_once_finds local expect peer_id net addrs a :
  a ∈ addrs → is_Some (dial_addr local expect peer_id (net a)) → is_Some (dial_once local expect peer_id net addrs).
Proof.
  intros Ha [hs Hhs]. induction addrs as [|b l IH]; [by apply not_elem_of_nil in Ha|]. cbn [dial_once].
  apply elem_of_cons in Ha as [<-|Ha]; [by rewrite Hhs|]. destruct (dial_addr local expect peer_id (net b)); [done|auto].
Qed.

(** (C38) A lost peer is dialled again in time, with the newest addresses: for a
    dial loop in any state it can be in, if the peer has an address and a key
    in the roster, then once the longest delay has passed since its last dial,
    or as soon as addresses are sent to it, one of its next two turns dials the
    addresses that were sent last with the key in force, so it connects if one
    of them answers as the peer; a connection that ends is tried again after at
    most the base delay; and every turn and every sending of addresses leaves
    the loop in such a state. *)
Theorem redials draw local peer_id r net now now' timer timer' last t expect :
  (∀ k, 0 ≤ k → 0 ≤ draw k ≤ k) → dial_inv last t →
  key_for_id r peer_id = Some expect → watch_value (dt_addrs t) ≠ [] →
  (last + bo_max (dt_backoff t) ≤ now ∧ dt_phase t ≠ AwaitAddrs) ∨ watch_unseen (dt_addrs t) = true →
  let outcome := dial_once local expect peer_id net (watch_value (dt_addrs t)) in
  let o1 := dial_turn draw local peer_id r net now timer t in
  let o2 := dial_turn draw local peer_id r net now' timer' o1.1 in
  (o1.2 = Some outcome ∨ o1.2 = None ∧ o2.2 = Some outcome) ∧
  (∀ a, a ∈ watch_value (dt_addrs t) → is_Some (dial_addr local expect peer_id (net a)) → is_Some outcome) ∧
  (∀ r net now timer, let o := dial_turn draw local peer_id r net now timer t in
     dial_inv (if o.2 then now else last) o.1 ∧ bo_max (dt_backoff o.1) = bo_max (dt_backoff t) ∧
     ∀ conn, o.2 = Some (Some conn) → ∃ until, dt_phase o.1 = Sleeping until ∧ now ≤ until ≤ now + bo_base (dt_backoff t)) ∧
  (∀ addrs, dial_inv last (send_addrs t addrs) ∧ watch_unseen (dt_addrs (send_addrs t addrs)) = true ∧
     watch_value (dt_addrs (send_addrs t addrs)) = addrs).
Proof.
  intros Hd Hi Hkey Hne Hdue outcome o1 o2. split_and!.
  - assert (∀ t' n tm, dt_phase t' = DialTop → watch_value (dt_addrs t') = watch_value (dt_addrs t) →
      (dial_turn draw local peer_id r net n tm t').2 = Some outcome) as Htop.
    { intros t' n tm Ht' Ev. unfold dial_turn, dial_round. rewrite Ht', Ev, Hkey.
      subst outcome. destruct (watch_value (dt_addrs t)) as [|a l]; [done|]. by destruct (next_delay _ _). }
    destruct Hi as [Ho Hb Hp Hs]. destruct (dt_phase t) as [| |until|] eqn:Ep; [by left; apply Htop| | |done]; right.
    + destruct Hdue as [[_ ?]|Hu]; [done|]. subst o1 o2. unfold dial_turn at 1 3. rewrite (open_changed _ Ho), Ep, Hu. cbn [fst snd].
      split; [done|]. apply Htop; [done|]. cbn. by rewrite seen_value.
    + subst o1 o2. unfold dial_turn at 1 3. rewrite (open_changed _ Ho), Ep.
      destruct ((until <=? now) && _) eqn:E; cbn [fst snd]; [split; [done|]; by apply Htop|].
      destruct (watch_unseen (dt_addrs t)); cbn [fst snd]; [split; [done|]; apply Htop; [done|]; cbn; by rewrite seen_value|].
      exfalso. destruct Hdue as [[Hl _]|?]; [|done]. pose proof (Hs until eq_refl).
      rewrite bool_decide_eq_true_2, orb_true_r, andb_true_r in E by done. apply Z.leb_gt in E. lia.
  - intros a. by apply dial_once_finds.
  - intros r' net' n tm. by apply dial_turn_inv.
  - intros addrs. split_and!; [by apply send_addrs_inv|apply send_unseen|apply send_value].
Qed.
End dial.

(** ** Witness *)

(** The value, whether it was seen, and whether the sender is gone. *)
Definition sample_watch A : Watch A := {|
  watch := (A * bool * bool)%type;
  watch_new a := (a, true, false);
  watch_send w a := (a, false, w.2);
  watch_drop w := (w.1, true);
  watch_seen w := (w.1.1, true, w.2);
  watch_value w := w.1.1;
  watch_unseen w := negb w.1.2;
  watch_closed w := w.2;
|}.
Lemma sample_watch_laws A : @WatchLaws A (sample_watch A).
Proof. by split. Qed.

(** Nobody is paired; Bob's device is announced, and is then paired. *)
Definition sample_news : list relay_event :=
  [YReport (MdnsResolved (mkService (advertised_txt (lit "id-b") (lit "b")) [V4 10 0 0 2] 47654));
   YBrowse; YForward; YForward; YManage; YTick (Some 2) (Ok [bob]); YNotify; YWatch; YWatch; YManage].


(** Alice's device lost Bob's and has slept long enough; Bob's answers. *)
Definition bob_answers (_ : SocketAddr) : option Dialed :=
  Some (mkDialed (λ v, if is_ok (v (sample_key false)) then TlsUp [sample_key false] else TlsFailed) false
    (mkReader (hello_wire hello_b) None)).
Definition sleepy_task : @dial_task (sample_watch _) :=
  @mkDialTask (sample_watch _) (mkBackoff 1000000000 60000000000 2000000000)
    (@watch_new _ (sample_watch _) [SocketAddr_new (V4 10 0 0 2) 47654]) (Sleeping 3000000000).

Lemma redials_witness :
  let turn := @dial_turn sample_keys message_bounded (sample_watch _) (λ k, k) hello_a (lit "id-b") t_roster bob_answers in
  (turn 70000000000 true (turn 61000000000 false sleepy_task).1).2 =
  Some (Some (SocketAddr_new (V4 10 0 0 2) 47654, mkHandshake hello_b Caps_ALL)).
Proof.
  intros turn.
  destruct (@redials sample_keys message_bounded (sample_watch _) (sample_watch_laws _) (λ k, k) hello_a (lit "id-b") t_roster
    bob_answers 61000000000 70000000000 false true 1000000000 sleepy_task (sample_key false)) as ([H|[_ H]] & _).
  - intros k. lia.
  - split; [reflexivity|by split; cbn; lia|done|]. intros u [= <-]. cbn. lia.
  - vm_compute. reflexivity.
  - done.
  - left. split; [cbn; lia|done].
  - exfalso. vm_compute in H. discriminate.
  - etrans; [exact H|]. vm_compute. reflexivity.
Defined.
