(* ===== verification/Daemon.v ===== *)
(** * Daemon: the whole daemon under any sequence of events

    What reaches the daemon of [Control], as events: frames from peers, requests
    on the control socket and the end of an authorisation exchange, the refresh
    of an authorised peer that connects, local copies, images delivered as
    blobs and the steps of those sent as blobs, the changes that other tasks and processes make to the controls, to
    the bus and to [peers.toml], each with its system failures.  The theorem is
    about every sequence of them: the invariants of the components hold
    together, and nothing but an allowed link reaches a launcher. *)
From S2P Require Import Prelude Text Crypto Proto Frame Store Samples Net Peers Config Bus FileXfer Trust Auth History Clipboard Sync State Control.

(** ** Events *)

Inductive daemon_event :=
| DFrame (io : hist_io) (fl : faults) (peer : str) (msg : Message)
| DRequest (st : DaemonState) (one : str → path → SendOutcome) (text : option str) (req : Request)
| DAuthEnd (id : str) (n : nat) (timed_out : bool)
| DLocal (now : Z) (io : hist_io) (c : LocalClip)
| DBlob (png : bytes)
| DUpload (k : nat) (timed_out : bool)                           (* a turn of an upload of an image *)
| DRefresh (id : str)                                            (* a peer connects *)
| DRefreshEnd (id : str) (known : list str) (n : nat) (timed_out : bool)
| DControls (c : Controls)                                       (* [config.toml] edited *)
| DBus (b : PeerBus)                                             (* connections come and go *)
| DRegistry (reg : option Peers).                                (* [peers.toml] rewritten by the client *)

(** The client writes registries whose device ids are unique. *)
Definition event_ok (e : daemon_event) : Prop :=
  match e with DRegistry (Some ps) => peers_wf ps | _ => True end.

Section daemon.
Context `{Hashes, Serde (list Entry)}.
Variable image_size : bytes → option (Z * Z).
Variable own_id : str.
Variable max_text : Z.
Variable has_clip : bool.
Variable port : Z.
Variable mine : DeviceInfo.
Variable macos : bool.
Variable policy : ConfirmPolicy.

Definition set_registry (a : AuthManager) (reg : option Peers) : AuthManager :=
  mkAuth (au_bus a) (pending a) (waiters a) reg (au_notices a).

Definition daemon_step (d : daemon) (e : daemon_event) : daemon :=
  match e with
  | DFrame io fl peer msg => route image_size own_id max_text has_clip mine macos io fl policy d peer msg
  | DRequest st one text req => (control_dispatch own_id has_clip port mine st one text d req).2
  | DAuthEnd id n timed => match control_auth_finish d id n timed with Some (_, d) => d | None => d end
  | DLocal now io c => with_sync d (sync_local image_size own_id max_text (d_controls d) now io (d_sync d) c)
  | DBlob png => with_sync d (sync_blob has_clip (d_sync d) png)
  | DUpload k timed => with_sync d (upload_turn (d_sync d) k timed)
  | DRefresh id => with_auth d (refresh_start mine (shared_auth d) id).2
  | DRefreshEnd id known n timed =>
      match refresh_finish (shared_auth d) id known n timed with Some a => with_auth d a | None => d end
  | DControls c => with_controls d c
  | DBus b => with_bus d b
  | DRegistry reg => mkDaemon (d_controls d) (d_sync d) (set_registry (d_auth d) reg) (d_opened d)
  end.

(** ** The invariant *)

Record daemon_inv (d : daemon) : Prop := {
  di_transfers : (base.size (incoming (filex (d_sync d))) ≤ MAX_CONCURRENT_INCOMING)%nat;
  di_history : hist_wf (hist (d_sync d));
  di_auth : auth_wf (d_auth d);
  di_registry ps : d_registry d = Some ps → peers_wf ps;
  di_opened : Forall (λ x : str * str, is_allowed_url x.2 = true) (d_opened d);
}.

(** *** Transfers *)

Lemma size_insert_le `{Countable K} {A} (m : gmap K A) k (x : A) : (base.size (<[k := x]> m) ≤ S (base.size m))%nat.
Proof. rewrite map_size_insert. destruct (m !! k); cbn; lia. Qed.

Lemma size_delete_le `{Countable K} {A} (m : gmap K A) k : (base.size (delete k m) ≤ base.size m)%nat.
Proof. rewrite map_size_delete. destruct (m !! k); cbn; lia. Qed.

Lemma handle_inbound_size io ps x peer msg :
  (base.size (incoming x) ≤ MAX_CONCURRENT_INCOMING)%nat →
  (base.size (incoming (handle_inbound io ps x peer msg)) ≤ MAX_CONCURRENT_INCOMING)%nat.
Proof.
  intros Hx. pose proof (λ k, size_delete_le (incoming x) k) as Hd.
  destruct msg; try done; cbn [handle_inbound].
  - unfold on_start. destruct (MAX_CONCURRENT_INCOMING <=? base.size (incoming x))%nat eqn:E; [done|].
    apply Nat.leb_gt in E.
    assert (∀ x' n s sk, incoming x' = incoming x →
      (base.size (incoming (start_incoming x' peer id n s sk)) ≤ MAX_CONCURRENT_INCOMING)%nat) as Hi.
    { intros x' n s sk Hinc. cbn [start_incoming set_incoming incoming]. rewrite Hinc.
      etrans; [apply size_insert_le|]. done. }
    destruct purpose.
    + destruct (safe_blob_name name); [|done]. destruct (io_mkdir io); [done|]. destruct (io_create io); [done|].
      destruct (fs_create _ _) as [i d]. by apply Hi.
    + destruct (clip_sink x); [|done]. destruct (MAX_MEM_BLOB <? size); [done|]. by apply Hi.
  - unfold on_chunk. destruct (incoming x !! (peer, id)) as [inc|] eqn:E; [|done].
    assert (∀ v, (base.size (<[(peer, id) := v]> (incoming x)) ≤ MAX_CONCURRENT_INCOMING)%nat) as Hi.
    { intros v. rewrite map_size_insert, E. done. }
    destruct (inc_sink inc); [destruct (io_write io)|destruct (MAX_MEM_BLOB <? _)];
      cbn [reject ack set_bus set_disk set_incoming incoming]; auto; etrans; eauto.
  - unfold on_end. destruct (incoming x !! (peer, id)) as [inc|] eqn:E; [|done].
    specialize (Hd (peer, id)). etrans; [|exact Hx]. etrans; [|exact Hd].
    case_bool_decide; [by destruct (inc_sink inc)|]. destruct (_ && _); [by destruct (inc_sink inc)|].
    destruct (inc_sink inc) as [tmp dir ino pos|buf]; [|done].
    destruct (io_rename io); [done|]. by destruct (fs_rename _ _ _).
  - by case_decide.
Qed.

Lemma upload_step_incoming timed x u : incoming (upload_step timed x u).1 = incoming x.
Proof. unfold upload_step. repeat case_match; by simplify_eq. Qed.

Lemma upload_turn_quiet s k timed :
  incoming (filex (upload_turn s k timed)) = incoming (filex s) ∧ hist (upload_turn s k timed) = hist s.
Proof.
  unfold upload_turn. destruct (clip_blobs s !! k) as [[w u]|]; [|done].
  pose proof (upload_step_incoming timed (filex s) u) as Hi. by destruct (upload_step timed (filex s) u).
Qed.

(** *** History *)

Lemma wf_shows h : hist_wf h → ∃ l, shows h l.
Proof.
  intros Hwf. pose proof (hw_ok h Hwf) as Hok.
  assert (∃ l, Forall2 (λ e y, entry_value (hdir h) (hdisk h) e = Some y) (entries h) l) as [l Hl].
  { induction Hok as [|e es He _ [l IH]]; [by exists []|].
    destruct (entry_ok_value _ _ _ _ He) as (y & Hy & _). exists (y :: l). by constructor. }
  exists l. intros i. rewrite history_get_value. destruct (entries h !! i) as [e|] eqn:E; cbn.
  - destruct (Forall2_lookup_l _ _ _ _ _ Hl E) as (y & -> & Hy). done.
  - symmetry. apply lookup_ge_None. apply lookup_ge_None in E. by rewrite <- (list.Forall2_length _ _ _ Hl).
Qed.

Definition hist_moves (h h' : History) : Prop := h' = h ∨ ∃ o, h' = hist_step image_size h o.

Lemma hist_moves_wf h h' :
  hist_moves h h' → hist_wf h → next_file h < u64_max →
  hist_wf h' ∧ next_file h' ≤ next_file h + 1.
Proof.
  intros [->|[o ->]] Hwf Hn; [split; [done|lia]|]. destruct (wf_shows h Hwf) as [l Hl].
  by destruct (hist_step_spec image_size h l o Hwf Hl Hn) as (? & _ & _ & ?).
Qed.

Lemma sync_local_hist ctl now io s c :
  hist_moves (hist s) (hist (sync_local image_size own_id max_text ctl now io s c)) ∧
  incoming (filex (sync_local image_size own_id max_text ctl now io s c)) = incoming (filex s).
Proof.
  unfold sync_local. destruct (clipboard_paused ctl); [by split; [left|]|].
  destruct (_ <? _); [by split; [left|]|]. destruct c as [t|png].
  - cbn [set_hist set_last_broadcast hist last_synced].
    assert (hist_moves (hist s) (record_text (hist s) io t (lit "local"))) as Hm by (right; by exists (OText io t (lit "local"))).
    destruct (max_text <? zlen t); [done|]. by case_bool_decide.
  - destruct (sync_images_on ctl); [|by split; [left|]]. cbn [set_hist set_last_broadcast hist last_synced].
    assert (hist_moves (hist s) (record_image image_size (hist s) io png (lit "local"))) as Hm
      by (right; by exists (OImage io png (lit "local"))).
    case_bool_decide; [done|]. by destruct (zlen png <=? _).
Qed.

Lemma sync_remote_hist ctl io s peer m :
  hist_moves (hist s) (hist (sync_remote image_size own_id max_text has_clip ctl io s peer m)).
Proof.
  destruct m; try by left. cbn [sync_remote]. destruct (_ || _); [by left|]. destruct (negb has_clip); [by left|].
  destruct (find_map as_text _) as [t|].
  - destruct (max_text <? zlen t); [by left|].
    assert (hist_moves (hist s) (record_text (hist s) io t peer)) as Hm by (right; by exists (OText io t peer)).
    by case_bool_decide.
  - destruct (sync_images_on ctl); [|by left]. destruct (find_map as_image _) as [png|]; [|by left].
    assert (hist_moves (hist s) (record_image image_size (hist s) io png peer)) as Hm by (right; by exists (OImage io png peer)).
    by case_bool_decide.
Qed.

(** *** Authorisation *)

Definition auth_good (a : AuthManager) : Prop := auth_wf a ∧ ∀ ps, registry a = Some ps → peers_wf ps.

(** Only the exchanges and the registry matter. *)
Lemma auth_good_eq a b :
  pending b = pending a → waiters b = waiters a → registry b = registry a → auth_good a → auth_good b.
Proof. intros H1 H2 H3 [Hw Hr]. split; [by eapply waiters_eq_wf|]. by rewrite H3. Qed.

Lemma settle_good a p w : auth_good a → auth_good (settle a p w).
Proof.
  intros [Hw Hr]. split; [by apply settle_wf|]. unfold settle. by destruct (pending a !! p).
Qed.

Lemma recorded_good a p info : auth_good a → auth_good (recorded a p info).2.
Proof.
  intros [Hw Hr]. split; [destruct (recorded_waiters a p info); by eapply waiters_eq_wf|].
  unfold recorded, record. destruct (registry a) as [ps|] eqn:E; [|by rewrite <- E in Hr].
  destruct (find_any ps p); cbn [snd registry]; [|by rewrite E].
  intros ? [= <-]. apply update_any_wf; auto.
Qed.

Lemma auth_send_good a p m : auth_good a → auth_good (auth_send a p m).2.
Proof. apply auth_good_eq; [apply auth_send_waiters..|]. unfold auth_send. by destruct (send_to _ _ _). Qed.

Lemma exchange_start_good a p mutual : auth_good a → auth_good (exchange_start mine a p mutual).2.
Proof.
  intros Ha. split; [by apply exchange_start_wf, Ha|].
  destruct (exchange_start_shape mine a p mutual) as [-> | ->]; cbn [snd];
    [|apply settle_good]; (apply auth_send_good; split; [|by apply (settle_good a p SenderGone)]);
    apply register_wf; try apply settle_wf; try apply settle_none; apply Ha.
Qed.

Lemma authorize_start_good a p mutual : auth_good a → auth_good (authorize_start mine a p mutual).2.
Proof. intros Ha. unfold authorize_start. destruct (sender _ _); [by apply exchange_start_good|done]. Qed.

Lemma refresh_start_good a p : auth_good a → auth_good (refresh_start mine a p).2.
Proof.
  intros Ha. unfold refresh_start. destruct (registry a ≫= _) as [q|]; [|done]. destruct (authorized q); [|done].
  pose proof (exchange_start_good a p false Ha) as He. by destruct (exchange_start mine a p false) as [[?|?] b].
Qed.

Lemma refresh_finish_good a p known n timed b :
  auth_good a → refresh_finish a p known n timed = Some b → auth_good b.
Proof.
  intros Ha. unfold refresh_finish, exchange_finish. pose proof (settle_good a p SenderGone Ha) as Hs.
  destruct (waiters a !! n) as [[|info|]|]; try (destruct timed; [|done]); try (by intros [= <-]).
  intros [= <-]. apply recorded_good. by destruct (negb _).
Qed.

Lemma authorize_finish_good a p n timed r b :
  auth_good a → authorize_finish a p n timed = Some (r, b) → auth_good b.
Proof.
  intros Ha. unfold authorize_finish, exchange_finish. pose proof (settle_good a p SenderGone Ha) as Hs.
  assert (∀ info, auth_good (recorded (settle a p SenderGone) p info).2) as Hr by (intros; by apply recorded_good).
  destruct (waiters a !! n) as [[|info|]|]; try (destruct timed; [|done]); try (by intros [= <- <-]).
  specialize (Hr info). destruct (recorded _ _ _) as [[?|?] c]; by intros [= <- <-].
Qed.

Lemma auth_inbound_good a p msg : auth_good a → auth_good (auth_inbound mine a p msg).
Proof.
  intros Ha. destruct msg; try done; cbn [auth_inbound]; [|by apply settle_good].
  pose proof (auth_send_good a p (AuthReply true mine) Ha) as Hs.
  destruct (auth_send a p _) as [q b]. cbn [snd] in Hs. destruct mutual; [|done].
  pose proof (recorded_good b p info Hs) as Hr. by destruct (recorded b p info) as [[?|?] c].
Qed.

(** ** Every step keeps the invariant *)

Definition files (d : daemon) : Z := next_file (hist (d_sync d)).

Lemma inv_auth_good d : daemon_inv d → auth_good (shared_auth d).
Proof. intros Hd. apply (auth_good_eq (d_auth d)); [done..|]. split; apply Hd. Qed.

Lemma inv_with_auth d a : daemon_inv d → auth_good a → daemon_inv (with_auth d a).
Proof. intros Hd [Ha Hr]. by split; try apply Hd. Qed.

Lemma inv_with_sync d s :
  daemon_inv d → (base.size (incoming (filex s)) ≤ MAX_CONCURRENT_INCOMING)%nat → hist_wf (hist s) →
  daemon_inv (with_sync d s).
Proof. intros Hd Hi Hh. by split; try apply Hd. Qed.

Lemma inv_with_bus d b : daemon_inv d → daemon_inv (with_bus d b).
Proof. intros Hd. by split; try apply Hd. Qed.

(** A clipboard step: the transfers stay, the history takes one step. *)
Lemma inv_clip_step d s :
  daemon_inv d → files d < u64_max → incoming (filex s) = incoming (filex (d_sync d)) →
  hist_moves (hist (d_sync d)) (hist s) →
  daemon_inv (with_sync d s) ∧ files (with_sync d s) ≤ files d + 1.
Proof.
  intros Hd Hf Hi Hm. destruct (hist_moves_wf _ _ Hm (di_history d Hd) Hf) as [Hw Hn].
  split; [|done]. apply inv_with_sync; [done| |done]. rewrite Hi. apply Hd.
Qed.

Lemma route_inv io fl d peer msg :
  daemon_inv d → files d < u64_max →
  let d' := route image_size own_id max_text has_clip mine macos io fl policy d peer msg in
  daemon_inv d' ∧ files d' ≤ files d + 1.
Proof.
  intros Hd Hf d'. subst d'. destruct msg; cbn [route]; try (split; [done|lia]).
  - apply inv_clip_step; [done|done| |apply sync_remote_hist].
    by rewrite (proj1 (sync_remote_quiet image_size own_id max_text has_clip _ _ _ _ _)).
  - split; [apply inv_with_sync; [done|apply handle_inbound_size, Hd|apply Hd]|unfold files; cbn; lia].
  - split; [apply inv_with_sync; [done|apply handle_inbound_size, Hd|apply Hd]|unfold files; cbn; lia].
  - split; [apply inv_with_sync; [done|apply handle_inbound_size, Hd|apply Hd]|unfold files; cbn; lia].
  - split; [apply inv_with_sync; [done|apply handle_inbound_size, Hd|apply Hd]|unfold files; cbn; lia].
  - unfold link_inbound. destruct (is_allowed_url url) eqn:E; cbn [negb]; [|split; [done|lia]].
    destruct (needs_confirm _ _ _); [split; [done|lia]|]. split; [|unfold files; cbn; lia].
    split; try apply Hd. cbn [d_opened]. apply Forall_app. split; [apply Hd|by repeat constructor].
  - split; [apply inv_with_auth, auth_inbound_good, inv_auth_good; done|unfold files; cbn; lia].
  - split; [apply inv_with_auth, auth_inbound_good, inv_auth_good; done|unfold files; cbn; lia].
Qed.

(** Requests on the socket change neither the transfers in progress nor the
    history, and launch nothing. *)
Lemma control_inv st one text d req :
  daemon_inv d →
  let d' := (control_dispatch own_id has_clip port mine st one text d req).2 in
  daemon_inv d' ∧ files d' = files d.
Proof.
  intros Hd d'. subst d'. destruct req; cbn [control_dispatch snd]; try done.
  - by destruct Hd.
  - by destruct Hd.
  - destruct (dispatch _ _ _ _) as [[n|e] b]; split; try done; by apply inv_with_bus.
  - destruct (resolve_peer _ _) as [id|]; [|done].
    pose proof (authorize_start_good (shared_auth d) id mutual (inv_auth_good d Hd)) as Ha.
    destruct (authorize_start _ _ _ _) as [[n|e] a]; split; try done; by apply inv_with_auth.
  - destruct has_clip; [|done]. split; [|done]. by apply inv_with_sync; try apply Hd.
  - destruct has_clip; [|done]. split; [|done]. by apply inv_with_sync; try apply Hd.
  - destruct (history_get _ _) as [[t|b]|]; [| |done]; (destruct has_clip; [|done]; split; [|done];
      by apply inv_with_sync; try apply Hd).
  - destruct (history_get _ _) as [[t|b]|]; [| |done].
    + match goal with |- context [let '(_, _) := ?X in _] => destruct X as [n b] end.
      split; [|done]. by apply inv_with_bus.
    + split; [|done]. by apply inv_with_sync; try apply Hd.
Qed.

Lemma daemon_step_inv d e :
  daemon_inv d → event_ok e → files d < u64_max →
  daemon_inv (daemon_step d e) ∧ files (daemon_step d e) ≤ files d + 1.
Proof.
  intros Hd He Hf. destruct e as [io fl peer msg|st one text req|id n timed|now io c|png|k timed|id|id known n timed|c|b|reg];
    cbn [daemon_step event_ok] in *.
  - by apply route_inv.
  - destruct (control_inv st one text d req Hd) as [H1 H2]. split; [done|lia].
  - unfold control_auth_finish. destruct (authorize_finish (shared_auth d) id n timed) as [[[h|er] a]|] eqn:E;
      [| |split; [done|lia]]; (split; [|unfold files; cbn; lia]); apply inv_with_auth; try done;
      apply (authorize_finish_good _ _ _ _ _ _ (inv_auth_good d Hd) E).
  - apply inv_clip_step; [done|done|apply sync_local_hist..].
  - apply inv_clip_step; [done|done| |left]; unfold sync_blob; by destruct has_clip.
  - destruct (upload_turn_quiet (d_sync d) k timed) as [H1 H2]. apply inv_clip_step; [done..|]. by left.
  - split; [apply inv_with_auth, refresh_start_good, inv_auth_good; done|unfold files; cbn; lia].
  - destruct (refresh_finish _ _ _ _ _) as [a|] eqn:E; [|split; [done|lia]].
    split; [|unfold files; cbn; lia]. apply inv_with_auth; [done|].
    apply (refresh_finish_good _ _ _ _ _ _ (inv_auth_good d Hd) E).
  - split; [by destruct Hd|unfold files; cbn; lia].
  - split; [by apply inv_with_bus|unfold files; cbn; lia].
  - split; [|unfold files; cbn; lia]. split; try apply Hd. intros ps.
    cbn. by intros ->.
Qed.

(** (C28) The daemon as a whole keeps its invariants: whatever sequence of peer
    frames, control requests, local copies, delivered images, reconnections and
    edits of its files it handles, with whatever system failures and from
    whatever peers (the client writes unique ids, and the 64-bit counter that
    names history images does not reach its end), there are at most sixteen transfers
    in progress, the history and its files agree, every exchange has its own
    waiter, the registry's device ids are unique, and no link was ever handed to
    a launcher that the allowlist refuses. *)
Theorem daemon_invariant d es :
  daemon_inv d → Forall event_ok es → files d + zlen es ≤ u64_max →
  daemon_inv (foldl daemon_step d es).
Proof.
  revert d. induction es as [|e es IH]; intros d Hd He Hf; [done|]. cbn [foldl].
  apply list.Forall_cons in He as [He Hes]. unfold zlen in *. cbn [length] in Hf.
  destruct (daemon_step_inv d e Hd He) as [H1 H2]; [lia|]. apply IH; [done|done|lia].
Qed.

End daemon.

(** ** Witnesses *)

#[local] Existing Instance sample_hashes.
#[local] Existing Instance entries_serde.

Definition start_daemon : daemon :=
  mkDaemon running (sync_start 1000 sample_xfer sample_history)
    (AuthManager_new sample_bus (Some [sample_auth_peer "alice" "a"; sample_auth_peer "bob" "b"])) [].

(** A copy, a peer's copy, an allowed and a refused link, and an authorisation. *)
Definition sample_events : list daemon_event :=
  [DLocal 2000 good_io (LocalText (lit "hi")); DFrame good_io no_faults (lit "a") (Clipboard 1 (lit "a") [ClipEntry_text (lit "yo")]);
   DFrame good_io no_faults (lit "a") (OpenUrl (lit "https://example.com"));
   DFrame good_io no_faults (lit "a") (OpenUrl (lit "file:///etc/passwd"));
   DRequest no_state never_sent None (RAuth (lit "alice") false);
   DFrame good_io no_faults (lit "a") (AuthReply true sample_info); DAuthEnd (lit "a") 0 false;
   DRefresh (lit "a"); DControls (mkControls true true); DBus sample_bus].

Lemma start_daemon_inv : daemon_inv start_daemon.
Proof.
  split.
  - vm_compute. lia.
  - apply fresh_wf, sample_fs_wf.
  - split; intros *; cbn [start_daemon d_auth AuthManager_new pending]; by rewrite lookup_empty.
  - intros ps [= <-]. by apply (bool_decide_unpack _).
  - constructor.
Qed.

Lemma daemon_invariant_witness :
  let d := foldl (daemon_step sample_size (lit "me") 1000 true 1 sample_info false Never) start_daemon sample_events in
  daemon_inv d ∧ d_opened d = [(lit "xdg-open", lit "https://example.com")] ∧
  is_authorized (default [] (d_registry d)) (lit "a") = true ∧ length (entries (hist (d_sync d))) = 2%nat.
Proof.
  split; [|vm_compute; done].
  apply (daemon_invariant sample_size (lit "me") 1000 true 1 sample_info false Never start_daemon sample_events);
    [apply start_daemon_inv|by repeat constructor|by vm_compute].
Defined.
