(* ===== verification/Start.v ===== *)
(** * Start: the start of the daemon

    [real_main] of [crates/qdropd/src/main.rs] up to the point where its tasks
    run, with what it calls: the files read and created, in their order, each
    way it can fail, and the state the components start in; the log filter of
    [crates/qdrop-core/src/logging.rs]; the seeding of the dialler; the control
    socket at the start and at the shutdown.

    The theorems: the daemon that starts satisfies the invariants of its
    components and presents and trusts exactly what the files say; a device that
    is started again is the same device; and the control socket is the daemon's
    while it runs, unless a second daemon takes it. *)
From S2P Require Import Prelude Text Crypto Proto Frame Store Samples Net Peers Trust Connection Config Bus FileXfer Transport Lifecycle Auth History Clipboard Sync State Control Daemon.

(** [Args]. *)
Record DaemonArgs := mkArgs { arg_verbose : bool; arg_port : option Z; arg_check : bool }.

(** [logging::init]: [rust_log] is the filter of [RUST_LOG], if it is set and
    parses. *)
Definition log_directive (rust_log : option str) (verbose : bool) (fallback : str) : str :=
  match rust_log with Some f => f | None => if verbose then lit "debug" else fallback end.

Inductive StartError :=
| StartConfig (e : option FileError)          (* [None]: no configuration directory *)
| StartLogging
| StartDeviceId (e : option DeviceError)
| StartIdentity (e : option IdentityError)
| StartPeers (e : option FileError)
| StartRuntime
| StartTls
| StartBind
| StartDiscovery.

(** ** The configuration directory *)

(** A name below a directory. *)
Lemma components_below d n :
  slash ∉ n → n ≠ [] → n ≠ lit "." → n ≠ lit ".." →
  components (path_join d n) = (if decide (d = []) then [] else components d) ++ [Normal n].
Proof.
  intros Hn Hn0 Hn1 Hn2. case_decide as Hd; [|by apply components_join]. subst d. unfold path_join.
  assert (starts_with [slash] n = false) as ->.
  { unfold starts_with. apply bool_decide_eq_false_2. intros [k ->]. set_solver. }
  rewrite decide_True by done. unfold components. rewrite (split_no_sep _ _ Hn). rewrite !decide_False by done.
  cbn [map concat]. by rewrite app_nil_r, piece_normal.
Qed.

(** The configuration directory as components. *)
Definition config_base (e : env) : path :=
  match config_dir e with Some d => if decide (d = []) then [] else components d | None => [] end.

Lemma config_path e n p :
  slash ∉ n → n ≠ [] → n ≠ lit "." → n ≠ lit ".." →
  components <$> ((λ d, path_join d n) <$> config_dir e) = Some p → p = config_base e ++ [Normal n].
Proof.
  unfold config_base. destruct (config_dir e) as [d|]; [|done]. intros H1' H2' H3' H4' [= <-]. by apply components_below.
Qed.

Lemma config_paths e dp ip :
  components <$> device_id_file e = Some dp → components <$> identity_file e = Some ip →
  dp = config_base e ++ [Normal (lit "device_id")] ∧ ip = config_base e ++ [Normal (lit "identity.pem")].
Proof. intros H1' H2'. split; (eapply config_path; [by apply (bool_decide_unpack _)..|done]). Qed.

Lemma parent_below b n : parent (b ++ [Normal n]) = Some b.
Proof. unfold parent. rewrite rev_app_distr. cbn. by rewrite rev_involutive. Qed.

(** The key's files are not the id's. *)
Lemma device_path_apart b pid :
  b ++ [Normal (lit "device_id")] ≠ b ++ [Normal (lit "identity.pem")] ∧
  b ++ [Normal (lit "device_id")] ≠ default [] (parent (b ++ [Normal (lit "identity.pem")]))
    ++ [Normal (tmp_name (b ++ [Normal (lit "identity.pem")]) pid)].
Proof.
  rewrite parent_below. cbn [default]. split; by intros [_ [= E]]%app_inj_tail.
Qed.

Section start.
Context `{KeyPairs, Base64, Hashes, Serde Config, Serde Peers, Serde DaemonState, Serde (list Entry)}.
Variable resolve : str → result ErrorKind (list SocketAddr).

(** What the machine gives: its environment and files, and what the calls
    that can fail return. *)
Record host := mkHost {
  h_env : env;
  h_hostname : option bytes;
  h_fs : fs;
  h_pid : Z;
  h_rnd : bytes;                          (* 16 random bytes *)
  h_fresh : KeyPair;                      (* a newly generated key pair *)
  h_rust_log : option str;
  h_logging : str → bool;
  h_runtime : bool;
  h_tls : Identity → bool;                (* the TLS configurations can be built *)
  h_listen : Z → option Z;                (* the port bound, for the port asked *)
  h_mdns : bool;
  h_clipboard : bool;                     (* the clipboard thread starts *)
  h_now : Z;                              (* milliseconds *)
}.

(** [x_file()?] and then a function of that path. *)
Definition at_file {E A} (f : option str) (s : fs) (k : path → result E A * fs) : result (option E) A * fs :=
  match f with
  | None => (Err None, s)
  | Some p => let '(r, s) := k (components p) in (map_err Some r, s)
  end.

(** The files at their places: [Config::load], [device::load_or_create],
    [Identity::load_or_create], [Peers::load], [DaemonState::load]. *)
Definition Config_load (e : env) (hostname : option bytes) (s : fs) : result (option FileError) Config * fs :=
  at_file (config_file e) s (λ p, (config_load_from e hostname s p, s)).
Definition device_load_or_create (e : env) (s : fs) (rnd : bytes) : result (option DeviceError) str * fs :=
  at_file (device_id_file e) s (λ p, load_or_create_at s p rnd).
Definition Identity_load_or_create (e : env) (pid : Z) (s : fs) (fresh : KeyPair) : result (option IdentityError) Identity * fs :=
  at_file (identity_file e) s (λ p, identity_load_or_create_at pid s p fresh).
Definition Peers_load (e : env) (s : fs) : result (option FileError) Peers * fs :=
  at_file (peers_file e) s (λ p, (load_from s p, s)).
Definition DaemonState_load (e : env) (s : fs) : result (option FileError) DaemonState * fs :=
  at_file (state_file e) s (λ p, (state_load_from s p, s)).

Record started := mkStarted {
  st_identity : Identity;
  st_port : Z;                            (* the port bound *)
  st_transport : TransportConfig;
  st_manager : Manager;                   (* before its first message *)
  st_queue : list Internal;               (* queued for it *)
  st_daemon : daemon;
  st_has_clip : bool;
  st_max_text : Z;
}.

(** The channel holds 64 messages; nothing reads it yet, and [try_send] drops
    what does not fit. *)
Definition seeded (ps : Peers) (cached : DaemonState) : list Internal := map Found (take 64 (seeds ps cached)).

(** The components, wired ([runtime.block_on]). *)
Definition assemble (h : host) (s : fs) (c : Config) (id : str) (i : Identity) (ps : Peers) (bound : Z) : started :=
  let r := from_peers resolve ps in
  let local := mkHello PROTOCOL_VERSION id (device_name c) Caps_ALL in
  let cached := default DaemonState_default (ok (DaemonState_load (h_env h) s).1) in
  let bus := mkBus ∅ ∅ in
  let downloads := default (lit "qdrop-downloads") (downloads_dir (h_env h)) in
  let x := FileXfer_new c bus (components downloads) (Some []) s in
  let hs := history_load (components (history_dir (h_env h))) (Z.to_nat (clipboard_history c)) s in
  mkStarted i bound (TransportConfig_new local r) (manager_start id r) (seeded ps cached)
    (mkDaemon (mkControls false (sync_images c)) (sync_start (h_now h) x hs) (AuthManager_new bus (Some ps)) [])
    (sync_clipboard c && h_clipboard h) (max_clipboard_bytes c).

(** [real_main]; [Ok None] is the end of [--check]. *)
Definition real_main (a : DaemonArgs) (h : host) : result StartError (option started) * fs :=
  let s := h_fs h in
  match Config_load (h_env h) (h_hostname h) s with
  | (Err e, s) => (Err (StartConfig e), s)
  | (Ok c, s) =>
      if negb (h_logging h (log_directive (h_rust_log h) (arg_verbose a) (log_filter c))) then (Err StartLogging, s)
      else
        match device_load_or_create (h_env h) s (h_rnd h) with
        | (Err e, s) => (Err (StartDeviceId e), s)
        | (Ok id, s) =>
            match Identity_load_or_create (h_env h) (h_pid h) s (h_fresh h) with
            | (Err e, s) => (Err (StartIdentity e), s)
            | (Ok i, s) =>
                match Peers_load (h_env h) s with
                | (Err e, s) => (Err (StartPeers e), s)
                | (Ok ps, s) =>
                    if arg_check a then (Ok None, s)
                    else if negb (h_runtime h) then (Err StartRuntime, s)
                    else if negb (h_tls h i) then (Err StartTls, s)
                    else
                      match h_listen h (default (cfg_port c) (arg_port a)) with
                      | None => (Err StartBind, s)
                      | Some bound =>
                          if h_mdns h then (Ok (Some (assemble h s c id i ps bound)), s)
                          else (Err StartDiscovery, s)
                      end
                end
            end
        end
  end.

(** ** What has started *)

(** A start that succeeds, taken apart. *)
Record start_ok (a : DaemonArgs) (h : host) (o : option started) (s' : fs)
    (c : Config) (id : str) (i : Identity) (ps : Peers) (s1 : fs) (dp ip pp : path) : Prop := {
  so_config : ∃ cp, components <$> config_file (h_env h) = Some cp ∧
              config_load_from (h_env h) (h_hostname h) (h_fs h) cp = Ok c;
  so_device_path : components <$> device_id_file (h_env h) = Some dp;
  so_device : load_or_create_at (h_fs h) dp (h_rnd h) = (Ok id, s1);
  so_identity_path : components <$> identity_file (h_env h) = Some ip;
  so_identity : identity_load_or_create_at (h_pid h) s1 ip (h_fresh h) = (Ok i, s');
  so_peers_path : components <$> peers_file (h_env h) = Some pp;
  so_peers : load_from s' pp = Ok ps;
  so_started : if arg_check a then o = None
               else ∃ bound, h_listen h (default (cfg_port c) (arg_port a)) = Some bound ∧
                    o = Some (assemble h s' c id i ps bound);
}.

Lemma at_file_ok {E A} f s (k : path → result E A * fs) x s' :
  at_file f s k = (Ok x, s') → ∃ p, components <$> f = Some p ∧ k p = (Ok x, s').
Proof.
  unfold at_file. destruct f as [t|]; [|done]. intros H'. exists (components t). split; [done|].
  destruct (k (components t)) as [[y|e] s1]; [|done]. by injection H' as -> ->.
Qed.

Lemma real_main_ok a h o s' :
  real_main a h = (Ok o, s') → ∃ c id i ps s1 dp ip pp, start_ok a h o s' c id i ps s1 dp ip pp.
Proof.
  unfold real_main, Config_load, device_load_or_create, Identity_load_or_create, Peers_load. intros Hm.
  destruct (at_file (config_file (h_env h)) _ _) as [[c|e] s0] eqn:Ec; [|done].
  apply at_file_ok in Ec as (cp & Hcp & [= Hc <-]).
  destruct (negb (h_logging h _)); [done|].
  destruct (at_file (device_id_file (h_env h)) _ _) as [[id|e] s1] eqn:Ed; [|done].
  destruct (at_file (identity_file (h_env h)) _ _) as [[i|e] s2] eqn:Ei; [|done].
  destruct (at_file (peers_file (h_env h)) _ _) as [[ps|e] s3] eqn:Ep; [|done].
  apply at_file_ok in Ed as (dp & Hdp & Hd), Ei as (ip & Hip & Hi), Ep as (pp & Hpp & [= Hp <-]).
  exists c, id, i, ps, s1, dp, ip, pp. destruct (arg_check a) eqn:Ea.
  { injection Hm as <- <-. split; try done; [by exists cp|by rewrite Ea]. }
  destruct (negb (h_runtime h)); [done|]. destruct (negb (h_tls h i)); [done|].
  destruct (h_listen h _) as [bound|] eqn:El; [|done]. destruct (h_mdns h); [|done].
  injection Hm as <- <-. split; try done; [by exists cp|]. rewrite Ea. eauto.
Qed.

Lemma ensure_seeded_reaches own r m q :
  reaches own m → reaches own (foldl (λ m msg, manager_step own r m msg) m q).
Proof. revert m. induction q as [|x q IH]; intros m Hm; [done|]. cbn [foldl]. by apply IH, reaches_msg. Qed.


(** ** Starting again *)

(** After a successful start the files hold the id and the key. *)
Definition holds (s : fs) (dp ip : path) (id : str) (i : Identity) : Prop :=
  (∃ text, read_to_string s dp = Ok text ∧ trim text = id ∧ is_valid_device_id id = true) ∧
  ∃ pem k, read_to_string s ip = Ok pem ∧ from_pem pem = Some k ∧ from_key_pair k = Ok i.

Lemma holds_load s dp ip id i rnd pid fresh :
  holds s dp ip id i →
  load_or_create_at s dp rnd = (Ok id, s) ∧ identity_load_or_create_at pid s ip fresh = (Ok i, s).
Proof.
  intros [(text & Ht & <- & Hv) (pem & k & Hp & Hk & Hi)]. split.
  - unfold load_or_create_at. by rewrite Ht, Hv.
  - unfold identity_load_or_create_at. by rewrite Hp, Hk, Hi.
Qed.

Lemma started_holds `{!KeyPairLaws} a h o s' c id i ps s1 dp ip pp :
  fs_wf (h_fs h) → length (h_rnd h) = 16%nat → start_ok a h o s' c id i ps s1 dp ip pp → holds s' dp ip id i.
Proof.
  intros Hs Hr Ho. destruct (config_paths _ _ _ (so_device_path _ _ _ _ _ _ _ _ _ _ _ _ Ho)
    (so_identity_path _ _ _ _ _ _ _ _ _ _ _ _ Ho)) as [-> ->].
  set (b := config_base (h_env h)) in *.
  pose proof (so_device _ _ _ _ _ _ _ _ _ _ _ _ Ho) as Hd. pose proof (so_identity _ _ _ _ _ _ _ _ _ _ _ _ Ho) as Hi.
  assert (fs_wf s1) as Hs1 by (pose proof (device_load_wf _ (b ++ [Normal (lit "device_id")]) (h_rnd h) Hs) as Hw; by rewrite Hd in Hw).
  destruct (device_loaded _ _ _ _ _ Hs Hr Hd) as (text & Ht & Hid & Hv). split; [|by eapply identity_loaded].
  exists text. split_and!; [|done|done]. unfold read_to_string, fs_read in *.
  destruct (device_path_apart b (h_pid h)) as [Ha1 Ha2].
  pose proof (proj2 (identity_load_other (h_pid h) s1 _ (h_fresh h) _ Hs1) Ha1 Ha2) as Ho'. rewrite Hi in Ho'.
  cbn [snd] in Ho'. by rewrite Ho'.
Qed.

(** A start on files that hold an id and a key changes no file, does not fail on
    them, and runs with them. *)
Lemma start_on_held a h dp ip id i r s'' :
  components <$> device_id_file (h_env h) = Some dp → components <$> identity_file (h_env h) = Some ip →
  holds (h_fs h) dp ip id i → real_main a h = (r, s'') →
  s'' = h_fs h ∧ (∀ e, r ≠ Err (StartDeviceId e)) ∧ (∀ e, r ≠ Err (StartIdentity e)) ∧
  ∀ st, r = Ok (Some st) → hello_device_id (tc_local (st_transport st)) = id ∧ st_identity st = i ∧
    ∃ pp ps, components <$> peers_file (h_env h) = Some pp ∧ load_from (h_fs h) pp = Ok ps ∧
      tc_roster (st_transport st) = from_peers resolve ps.
Proof.
  intros Hdp Hip Hh Hm.
  destruct (holds_load (h_fs h) dp ip id i (h_rnd h) (h_pid h) (h_fresh h) Hh) as [Hd Hi].
  unfold real_main, Config_load, device_load_or_create, Identity_load_or_create, Peers_load in Hm.
  destruct (at_file (config_file (h_env h)) _ _) as [[c'|e] s0] eqn:Ec.
  2: { injection Hm as <- <-. unfold at_file in Ec. destruct (config_file (h_env h)); injection Ec as _ <-; by split_and!. }
  apply at_file_ok in Ec as (cp & _ & [= _ <-]).
  destruct (negb (h_logging h _)); [by injection Hm as <- <-|].
  unfold at_file at 1 in Hm. destruct (device_id_file (h_env h)) as [t|]; [|done]. injection Hdp as Hdp.
  rewrite Hdp, Hd in Hm. cbn [map_err] in Hm.
  unfold at_file at 1 in Hm. destruct (identity_file (h_env h)) as [t'|]; [|done]. injection Hip as Hip.
  rewrite Hip, Hi in Hm. cbn [map_err] in Hm.
  destruct (at_file (peers_file (h_env h)) _ _) as [[ps'|e] s3] eqn:Ep.
  2: { injection Hm as <- <-. unfold at_file in Ep. destruct (peers_file (h_env h)); injection Ep as _ <-; by split_and!. }
  apply at_file_ok in Ep as (pp' & Hpp & [= Hps <-]).
  destruct (arg_check a); [by injection Hm as <- <-|]. destruct (negb (h_runtime h)); [by injection Hm as <- <-|].
  destruct (negb (h_tls h i)); [by injection Hm as <- <-|].
  destruct (h_listen h _); [|by injection Hm as <- <-]. destruct (h_mdns h); injection Hm as <- <-; [|done].
  split_and!; [done..|]. intros st [= <-]. split_and!; [done..|]. by exists pp', ps'.
Qed.

End start.

(** ** The control socket *)

(** A Unix socket is a name in the store; a listener is known by the inode it
    was bound with, and a client reaches the listener whose inode has the name. *)
Definition bind_socket (s : fs) (p : path) (allowed : bool) : option nat * fs :=
  if fs_exists s p || negb allowed then (None, s) else let '(i, s') := fs_create s p in (Some i, s').

(** [control::spawn], up to its accept loop. *)
Definition control_spawn (e : env) (s : fs) (allowed : bool) : option nat * fs :=
  match socket_path e with
  | None => (None, s)
  | Some f => bind_socket (fs_remove s (components f)) (components f) allowed
  end.

(** What the shutdown does to the files; an empty path names no file. *)
Definition control_stop (e : env) (s : fs) : fs :=
  match socket_path e with Some f => fs_remove s (components f) | None => s end.

Definition listener_at (e : env) (s : fs) : option nat := socket_path e ≫= λ f, names s !! components f.

Lemma control_spawn_listens e s f :
  socket_path e = Some f →
  ∃ s', control_spawn e s true = (Some (next_ino s), s') ∧ listener_at e s' = Some (next_ino s) ∧
    next_ino s' = S (next_ino s).
Proof.
  intros Hf. unfold control_spawn, bind_socket, listener_at. rewrite Hf.
  assert (fs_exists (fs_remove s (components f)) (components f) = false) as ->.
  { unfold fs_exists. cbn. rewrite lookup_delete_eq. by apply bool_decide_eq_false_2; intros [? ?]. }
  unfold fs_create. cbn [negb orb fs_remove names]. rewrite lookup_delete_eq. eexists. split; [done|].
  cbn. by rewrite lookup_insert_eq.
Qed.

(** The control socket follows the daemon: whatever was at its path, after the
    start a client reaches this daemon, after the shutdown none, and no other
    file is touched by either. *)
Theorem control_socket_lifetime e s f q :
  fs_wf s → socket_path e = Some f → q ≠ components f →
  let '(l, s1) := control_spawn e s true in
  is_Some l ∧ listener_at e s1 = l ∧ listener_at e (control_stop e s1) = None ∧
  fs_stat s1 q = fs_stat s q ∧ fs_stat (control_stop e s1) q = fs_stat s q.
Proof.
  intros Hs Hf Hq. destruct (control_spawn_listens e s f Hf) as (s1 & E & Hl & _). rewrite E.
  assert (fs_stat s1 q = fs_stat s q) as Hst.
  { unfold control_spawn, bind_socket in E. rewrite Hf in E. case_match; [done|].
    pose proof (fs_stat_create (fs_remove s (components f)) (components f) q (fs_remove_wf _ _ Hs)) as Hc.
    destruct (fs_create _ _) as [i s2]. injection E as _ <-. cbn [snd] in Hc.
    by rewrite Hc, decide_False, fs_stat_remove, decide_False. }
  unfold control_stop. rewrite Hf. split_and!; [by eexists|done| |done|].
  - unfold listener_at. rewrite Hf. cbn. by rewrite lookup_delete_eq.
  - by rewrite fs_stat_remove, decide_False.
Qed.

(** A second daemon takes the first one's socket: the name is removed without
    asking whether it is in use, so a daemon that is started on another port with
    the same socket path cuts the first one, which still listens, off from its
    clients, and its end leaves them no daemon at all. *)
Theorem control_socket_stolen e s f :
  socket_path e = Some f →
  let '(l1, s1) := control_spawn e s true in
  let '(l2, s2) := control_spawn e s1 true in
  listener_at e s1 = l1 ∧ l1 ≠ l2 ∧ listener_at e s2 = l2 ∧ listener_at e (control_stop e s2) = None.
Proof.
  intros Hf. destruct (control_spawn_listens e s f Hf) as (s1 & -> & Hl1 & Hn).
  destruct (control_spawn_listens e s1 f Hf) as (s2 & -> & Hl2 & _). split_and!; [done| |done|].
  - rewrite Hn. intros [= E]. by apply Nat.neq_succ_diag_r in E.
  - unfold listener_at, control_stop. rewrite Hf. cbn. by rewrite lookup_delete_eq.
Qed.

(** ** Witnesses *)

#[local] Existing Instance sample_hashes.
#[local] Existing Instance entries_serde.
#[local] Existing Instance peers_serde.
#[local] Existing Instance sample_keys.
#[local] Existing Instance hex_b64.
#[local] Existing Instance state_serde.
#[local] Instance no_config : Serde Config := {| serialize _ := None; deserialize _ := None |}.

(** A machine with two paired devices, started for the first time. *)
Definition sample_host (s : fs) (rnd : byte) (key : bool) : host :=
  mkHost sample_home None s 7 (replicate 16 rnd) key None (λ _, true) true (λ _, true) (λ p, Some p) true true 1000.
Definition sample_disk : fs :=
  fs_write sample_fs (components (default [] (peers_file sample_home))) (default [] (serialize two_peers)).
Definition sample_args : DaemonArgs := mkArgs false None false.
Definition first_start : result StartError (option started) * fs :=
  real_main no_resolver sample_args (sample_host sample_disk Byte.xab true).

Lemma first_start_ok : ∃ st, first_start.1 = Ok (Some st).
Proof.
  assert (match first_start.1 with Ok (Some _) => true | _ => false end = true) as Hb by (vm_compute; reflexivity).
  destruct first_start.1 as [[st|]|]; by eauto.
Qed.

Lemma sample_disk_wf : fs_wf sample_disk.
Proof. apply fs_write_wf, sample_fs_wf. Qed.

Lemma first_start_eq st : first_start.1 = Ok (Some st) → first_start = (Ok (Some st), first_start.2).
Proof. destruct first_start. by intros [= ->]. Qed.



Lemma control_socket_lifetime_witness :
  listener_at sample_home (control_spawn sample_home sample_disk true).2 = Some (next_ino sample_disk).
Proof.
  pose proof (control_socket_lifetime sample_home sample_disk (default [] (socket_path sample_home)) [] sample_disk_wf
    eq_refl) as H.
  destruct (control_spawn_listens sample_home sample_disk _ eq_refl) as (s' & E & _). rewrite E in H |- *.
  by apply H.
Defined.

Lemma control_socket_stolen_witness :
  listener_at sample_home
    (control_stop sample_home (control_spawn sample_home (control_spawn sample_home sample_disk true).2 true).2) = None.
Proof.
  pose proof (control_socket_stolen sample_home sample_disk (default [] (socket_path sample_home)) eq_refl) as H.
  destruct (control_spawn sample_home sample_disk true) as [l1 s1]. cbn [snd].
  destruct (control_spawn sample_home s1 true) as [l2 s2]. by apply H.
Defined.
