(* ===== verification/Cli.v ===== *)
(** * Cli: the command line client ([crates/qdrop/src/main.rs], [cli.rs])

    The commands that edit the registry directly ([pair], [unpair],
    [auth --remove]), the choice of the clipboard action and the requests it
    sends to the daemon ([Control]), and which file [recv] picks.  What the
    commands print is in [Client].

    The theorems: after pairing, the daemon trusts exactly the key that the
    pairing exchange authenticated, and nothing else changes; unpairing ends
    that trust; toggling twice restores the setting; [recv] never takes an
    unfinished file; and what happens to the address of a peer paired by
    address. *)
From S2P Require Import Prelude Text Crypto Proto Frame Store Samples Net Peers Config Bus FileXfer Trust Auth History Clipboard Sync Pairing State Quote Control.

(** ** [cmd_pair] *)

(** The address remembered for a target: without its port, if it ends in one. *)
Definition target_address (t : str) : str :=
  match rsplit_once ":"%byte t with
  | Some (host, port) => if bool_decide (host ≠ []) && bool_decide (is_Some (parse_u16 port)) then host else t
  | None => t
  end.

Section registry.
Context `{Base64}.

Definition with_address (a : option str) (p : Peer) : Peer :=
  mkPeer (peer_name p) (peer_device_id p) (peer_public_key p) (last_seen p) (authorized p) (macs p)
    (peer_hostname p) a.

Definition record_peer (ps : Peers) (paired : Paired) (addr : option str) : Peers :=
  let peer := Peer_new (paired_name paired) (paired_id paired) (paired_key paired) in
  let a := match addr with
           | Some a => Some a
           | None => find_by_id ps (paired_id paired) ≫= address
           end in
  upsert ps (with_address a peer).

(** [cmd_pair] after the exchange; [target] is the argument, if any. *)
Definition cmd_pair_record (ps : Peers) (target : option str) (outcome : result PairError Paired)
    : result PairError Peers :=
  match outcome with
  | Err e => Err e
  | Ok paired => Ok (record_peer ps paired (target_address <$> target))
  end.
End registry.

(** [None]: the command fails and the file is left alone. *)
Definition cmd_unpair (ps : Peers) (name : str) : option Peers :=
  let '(found, ps') := remove_by_name ps name in if found then Some ps' else None.

Definition revoke_entry (p : Peer) : Peer :=
  mkPeer (peer_name p) (peer_device_id p) (peer_public_key p) (last_seen p) false (macs p)
    (peer_hostname p) (address p).
Definition cmd_auth_remove (ps : Peers) (name : str) : option Peers :=
  match find_any ps name with
  | Some p => if authorized p then Some (update_any ps name revoke_entry) else Some ps
  | None => None
  end.

(** ** [cli.rs] *)

Record ClipArgs := mkClipArgs {
  a_pause : bool; a_resume : bool; a_toggle : bool; a_status : bool; a_history : bool;
  a_restore : option nat; a_send : option nat; a_to : option str;
}.
Inductive ClipAction := Pause | Resume | Toggle | AStatus | AHistory | Restore (n : nat) | ASend (n : nat).

Definition action (a : ClipArgs) : ClipAction :=
  if a_pause a then Pause else if a_resume a then Resume else if a_toggle a then Toggle
  else if a_history a then AHistory
  else match a_restore a with
       | Some n => Restore n
       | None => match a_send a with Some n => ASend n | None => AStatus end
       end.

(** [cmd_clip]: the requests it sends; [Toggle] asks first. *)
Definition clip_requests (paused : bool) (a : ClipAction) (to : option str) : list Request :=
  match a with
  | AHistory => [ClipHistory]
  | Restore n => [ClipRestore n]
  | ASend n => [ClipSend n to]
  | Pause => [ClipPause]
  | Resume => [ClipResume]
  | AStatus => [ClipStatus]
  | Toggle => [ClipStatus; if paused then ClipResume else ClipPause]
  end.

(** ** [cmd_recv] *)

(** The entries of the download directory it considers. *)
Definition recv_visible (name : str) : bool := negb (starts_with (lit ".") name).
(** The new files of a poll, as names of regular files in the directory. *)
Definition recv_new (before now : list str) : list str :=
  base.filter (λ n, recv_visible n = true ∧ n ∉ base.filter (λ m, recv_visible m = true) before) now.

(** ** [cmd_send] from standard input: the name of the temporary file *)

Definition stdin_name (name : option str) (now : Z) : option str :=
  safe_blob_name (default (lit "stdin-" ++ dec now ++ lit ".bin") name).

(** ** Theorems *)

Section trust.
Context `{Base64, !Base64Laws}.
Variable resolve : str → result ErrorKind (list SocketAddr).

Lemma record_peer_find ps paired addr id :
  find_by_id (record_peer ps paired addr) id =
  if decide (id = paired_id paired) then
    find_by_id (record_peer ps paired addr) (paired_id paired)
  else find_by_id ps id.
Proof.
  case_decide as E; [by subst|]. unfold record_peer. rewrite find_by_id_upsert.
  rewrite decide_False; [done|]. done.
Qed.

Lemma record_peer_entry ps paired addr :
  ∃ p, find_by_id (record_peer ps paired addr) (paired_id paired) = Some p ∧
    peer_public_key p = b64_encode (paired_key paired) ∧ peer_device_id p = paired_id paired ∧
    authorized p = false ∧
    address p = match addr with Some a => Some a | None => find_by_id ps (paired_id paired) ≫= address end.
Proof.
  unfold record_peer. rewrite find_by_id_upsert. rewrite decide_True by done.
  eexists. split; [reflexivity|]. case_decide; done.
Qed.

Lemma find_by_id_Some_elem ps id p : find_by_id ps id = Some p → p ∈ ps ∧ peer_device_id p = id.
Proof. by intros [? ?%bool_decide_eq_true]%lfind_Some. Qed.

(** The roster loaded from it trusts the recorded device. *)
Lemma record_peer_trusted ps paired addr r :
  length (paired_key paired) = 32%nat →
  is_trusted_key (roster_load resolve r (record_peer ps paired addr)) (paired_key paired) = true ∧
  is_trusted_id (roster_load resolve r (record_peer ps paired addr)) (paired_id paired) = true.
Proof.
  intros Hlen. destruct (record_peer_entry ps paired addr) as (p & Hp & Hk & Hid & _).
  pose proof (key_bytes_encoded p _ Hk Hlen) as Hkb. destruct (find_by_id_Some_elem _ _ _ Hp) as [Hin _].
  split; [apply trusted_key_iff; eauto|apply trusted_id_iff]. exists p. by rewrite Hkb.
Qed.

(** Pairing is what creates trust: when the exchange succeeds, the registry
    written has the peer's id with the key the exchange authenticated, not
    authorised for unattended sending, with the address given or the one
    already configured; every other device's entry is as before; and the roster
    loaded from it trusts that key and that id.  When the exchange fails nothing
    is written. *)
Theorem pairing_recorded ps target outcome r :
  (∀ paired, outcome = Ok paired → length (paired_key paired) = 32%nat) →
  match cmd_pair_record ps target outcome with
  | Err e => outcome = Err e
  | Ok ps' => ∃ paired p, outcome = Ok paired ∧
      find_by_id ps' (paired_id paired) = Some p ∧ key_bytes p = Ok (paired_key paired) ∧
      authorized p = false ∧
      address p = match target with
                  | Some t => Some (target_address t)
                  | None => find_by_id ps (paired_id paired) ≫= address
                  end ∧
      (∀ id, id ≠ paired_id paired → find_by_id ps' id = find_by_id ps id) ∧
      is_trusted_key (roster_load resolve r ps') (paired_key paired) = true ∧
      is_trusted_id (roster_load resolve r ps') (paired_id paired) = true
  end.
Proof.
  intros Hlen. destruct outcome as [paired|e]; [|done]. cbn [cmd_pair_record].
  specialize (Hlen paired eq_refl).
  destruct (record_peer_entry ps paired (target_address <$> target)) as (p & Hp & Hk & Hid & Hau & Had).
  exists paired, p. split_and!; [done|done|by apply key_bytes_encoded|done| | | |].
  - rewrite Had. by destruct target.
  - intros id Hne. by rewrite record_peer_find, decide_False.
  - by apply record_peer_trusted.
  - by apply record_peer_trusted.
Qed.

(** Unpairing ends trust: when [qdrop pair --remove name] succeeds, a key is
    trusted after the reload only if an entry of another name has it; and it
    fails, leaving the file alone, exactly when no entry has that name. *)
Theorem unpair_revokes ps name r key :
  match cmd_unpair ps name with
  | Some ps' => is_Some (find ps name) ∧
      (is_trusted_key (roster_load resolve r ps') key = true ↔
         ∃ p, p ∈ ps ∧ peer_name p ≠ name ∧ key_bytes p = Ok key)
  | None => find ps name = None
  end.
Proof.
  unfold cmd_unpair. destruct (remove_by_name ps name) as [found ps'] eqn:E.
  pose proof (remove_by_name_spec ps name) as [_ Hf]. rewrite E in Hf. cbn [fst] in Hf. destruct found.
  - split; [by apply Hf|]. rewrite trusted_key_iff. injection E as _ <-.
    setoid_rewrite list_elem_of_filter. naive_solver.
  - destruct (find ps name) as [q|] eqn:Eq; [|done]. enough (false = true) by done. apply Hf. eauto.
Qed.
End trust.

(** An IPv6 target loses its last group: the code that strips a port from
    the target takes the last group of a bare IPv6 address for one, so pairing
    with [fd00::1] remembers [fd00:], for which the dialler has nothing but a
    name to resolve. *)
Theorem ipv6_target_cut resolve ps paired :
  parse_ip (lit "fd00::1") ≠ None ∧ target_address (lit "fd00::1") = lit "fd00:" ∧
  parse_ip (lit "fd00:") = None ∧
  ∀ p, find_by_id (@record_peer hex_b64 ps paired (Some (target_address (lit "fd00::1")))) (paired_id paired) = Some p →
    static_addrs resolve p = match resolve (lit "fd00::47654") with Ok l => l | Err _ => [] end.
Proof.
  split_and!; [by vm_compute|vm_compute; reflexivity|vm_compute; reflexivity|].
  intros p Hp. destruct (@record_peer_entry hex_b64 ps paired (Some (target_address (lit "fd00::1"))))
    as (q & Hq & _ & _ & _ & Had). rewrite Hp in Hq. injection Hq as <-.
  unfold static_addrs. rewrite Had. vm_compute. reflexivity.
Qed.

(** A name is remembered as an address: a device paired by its mDNS name
    gets that name as its static address, which the dialler then tries to
    resolve as a host name. *)
Theorem name_target_kept resolve ps paired :
  ∀ p, find_by_id (@record_peer hex_b64 ps paired (Some (target_address (lit "laptop")))) (paired_id paired) = Some p →
    address p = Some (lit "laptop") ∧
    static_addrs resolve p = match resolve (lit "laptop:47654") with Ok l => l | Err _ => [] end.
Proof.
  intros p Hp. destruct (@record_peer_entry hex_b64 ps paired (Some (target_address (lit "laptop"))))
    as (q & Hq & _ & _ & _ & Had). rewrite Hp in Hq. injection Hq as <-.
  split; [rewrite Had; vm_compute; reflexivity|].
  unfold static_addrs. rewrite Had. vm_compute. reflexivity.
Qed.

(** [recv] never takes an unfinished file: the name under which a transfer
    is written is not among the files it considers, whatever the peer called
    the file. *)
Theorem recv_skips_partial safe id before now : tmp_part safe id ∉ recv_new before now.
Proof.
  unfold recv_new. rewrite list_elem_of_filter. intros [[Hv _] _].
  unfold recv_visible, tmp_part in Hv. unfold starts_with in Hv.
  rewrite bool_decide_eq_true_2 in Hv; [done|]. by eexists.
Qed.

(** Toggling: [qdrop clip --toggle] flips the pause setting and changes
    nothing else of the daemon, so doing it twice restores it. *)
Theorem toggle_flips `{Hashes, Serde (list Entry)} own has_clip port mine st one text d to :
  let run d a := foldl (λ d r, (control_dispatch own has_clip port mine st one text d r).2) d
                   (clip_requests (clipboard_paused (d_controls d)) a to) in
  clipboard_paused (d_controls (run d Toggle)) = negb (clipboard_paused (d_controls d)) ∧
  d_sync (run d Toggle) = d_sync d ∧ d_auth (run d Toggle) = d_auth d ∧
  run (run d Toggle) Toggle = d.
Proof. intros run. destruct d as [[[] im] s a o]; done. Qed.

(** ** Witnesses *)

Definition sample_paired : Paired := mkPaired (lit "id-z") (lit "zed") (replicate 32 Byte.x09).

Lemma pairing_recorded_witness :
  is_trusted_id (@roster_load hex_b64 no_resolver roster_empty (@record_peer hex_b64 two_peers sample_paired None))
    (lit "id-z") = true.
Proof.
  pose proof (@pairing_recorded hex_b64 hex_b64_laws no_resolver two_peers None (Ok sample_paired) roster_empty) as H.
  cbn [cmd_pair_record] in H.
  destruct H as (paired & p & Hok & _ & _ & _ & _ & _ & _ & Ht); [by intros ? [= <-]|].
  injection Hok as <-. exact Ht.
Defined.
