(* ===== verification/Session.v ===== *)
(** * Session: two paired devices connect

    What the components promise together: what pairing records ([Cli]), what
    the roster makes of it ([Trust]), the TLS configurations ([Tls]), dialling
    and accepting ([Transport]) and the handshake ([Connection]).  The TLS
    library is a relation between what the two ends see ([Tls.tls_link]): over a
    working connection, when each side's verifier accepts the other's
    certificate and signatures, both get a session.

    The theorem: after pairing, the devices can connect, and each knows
    whom it is connected to. *)
From S2P Require Import Prelude Text Crypto Proto Frame Store Samples Net Peers Trust Tls Connection Config Bus FileXfer Transport Pairing Cli.

Section session.
Context `{KeyPairs, !KeyPairLaws, !Rustls, !RustlsLaws, Base64, !Base64Laws, Serde Message, !SerdeLaws Message}.
Variable resolve : str → result ErrorKind (list SocketAddr).

(** ** What pairing leaves in the roster *)

Definition paired_with (h : Hello) (i : Identity) : Paired :=
  mkPaired (hello_device_id h) (hello_device_name h) (public_key i).

(** No two usable entries of a registry have the same key. *)
Definition keys_distinct (ps : Peers) : Prop := NoDup (map rp_public_key (omap (roster_entry resolve) ps)).

Lemma roster_entry_ids ps : peers_wf ps → NoDup (map rp_device_id (omap (roster_entry resolve) ps)).
Proof.
  unfold peers_wf. induction ps as [|p ps IH]; intros Hn; [constructor|]. cbn [map omap list_omap] in *.
  apply list.NoDup_cons in Hn as [Hp Hn]. destruct (roster_entry resolve p) as [rp|] eqn:E; [|by apply IH].
  apply roster_entry_Some in E as (_ & Hid & _). cbn [map]. apply list.NoDup_cons. split; [|by apply IH].
  rewrite Hid. intros (rq & Eid & (q & Hq & Hrq)%list_elem_of_omap)%list_elem_of_fmap. apply Hp.
  apply roster_entry_Some in Hrq as (_ & Hidq & _). apply list_elem_of_fmap. exists q. split; [congruence|done].
Qed.

Lemma paired_roster ps h i kp addr :
  peers_wf ps → from_key_pair kp = Ok i → keys_distinct (record_peer ps (paired_with h i) addr) →
  let r := from_peers resolve (record_peer ps (paired_with h i) addr) in
  is_trusted_key r (public_key i) = true ∧ key_for_id r (hello_device_id h) = Some (public_key i) ∧
  rp_device_id <$> peer_for_key r (public_key i) = Some (hello_device_id h).
Proof.
  intros Hps Hi Hk r. set (ps' := record_peer ps (paired_with h i) addr) in *.
  destruct (record_peer_entry ps (paired_with h i) addr) as (p & Hp & Hpk & Hpid & _).
  assert (key_bytes p = Ok (public_key i)) as Hkb by (apply key_bytes_encoded; [done|apply public_key_32]).
  destruct (find_by_id_Some_elem _ _ _ Hp) as [Hin _].
  destruct (roster_entry resolve p) as [rp|] eqn:E; [|unfold roster_entry in E; by rewrite Hkb in E].
  pose proof E as E'. apply roster_entry_Some in E' as (Hrk & Hrid & _). rewrite Hkb in Hrk. injection Hrk as Hrk.
  destruct (replace_lookup roster_empty (omap (roster_entry resolve) ps') rp Hk) as [H1' H2'].
  - apply roster_entry_ids. unfold ps', record_peer. by apply upsert_wf.
  - apply list_elem_of_omap. eauto.
  - assert (rp_device_id rp = hello_device_id h) as Hid by (by rewrite Hrid, Hpid).
    rewrite <- Hrk in H1', H2'. rewrite Hid in H2'. split_and!.
    + unfold is_trusted_key. apply bool_decide_eq_true. by exists rp.
    + done.
    + unfold peer_for_key. subst r. unfold from_peers, roster_load. rewrite H1'. cbn. by rewrite Hid.
Qed.

(** Accepting certificates. *)
Lemma verify_both i j ki kj r :
  from_key_pair ki = Ok i → from_key_pair kj = Ok j → is_trusted_key r (public_key i) = true →
  verify_server_cert (public_key j) (cert_der j) = Ok tt ∧ verify_client_cert r (cert_der i) = Ok tt.
Proof.
  intros Hi Hj Ht. unfold verify_server_cert, verify_client_cert.
  rewrite (peer_key_from_own_cert ki i Hi), (peer_key_from_own_cert kj j Hj), Ht.
  by rewrite (proj2 (ct_eq_iff (public_key j) (public_key j) (public_key_32 j) (public_key_32 j)) eq_refl).
Qed.

(** What one of our configurations shows another accepts, if its certificate
    check does: what we sign verifies under our certificate. *)
Lemma own_accepted c k i : from_key_pair k = Ok i → v_tls13 (tls_verifier c) = (λ m cert dss, rustls_tls13_signature m cert dss ring_algs) →
  tls_verify c (cert_der i) = Ok tt → ∀ d, tls_certs d = cert_chain i → tls_key d = private_key i → accepts c d.
Proof.
  unfold from_key_pair. intros Hi Hv Hc d Hd Hk cert Hcert. rewrite Hd in Hcert. apply list_elem_of_singleton in Hcert as ->.
  split; [done|]. intros m. rewrite Hv, Hk. destruct (self_signed k) as [c'|] eqn:E; [|done]. injection Hi as <-.
  by apply sign_verifies.
Qed.

(** (C15) Paired devices connect: let two devices have recorded each other's id and
    key, as pairing does, in registries without repeated ids or keys; then over a
    working connection, whoever dials, the dialler gets a handshake with the
    other's greeting, and the acceptor announces the dialler's greeting to its
    manager under the id it was paired with, both with the capabilities that both
    offered. *)
Theorem paired_devices_connect ha hb ia ib ka kb psa psb addr_a addr_b body_a body_b rest_a rest_b fa fb tls_a tls_b :
  from_key_pair ka = Ok ia → from_key_pair kb = Ok ib →
  peers_wf psa → keys_distinct (record_peer psa (paired_with hb ib) addr_a) →
  peers_wf psb → keys_distinct (record_peer psb (paired_with ha ia) addr_b) →
  protocol_version ha = PROTOCOL_VERSION → protocol_version hb = PROTOCOL_VERSION →
  serialize (MHello ha) = Some body_a → zlen body_a ≤ MAX_FRAME_LEN →
  serialize (MHello hb) = Some body_b → zlen body_b ≤ MAX_FRAME_LEN →
  let ra := from_peers resolve (record_peer psa (paired_with hb ib) addr_a) in
  let rb := from_peers resolve (record_peer psb (paired_with ha ia) addr_b) in
  tls_link (client_config ia (public_key ib)) (server_config ib rb) tls_a tls_b →
  let caps := intersect (hello_caps ha) (hello_caps hb) in
  key_for_id ra (hello_device_id hb) = Some (public_key ib) ∧
  dial_addr ha (public_key ib) (hello_device_id hb)
    (Some (mkDialed tls_a false (mkReader (frame_of body_b ++ rest_b) fb))) = Some (mkHandshake hb caps) ∧
  accept_conn tls_b false (mkReader (frame_of body_a ++ rest_a) fa) hb rb rb rb = Some (InboundReady ha caps).
Proof.
  intros Hia Hib Hwa Hda Hwb Hdb Hva Hvb Hba Hla Hbb Hlb ra rb Hlink caps.
  destruct (paired_roster psa hb ib kb addr_a Hwa Hib Hda) as (_ & Hkey & _). fold ra in Hkey.
  destruct (paired_roster psb ha ia ka addr_b Hwb Hia Hdb) as (Ht & _ & Hid). fold rb in Ht, Hid.
  destruct (verify_both ia ib ka kb rb Hia Hib Ht) as [Vs Vc].
  destruct Hlink as [Ea Eb].
  { left. }
  { left. }
  { destruct (supported_schemes ring_algs) as [|sch l] eqn:E; [by apply schemes_some in E|]. exists sch.
    cbn. unfold PinnedServer_schemes, PinnedClient_schemes. cbn. unfold provider_algs. rewrite E. split; left. }
  { by apply (own_accepted _ kb ib). }
  { by apply (own_accepted _ ka ia). }
  change (tls_verify (client_config ia (public_key ib))) with (verify_server_cert (public_key ib)) in Ea.
  change (tls_verify (server_config ib rb)) with (verify_client_cert rb) in Eb. cbn [tls_certs client_config server_config] in Ea, Eb.
  assert (zlen body_a ≤ u32_max ∧ zlen body_b ≤ u32_max) as [Ua Ub] by (unfold MAX_FRAME_LEN, u32_max in *; lia).
  split_and!; [done| |].
  - unfold dial_addr, connect. cbn [d_tls d_elapsed d_reader]. rewrite Ea.
    rewrite (handshake_read _ ha _ hb body_b body_a) by done. rewrite decide_True by done.
    by rewrite decide_True by done.
  - unfold accept_conn, accept. rewrite Eb. cbn [cert_chain]. rewrite (peer_key_from_own_cert ka ia Hia), Ht, Hid.
    rewrite (handshake_read _ hb _ ha body_a body_b) by done. rewrite decide_True by done.
    rewrite decide_True by done. cbn. by rewrite (intersect_comm (hello_caps hb)).
Qed.
End session.

(** ** Witness *)

(** One end of a TLS connection whose other end has the certificate. *)
Definition tls_to (cert : bytes) (verify : bytes → result CertError unit) : TlsOutcome :=
  if is_ok (verify cert) then TlsUp [cert] else TlsFailed.

Lemma paired_devices_connect_witness :
  @accept_conn sample_keys message_bounded (tls_to (sample_key true)) false (mkReader (hello_wire hello_a) None) hello_b
    (@from_peers hex_b64 no_resolver (@record_peer hex_b64 [] (@paired_with sample_keys hello_a (@mkIdentity sample_keys true (sample_key true))) None))
    (@from_peers hex_b64 no_resolver (@record_peer hex_b64 [] (@paired_with sample_keys hello_a (@mkIdentity sample_keys true (sample_key true))) None))
    (@from_peers hex_b64 no_resolver (@record_peer hex_b64 [] (@paired_with sample_keys hello_a (@mkIdentity sample_keys true (sample_key true))) None))
  = Some (InboundReady hello_a Caps_ALL).
Proof.
  destruct (@paired_devices_connect sample_keys sample_key_laws sample_rustls sample_rustls_laws hex_b64 hex_b64_laws message_bounded message_bounded_laws
    no_resolver hello_a hello_b (@mkIdentity sample_keys true (sample_key true))
    (@mkIdentity sample_keys false (sample_key false)) true false [] [] None None
    (default [] (@serialize _ message_bounded (MHello hello_a))) (default [] (@serialize _ message_bounded (MHello hello_b)))
    [] [] None None (tls_to (sample_key false)) (tls_to (sample_key true))) as (_ & _ & Hacc).
  - reflexivity.
  - reflexivity.
  - apply base.NoDup_nil_2.
  - apply (bool_decide_unpack _). by vm_compute.
  - apply base.NoDup_nil_2.
  - apply (bool_decide_unpack _). by vm_compute.
  - reflexivity.
  - reflexivity.
  - vm_compute. reflexivity.
  - vm_compute. discriminate.
  - vm_compute. reflexivity.
  - vm_compute. discriminate.
  - intros _ _ _ _ _. split; vm_compute; reflexivity.
  - etrans; [|exact Hacc]. rewrite app_nil_r. vm_compute. reflexivity.
Defined.
