(* ===== verification/Client.v ===== *)
(** * Client: the JSON of the control socket and the commands that use it

    The requests [crates/qdrop/src/main.rs] builds, the answers
    [crates/qdropd/src/control.rs] builds, both as [serde_json::Value]s (their
    text is the library's), the way the daemon reads a request (the derived
    reader of [Request]) and the commands of the client as functions of the
    answer: what they print and whether they fail.  [request] and
    [request_json] of [crates/qdrop-core/src/control.rs] are the composition
    [ask].

    The theorems: the daemon reads every request the client builds as that
    request; a command of the client succeeds exactly when the daemon did what
    was asked; the status line for waybar is the JSON it should be as long as
    no device name needs escaping, and not otherwise. *)
From S2P Require Import Prelude Text Crypto Proto Frame Store Samples Net Peers Config Bus FileXfer Trust Auth History Clipboard Sync Pairing State Quote Control Cli.

(** ** [serde_json::Value] *)

Inductive value :=
| JNull
| JBool (b : bool)
| JNum (n : Z)
| JStr (s : str)
| JArr (l : list value)
| JObj (fields : list (str * value)).

Definition get (v : value) (k : str) : option value :=
  match v with
  | JObj fs => snd <$> lfind (λ f, bool_decide (f.1 = k)) fs
  | _ => None
  end.
Definition as_bool (v : value) : option bool := match v with JBool b => Some b | _ => None end.
Definition as_str (v : value) : option str := match v with JStr s => Some s | _ => None end.
Definition as_array (v : value) : option (list value) := match v with JArr l => Some l | _ => None end.
Definition as_u64 (v : value) : option Z :=
  match v with JNum n => if (0 <=? n) && (n <=? u64_max) then Some n else None | _ => None end.

(** [.get(k).and_then(as_x).unwrap_or(d)]. *)
Definition field {A} (as_x : value → option A) (v : value) (k : str) (d : A) : A :=
  default d (get v k ≫= as_x).

Definition jopt (o : option str) : value := match o with Some s => JStr s | None => JNull end.
Definition jnum_opt (o : option Z) : value := match o with Some n => JNum n | None => JNull end.

(** ** Requests *)

Definition cmd_of (r : Request) : str :=
  match r with
  | ClipPause => lit "clip_pause" | ClipResume => lit "clip_resume" | ClipStatus => lit "clip_status"
  | Status => lit "status" | RSend _ _ => lit "send" | ROpen _ _ => lit "open" | RAuth _ _ => lit "auth"
  | ClipGet => lit "clip_get" | ClipSet _ => lit "clip_set" | ClipHistory => lit "clip_history"
  | ClipRestore _ => lit "clip_restore" | ClipSend _ _ => lit "clip_send"
  end.

Section wire.
(** [Path] from and to text ([PathBuf::from], [to_string_lossy]). *)
Variable path_of : str → path.
Variable path_text : path → str.

(** The requests as the client writes them. *)
Definition request_value (r : Request) : value :=
  let cmd := (lit "cmd", JStr (cmd_of r)) in
  match r with
  | RSend paths to => JObj [cmd; (lit "paths", JArr (map (JStr ∘ path_text) paths)); (lit "to", jopt to)]
  | ROpen url to => JObj [cmd; (lit "url", JStr url); (lit "to", jopt to)]
  | RAuth name mutual => JObj [cmd; (lit "name", JStr name); (lit "mutual", JBool mutual)]
  | ClipSet text => JObj [cmd; (lit "text", JStr text)]
  | ClipRestore n => JObj [cmd; (lit "index", JNum (Z.of_nat n))]
  | ClipSend n to => JObj [cmd; (lit "index", JNum (Z.of_nat n)); (lit "to", jopt to)]
  | _ => JObj [cmd]
  end.

(** The reader derived for [Request]: tagged by [cmd], names in snake case,
    [to] and [mutual] may be missing, unknown fields are ignored. *)
Definition opt_field (v : value) (k : str) : option (option str) :=
  match get v k with
  | None | Some JNull => Some None
  | Some (JStr s) => Some (Some s)
  | Some _ => None
  end.
Definition flag_field (v : value) (k : str) : option bool :=
  match get v k with None => Some false | Some x => as_bool x end.
Definition index_field (v : value) : option nat := Z.to_nat <$> (get v (lit "index") ≫= as_u64).
Definition str_field (v : value) (k : str) : option str := get v k ≫= as_str.

Definition parse_request (v : value) : option Request :=
  cmd ← str_field v (lit "cmd");
  let named s := bool_decide (cmd = lit s) in
  if named "clip_pause" then Some ClipPause
  else if named "clip_resume" then Some ClipResume
  else if named "clip_status" then Some ClipStatus
  else if named "status" then Some Status
  else if named "send" then
    l ← get v (lit "paths") ≫= as_array; ps ← mapM as_str l; to ← opt_field v (lit "to");
    Some (RSend (map path_of ps) to)
  else if named "open" then url ← str_field v (lit "url"); to ← opt_field v (lit "to"); Some (ROpen url to)
  else if named "auth" then name ← str_field v (lit "name"); m ← flag_field v (lit "mutual"); Some (RAuth name m)
  else if named "clip_get" then Some ClipGet
  else if named "clip_set" then t ← str_field v (lit "text"); Some (ClipSet t)
  else if named "clip_history" then Some ClipHistory
  else if named "clip_restore" then n ← index_field v; Some (ClipRestore n)
  else if named "clip_send" then n ← index_field v; to ← opt_field v (lit "to"); Some (ClipSend n to)
  else None.

(** The paths of a [send] are text, an index fits a [usize]. *)
Definition sendable (r : Request) : Prop :=
  match r with
  | RSend paths _ => Forall (λ p, path_of (path_text p) = p) paths
  | ClipRestore n | ClipSend n _ => Z.of_nat n ≤ u64_max
  | _ => True
  end.

Lemma index_read v n :
  get v (lit "index") = Some (JNum (Z.of_nat n)) → Z.of_nat n ≤ u64_max → index_field v = Some n.
Proof.
  intros Hg Hn. unfold index_field. rewrite Hg. cbn [mbind option_bind as_u64].
  rewrite (proj2 (Z.leb_le 0 _)) by lia. rewrite (proj2 (Z.leb_le _ _)) by done. cbn. by rewrite Nat2Z.id.
Qed.

Lemma opt_read v k to : get v k = Some (jopt to) → opt_field v k = Some to.
Proof. unfold opt_field. intros ->. by destruct to. Qed.

Lemma paths_read ps : mapM as_str (map (JStr ∘ path_text) ps) = Some (map path_text ps).
Proof. apply mapM_Some. induction ps as [|p ps IH]; by constructor. Qed.

Lemma request_read r : sendable r → parse_request (request_value r) = Some r.
Proof.
  intros Hs. destruct r; try reflexivity; cbn [sendable] in Hs.
  - change (parse_request (request_value (RSend paths to)))
      with (ps ← mapM as_str (map (JStr ∘ path_text) paths);
            to ← opt_field (request_value (RSend paths to)) (lit "to"); Some (RSend (map path_of ps) to)).
    rewrite (paths_read paths), (opt_read _ _ to) by reflexivity. cbn [mbind option_bind]. do 2 f_equal.
    rewrite map_map. induction Hs as [|p ps Hp _ IH]; [done|]. cbn [map]. by rewrite Hp, IH.
  - by destruct to.
  - change ((n ← index_field (request_value (ClipRestore index)); Some (ClipRestore n)) = Some (ClipRestore index)).
    by rewrite (index_read _ index).
  - change ((n ← index_field (request_value (ClipSend index to));
             to ← opt_field (request_value (ClipSend index to)) (lit "to"); Some (ClipSend n to))
            = Some (ClipSend index to)).
    rewrite (index_read _ index) by done. by rewrite (opt_read _ _ to) by reflexivity.
Qed.

(** (C20) The two ends of the socket agree: the daemon reads a request the client
    writes as the request that was meant, for every command and argument. *)
Theorem request_roundtrip r : sendable r → parse_request (request_value r) = Some r.
Proof. apply request_read. Qed.
End wire.

(** ** Answers *)

Section answers.
(** [CARGO_PKG_VERSION], and the wording of the errors. *)
Variable version : str.
Variable wording : ControlError → str.

Definition row_value (r : PeerRow) : value :=
  JObj [(lit "name", JStr (row_name r)); (lit "device_id", JStr (row_id r)); (lit "online", JBool (row_online r));
        (lit "since_unix", jnum_opt (row_since r)); (lit "last_seen_unix", jnum_opt (row_seen r))].
Definition outcome_value (o : SendOutcome) : value :=
  JObj [(lit "name", JStr (out_name o)); (lit "peer", JStr (out_peer o)); (lit "ok", JBool (out_ok o));
        (lit "detail", JStr (out_detail o))].
Definition item_value (i : Item) : value :=
  JObj [(lit "index", JNum (Z.of_nat (it_index i))); (lit "kind", JStr (it_kind i));
        (lit "preview", JStr (it_preview i)); (lit "when_unix", JNum (it_when i)); (lit "origin", JStr (it_origin i))].

(** The answers as the daemon writes them; an exchange that is still waiting has
    none yet. *)
Definition response_value (r : Response) : option value :=
  let ok b := (lit "ok", JBool b) in
  match r with
  | SStatus port paused images connected rows =>
      Some (JObj [ok true; (lit "version", JStr version); (lit "port", JNum port);
                  (lit "clipboard_paused", JBool paused); (lit "sync_images", JBool images);
                  (lit "connected", JArr (map JStr connected)); (lit "peers", JArr (map row_value rows))])
  | SSent b outcomes => Some (JObj [ok b; (lit "sent", JArr (map outcome_value outcomes))])
  | SOpened n => Some (JObj [ok true; (lit "dispatched", JNum (Z.of_nat n))])
  | SText t => Some (JObj [ok true; (lit "text", jopt t)])
  | SDone => Some (JObj [ok true])
  | SEntries items => Some (JObj [ok true; (lit "entries", JArr (map item_value items))])
  | SSentTo b n => Some (JObj [ok b; (lit "sent_to", JNum (Z.of_nat n))])
  | SAuthorized host => Some (JObj [ok true; (lit "hostname", JStr host)])
  | SAwaiting _ _ => None
  | SError e => Some (JObj [ok false; (lit "error", JStr (wording e))])
  end.
End answers.

(** ** The commands *)

(** What a command writes, and the message it fails with. *)
Inductive output := Println (s : str) | Print_ (s : str) | Eprintln (s : str).
Record ran := mkRan { printed : list output; failure : option str }.
Definition succeeded (r : ran) : bool := bool_decide (failure r = None).

(** [{:<n}]: padded to [n] characters. *)
Definition pad (n : nat) (s : str) : str := s ++ replicate (n - length (chars s)) " "%byte.
Definition pad_left (n : nat) (s : str) : str := replicate (n - length (chars s)) " "%byte ++ s.

Definition join (sep : str) (l : list str) : str :=
  match l with [] => [] | s :: r => s ++ concat (map (λ t, sep ++ t) r) end.

Definition error_of (resp : value) : str := field as_str resp (lit "error") (lit "failed").
Definition is_ok_answer (resp : value) : bool := field as_bool resp (lit "ok") false.

Definition json_ok (resp : value) (msg : str) : ran :=
  if is_ok_answer resp then mkRan [Println msg] None else mkRan [] (Some (error_of resp)).

Section commands.
(** The daemon behind the socket: [request_json], which fails when it cannot
    connect or the answer is no JSON. *)
Context {S : Type}.
Variable ask : S → value → result str value * S.
Variable path_text : path → str.

Definition asking (s : S) (r : Request) (k : value → ran) : ran * S :=
  match ask s (request_value path_text r) with
  | (Ok resp, s) => (k resp, s)
  | (Err e, s) => (mkRan [] (Some e), s)
  end.

Definition cmd_paste (s : S) : ran * S :=
  asking s ClipGet (λ resp,
    if is_ok_answer resp then
      mkRan (match get resp (lit "text") ≫= as_str with Some t => [Print_ t] | None => [] end) None
    else mkRan [] (Some (error_of resp))).

(** [text] is standard input. *)
Definition cmd_copy (quiet : bool) (text : str) (s : S) : ran * S :=
  asking s (ClipSet text) (λ resp,
    if is_ok_answer resp then
      mkRan (if quiet then [] else [Eprintln (lit "Copied " ++ dec (zlen text) ++ lit " bytes to the shared clipboard.")])
        None
    else mkRan [] (Some (error_of resp))).

(** [refused] is the wording of the refusal. *)
Definition cmd_open (refused : str → str) (url : str) (to : option str) (s : S) : ran * S :=
  if negb (is_allowed_url url) then (mkRan [] (Some (refused url)), s)
  else asking s (ROpen url to) (λ resp,
    if is_ok_answer resp then
      mkRan [Println (lit "Opened on " ++ dec (field as_u64 resp (lit "dispatched") 0) ++ lit " peer(s).")] None
    else mkRan [] (Some (error_of resp))).

(** [cmd_auth] with a name; [--remove] is [Cli.cmd_auth_remove]. *)
Definition cmd_auth (name : str) (mutual : bool) (s : S) : ran * S :=
  asking s (RAuth name mutual) (λ resp,
    if is_ok_answer resp then
      mkRan ([Println (lit "Authorized " ++ name ++ lit " (" ++ field as_str resp (lit "hostname") (lit "?")
                         ++ lit ") — it can now send here unattended.")]
             ++ if mutual then [Println (lit "Asked " ++ name ++ lit " to authorize this machine back.")] else [])
        None
    else mkRan [] (Some (error_of resp))).

(** [cmd_auth] without an argument. *)
Definition cmd_auth_list (ps : Peers) : ran :=
  match base.filter (λ p, authorized p = true) ps with
  | [] => mkRan [Println (lit "No authorized peers. Run `qdrop auth <name>` while connected to one.")] None
  | authed =>
      mkRan (Println (pad 20 (lit "PEER") ++ lit " " ++ pad 24 (lit "HOSTNAME") ++ lit " MACs")
             :: map (λ p, Println (pad 20 (peer_name p) ++ lit " " ++ pad 24 (default (lit "-") (peer_hostname p))
                                   ++ lit " " ++ match macs p with [] => lit "-" | ms => join (lit ", ") ms end)) authed)
        None
  end.

(** [cmd_send], once the paths are known. *)
Definition sent_line (quiet : bool) (o : value) : list output * bool :=
  let name := field as_str o (lit "name") (lit "?") in
  let peer := field as_str o (lit "peer") (lit "?") in
  if field as_bool o (lit "ok") false then
    (if quiet then [] else [Println (lit "  ✓ " ++ name ++ lit " → " ++ peer)], true)
  else ([Eprintln (lit "  ✗ " ++ name ++ lit " → " ++ peer ++ lit ": " ++ field as_str o (lit "detail") [])], false).

Definition send_report (quiet : bool) (resp : value) : ran :=
  match get resp (lit "sent") ≫= as_array with
  | Some sent =>
      let lines := map (sent_line quiet) sent in
      mkRan (concat (map fst lines))
        (if forallb snd lines then None else Some (lit "one or more transfers failed"))
  | None =>
      match get resp (lit "error") ≫= as_str with
      | Some err => mkRan [] (Some err)
      | None => mkRan [] None
      end
  end.

Definition cmd_send_paths (quiet : bool) (paths : list path) (to : option str) (s : S) : ran * S :=
  let '(r, s) := asking s (RSend paths to) (send_report quiet) in
  let first := if quiet then []
               else [Println (lit "Sending " ++ dec (zlen paths) ++ lit " file(s)"
                              ++ match to with Some t => lit " to " ++ t | None => [] end ++ lit "...")] in
  (mkRan (first ++ printed r) (failure r), s).

(** [cmd_status] *)
Definition peers_of (resp : value) : list value := default [] (get resp (lit "peers") ≫= as_array).
Definition row_is_online (p : value) : bool := field as_bool p (lit "online") false.
Definition row_label (p : value) : str := field as_str p (lit "name") (lit "?").
Definition online_count (resp : value) : Z := zlen (base.filter (λ p, row_is_online p = true) (peers_of resp)).
Definition online_word (p : value) : str := if row_is_online p then lit "online" else lit "offline".

(** The tooltip as it stands in the raw string of the source, line breaks
    written as a backslash and an [n]. *)
Definition nl : str := [backslash; "n"%byte].
Definition q : str := [Byte.x22].
Definition waybar_tip (resp : value) : str :=
  join nl (map (λ p, row_label p ++ lit ": " ++ online_word p) (peers_of resp)).
Definition waybar_icon (paused : bool) (online : Z) : str :=
  if paused then lit "󰅘" else if 0 <? online then lit "󰓅" else lit "󰤭".
Definition waybar_class (paused : bool) (online : Z) : str :=
  if paused then lit "paused" else if 0 <? online then lit "connected" else lit "idle".
Definition waybar_text (paused : bool) (online : Z) : str := waybar_icon paused online ++ lit " " ++ dec online.
Definition waybar_line (resp : value) : str :=
  let paused := field as_bool resp (lit "clipboard_paused") false in
  let online := online_count resp in
  lit "{" ++ q ++ lit "text" ++ q ++ lit ":" ++ q ++ waybar_text paused online ++ q
  ++ lit "," ++ q ++ lit "tooltip" ++ q ++ lit ":" ++ q ++ lit "qdrop — clipboard "
  ++ (if paused then lit "paused" else lit "active") ++ nl ++ waybar_tip resp ++ q
  ++ lit "," ++ q ++ lit "class" ++ q ++ lit ":" ++ q ++ waybar_class paused online ++ q ++ lit "}".

Definition status_report (resp : value) : list output :=
  let paused := field as_bool resp (lit "clipboard_paused") false in
  Println (lit "qdrop " ++ field as_str resp (lit "version") (lit "?") ++ lit " — clipboard sync "
           ++ if paused then lit "PAUSED" else lit "active")
  :: match peers_of resp with
     | [] => [Println (lit "No paired peers.")]
     | ps => Println (pad 20 (lit "PEER") ++ lit " STATUS")
             :: map (λ p, Println (pad 20 (row_label p) ++ lit " " ++ online_word p)) ps
     end.

(** [pretty] is [serde_json::to_string_pretty]. *)
Definition cmd_status (pretty : value → str) (json waybar : bool) (s : S) : ran * S :=
  asking s Status (λ resp,
    mkRan (if json then [Println (pretty resp)]
           else if waybar then [Println (waybar_line resp)]
           else status_report resp) None).

(** [cmd_clip] *)
Definition history_line (e : value) : str :=
  pad_left 3 (dec (field as_u64 e (lit "index") 0)) ++ lit "  " ++ pad 5 (field as_str e (lit "kind") (lit "?"))
  ++ lit "  " ++ pad 28 (field as_str e (lit "preview") []) ++ lit "  " ++ field as_str e (lit "origin") [].
Definition history_report (resp : value) : ran :=
  match default [] (get resp (lit "entries") ≫= as_array) with
  | [] => mkRan [Println (lit "(clipboard history is empty or disabled)")] None
  | es => mkRan (map (λ e, Println (history_line e)) es) None
  end.
Definition clip_report (status : bool) (resp : value) : ran :=
  let paused := field as_bool resp (lit "clipboard_paused") false in
  if status then
    mkRan [Println (lit "Clipboard sync: " ++ if paused then lit "paused" else lit "active");
           Println (lit "Connected peers: " ++
                    dec (zlen (default [] (get resp (lit "connected") ≫= as_array))))] None
  else mkRan [Println (lit "Clipboard sync " ++ (if paused then lit "paused" else lit "resumed") ++ lit ".")] None.

Definition cmd_clip (a : ClipAction) (to : option str) (s : S) : ran * S :=
  match a with
  | AHistory => asking s ClipHistory history_report
  | Restore n => asking s (ClipRestore n) (λ resp,
      json_ok resp (lit "Restored history entry " ++ dec (Z.of_nat n) ++ lit " to the clipboard."))
  | ASend n => asking s (ClipSend n to) (λ resp, json_ok resp (lit "Sent history entry " ++ dec (Z.of_nat n) ++ lit "."))
  | Pause => asking s ClipPause (clip_report false)
  | Resume => asking s ClipResume (clip_report false)
  | AStatus => asking s ClipStatus (clip_report true)
  | Toggle =>
      match ask s (request_value path_text ClipStatus) with
      | (Err e, s) => (mkRan [] (Some e), s)
      | (Ok now, s) =>
          asking s (if field as_bool now (lit "clipboard_paused") false then ClipResume else ClipPause) (clip_report false)
      end
  end.
End commands.

(** [cmd_peers]: [now] is the clock. *)
Definition peer_value (st : DaemonState) (p : Peer) : value :=
  let id := peer_device_id p in
  JObj [(lit "name", JStr (peer_name p)); (lit "device_id", JStr id); (lit "public_key", JStr (peer_public_key p));
        (lit "online", JBool (is_online st id)); (lit "address", jopt (address p));
        (lit "last_seen_unix", jnum_opt (match online st !! id with Some t => Some t | None => seen st !! id end))].
Definition peer_status (now : Z) (st : DaemonState) (p : Peer) : str * str :=
  match online st !! peer_device_id p with
  | Some since => (lit "online", lit "since " ++ ago now since)
  | None => match seen st !! peer_device_id p with
            | Some t => (lit "offline", ago now t)
            | None => (lit "offline", lit "never")
            end
  end.
Definition cmd_peers (pretty : value → str) (now : Z) (json : bool) (ps : Peers) (st : DaemonState) : ran :=
  if json then mkRan [Println (pretty (JArr (map (peer_value st) ps)))] None
  else match ps with
       | [] => mkRan [Println (lit "No paired peers. Run `qdrop pair` to add one.")] None
       | _ =>
           mkRan (Println (pad 20 (lit "NAME") ++ lit " " ++ pad 9 (lit "STATUS") ++ lit " LAST SEEN")
                  :: concat (map (λ p,
                       let '(status, when) := peer_status now st p in
                       Println (pad 20 (peer_name p) ++ lit " " ++ pad 9 status ++ lit " " ++ when)
                       :: match address p with
                          | Some a => [Println (pad 20 [] ++ lit " static address " ++ a)]
                          | None => []
                          end) ps)) None
       end.

(** ** The socket *)

Definition response_ok (r : Response) : bool :=
  match r with
  | SSent b _ | SSentTo b _ => b
  | SAwaiting _ _ | SError _ => false
  | _ => true
  end.

Definition keys (v : value) : list str := match v with JObj fs => map fst fs | _ => [] end.

Lemma response_value_typed version wording r :
  match response_value version wording r with
  | None => ∃ id n, r = SAwaiting id n
  | Some v => (∃ fs, v = JObj fs) ∧ NoDup (keys v) ∧ get v (lit "ok") = Some (JBool (response_ok r)) ∧
      get v (lit "error") = match r with SError e => Some (JStr (wording e)) | _ => None end
  end.
Proof.
  destruct r; cbn [response_value]; try (by eauto);
    (split_and!; [by eexists|by apply (bool_decide_unpack _); vm_compute|reflexivity|reflexivity]).
Qed.


Section socket.
Context `{Hashes, Serde (list Entry)}.
Variable own_id : str.
Variable has_clip : bool.
Variable port : Z.
Variable mine : DeviceInfo.
Variable path_of : str → path.
Variable path_text : path → str.
Variable version : str.
Variable wording : ControlError → str.
Variable no_answer : str.
(** What the requests find: [state.json], what sending a file does, the answer
    of the clipboard thread; and how an exchange ends. *)
Variable st : DaemonState.
Variable one : str → path → SendOutcome.
Variable text : option str.
Variable await : str → nat → daemon → Response * daemon.

(** A request carried out to its answer. *)
Definition answer (d : daemon) (req : Request) : Response * daemon :=
  match control_dispatch own_id has_clip port mine st one text d req with
  | (SAwaiting id n, d) => await id n d
  | r => r
  end.

(** [handle] behind [request_json]. *)
Definition socket_ask (d : daemon) (v : value) : result str value * daemon :=
  let '(r, d) := match parse_request path_of v with
                 | Some req => answer d req
                 | None => (SError BadRequest, d)
                 end in
  (ok_or no_answer (response_value version wording r), d).

Definition answered (r : Response) : Prop := ∀ id n, r ≠ SAwaiting id n.

(** The command did what the daemon says it did. *)
Definition reports (cmd : daemon → ran * daemon) (req : Request) : Prop :=
  ∀ d, (cmd d).2 = (answer d req).2 ∧
    succeeded (cmd d).1 = response_ok (answer d req).1 ∧
    ∀ e, (answer d req).1 = SError e → failure (cmd d).1 = Some (wording e).

Lemma ask_answer d req :
  sendable path_of path_text req → answered (answer d req).1 →
  ∃ v, response_value version wording (answer d req).1 = Some v ∧
    socket_ask d (request_value path_text req) = (Ok v, (answer d req).2) ∧
    is_ok_answer v = response_ok (answer d req).1 ∧
    ∀ e, (answer d req).1 = SError e → error_of v = wording e.
Proof.
  intros Hs Ha. pose proof (response_value_typed version wording (answer d req).1) as Ht.
  unfold socket_ask. rewrite (request_read path_of path_text req Hs).
  destruct (answer d req) as [r d']. cbn [fst snd] in *.
  destruct (response_value version wording r) as [v|]; [|by destruct Ht as (id & n & ->); destruct (Ha id n)].
  destruct Ht as (_ & _ & Hok & Her). exists v. split_and!; [done|done| |].
  - unfold is_ok_answer, field. by rewrite Hok.
  - intros e ->. unfold error_of, field. by rewrite Her.
Qed.

(** A command whose verdict is the [ok] of the answer. *)
Lemma asking_reports req k :
  sendable path_of path_text req → (∀ d, answered (answer d req).1) →
  (∀ v, succeeded (k v) = is_ok_answer v ∧ (is_ok_answer v = false → failure (k v) = Some (error_of v))) →
  reports (λ d, asking socket_ask path_text d req k) req.
Proof.
  intros Hs Ha Hk d. destruct (ask_answer d req Hs (Ha d)) as (v & _ & E & Hok & Her).
  unfold asking. rewrite E. cbn [fst snd]. destruct (Hk v) as [H1 H2]. split_and!; [done|congruence|].
  intros e He. rewrite H2, (Her e He); [done|]. by rewrite Hok, He.
Qed.

Lemma no_wait_answered d req :
  (∀ name m, req ≠ RAuth name m) → answered (answer d req).1.
Proof.
  intros Hreq id n. unfold answer.
  destruct (control_dispatch own_id has_clip port mine st one text d req) as [r d'] eqn:E.
  assert (∀ i k, r ≠ SAwaiting i k) as Hr; [|destruct r; try done; by destruct (Hr id0 exchange)].
  intros i k ->. revert E. destruct req; cbn [control_dispatch]; try done.
  - by destruct (dispatch _ _ _ _) as [[] ?].
  - by destruct (Hreq name mutual).
  - by destruct has_clip.
  - by destruct has_clip.
  - destruct (history_get _ _) as [[]|]; by destruct has_clip.
  - destruct (history_get _ _) as [[]|]; try done.
    match goal with |- context [let '(_, _) := ?X in _] => by destruct X end.
Qed.


Lemma send_answers paths to d :
  paths ≠ [] → send (d_registry d) (filex (d_sync d)) paths to one ≠ [].
Proof.
  intros Hp. unfold send.
  assert (∀ l : list str, match l with
     | [] => [mkOutcome [] (default [] to) false (lit "no connected peers")]
     | _ => concat (map (λ peer, map (one peer) paths) l) end ≠ []) as Hl.
  { intros [|p l]; [done|]. destruct paths; [done|]. done. }
  destruct to as [name|]; [|apply Hl]. destruct (sender _ name); [apply (Hl [name])|].
  destruct (resolve_peer _ name) as [id|]; [apply (Hl [id])|done].
Qed.

(** The error lines of a report. *)
Definition error_lines (l : list output) : list str :=
  concat (map (λ o, match o with Eprintln s => [s] | _ => [] end) l).
Definition outcome_line (o : SendOutcome) : str :=
  lit "  ✗ " ++ out_name o ++ lit " → " ++ out_peer o ++ lit ": " ++ out_detail o.

Lemma send_report_outcomes quiet b outcomes v :
  response_value version wording (SSent b outcomes) = Some v →
  succeeded (send_report quiet v) = forallb out_ok outcomes ∧
  error_lines (printed (send_report quiet v)) = map outcome_line (base.filter (λ o, out_ok o = false) outcomes).
Proof.
  intros [= <-].
  match goal with |- context [send_report quiet ?v] =>
    change (send_report quiet v) with
      (mkRan (concat (map fst (map (sent_line quiet) (map outcome_value outcomes))))
         (if forallb snd (map (sent_line quiet) (map outcome_value outcomes)) then None
          else Some (lit "one or more transfers failed")))
  end.
  unfold succeeded. cbn [failure printed]. rewrite map_map. split.
  - assert (forallb snd (map (λ o, sent_line quiet (outcome_value o)) outcomes) = forallb out_ok outcomes) as ->.
    { induction outcomes as [|[nm pe ok de] l IH]; [done|]. cbn [map forallb]. rewrite IH. by destruct ok. }
    by destruct (forallb out_ok outcomes).
  - rewrite map_map. induction outcomes as [|[nm pe ok de] l IH]; [done|]. cbn [map concat]. unfold error_lines in *.
    rewrite map_app, concat_app, IH. destruct ok; [by destruct quiet|done].
Qed.

(** (C23) [qdrop send] reports every transfer: for at least one path, it succeeds
    exactly when every outcome of the daemon does, which is also the daemon's own
    verdict, and its error lines are the failed outcomes in order, with name, peer
    and reason; in particular it fails when no peer is connected. *)
Theorem send_truthful quiet paths to d :
  paths ≠ [] → Forall (λ p, path_of (path_text p) = p) paths →
  let outcomes := send (d_registry d) (filex (d_sync d)) paths to one in
  let r := cmd_send_paths socket_ask path_text quiet paths to d in
  r.2 = d ∧ succeeded r.1 = forallb out_ok outcomes ∧
  (answer d (RSend paths to)).1 = SSent (forallb out_ok outcomes) outcomes ∧
  error_lines (printed r.1) = map outcome_line (base.filter (λ o, out_ok o = false) outcomes) ∧
  (to = None → connected_ids (d_bus d) = [] → succeeded r.1 = false).
Proof.
  intros Hp Hpaths outcomes r.
  destruct (ask_answer d (RSend paths to) Hpaths) as (v & Hv & E & _); [by apply no_wait_answered|].
  assert (answer d (RSend paths to) = (SSent (forallb out_ok outcomes) outcomes, d)) as Ea.
  { unfold answer. cbn [control_dispatch]. fold outcomes. do 2 f_equal.
    pose proof (send_answers paths to d Hp) as Hne. fold outcomes in Hne.
    rewrite bool_decide_eq_false_2; [done|]. by destruct outcomes. }
  rewrite Ea in Hv, E. cbn [fst snd] in *.
  destruct (send_report_outcomes quiet _ _ v Hv) as [H1 H2].
  assert (r.1 = mkRan ((if quiet then [] else [Println (lit "Sending " ++ dec (zlen paths) ++ lit " file(s)"
     ++ match to with Some t => lit " to " ++ t | None => [] end ++ lit "...")]) ++ printed (send_report quiet v))
     (failure (send_report quiet v)) ∧ r.2 = d) as [Er Ed].
  { subst r. unfold cmd_send_paths, asking. rewrite E. done. }
  rewrite Er, Ea. change (succeeded (mkRan _ _)) with (succeeded (send_report quiet v)). rewrite H1.
  split_and!; [done|done|done| |].
  - cbn [printed]. unfold error_lines in *. rewrite map_app, concat_app, H2. by destruct quiet.
  - intros -> Hc. subst outcomes. cbn [send]. unfold d_bus in Hc. by rewrite Hc.
Qed.

(** [qdrop clip --toggle] through the socket: it flips the setting, changes
    nothing else of the daemon, and prints the setting that is now in force. *)
Theorem toggle_truthful to d :
  let r := cmd_clip socket_ask path_text Toggle to d in
  r.2 = with_controls d (mkControls (negb (clipboard_paused (d_controls d))) (sync_images_on (d_controls d))) ∧
  r.1 = mkRan [Println (lit "Clipboard sync " ++
                 (if clipboard_paused (d_controls r.2) then lit "paused" else lit "resumed") ++ lit ".")] None.
Proof. destruct d as [[[] im] s a o]; done. Qed.
End socket.

(** ** The line for waybar *)

(** A reader of JSON objects whose members are texts (RFC 8259, without the
    [\u] escapes, which are not used here). *)
Definition unescape (e : byte) : option byte :=
  if bool_decide (e = Byte.x22) || bool_decide (e = backslash) || bool_decide (e = slash) then Some e
  else if bool_decide (e = "n"%byte) then Some Byte.x0a
  else if bool_decide (e = "t"%byte) then Some Byte.x09
  else if bool_decide (e = "r"%byte) then Some Byte.x0d
  else if bool_decide (e = "b"%byte) then Some Byte.x08
  else if bool_decide (e = "f"%byte) then Some Byte.x0c
  else None.

Fixpoint js_text (s : bytes) : option (bytes * bytes) :=
  match s with
  | [] => None
  | b :: r =>
      if bool_decide (b = Byte.x22) then Some ([], r)
      else if bool_decide (b = backslash) then
        match r with
        | [] => None
        | e :: r' => x ← unescape e; t ← js_text r'; Some (x :: t.1, t.2)
        end
      else if bval b <? 32 then None
      else t ← js_text r; Some (b :: t.1, t.2)
  end.

Definition expect (b : byte) (s : bytes) : option bytes :=
  match s with c :: r => if bool_decide (c = b) then Some r else None | [] => None end.

Definition js_member (s : bytes) : option (bytes * bytes * bytes) :=
  s ← expect Byte.x22 s; k ← js_text s;
  s ← expect ":"%byte k.2; s ← expect Byte.x22 s; v ← js_text s; Some (k.1, v.1, v.2).

Fixpoint js_members (fuel : nat) (s : bytes) : option (list (bytes * bytes)) :=
  match fuel with
  | O => None
  | S f =>
      m ← js_member s;
      match m.2 with
      | [b] => if bool_decide (b = "}"%byte) then Some [m.1] else None
      | b :: r => if bool_decide (b = ","%byte) then cons m.1 <$> js_members f r else None
      | [] => None
      end
  end.
(** Every member takes at least one byte. *)
Definition js_object (s : bytes) : option (list (bytes * bytes)) :=
  s' ← expect "{"%byte s; js_members (length s) s'.

(** Text that stands for itself between quotes. *)
Definition clean_byte (b : byte) : bool :=
  negb (bool_decide (b = Byte.x22)) && negb (bool_decide (b = backslash)) && (32 <=? bval b).
Definition clean (s : str) : bool := forallb clean_byte s.

Lemma clean_app s t : clean (s ++ t) = clean s && clean t.
Proof. apply forallb_app. Qed.

Lemma js_text_clean s r : clean s = true → js_text (s ++ r) = t ← js_text r; Some (s ++ t.1, t.2).
Proof.
  induction s as [|b s IH]; intros Hs; [cbn [app]; by destruct (js_text r) as [[]|]|].
  cbn [clean forallb] in Hs. apply andb_true_iff in Hs as [Hb Hs]. unfold clean_byte in Hb.
  apply andb_true_iff in Hb as [[H1 H2]%andb_true_iff H3]. apply negb_true_iff in H1, H2.
  cbn [app js_text]. rewrite H1, H2. rewrite (proj2 (Z.ltb_ge _ _)) by (by apply Z.leb_le).
  rewrite (IH Hs). by destruct (js_text r) as [[]|].
Qed.

Lemma js_text_nl r : js_text (nl ++ r) = t ← js_text r; Some (Byte.x0a :: t.1, t.2).
Proof. done. Qed.

(** A text read completely, up to its closing quote. *)
Definition reads (s v : str) : Prop := ∀ r, js_text (s ++ r) = t ← js_text r; Some (v ++ t.1, t.2).

Lemma reads_clean s : clean s = true → reads s s.
Proof. intros Hs r. by apply js_text_clean. Qed.

Lemma reads_nl : reads nl [Byte.x0a].
Proof. intros r. apply js_text_nl. Qed.

Lemma reads_app s t v w : reads s v → reads t w → reads (s ++ t) (v ++ w).
Proof.
  intros Hs Ht r. rewrite <- app_assoc, (Hs (t ++ r)), (Ht r). destruct (js_text r) as [[]|]; [|done].
  cbn. by rewrite app_assoc.
Qed.

Lemma reads_join l m : Forall2 reads l m → reads (join nl l) (join [Byte.x0a] m).
Proof.
  intros H. destruct H as [|s v l m Hs H]; [by apply reads_clean|]. cbn [join]. apply reads_app; [done|].
  induction H as [|t w l m Ht _ IH]; [by apply reads_clean|]. cbn [map concat].
  apply reads_app; [|done]. apply reads_app; [apply reads_nl|done].
Qed.

Lemma reads_quote s v r : reads s v → js_text (s ++ q ++ r) = Some (v, r).
Proof.
  intros H. rewrite (H (q ++ r)). change (js_text (q ++ r)) with (Some (@nil byte, r)).
  cbn [mbind option_bind fst snd]. by rewrite app_nil_r.
Qed.

Lemma clean_dec n : 0 ≤ n → clean (dec n) = true.
Proof.
  intros Hn. destruct (dec_value n Hn) as (_ & Hd & _). apply forallb_forall. intros b Hb.
  rewrite forallb_forall in Hd. specialize (Hd b Hb). by destruct b.
Qed.

Lemma clean_waybar_text paused n : 0 ≤ n → clean (waybar_text paused n) = true.
Proof.
  intros Hn. unfold waybar_text. rewrite !clean_app, (clean_dec n Hn), andb_true_r.
  unfold waybar_icon. by destruct paused, (0 <? n).
Qed.

Lemma js_member_text k s v b r :
  clean k = true → reads s v → js_member (q ++ k ++ q ++ lit ":" ++ q ++ s ++ q ++ b :: r) = Some (k, v, b :: r).
Proof.
  intros Hk Hs. unfold js_member. change (expect Byte.x22 (q ++ ?x)) with (Some x).
  cbn [mbind option_bind]. rewrite (reads_quote k k) by (by apply reads_clean). cbn [mbind option_bind fst snd].
  change (expect ":"%byte (lit ":" ++ ?x)) with (Some x). cbn [mbind option_bind].
  change (expect Byte.x22 (q ++ ?x)) with (Some x). cbn [mbind option_bind]. by rewrite (reads_quote s v).
Qed.

Lemma js_members_last f k s v :
  clean k = true → reads s v → js_members (S f) (q ++ k ++ q ++ lit ":" ++ q ++ s ++ q ++ lit "}") = Some [(k, v)].
Proof. intros Hk Hs. cbn [js_members]. change (lit "}") with ["}"%byte]. by rewrite (js_member_text k s v). Qed.

Lemma js_members_more f k s v r :
  clean k = true → reads s v → r ≠ [] →
  js_members (S f) (q ++ k ++ q ++ lit ":" ++ q ++ s ++ q ++ lit "," ++ r) = cons (k, v) <$> js_members f r.
Proof.
  intros Hk Hs Hr. cbn [js_members]. change (lit "," ++ r) with (","%byte :: r).
  rewrite (js_member_text k s v) by done. cbn [mbind option_bind fst snd]. by destruct r.
Qed.

Definition row_word (r : PeerRow) : str := row_name r ++ lit ": " ++ if row_online r then lit "online" else lit "offline".

Lemma peers_of_rows version wording port pa im cs rows v :
  response_value version wording (SStatus port pa im cs rows) = Some v →
  peers_of v = map row_value rows ∧ field as_bool v (lit "clipboard_paused") false = pa.
Proof. by intros [= <-]. Qed.

Lemma online_count_rows v rows :
  peers_of v = map row_value rows → online_count v = zlen (base.filter (λ r, row_online r = true) rows).
Proof.
  unfold online_count. intros ->. unfold zlen. f_equal. induction rows as [|[nm id on si se] l IH]; [done|].
  cbn [map]. rewrite !list.filter_cons. change (row_is_online (row_value (mkRow nm id on si se))) with on.
  cbn [row_online]. destruct on; [rewrite !decide_True by done|rewrite !decide_False by done]; cbn [length]; congruence.
Qed.

Lemma reads_waybar_tip v rows :
  peers_of v = map row_value rows → Forall (λ r, clean (row_name r) = true) rows →
  reads (waybar_tip v) (join [Byte.x0a] (map row_word rows)).
Proof.
  unfold waybar_tip. intros -> Hc. apply reads_join. rewrite map_map.
  induction Hc as [|[nm id on si se] l Hr _ IH]; constructor; [|done]. apply reads_clean.
  change (clean (nm ++ lit ": " ++ (if on then lit "online" else lit "offline")) = true).
  cbn [row_name] in Hr. rewrite !clean_app, Hr. by destruct on.
Qed.

(** The waybar line is JSON, and the right one, if names are plain: when no
    device name holds a quote, a backslash or a control character, the line for
    any status answer reads back as one object with three texts: the number of
    connected devices after the icon, a tooltip with the clipboard state and then
    every device with its state on a line of its own, and the class. *)
Theorem waybar_reads version wording port pa im cs rows v :
  response_value version wording (SStatus port pa im cs rows) = Some v →
  Forall (λ r, clean (row_name r) = true) rows →
  let n := zlen (base.filter (λ r, row_online r = true) rows) in
  js_object (waybar_line v) =
  Some [(lit "text", waybar_text pa n);
        (lit "tooltip", (lit "qdrop — clipboard " ++ if pa then lit "paused" else lit "active")
                        ++ [Byte.x0a] ++ join [Byte.x0a] (map row_word rows));
        (lit "class", waybar_class pa n)].
Proof.
  intros Hv Hc n. destruct (peers_of_rows _ _ _ _ _ _ _ _ Hv) as [Hp Hpa].
  pose proof (online_count_rows v rows Hp) as Hn. fold n in Hn. unfold waybar_line. rewrite Hpa, Hn.
  set (tip := (lit "qdrop — clipboard " ++ (if pa then lit "paused" else lit "active")) ++ nl ++ waybar_tip v).
  assert (reads tip ((lit "qdrop — clipboard " ++ (if pa then lit "paused" else lit "active"))
                     ++ [Byte.x0a] ++ join [Byte.x0a] (map row_word rows))) as Ht.
  { apply reads_app; [apply reads_clean; by destruct pa|]. apply reads_app; [apply reads_nl|by apply reads_waybar_tip]. }
  set (rest := q ++ lit "class" ++ q ++ lit ":" ++ q ++ waybar_class pa n ++ q ++ lit "}").
  set (line := lit "{" ++ _).
  assert (line = lit "{" ++ q ++ lit "text" ++ q ++ lit ":" ++ q ++ waybar_text pa n ++ q ++ lit "," ++
                 q ++ lit "tooltip" ++ q ++ lit ":" ++ q ++ tip ++ q ++ lit "," ++ rest) as ->.
  { subst line tip rest. by rewrite <- !app_assoc. }
  assert (∃ f, length (lit "{" ++ q ++ lit "text" ++ q ++ lit ":" ++ q ++ waybar_text pa n ++ q ++ lit "," ++
                 q ++ lit "tooltip" ++ q ++ lit ":" ++ q ++ tip ++ q ++ lit "," ++ rest) = S (S (S f))) as [f Hf]
    by (eexists; reflexivity).
  unfold js_object. rewrite Hf. change (expect "{"%byte (lit "{" ++ ?x)) with (Some x). cbn [mbind option_bind].
  rewrite (js_members_more _ (lit "text") _ (waybar_text pa n)) by (try apply reads_clean; try apply clean_waybar_text; try apply zlen_nonneg; done).
  rewrite (js_members_more _ (lit "tooltip") _ _ rest eq_refl Ht) by done. unfold rest.
  rewrite (js_members_last _ (lit "class") _ (waybar_class pa n));
    [done|done|apply reads_clean; unfold waybar_class; by destruct pa, (0 <? n)].
Qed.

(** A device name is not escaped: a paired device that is named as below, a
    name of its own choosing, ends the tooltip and adds a member of its own, so
    the bar shows the class it wants; and one with a single quote character makes
    the line no JSON at all. *)
Theorem waybar_injected version wording :
  let line name := match response_value version wording (SStatus 1 false true [] [mkRow name (lit "m") false None None]) with
                   | Some v => waybar_line v | None => [] end in
  let evil := lit "m" ++ q ++ lit "," ++ q ++ lit "class" ++ q ++ lit ":" ++ q ++ lit "connected" ++ q
              ++ lit "," ++ q ++ lit "x" ++ q ++ lit ":" ++ q in
  (∃ l, js_object (line evil) = Some l ∧ (lit "class", lit "connected") ∈ l) ∧
  js_object (line q) = None.
Proof.
  intros line evil. split; [|vm_compute; reflexivity].
  eexists. split; [vm_compute; reflexivity|]. apply (bool_decide_unpack _). by vm_compute.
Qed.

(** ** Witnesses *)

#[local] Existing Instance sample_hashes.
#[local] Existing Instance entries_serde.

Definition sample_path_text (p : path) : str :=
  concat (map (λ c, match c with Normal n => slash :: n | _ => [] end) p).
Definition sample_file : path := [RootDir; Normal (lit "tmp"); Normal (lit "a.txt")].
Definition plain_wording (e : ControlError) : str := lit "error".
Definition authorized_at_once (id : str) (n : nat) (d : daemon) : Response * daemon := (SAuthorized (lit "host"), d).
Definition sent_to (peer : str) (p : path) : SendOutcome :=
  mkOutcome (lit "a.txt") peer (bool_decide (peer = lit "a")) (lit "why").

Lemma request_roundtrip_witness :
  parse_request components (request_value sample_path_text (RSend [sample_file] (Some (lit "bob"))))
  = Some (RSend [sample_file] (Some (lit "bob"))).
Proof. apply (request_roundtrip components sample_path_text). by repeat constructor. Defined.


Lemma send_truthful_witness :
  let r := cmd_send_paths (socket_ask (lit "me") true 1 sample_info components (lit "0.1") plain_wording []
             no_state sent_to None authorized_at_once) sample_path_text false [sample_file] None sample_daemon in
  succeeded r.1 = false ∧ length (error_lines (printed r.1)) = 1%nat.
Proof.
  destruct (send_truthful (lit "me") true 1 sample_info components sample_path_text (lit "0.1") plain_wording []
    no_state sent_to None authorized_at_once false [sample_file] None sample_daemon) as (_ & H1 & _ & H2 & _);
    [done|by repeat constructor|]. split; [etrans; [exact H1|by vm_compute]|].
  etrans; [apply (f_equal length H2)|by vm_compute].
Defined.

Lemma waybar_reads_witness :
  ∃ v l, response_value (lit "0.1") plain_wording
      (SStatus 1 false true [] [mkRow (lit "Bob's") (lit "b") true None None; mkRow (lit "alice") (lit "a") false None None])
    = Some v ∧ js_object (waybar_line v) = Some l ∧ (lit "class", lit "connected") ∈ l.
Proof.
  eexists _, _. split; [reflexivity|]. split.
  - apply (waybar_reads (lit "0.1") plain_wording 1 false true []
      [mkRow (lit "Bob's") (lit "b") true None None; mkRow (lit "alice") (lit "a") false None None] _ eq_refl).
    repeat constructor.
  - right; right; left.
Defined.
