(* ===== verification/Commands.v ===== *)
(** * Commands: the commands of the client that wait, read or start something

    [cmd_recv], [cmd_send] with its files, [cmd_pair] and [cmd_daemon] of
    [crates/qdrop/src/main.rs].  What the file system and the clock answer at
    each poll of [recv] is a list of polls; the file store is that of [Store],
    without directories, so removing the temporary directory removes the
    names below it.

    The theorems: [recv] returns a file that is new, visible and whose size has
    settled, or times out, and it always ends; [send] from standard input
    leaves nothing behind; and a PIN that is not six digits reaches nobody. *)
From S2P Require Import Prelude Text Crypto Proto Frame Store Samples Net Peers Config Bus FileXfer Trust Auth History Clipboard Sync Pairing State Quote Control Cli Client.

(** ** [cmd_recv] *)

Record RecvArgs := mkRecvArgs { ra_stdout : bool; ra_keep : bool; ra_timeout : option Z (* seconds *) }.

(** One turn of the loop: the clock at its start (milliseconds), the regular
    files of the directory after 250 ms, the sizes of a file then and 300 ms
    later ([None]: it cannot be read). *)
Record recv_poll := mkPoll { rp_now : Z; rp_names : list str; rp_len1 : str → option Z; rp_len2 : str → option Z }.

Section recv.
(** The first element of a difference of two hash sets is any element. *)
Variable choose : list str → option str.

Definition recv_turn (deadline : Z) (before : list str) (p : recv_poll) : option (result str str) :=
  if deadline <=? rp_now p then Some (Err (lit "timed out waiting for a file"))
  else match choose (recv_new before (rp_names p)) with
       | Some n => if default 0 (rp_len1 p n) =? default 1 (rp_len2 p n) then Some (Ok n) else None
       | None => None
       end.

Fixpoint recv_loop (deadline : Z) (before : list str) (ps : list recv_poll) : option (result str str) :=
  match ps with
  | [] => None
  | p :: ps => match recv_turn deadline before p with Some r => Some r | None => recv_loop deadline before ps end
  end.

(** [start] is the clock when the deadline is set. *)
Definition recv_wait (a : RecvArgs) (start : Z) (before : list str) (ps : list recv_poll) : option (result str str) :=
  recv_loop (start + 1000 * default 300 (ra_timeout a)) before ps.

(** After the wait: what is printed, and the file afterwards. *)
Definition recv_deliver (a : RecvArgs) (s : fs) (dir : path) (shown : path → str) (n : str)
    : result ErrorKind (list output) * fs :=
  let p := pjoin dir n in
  if ra_stdout a then
    match fs_read s p with
    | Ok b => (Ok [Print_ b], if ra_keep a then s else fs_remove s p)
    | Err k => (Err k, s)
    end
  else (Ok [Println (shown p)], s).

(** The clock of turn [i]: each turn sleeps at least a quarter of a second. *)
Definition ticking (start : Z) (ps : list recv_poll) : Prop :=
  ∀ i p, ps !! i = Some p → start + 250 * Z.of_nat i ≤ rp_now p.

Lemma recv_loop_split deadline before ps r :
  recv_loop deadline before ps = Some r →
  ∃ i p, ps !! i = Some p ∧ recv_turn deadline before p = Some r ∧
    ∀ j q, (j < i)%nat → ps !! j = Some q → recv_turn deadline before q = None.
Proof.
  induction ps as [|p ps IH]; [done|]. cbn [recv_loop]. destruct (recv_turn deadline before p) as [r'|] eqn:E.
  - intros [= ->]. exists 0%nat, p. split_and!; [done|done|]. intros j q Hj. lia.
  - intros (i & q & Hi & Hq & Hb)%IH. exists (S i), q. split_and!; [done|done|].
    intros [|j] x Hj Hx; [by injection Hx as <-|]. apply (Hb j); [lia|done].
Qed.

Lemma recv_loop_none deadline before ps :
  recv_loop deadline before ps = None → ∀ i p, ps !! i = Some p → rp_now p < deadline.
Proof.
  induction ps as [|p ps IH]; [done|]. cbn [recv_loop]. destruct (recv_turn deadline before p) eqn:E; [done|].
  intros Hn [|i] q Hq; [|by eapply IH]. injection Hq as <-. unfold recv_turn in E.
  destruct (deadline <=? rp_now p) eqn:Hd; [done|]. by apply Z.leb_gt.
Qed.

(** (C26) [qdrop recv] waits for a finished new file and never for ever: the file
    it returns was not there when it started, is not hidden, and had the same
    size 300 ms apart, before the deadline; otherwise it times out, not before the
    deadline; and within its timeout of turns (four a second, and one more) it has
    done one of the two. *)
Theorem recv_result a start before ps :
  (∀ l n, choose l = Some n → n ∈ l) →
  match recv_wait a start before ps with
  | Some (Ok n) => ∃ p len, p ∈ ps ∧ n ∈ rp_names p ∧ n ∉ base.filter (λ m, recv_visible m = true) before ∧
      recv_visible n = true ∧ rp_now p < start + 1000 * default 300 (ra_timeout a) ∧
      default 0 (rp_len1 p n) = len ∧ default 1 (rp_len2 p n) = len
  | Some (Err _) => ∃ p, p ∈ ps ∧ start + 1000 * default 300 (ra_timeout a) ≤ rp_now p
  | None => ticking start ps → Z.of_nat (length ps) ≤ 4 * Z.max 0 (default 300 (ra_timeout a))
  end.
Proof.
  intros Hc. unfold recv_wait. set (deadline := start + _).
  destruct (recv_loop deadline before ps) as [r|] eqn:E.
  - apply recv_loop_split in E as (i & p & Hp & Ht & _). apply list_elem_of_lookup_2 in Hp. unfold recv_turn in Ht.
    destruct (deadline <=? rp_now p) eqn:Hd; [injection Ht as <-; exists p; split; [done|by apply Z.leb_le]|].
    apply Z.leb_gt in Hd. destruct (choose _) as [n|] eqn:En; [|done]. apply Hc in En.
    destruct (_ =? _) eqn:El; [|done]. injection Ht as <-. apply Z.eqb_eq in El.
    unfold recv_new in En. apply list_elem_of_filter in En as [[Hv Hb] Hn].
    by exists p, (default 0 (rp_len1 p n)).
  - intros Htick. destruct ps as [|p0 ps'] eqn:Eps; [cbn; lia|]. rewrite <- Eps in *.
    destruct (lookup_lt_is_Some_2 ps (length ps - 1)) as [p Hp]; [rewrite Eps; cbn; lia|].
    pose proof (recv_loop_none _ _ _ E _ _ Hp) as Hlt. pose proof (Htick _ _ Hp) as Hge. subst deadline.
    assert (1 ≤ length ps)%nat by (rewrite Eps; cbn; lia). lia.
Qed.
End recv.

(** ** [cmd_send] *)

Record SendArgs := mkSendArgs { sa_paths : list str; sa_to : option str; sa_name : option str }.

(** [remove_dir_all]. *)
Definition remove_tree (s : fs) (dir : path) : fs :=
  mkFs (base.filter (λ x, ¬ dir `prefix_of` x.1) (names s)) (inodes s) (next_ino s).

(** What the system answers: standard input, [create_dir_all], the bytes that
    [fs::write] gets to disk before it fails, the clock, and for each argument
    whether it is a file and its canonical path. *)
Record send_env := mkSendEnv {
  se_now : Z;
  se_pid : Z;
  se_temp : path;
  se_stdin : result str bytes;
  se_mkdir : option str;
  se_write : option (nat * str);
  se_is_file : str → bool;
  se_canonical : str → result str path;
}.

Definition temp_dir (e : send_env) : path := se_temp e ++ [Normal (lit "qdrop-send-" ++ dec (se_pid e))].

Fixpoint canonical_paths (e : send_env) (ps : list str) : result str (list path) :=
  match ps with
  | [] => Ok []
  | p :: ps =>
      if negb (se_is_file e p) then Err (lit "not a file: " ++ p)
      else match se_canonical e p with
           | Err k => Err k
           | Ok c => match canonical_paths e ps with Ok cs => Ok (c :: cs) | Err k => Err k end
           end
  end.

(** The files to send, and the temporary directory to remove afterwards. *)
Definition send_files (e : send_env) (a : SendArgs) (s : fs) : result str (list path * option path) * fs :=
  if bool_decide (sa_paths a = [lit "-"]) then
    match stdin_name (sa_name a) (se_now e) with
    | None => (Err (lit "--name is not a valid filename"), s)
    | Some name =>
        match se_mkdir e, se_stdin e with
        | Some k, _ => (Err k, s)
        | None, Err k => (Err k, s)
        | None, Ok buf =>
            let p := pjoin (temp_dir e) name in
            match se_write e with
            | Some (n, k) => (Err k, fs_write s p (take n buf))
            | None => (Ok ([p], Some (temp_dir e)), fs_write s p buf)
            end
        end
    end
  else match canonical_paths e (sa_paths a) with Ok ps => (Ok (ps, None), s) | Err k => (Err k, s) end.

Section send.
Context {S : Type}.
(** The daemon behind the socket, given the files as they are meanwhile. *)
Variable ask : fs → S → value → result str value * S.
Variable path_text : path → str.

Definition cmd_send (quiet : bool) (e : send_env) (a : SendArgs) (s : fs) (d : S) : ran * S * fs :=
  match send_files e a s with
  | (Err k, s) => (mkRan [] (Some k), d, s)
  | (Ok (ps, temp), s) =>
      (cmd_send_paths (ask s) path_text quiet ps (sa_to a) d,
       match temp with Some dir => remove_tree s dir | None => s end)
  end.

Lemma fs_stat_remove_tree s dir q :
  fs_stat (remove_tree s dir) q = if decide (dir `prefix_of` q) then None else fs_stat s q.
Proof.
  unfold fs_stat, remove_tree. cbn [names inodes]. case_decide as Hp.
  - by rewrite map_lookup_filter_None_2 by (right; intros x _ Hx; by apply Hx).
  - destruct (names s !! q) as [i|] eqn:E.
    + by rewrite (map_lookup_filter_Some_2 _ _ _ i) by done.
    + by rewrite map_lookup_filter_None_2 by (by left).
Qed.

(** Sending standard input: the daemon is asked to send one file, whose name
    is one path component, while that file holds exactly what was read; and
    whatever the daemon answers, the temporary directory is gone afterwards and
    every other file is as it was. *)
Theorem send_stdin_clean quiet e a s d buf name :
  fs_wf s → sa_paths a = [lit "-"] → stdin_name (sa_name a) (se_now e) = Some name →
  se_mkdir e = None → se_stdin e = Ok buf → se_write e = None →
  ∃ s1, cmd_send quiet e a s d
        = (cmd_send_paths (ask s1) path_text quiet [temp_dir e ++ [Normal name]] (sa_to a) d, remove_tree s1 (temp_dir e)) ∧
    fs_read s1 (temp_dir e ++ [Normal name]) = Ok buf ∧
    ∀ q, fs_stat (remove_tree s1 (temp_dir e)) q = if decide (temp_dir e `prefix_of` q) then None else fs_stat s q.
Proof.
  intros Hs Hp Hn Hm Hi Hw. assert (plain_name name) as Hpl by (by apply safe_blob_name_plain in Hn as [? _]).
  exists (fs_write s (temp_dir e ++ [Normal name]) buf).
  unfold cmd_send, send_files. rewrite Hp, bool_decide_eq_true_2, Hn, Hm, Hi, Hw, pjoin_plain by done.
  split_and!; [done|by apply fs_read_write|]. intros q. rewrite fs_stat_remove_tree. case_decide as Hq; [done|].
  apply fs_stat_write_ne; [done|]. intros ->. apply Hq. by eexists.
Qed.

(** The guard that removes the directory is made after the write: when the
    write fails half way, the part that was written stays. *)
Theorem send_stdin_leaks e a s d quiet buf name n k :
  fs_wf s → sa_paths a = [lit "-"] → stdin_name (sa_name a) (se_now e) = Some name →
  se_mkdir e = None → se_stdin e = Ok buf → se_write e = Some (n, k) →
  let r := cmd_send quiet e a s d in
  failure r.1.1 = Some k ∧ fs_read r.2 (temp_dir e ++ [Normal name]) = Ok (take n buf).
Proof.
  intros Hs Hp Hn Hm Hi Hw r. assert (plain_name name) as Hpl by (by apply safe_blob_name_plain in Hn as [? _]).
  subst r. unfold cmd_send, send_files. rewrite Hp, bool_decide_eq_true_2, Hn, Hm, Hi, Hw, pjoin_plain by done.
  split; [done|]. by apply fs_read_write.
Qed.
End send.

(** ** [cmd_pair] *)

Inductive PairCmdError := NoPeerNamed (name : str) | NotSixDigits | ExchangeFailed (e : PairError).

(** [line] is the line typed for the PIN ([None]: none could be read);
    [exchange] is [run_offer] without a target, else [run_request] with the
    target and the PIN.  The result is what the registry becomes. *)
Definition cmd_pair `{Base64} (ps : Peers) (remove target : option str) (line : option str)
    (exchange : option (str * str) → result PairError Paired) : result PairCmdError Peers :=
  match remove, target with
  | Some n, _ => match cmd_unpair ps n with Some ps' => Ok ps' | None => Err (NoPeerNamed n) end
  | None, None => map_err ExchangeFailed (cmd_pair_record ps None (exchange None))
  | None, Some t =>
      match line ≫= prompt_pin with
      | None => Err NotSixDigits
      | Some l => map_err ExchangeFailed (cmd_pair_record ps (Some t) (exchange (Some (t, trim l))))
      end
  end.

Lemma digits_trim s : s ≠ [] → forallb is_ascii_digit s = true → trim (s ++ [Byte.x0a]) = s.
Proof.
  intros Hne Hs. apply trim_newline; [done|]. apply forallb_forall. intros b Hb.
  rewrite forallb_forall in Hs. specialize (Hs b Hb). unfold is_ascii_hexdigit. by rewrite Hs.
Qed.

(** A PIN that was shown can be typed: whatever PIN the other device drew, the
    line with it is accepted and the exchange gets exactly that PIN, so the two
    sides run with equal passwords; and a line that is not six digits after
    trimming starts no exchange and leaves the registry alone. *)
Theorem pin_reaches_exchange `{Base64} ps t n line exchange :
  cmd_pair ps None (Some t) (Some (format_pin n ++ [Byte.x0a])) exchange
  = map_err ExchangeFailed (cmd_pair_record ps (Some t) (exchange (Some (t, format_pin n)))) ∧
  (line ≫= prompt_pin = None → cmd_pair ps None (Some t) line exchange = Err NotSixDigits).
Proof.
  split; [|unfold cmd_pair; by intros ->].
  assert (forallb is_ascii_digit (format_pin n) = true) as Hd.
  { apply forallb_forall. intros b Hb%list_elem_of_In. by eapply dec_pad_digits. }
  assert (length (format_pin n) = 6%nat) as Hl by apply length_dec_pad.
  assert (trim (format_pin n ++ [Byte.x0a]) = format_pin n) as Ht by (apply digits_trim; [by intros E; rewrite E in Hl|done]).
  unfold cmd_pair. cbn [mbind option_bind]. unfold prompt_pin. rewrite Ht, Hl. cbn [Nat.eqb andb].
  assert (is_ascii (format_pin n) = true) as Ha.
  { apply forallb_forall. intros b Hb. rewrite forallb_forall in Hd. specialize (Hd b Hb).
    unfold is_ascii_digit in Hd. lia. }
  rewrite chars_ascii by done.
  assert (forallb (λ c, (48 <=? c) && (c <=? 57)) (map bval (format_pin n)) = true) as ->.
  { apply forallb_forall. intros c (b & <- & Hb)%in_map_iff. rewrite forallb_forall in Hd. specialize (Hd b Hb).
    unfold is_ascii_digit in Hd. lia. }
  by rewrite Ht.
Qed.

(** ** [cmd_daemon] *)

(** The program and its arguments: the [qdropd] next to this executable, if it
    is there, else the one on the search path. *)
Definition cmd_daemon (exe : path) (exists_ : path → bool) (verbose : bool) (port : option Z)
    : (path + str) * list str :=
  let program := match parent exe with
                 | Some dir => let p := dir ++ [Normal (lit "qdropd")] in
                               if exists_ p then inl p else inr (lit "qdropd")
                 | None => inr (lit "qdropd")
                 end in
  (program, (if verbose then [lit "--verbose"] else [])
            ++ match port with Some p => [lit "--port"; dec p] | None => [] end).

(** ** Witnesses *)

Definition first_of (l : list str) : option str := head l.
Definition sample_polls : list recv_poll :=
  [mkPoll 0 [lit "old"; lit ".qdrop-recv-1.part"] (λ _, None) (λ _, None);
   mkPoll 300 [lit "old"; lit "new.txt"] (λ _, Some 3) (λ _, Some 5);
   mkPoll 900 [lit "old"; lit "new.txt"] (λ _, Some 5) (λ _, Some 5)].

Lemma recv_result_witness :
  recv_wait first_of (mkRecvArgs false false None) 0 [lit "old"] sample_polls = Some (Ok (lit "new.txt")) ∧
  ∃ p, p ∈ sample_polls ∧ rp_now p < 300000.
Proof.
  assert (∀ l n, first_of l = Some n → n ∈ l) as Hc by (intros [|x l] n; [done|intros [= ->]; left]).
  pose proof (recv_result first_of (mkRecvArgs false false None) 0 [lit "old"] sample_polls Hc) as H.
  assert (recv_wait first_of (mkRecvArgs false false None) 0 [lit "old"] sample_polls = Some (Ok (lit "new.txt"))) as E
    by (vm_compute; reflexivity).
  split; [exact E|]. rewrite E in H. destruct H as (p & _ & Hp & _ & _ & _ & Hn & _).
  exists p. split; [exact Hp|exact Hn].
Defined.

Definition sample_send_env : send_env :=
  mkSendEnv 1000 7 [RootDir; Normal (lit "tmp")] (Ok (lit "data")) None None (λ _, false) (λ _, Err (lit "gone")).
Definition deaf_ask (s : fs) (d : ()) (v : value) : result str value * () := (Err (lit "no daemon"), d).

Lemma send_stdin_clean_witness :
  let r := cmd_send deaf_ask sample_path_text true sample_send_env (mkSendArgs [lit "-"] None (Some (lit "a.txt")))
             sample_fs () in
  failure r.1.1 = Some (lit "no daemon") ∧
  fs_stat r.2 (temp_dir sample_send_env ++ [Normal (lit "a.txt")]) = None.
Proof.
  destruct (send_stdin_clean deaf_ask sample_path_text true sample_send_env
    (mkSendArgs [lit "-"] None (Some (lit "a.txt"))) sample_fs () (lit "data") (lit "a.txt"))
    as (s1 & E & _ & H); [apply sample_fs_wf|done|by vm_compute|done..|].
  cbv zeta. rewrite E. split; [reflexivity|]. rewrite H. by rewrite decide_True by (by eexists).
Defined.

Lemma send_stdin_leaks_witness :
  let r := cmd_send deaf_ask sample_path_text true
             (mkSendEnv 1000 7 [RootDir; Normal (lit "tmp")] (Ok (lit "data")) None (Some (2%nat, lit "disk full")) (λ _, false)
                (λ _, Err (lit "gone"))) (mkSendArgs [lit "-"] None (Some (lit "a.txt"))) sample_fs () in
  fs_read r.2 (temp_dir sample_send_env ++ [Normal (lit "a.txt")]) = Ok (lit "da").
Proof.
  apply (send_stdin_leaks deaf_ask sample_path_text
    (mkSendEnv 1000 7 [RootDir; Normal (lit "tmp")] (Ok (lit "data")) None (Some (2%nat, lit "disk full")) (λ _, false)
                (λ _, Err (lit "gone"))) (mkSendArgs [lit "-"] None (Some (lit "a.txt"))) sample_fs () true (lit "data")
    (lit "a.txt") 2 (lit "disk full")); [apply sample_fs_wf|done|by vm_compute|done..].
Defined.

Lemma pin_reaches_exchange_witness :
  @cmd_pair hex_b64 two_peers None (Some (lit "laptop")) (Some (lit "12345")) (λ _, Err PairOther) = Err NotSixDigits.
Proof. apply (@pin_reaches_exchange hex_b64 two_peers (lit "laptop") 0 (Some (lit "12345"))). by vm_compute. Defined.
