(* ===== verification/Doctor.v ===== *)
(** * Doctor: the diagnosis of [qdrop doctor]

    [crates/qdrop-core/src/doctor.rs] and [cmd_doctor] of
    [crates/qdrop/src/main.rs]: the checks in their order, from the files, the
    answer of the daemon on the control socket ([Client]), the mDNS services
    seen and the probes of the port and of the download directory, whose
    results, like the wording of errors, are arguments.

    The theorems: what makes the command fail, and nothing else does; the
    check of each paired device, against a daemon with the same registry; the
    devices seen are those resolved, once each. *)
From S2P Require Import Prelude Text Crypto Proto Frame Store Samples Net Peers Config Bus FileXfer Trust Auth History Clipboard Sync Pairing State Quote Control Cli Client.

Inductive DoctorStatus := DOk | DWarn | DFail.
#[export] Instance DoctorStatus_eq_dec : EqDecision DoctorStatus.
Proof. solve_decision. Defined.

Record DoctorCheck := mkCheck { ck_name : str; ck_status : DoctorStatus; ck_detail : str; ck_fix : option str }.

Definition check_ok (name detail : str) : DoctorCheck := mkCheck name DOk detail None.
Definition check_warn (name detail fix_ : str) : DoctorCheck := mkCheck name DWarn detail (Some fix_).
Definition check_fail (name detail fix_ : str) : DoctorCheck := mkCheck name DFail detail (Some fix_).

(** ** [browse_mdns] *)

(** The browse until its deadline: the events received in time, then the timeout
    or the end of the channel. *)
Definition browse_mdns_step (ids : list str) (ev : mdns_event) : list str :=
  match ev with
  | MdnsResolved info =>
      match svc_txt info (lit "id") with
      | Some id => if bool_decide (id ∈ ids) then ids else ids ++ [id]
      | None => ids
      end
  | _ => ids
  end.
(** [daemon], [browse]: whether mDNS starts; [own_id] is
    [device::load_or_create]. *)
Definition browse_mdns (daemon browse : bool) (own_id : option str) (evs : list mdns_event)
    : list str * option str :=
  if daemon && browse then (foldl browse_mdns_step [] evs, own_id) else ([], own_id).

(** ** [run] *)

Section doctor.
Context `{Serde Config, Serde Peers, KeyPairs, Hashes}.

(** What the machine answers. *)
Record machine := mkMachine {
  m_env : env;
  m_hostname : option bytes;                 (* the [hostname] command *)
  m_fs : fs;
  m_status : result str value;               (* the answer to [status] *)
  m_bind : Z → result str ();                (* [TcpListener::bind] *)
  m_services : list str;                     (* [browse_mdns] *)
  m_own_id : option str;
  m_probe : str → result str ();             (* create the directory, write the probe *)
  m_pid : Z;
  m_fresh : KeyPair;
}.

(** The wording of errors, of an unset home directory ([None]) among them. *)
Variable config_error : option FileError → str.
Variable identity_error : option IdentityError → str.
Variable no_downloads : str.

Definition config_load (m : machine) : result (option FileError) Config :=
  match config_file (m_env m) with
  | None => Err None
  | Some p => map_err Some (config_load_from (m_env m) (m_hostname m) (m_fs m) (components p))
  end.
Definition peers_or_default (m : machine) : Peers :=
  match peers_file (m_env m) with
  | None => []
  | Some p => match load_from (m_fs m) (components p) with Ok ps => ps | Err _ => [] end
  end.

Definition config_or_default (m : machine) : Config :=
  match config_load m with Ok c => c | Err _ => Config_default (m_env m) (m_hostname m) end.

Definition config_check (m : machine) : DoctorCheck :=
  match config_load m with
  | Ok c => check_ok (lit "config") (lit "device " ++ q ++ device_name c ++ q ++ lit ", port " ++ dec (cfg_port c))
  | Err e => check_fail (lit "config") (config_error e) (lit "fix the syntax error in ~/.config/qdrop/config.toml")
  end.

Definition identity_check (m : machine) : DoctorCheck :=
  match identity_file (m_env m) with
  | Some p =>
      if fs_exists (m_fs m) (components p) then
        match (identity_load_or_create_at (m_pid m) (m_fs m) (components p) (m_fresh m)).1 with
        | Ok i => check_ok (lit "identity") (lit "fingerprint " ++ fingerprint i)
        | Err e => check_fail (lit "identity") (identity_error (Some e))
                     (lit "the key file is corrupt — stop the daemon, delete identity.pem, re-pair")
        end
      else check_warn (lit "identity") (lit "no key yet") (lit "it is created on the first `qdropd` start")
  | None => check_fail (lit "identity") (identity_error None) (lit "check $HOME / $XDG_CONFIG_HOME")
  end.

Definition daemon_check (m : machine) : DoctorCheck :=
  match m_status m with
  | Ok s => check_ok (lit "daemon") (lit "running, version " ++ field as_str s (lit "version") (lit "?"))
  | Err _ => check_fail (lit "daemon") (lit "not reachable on the control socket")
               (lit "start it: `qdropd` (or `systemctl --user start qdropd` / launchd)")
  end.

(** [as u16] wraps. *)
Definition daemon_port (m : machine) : option Z :=
  match m_status m with
  | Ok s => (λ p, p mod 65536) <$> (get s (lit "port") ≫= as_u64)
  | Err _ => None
  end.
Definition port_check (m : machine) : DoctorCheck :=
  let port := default (cfg_port (config_or_default m)) (daemon_port m) in
  match daemon_port m with
  | Some _ => check_ok (lit "port") (lit "daemon is listening on TCP " ++ dec port)
  | None =>
      match m_bind m port with
      | Ok _ => check_ok (lit "port") (lit "TCP " ++ dec port ++ lit " is bindable")
      | Err e => check_fail (lit "port") (lit "cannot bind TCP " ++ dec port ++ lit ": " ++ e)
                   (lit "another process holds the port — change `port` in config.toml")
      end
  end.

Definition mdns_check (m : machine) : DoctorCheck :=
  match m_services m with
  | [] =>
      if is_ok (m_status m) then
        check_warn (lit "mDNS") (lit "browsed for _qdrop._tcp and saw nothing (not even this daemon)")
          (lit "multicast may be blocked — check the firewall / that Wi-Fi client isolation is off")
      else check_warn (lit "mDNS") (lit "no _qdrop._tcp services on the network")
             (lit "start `qdropd` on this and the other machine")
  | l => check_ok (lit "mDNS") (dec (zlen l) ++ lit " _qdrop._tcp service(s) visible")
  end.

(** The ids of the rows that are online in the daemon's answer. *)
Definition online_ids (m : machine) : list str :=
  match m_status m with
  | Ok s => omap (λ p, get p (lit "device_id") ≫= as_str) (base.filter (λ p, row_is_online p = true) (peers_of s))
  | Err _ => []
  end.

Definition peer_check (m : machine) (p : Peer) : option DoctorCheck :=
  let name := lit "peer:" ++ peer_name p in
  if bool_decide (peer_device_id p ∈ online_ids m) then Some (check_ok name (lit "connected"))
  else if bool_decide (peer_device_id p ∈ m_services m) then
    Some (check_warn name (lit "discovered but not connected")
            (lit "check both daemons' logs; keys may not match (re-pair) or clocks may be skewed"))
  else if bool_decide (Some (peer_device_id p) = m_own_id m) then None
  else Some (check_warn name (lit "not seen on the network")
               (lit "is its daemon running and on the same LAN? (or set a static endpoint — M11)")).

Definition downloads_check (m : machine) : DoctorCheck :=
  match downloads_dir (m_env m) with
  | Some dir =>
      match m_probe m dir with
      | Ok _ => check_ok (lit "downloads") (dir ++ lit " is writable")
      | Err e => check_fail (lit "downloads") (lit "cannot write to " ++ dir ++ lit ": " ++ e)
                   (lit "fix permissions or set QDROP_DOWNLOAD_DIR")
      end
  | None => check_fail (lit "downloads") no_downloads (lit "set QDROP_DOWNLOAD_DIR")
  end.

Definition doctor_run (m : machine) : list DoctorCheck :=
  [config_check m; identity_check m; daemon_check m; port_check m; mdns_check m]
  ++ omap (peer_check m) (peers_or_default m) ++ [downloads_check m].

(** [cmd_doctor] *)

Definition esc (code text : str) : str := Byte.x1b :: lit "[" ++ code ++ lit "m" ++ text ++ Byte.x1b :: lit "[0m".
Definition check_lines (c : DoctorCheck) : list output :=
  let mark := match ck_status c with
              | DOk => esc (lit "32") (lit "✓") | DWarn => esc (lit "33") (lit "!") | DFail => esc (lit "31") (lit "✗")
              end in
  Println (mark ++ lit " " ++ pad 16 (ck_name c) ++ lit " " ++ ck_detail c)
  :: match ck_fix c with
     | Some f => [Println (lit "  " ++ esc (lit "2") (lit "→ " ++ f))]
     | None => []
     end.
Definition status_word (s : DoctorStatus) : str :=
  match s with DOk => lit "ok" | DWarn => lit "warn" | DFail => lit "fail" end.
Definition check_value (c : DoctorCheck) : value :=
  JObj ([(lit "name", JStr (ck_name c)); (lit "status", JStr (status_word (ck_status c)));
         (lit "detail", JStr (ck_detail c))]
        ++ match ck_fix c with Some f => [(lit "fix", JStr f)] | None => [] end).

Definition cmd_doctor (pretty : value → str) (json : bool) (m : machine) : ran :=
  let checks := doctor_run m in
  mkRan (if json then [Println (pretty (JArr (map check_value checks)))] else concat (map check_lines checks))
    (if existsb (λ c, bool_decide (ck_status c = DFail)) checks then Some (lit "one or more checks failed") else None).

(** ** What the command reports *)

Lemma peer_check_warns m p c : peer_check m p = Some c → ck_status c ≠ DFail ∧ ck_name c = lit "peer:" ++ peer_name p.
Proof. unfold peer_check. repeat case_bool_decide; by intros [= <-]. Qed.

(** When each check fails. *)
Definition is_fail (c : DoctorCheck) : bool := bool_decide (ck_status c = DFail).

Lemma mdns_never_fails m : is_fail (mdns_check m) = false.
Proof. unfold mdns_check. destruct (m_services m); [|done]. by destruct (m_status m). Qed.
Lemma config_fails m : is_fail (config_check m) = negb (is_ok (config_load m)).
Proof. unfold config_check. by destruct (config_load m). Qed.
Lemma daemon_fails m : is_fail (daemon_check m) = negb (is_ok (m_status m)).
Proof. unfold daemon_check. by destruct (m_status m). Qed.

Lemma identity_fails m :
  is_fail (identity_check m) = false ↔
  ∃ p, identity_file (m_env m) = Some p ∧
    (fs_exists (m_fs m) (components p) = true →
     is_ok (identity_load_or_create_at (m_pid m) (m_fs m) (components p) (m_fresh m)).1 = true).
Proof.
  unfold identity_check. destruct (identity_file (m_env m)) as [p|]; [|by split; [|intros (? & ? & _)]].
  destruct (fs_exists (m_fs m) (components p)) eqn:Ef; [|by split; [exists p; rewrite Ef|]].
  destruct (identity_load_or_create_at _ _ _ _).1 eqn:Ei; split; try done.
  - intros _. exists p. by rewrite Ei.
  - intros (p' & [= <-] & Hr). specialize (Hr Ef). by rewrite Ei in Hr.
Qed.

Lemma port_fails m :
  is_fail (port_check m) = false ↔
  (daemon_port m = None → is_ok (m_bind m (cfg_port (config_or_default m))) = true).
Proof.
  unfold port_check. destruct (daemon_port m) as [pt|]; cbn [default]; [by split|].
  destruct (m_bind m (cfg_port (config_or_default m))); split; try done. intros Hr. by specialize (Hr eq_refl).
Qed.

Lemma downloads_fails m :
  is_fail (downloads_check m) = false ↔ ∃ dir, downloads_dir (m_env m) = Some dir ∧ is_ok (m_probe m dir) = true.
Proof.
  unfold downloads_check. destruct (downloads_dir (m_env m)) as [dir|]; [|by split; [|intros (? & ? & _)]].
  destruct (m_probe m dir) eqn:E; split; try done.
  - intros _. exists dir. by rewrite E.
  - intros (dir' & [= <-] & Hr). by rewrite E in Hr.
Qed.

Lemma peers_never_fail m ps : existsb is_fail (omap (peer_check m) ps) = false.
Proof.
  apply not_true_is_false. intros (c & Hc & Hb)%existsb_exists.
  apply list_elem_of_In, list_elem_of_omap in Hc as (p & _ & Hc).
  apply bool_decide_eq_true in Hb. by destruct (peer_check_warns m p c Hc).
Qed.

(** [qdrop doctor] fails for five reasons only: the configuration or the key
    cannot be read, the daemon does not answer, the port is not the daemon's and
    cannot be bound, or the download directory cannot be written.  Peers that
    are missing, silent multicast and a key not yet created are warnings. *)
Theorem doctor_verdict pretty json m :
  succeeded (cmd_doctor pretty json m) = true ↔
  is_ok (config_load m) = true ∧
  (∃ p, identity_file (m_env m) = Some p ∧
     (fs_exists (m_fs m) (components p) = true →
      is_ok (identity_load_or_create_at (m_pid m) (m_fs m) (components p) (m_fresh m)).1 = true)) ∧
  is_ok (m_status m) = true ∧
  (daemon_port m = None → is_ok (m_bind m (cfg_port (config_or_default m))) = true) ∧
  (∃ dir, downloads_dir (m_env m) = Some dir ∧ is_ok (m_probe m dir) = true).
Proof.
  unfold succeeded, cmd_doctor. cbn [failure]. fold is_fail. unfold doctor_run.
  rewrite !existsb_app, peers_never_fail. cbn [existsb].
  rewrite mdns_never_fails, config_fails, daemon_fails, <- identity_fails, <- port_fails, <- downloads_fails.
  destruct (is_fail (identity_check m)), (is_fail (port_check m)), (is_fail (downloads_check m)),
    (is_ok (config_load m)), (is_ok (m_status m)); split; naive_solver.
Qed.

(** The daemon's answer as the doctor reads it. *)
Lemma online_ids_status m version wording port pa im cs rows v id :
  response_value version wording (SStatus port pa im cs rows) = Some v → m_status m = Ok v →
  id ∈ online_ids m ↔ ∃ r, r ∈ rows ∧ row_online r = true ∧ row_id r = id.
Proof.
  intros Hv Hm. unfold online_ids. rewrite Hm, (proj1 (peers_of_rows _ _ _ _ _ _ _ _ Hv)).
  rewrite list_elem_of_omap. split.
  - intros (x & [Hon Hx]%list_elem_of_filter & Hid). apply list_elem_of_fmap in Hx as ([nm i on si se] & -> & Hr).
    change (row_is_online _) with on in Hon. change (Some i = Some id) in Hid. injection Hid as <-. eauto.
  - intros ([nm i on si se] & Hr & Hon & Hid). cbn [row_online row_id] in *. subst.
    exists (row_value (mkRow nm id true si se)). split; [|done]. apply list_elem_of_filter. split; [done|].
    apply list_elem_of_fmap. eauto.
Qed.

(** (C25) Against a running daemon that reads the same registry, the doctor is
    right about every peer: the own device not being paired with itself, there is
    one check per paired device, in the order of the registry and under its name,
    never a failure, and it says connected exactly when the daemon has a channel
    to that device; the daemon and port checks pass, and the latter names the
    daemon's port. *)
Theorem doctor_matches_daemon version wording own_id has_clip port mine st one text d m v ps :
  d_registry d = Some ps → peers_or_default m = ps → 0 ≤ port < 65536 →
  response_value version wording (control_dispatch own_id has_clip port mine st one text d Status).1 = Some v →
  m_status m = Ok v →
  Forall (λ p, Some (peer_device_id p) ≠ m_own_id m) ps →
  daemon_check m = check_ok (lit "daemon") (lit "running, version " ++ version) ∧
  port_check m = check_ok (lit "port") (lit "daemon is listening on TCP " ++ dec port) ∧
  Forall2 (λ p c, ck_name c = lit "peer:" ++ peer_name p ∧ ck_status c ≠ DFail ∧
             (ck_status c = DOk ↔ is_Some (senders (d_bus d) !! peer_device_id p)))
    ps (omap (peer_check m) (peers_or_default m)).
Proof.
  intros Hr Hps Hport Hv Hm Hown. cbn [control_dispatch fst] in Hv. unfold status_json in Hv.
  pose proof (λ id, online_ids_status m _ _ _ _ _ _ _ v id Hv Hm) as Hon. rewrite Hr in Hon. cbn [default] in Hon.
  split_and!.
  - unfold daemon_check. rewrite Hm. by injection Hv as <-.
  - unfold port_check, daemon_port. rewrite Hm. injection Hv as <-.
    change (get _ (lit "port")) with (Some (JNum port)). cbn [mbind option_bind as_u64].
    unfold u64_max. rewrite !(proj2 (Z.leb_le _ _)) by lia. cbn. by rewrite Z.mod_small.
  - rewrite Hps. assert (∀ p, p ∈ ps → peer_device_id p ∈ online_ids m ↔ is_Some (senders (d_bus d) !! peer_device_id p)) as Hc.
    { intros p Hp. rewrite Hon, <- connected_ids_spec. split.
      - intros (r & (q' & -> & Hq)%list_elem_of_fmap & Hb & Hid). cbn [row_online row_id] in *.
        rewrite <- Hid. by apply bool_decide_eq_true in Hb.
      - intros Hc. eexists. split; [apply list_elem_of_fmap; by exists p|]. split; [|done]. by apply bool_decide_eq_true. }
    clear Hps Hr Hv Hon. induction Hown as [|p ps Hp _ IH]; [by constructor|]. cbn [omap list_omap].
    pose proof (Hc p (list_elem_of_here p ps)) as Hcp.
    assert (∃ c, peer_check m p = Some c ∧ (ck_status c = DOk ↔ peer_device_id p ∈ online_ids m)) as (c & Ec & Hs).
    { unfold peer_check. case_bool_decide; [by eexists|]. case_bool_decide; [by eexists|].
      rewrite bool_decide_eq_false_2 by done. by eexists. }
    rewrite Ec. destruct (peer_check_warns m p c Ec). constructor; [by rewrite <- Hcp|].
    apply IH. intros p' Hp'. apply Hc. by right.
Qed.

(** ** The services seen *)

Lemma browse_step_seen ids evs :
  NoDup ids → NoDup (foldl browse_mdns_step ids evs) ∧
  ∀ id, id ∈ foldl browse_mdns_step ids evs ↔
        id ∈ ids ∨ ∃ info, MdnsResolved info ∈ evs ∧ svc_txt info (lit "id") = Some id.
Proof.
  revert ids. induction evs as [|ev evs IH]; intros ids Hn; cbn [foldl].
  { split; [done|]. intros id. split; [by left|]. by intros [?|(? & ?%not_elem_of_nil & _)]. }
  assert (NoDup (browse_mdns_step ids ev) ∧
    ∀ id, id ∈ browse_mdns_step ids ev ↔ id ∈ ids ∨ ∃ info, ev = MdnsResolved info ∧ svc_txt info (lit "id") = Some id)
    as [Hn' Hs].
  { destruct ev as [info| |]; cbn [browse_mdns_step]; [|split; [done|naive_solver]..].
    destruct (svc_txt info (lit "id")) as [i|] eqn:Ei; [|split; [done|naive_solver]].
    case_bool_decide as Hi; [split; [done|naive_solver]|].
    split; [apply list.NoDup_app; split_and!; [done| |apply NoDup_singleton]; by intros x Hx ->%list_elem_of_singleton|].
    intros id. rewrite elem_of_app, list_elem_of_singleton. naive_solver. }
  destruct (IH _ Hn') as [Hd Hin]. split; [done|]. intros id. rewrite Hin, Hs. setoid_rewrite elem_of_cons. naive_solver.
Qed.

(** The browse collects exactly the ids that services announced before the
    deadline, each once, however often a service is resolved; without mDNS it
    sees nothing. *)
Theorem browse_exact daemon browse own evs :
  let r := browse_mdns daemon browse own evs in
  r.2 = own ∧ NoDup r.1 ∧
  ∀ id, id ∈ r.1 ↔ daemon && browse = true ∧ ∃ info, MdnsResolved info ∈ evs ∧ svc_txt info (lit "id") = Some id.
Proof.
  unfold browse_mdns. destruct (daemon && browse); cbn [fst snd].
  - destruct (browse_step_seen [] evs (NoDup_nil_2 : NoDup (@nil str))) as [Hd Hin]. split_and!; [done|done|].
    intros id. rewrite Hin. split; [|by intros [_ ?]; right]. by intros [?%not_elem_of_nil|?].
  - split_and!; [done|apply NoDup_nil_2|]. intros id. split; [by intros ?%not_elem_of_nil|by intros []].
Qed.
End doctor.

(** ** Witnesses *)

#[local] Existing Instance sample_hashes.
#[local] Existing Instance entries_serde.
#[local] Existing Instance peers_serde.
#[local] Existing Instance sample_keys.

(** The sample daemon's registry, served on its socket. *)
Definition sample_registry_peers : Peers := default [] (d_registry sample_daemon).
Definition sample_peers_path : path := components (default [] (peers_file sample_home)).
Definition sample_answer : value :=
  default JNull (response_value (lit "0.1") plain_wording
    (control_dispatch (lit "me") true 47654 sample_info no_state never_sent None sample_daemon Status).1).
#[local] Instance no_config_serde : Serde Config := {| serialize _ := None; deserialize _ := None |}.
Definition sample_machine : machine :=
  mkMachine sample_home None
    (fs_write sample_fs sample_peers_path (default [] (serialize sample_registry_peers)))
    (Ok sample_answer) (λ _, Err (lit "in use")) [lit "me"; lit "b"] (Some (lit "me")) (λ _, Ok ()) 7 true.

Lemma doctor_matches_daemon_witness :
  port_check sample_machine = check_ok (lit "port") (lit "daemon is listening on TCP 47654") ∧
  length (omap (peer_check sample_machine) sample_registry_peers) = 2%nat.
Proof.
  destruct (doctor_matches_daemon (lit "0.1") plain_wording (lit "me") true 47654 sample_info no_state never_sent None
    sample_daemon sample_machine sample_answer sample_registry_peers) as (_ & Hp & Hf).
  - reflexivity.
  - vm_compute. reflexivity.
  - lia.
  - vm_compute. reflexivity.
  - reflexivity.
  - repeat constructor; by vm_compute.
  - split; [exact Hp|].
    assert (peers_or_default sample_machine = sample_registry_peers) as E by (vm_compute; reflexivity).
    rewrite E in Hf. exact (eq_sym (list.Forall2_length _ _ _ Hf)).
Defined.
