(* ===== verification/Main.v ===== *)
(** * Main: the program [qdrop]

    [run] of [crates/qdrop/src/main.rs] on the arguments of
    [crates/qdrop/src/cli.rs]: the configuration that is read first, the choice
    of the command, and the commands with the files they read and write
    ([Cli], [Client], [Commands], [Doctor] have what each does with them).  What
    the machine gives is a record; the daemon behind the socket is a function of
    the files as they are.

    The theorems: no command writes a file other than those it is meant to;
    what pairing tells the peer is what the daemon started later presents;
    unpairing is on the disk; and with a configuration that does not load no
    command runs, the diagnosis of the configuration included. *)
From S2P Require Import Prelude Text Crypto Proto Frame Store Samples Net Peers Trust Connection Config Bus FileXfer Transport Lifecycle Auth History Clipboard Sync Pairing State Quote Control Daemon Start Cli Client Commands Doctor.

(** ** [cli.rs] *)

Record DoctorArgs := mkDoctorArgs { doc_json : bool }.
Record AuthArgs := mkAuthArgs { au_name : option str; au_remove : option str; au_mutual : bool }.
Record StatusArgs := mkStatusArgs { sta_json : bool; sta_waybar : bool }.
Record PairArgs := mkPairArgs { pa_target : option str; pa_remove : option str }.
Record PeersArgs := mkPeersArgs { pe_json : bool }.
Record OpenArgs := mkOpenArgs { op_url : str; op_to : option str }.
Record DaemonArgs := mkDaemonArgs { da_port : option Z }.

Inductive Command :=
| CPair (a : PairArgs)
| CPeers (a : PeersArgs)
| CSend (a : SendArgs)
| CRecv (a : RecvArgs)
| CPaste
| CCopy
| COpen (a : OpenArgs)
| CClip (a : ClipArgs)
| CAuth (a : AuthArgs)
| CStatus (a : StatusArgs)
| CDoctor (a : DoctorArgs)
| CDaemon (a : DaemonArgs).

Record CliArgs := mkCli { cli_verbose : bool; cli_quiet : bool; command : Command }.

(** Why a command fails, where it is not the daemon's answer. *)
Inductive ClientError :=
| EConfig (e : option FileError)
| ELogging
| EIdentity (e : option IdentityError)
| EDevice (e : option DeviceError)
| ERegistry (e : option FileError)
| EPairing (e : PairError)
| ENotSixDigits (typed : option str)
| ENoPeerNamed (name : str)
| ENoPeerMatching (name : str)
| EStdin
| ENoDownloads
| ERead (k : ErrorKind)
| EUrl (url : str)
| EExec.

(** How the process ends: it exits, it is replaced by another program, or it
    still waits. *)
Inductive ending := Exits (r : ran) | Becomes (program : path + str) (args : list str) | StillWaits.

Section main.
Context `{KeyPairs, Base64, Hashes, Serde Config, Serde Peers, Serde DaemonState}.
Context {S : Type}.
(** The daemon behind the socket, given the files as they are. *)
Variable ask : fs → S → value → result str value * S.
Variable path_text : path → str.
Variable pretty : value → str.
Variable wording : ClientError → str.
(** [char::is_alphanumeric]. *)
Variable alphanumeric : Z → bool.

Record client_host := mkClientHost {
  ch_env : env;
  ch_hostname : option bytes;
  ch_rust_log : option str;
  ch_logging : str → bool;
  ch_now : Z;                               (* seconds *)
  ch_pid : Z;
  ch_rnd : bytes;                           (* 16 random bytes *)
  ch_fresh : KeyPair;                       (* a newly generated key pair *)
  ch_stdin : option str;                    (* [None]: not readable, or not UTF-8 *)
  ch_line : option str;                     (* the line typed for the PIN *)
  ch_offer : LocalInfo → option str * result PairError Paired;     (* the PIN announced *)
  ch_request : LocalInfo → str → str → result PairError Paired;    (* target, PIN *)
  ch_send : send_env;
  ch_before : list str;                     (* the files of the download directory *)
  ch_start : Z;                             (* milliseconds *)
  ch_polls : list recv_poll;
  ch_choose : list str → option str;
  ch_arrived : fs → fs;                     (* what has arrived while [recv] waits *)
  ch_bind : Z → result str ();
  ch_services : list str;                   (* the services mDNS shows *)
  ch_probe : str → result str ();           (* create the directory, write the probe *)
  ch_probe_made : bool;                     (* a probe that fails has made its file *)
  ch_exe : path;
  ch_exists : path → bool;
  ch_exec : path + str → bool;              (* [exec] finds the program *)
}.

Definition failed (e : ClientError) : ran := mkRan [] (Some (wording e)).

(** [Peers::load] and [save]. *)
Definition peers_load (h : client_host) (s : fs) : result ClientError Peers :=
  match peers_file (ch_env h) with
  | None => Err (ERegistry None)
  | Some p => map_err (ERegistry ∘ Some) (load_from s (components p))
  end.
Definition peers_save (h : client_host) (s : fs) (ps : Peers) : result ClientError fs :=
  match peers_file (ch_env h) with
  | None => Err (ERegistry None)
  | Some p => map_err (ERegistry ∘ Some) (save_to (ch_pid h) s ps (components p))
  end.

(** Write the registry, then say so. *)
Definition saving (h : client_host) (s : fs) (ps : Peers) (lines : list output) : ran * fs :=
  match peers_save h s ps with
  | Ok s' => (mkRan lines None, s')
  | Err e => (failed e, s)
  end.

Definition run_unpair (h : client_host) (name : str) (s : fs) : ran * fs :=
  match peers_load h s with
  | Err e => (failed e, s)
  | Ok ps => match cmd_unpair ps name with
             | Some ps' => saving h s ps' [Println (lit "Unpaired " ++ name ++ lit ".")]
             | None => (failed (ENoPeerNamed name), s)
             end
  end.

(** The printed part of an exchange goes before what follows it. *)
Definition after (lines : list output) (r : ran * fs) : ran * fs :=
  (mkRan (lines ++ printed r.1) (failure r.1), r.2).

Definition offer_lines (device_name pin : str) : list output :=
  [Println (lit "Pairing PIN: " ++ pin);
   Println (lit "On the other device, run:  qdrop pair " ++ shell_quote alphanumeric device_name);
   Println (lit "Waiting up to 60s for it to connect...")].

(** The exchange of [cmd_pair]: what it prints, and whom it found. *)
Definition pair_exchange (h : client_host) (c : Config) (local : LocalInfo) (target : option str)
    : list output * result ClientError Paired :=
  match target with
  | None =>
      let '(pin, r) := ch_offer h local in
      (match pin with Some p => offer_lines (device_name c) p | None => [] end, map_err EPairing r)
  | Some t =>
      ([Print_ (lit "Enter the 6-digit PIN shown on " ++ t ++ lit ": ")],
       match ch_line h ≫= prompt_pin with
       | None => Err (ENotSixDigits (ch_line h))
       | Some line => map_err EPairing (ch_request h local t (trim line))
       end)
  end.

Definition pair_record (h : client_host) (target : option str) (paired : Paired) (s : fs) : ran * fs :=
  match peers_load h s with
  | Err e => (failed e, s)
  | Ok ps =>
      saving h s (record_peer ps paired (target_address <$> target))
        [Println (lit "Paired with " ++ paired_name paired ++ lit " (" ++ fingerprint_of (paired_key paired) ++ lit ")")]
  end.

(** What the process is to the other device: the id and the key it finds or
    makes. *)
Definition pair_local (h : client_host) (c : Config) (s : fs) : result ClientError LocalInfo * fs :=
  match Identity_load_or_create (ch_env h) (ch_pid h) s (ch_fresh h) with
  | (Err e, s) => (Err (EIdentity e), s)
  | (Ok i, s) =>
      match device_load_or_create (ch_env h) s (ch_rnd h) with
      | (Err e, s) => (Err (EDevice e), s)
      | (Ok id, s) => (Ok (LocalInfo_new (public_key i) id (device_name c)), s)
      end
  end.

Definition run_pair (h : client_host) (a : PairArgs) (c : Config) (s : fs) : ran * fs :=
  match pa_remove a with
  | Some name => run_unpair h name s
  | None =>
      match pair_local h c s with
      | (Err e, s) => (failed e, s)
      | (Ok local, s) =>
          let '(lines, r) := pair_exchange h c local (pa_target a) in
          after lines (match r with
                       | Err e => (failed e, s)
                       | Ok paired => pair_record h (pa_target a) paired s
                       end)
      end
  end.

Definition run_revoke (h : client_host) (name : str) (s : fs) : ran * fs :=
  match peers_load h s with
  | Err e => (failed e, s)
  | Ok ps =>
      match cmd_auth_remove ps name, authorized <$> find_any ps name with
      | Some ps', Some true => saving h s ps' [Println (lit "Revoked authorization for " ++ name ++ lit ".")]
      | Some _, _ => (mkRan [Println (name ++ lit " was not authorized.")] None, s)
      | None, _ => (failed (ENoPeerMatching name), s)
      end
  end.

Definition run_auth (h : client_host) (a : AuthArgs) (s : fs) (d : S) : ran * S * fs :=
  match au_remove a, au_name a with
  | Some name, _ => let '(r, s) := run_revoke h name s in (r, d, s)
  | None, Some name => (cmd_auth (ask s) path_text name (au_mutual a) d, s)
  | None, None => (match peers_load h s with Ok ps => cmd_auth_list ps | Err e => failed e end, d, s)
  end.

Definition run_peers (h : client_host) (a : PeersArgs) (s : fs) : ran :=
  match peers_load h s with
  | Err e => failed e
  | Ok ps =>
      let st := match state_file (ch_env h) with
                | Some p => default DaemonState_default (ok (state_load_from s (components p)))
                | None => DaemonState_default
                end in
      cmd_peers pretty (ch_now h) (pe_json a) ps st
  end.

Definition run_recv (h : client_host) (a : RecvArgs) (quiet : bool) (s : fs) : ending * fs :=
  match downloads_dir (ch_env h) with
  | None => (Exits (failed ENoDownloads), s)
  | Some dir =>
      let first := if quiet then [] else [Eprintln (lit "Waiting for an incoming file in " ++ dir ++ lit "...")] in
      let s := ch_arrived h s in
      match recv_wait (ch_choose h) a (ch_start h) (ch_before h) (ch_polls h) with
      | None => (StillWaits, s)
      | Some (Err e) => (Exits (mkRan first (Some e)), s)
      | Some (Ok n) =>
          match recv_deliver a s (components dir) path_text n with
          | (Ok lines, s) => (Exits (mkRan (first ++ lines) None), s)
          | (Err k, s) => (Exits (mkRan first (Some (wording (ERead k)))), s)
          end
      end
  end.

Definition run_copy (h : client_host) (quiet : bool) (s : fs) (d : S) : ran * S :=
  match ch_stdin h with
  | None => (failed EStdin, d)
  | Some text => cmd_copy (ask s) path_text quiet text d
  end.

Definition probe_path (dir : str) : path := pjoin (components dir) (lit ".qdrop-doctor-probe").
Definition probe_left (h : client_host) (s : fs) : fs :=
  match downloads_dir (ch_env h) with
  | None => s
  | Some dir =>
      if is_ok (ch_probe h dir) then fs_remove (fs_write s (probe_path dir) [Byte.x78]) (probe_path dir)
      else if ch_probe_made h then fs_write s (probe_path dir) [] else s
  end.

(** [browse_mdns] finds or makes the device id. *)
Definition doctor_machine (h : client_host) (s : fs) (status : result str value) : machine * fs :=
  let '(own, s') := device_load_or_create (ch_env h) s (ch_rnd h) in
  (mkMachine (ch_env h) (ch_hostname h) s status (ch_bind h) (ch_services h) (ok own) (ch_probe h) (ch_pid h) (ch_fresh h),
   probe_left h s').

Definition run_doctor (h : client_host) (a : DoctorArgs) (s : fs) (d : S) : ran * S * fs :=
  let '(status, d) := ask s d (request_value path_text Status) in
  let '(m, s) := doctor_machine h s status in
  (cmd_doctor (λ e, wording (EConfig e)) (λ e, wording (EIdentity e)) (wording ENoDownloads) pretty (doc_json a) m, d, s).

Definition run_daemon (h : client_host) (a : DaemonArgs) (verbose : bool) : ending :=
  let '(program, args) := cmd_daemon (ch_exe h) (ch_exists h) verbose (da_port a) in
  if ch_exec h program then Becomes program args else Exits (failed EExec).

(** [run] after the configuration. *)
Definition dispatch_command (h : client_host) (cli : CliArgs) (c : Config) (s : fs) (d : S) : ending * S * fs :=
  let exits x := (Exits x.1, x.2, s) in
  match command cli with
  | CPeers a => (Exits (run_peers h a s), d, s)
  | CPair a => let '(r, s) := run_pair h a c s in (Exits r, d, s)
  | CSend a => let '(r, d, s) := cmd_send ask path_text (cli_quiet cli) (ch_send h) a s d in (Exits r, d, s)
  | CRecv a => let '(e, s) := run_recv h a (cli_quiet cli) s in (e, d, s)
  | CPaste => exits (cmd_paste (ask s) path_text d)
  | CCopy => exits (run_copy h (cli_quiet cli) s d)
  | COpen a => exits (cmd_open (ask s) path_text (λ u, wording (EUrl u)) (op_url a) (op_to a) d)
  | CClip a => exits (cmd_clip (ask s) path_text (action a) (a_to a) d)
  | CAuth a => let '(r, d, s) := run_auth h a s d in (Exits r, d, s)
  | CStatus a => exits (cmd_status (ask s) path_text pretty (sta_json a) (sta_waybar a) d)
  | CDoctor a => let '(r, d, s) := run_doctor h a s d in (Exits r, d, s)
  | CDaemon a => (run_daemon h a (cli_verbose cli), d, s)
  end.

Definition config_of (h : client_host) (s : fs) : result (option FileError) Config :=
  (Config_load (ch_env h) (ch_hostname h) s).1.

Definition run (h : client_host) (cli : CliArgs) (s : fs) (d : S) : ending * S * fs :=
  match config_of h s with
  | Err e => (Exits (failed (EConfig e)), d, s)
  | Ok c =>
      if negb (ch_logging h (log_directive (ch_rust_log h) (cli_verbose cli) (log_filter c)))
      then (Exits (failed ELogging), d, s)
      else dispatch_command h cli c s d
  end.

(** ** What a command may write *)

(** A file that is written atomically, and its temporary name. *)
Definition own_names (h : client_host) (f : option str) : list path :=
  match f with
  | Some p => [components p; default [] (parent (components p)) ++ [Normal (tmp_name (components p) (ch_pid h))]]
  | None => []
  end.

(** [pair] writes the registry, and the identity and the id when it makes them;
    [auth --remove] the registry; [send -] below its temporary directory;
    [recv --stdout] removes the file it found; [doctor] the id and its probe. *)
Definition may_touch (h : client_host) (c : Command) (q : path) : Prop :=
  match c with
  | CPair a => q ∈ own_names h (peers_file (ch_env h)) ∨
      (pa_remove a = None ∧ (q ∈ own_names h (identity_file (ch_env h)) ∨ Some q = components <$> device_id_file (ch_env h)))
  | CAuth a => is_Some (au_remove a) ∧ q ∈ own_names h (peers_file (ch_env h))
  | CSend a => sa_paths a = [lit "-"] ∧ temp_dir (ch_send h) `prefix_of` q
  | CRecv a => ra_stdout a = true ∧ ra_keep a = false ∧
      ∃ dir n, downloads_dir (ch_env h) = Some dir ∧ q = pjoin (components dir) n ∧ n ∉ ch_before h
  | CDoctor _ => Some q = components <$> device_id_file (ch_env h) ∨
      ∃ dir, downloads_dir (ch_env h) = Some dir ∧ q = probe_path dir
  | _ => False
  end.

(** The store at [q] is as it was. *)
Definition kept (s s' : fs) (q : path) : Prop := fs_wf s' ∧ fs_stat s' q = fs_stat s q.

Lemma saving_kept h s ps lines q :
  fs_wf s → q ∉ own_names h (peers_file (ch_env h)) → kept s (saving h s ps lines).2 q.
Proof.
  intros Hs Hq. unfold saving, peers_save, own_names in *. destruct (peers_file _) as [p|]; [|by split].
  unfold save_to. destruct (serialize ps) as [text|]; [|by split].
  destruct (write_atomic _ s _ text) as [s'|] eqn:E; [|by split]. cbn [map_err snd].
  apply not_elem_of_cons in Hq as [Hq1 Hq2]. rewrite list_elem_of_singleton in Hq2. split.
  - by eapply write_atomic_ok.
  - by eapply write_atomic_other.
Qed.

Lemma run_unpair_kept h name s q :
  fs_wf s → q ∉ own_names h (peers_file (ch_env h)) → kept s (run_unpair h name s).2 q.
Proof.
  intros Hs Hq. unfold run_unpair. destruct (peers_load h s); [|by split].
  destruct (cmd_unpair _ _); [by apply saving_kept|by split].
Qed.

Lemma pair_local_kept h c s q :
  fs_wf s → q ∉ own_names h (identity_file (ch_env h)) → Some q ≠ components <$> device_id_file (ch_env h) →
  kept s (pair_local h c s).2 q.
Proof.
  intros Hs Hq Hd. unfold pair_local, Identity_load_or_create, device_load_or_create, at_file, own_names in *.
  destruct (identity_file _) as [p|]; [|by split].
  apply not_elem_of_cons in Hq as [Hq1 Hq2]. rewrite list_elem_of_singleton in Hq2.
  pose proof (identity_load_other (ch_pid h) s (components p) (ch_fresh h) q Hs) as [Hw Ho].
  destruct (identity_load_or_create_at _ s _ _) as [[i|e] s1]; cbn [map_err snd] in *; [|by split; [|apply Ho]].
  destruct (device_id_file _) as [f|]; [|by split; [|apply Ho]].
  pose proof (device_load_wf s1 (components f) (ch_rnd h) Hw) as Hw2.
  assert (q ≠ components f) as Hf by (intros ->; by apply Hd).
  pose proof (device_load_other s1 (components f) (ch_rnd h) q Hw Hf) as Ho2.
  destruct (load_or_create_at s1 _ _) as [[id|e] s2]; cbn [map_err snd] in *; (split; [done|by rewrite Ho2, Ho]).
Qed.

Lemma run_pair_kept h a c s q :
  fs_wf s → ¬ may_touch h (CPair a) q → kept s (run_pair h a c s).2 q.
Proof.
  intros Hs Hq. unfold run_pair. cbn [may_touch] in Hq. destruct (pa_remove a) as [n|]; [apply run_unpair_kept; [done|tauto]|].
  destruct (pair_local_kept h c s q) as [Hw Ho]; [done|tauto|tauto|].
  destruct (pair_local h c s) as [[l|e] s1]; [|by split]. cbn [snd] in *.
  destruct (pair_exchange h c l (pa_target a)) as [lines [paired|e]]; [|by split]. unfold after, pair_record. cbn [snd].
  destruct (peers_load h s1); [|by split].
  destruct (saving_kept h s1 (record_peer a0 paired (target_address <$> pa_target a))
    [Println (lit "Paired with " ++ paired_name paired ++ lit " (" ++ fingerprint_of (paired_key paired) ++ lit ")")] q)
    as [Hw' Ho']; [done|tauto|]. split; [done|]. by rewrite Ho'.
Qed.

Lemma run_revoke_kept h name s q :
  fs_wf s → q ∉ own_names h (peers_file (ch_env h)) → kept s (run_revoke h name s).2 q.
Proof.
  intros Hs Hq. unfold run_revoke. destruct (peers_load h s); [|by split].
  destruct (cmd_auth_remove a name), (find_any a name) as [p|]; cbn; try (by split).
  destruct (authorized p); [by apply saving_kept|by split].
Qed.

Lemma remove_tree_wf s dir : fs_wf s → fs_wf (remove_tree s dir).
Proof.
  intros [Hb Hn Hi]. split; cbn; [|done|].
  - intros p i [Hp _]%map_lookup_filter_Some. eauto.
  - intros p q i [Hp _]%map_lookup_filter_Some [Hq _]%map_lookup_filter_Some. eauto.
Qed.

Lemma send_files_kept e a s q :
  fs_wf s → ¬ (sa_paths a = [lit "-"] ∧ temp_dir e `prefix_of` q) →
  kept s (send_files e a s).2 q ∧
  ∀ ps dir, (send_files e a s).1 = Ok (ps, Some dir) → dir = temp_dir e ∧ sa_paths a = [lit "-"].
Proof.
  intros Hs Hq. unfold send_files. case_bool_decide as Hp.
  2: { destruct (canonical_paths e _); by split. }
  destruct (stdin_name _ _) as [name|] eqn:En; [|by split].
  destruct (se_mkdir e); [by split|]. destruct (se_stdin e) as [buf|]; [|by split].
  assert (plain_name name) as Hpl by (by apply safe_blob_name_plain in En as [? _]).
  assert (q ≠ pjoin (temp_dir e) name) as Hne.
  { rewrite pjoin_plain by done. intros ->. apply Hq. split; [done|by exists [Normal name]]. }
  destruct (se_write e) as [[n k]|]; cbn [fst snd]; (split; [split; [by apply fs_write_wf|by apply fs_stat_write_ne]|]);
    intros ps dir E'; simplify_eq; by split.
Qed.

Lemma send_kept quiet e a s d q :
  fs_wf s → ¬ (sa_paths a = [lit "-"] ∧ temp_dir e `prefix_of` q) →
  kept s (Commands.cmd_send ask path_text quiet e a s d).2 q.
Proof.
  intros Hs Hq. destruct (send_files_kept e a s q Hs Hq) as [[Hw Ho] Hd]. unfold Commands.cmd_send.
  destruct (send_files e a s) as [[[ps [dir|]]|k] s1]; cbn [fst snd] in *; try (by split).
  destruct (Hd ps dir eq_refl) as [-> Hp]. split; [by apply remove_tree_wf|].
  rewrite fs_stat_remove_tree, decide_False; [done|]. intros Hpre. by apply Hq.
Qed.

(** What has arrived while [recv] waited is the daemon's; [recv] itself removes
    at most the new file it found. *)
Lemma recv_kept h a quiet s q :
  (∀ l n, ch_choose h l = Some n → n ∈ l) →
  fs_wf (ch_arrived h s) → fs_wf s → fs_stat (ch_arrived h s) q = fs_stat s q →
  ¬ may_touch h (CRecv a) q → kept s (run_recv h a quiet s).2 q.
Proof.
  intros Hc Hw Hs Harr Hq. unfold run_recv. destruct (downloads_dir _) as [dir|] eqn:Ed; [|by split].
  destruct (recv_wait _ _ _ _ _) as [[n|e]|] eqn:Er; [|by split..].
  apply recv_loop_split in Er as (i & p & _ & Ht & _). unfold recv_turn in Ht.
  destruct (_ <=? _); [done|]. destruct (ch_choose h _) as [m|] eqn:Em; [|done]. apply Hc in Em.
  case_match; [|done]. injection Ht as ->. apply list_elem_of_filter in Em as [[Hv Hb] _].
  rewrite list_elem_of_filter in Hb. unfold recv_deliver. destruct (ra_stdout a) eqn:Eo; [|by split].
  destruct (fs_read _ _); [|by split]. destruct (ra_keep a) eqn:Ek; [by split|]. cbn [snd].
  split; [by apply fs_remove_wf|]. rewrite fs_stat_remove, decide_False; [done|]. intros ->.
  apply Hq. cbn [may_touch]. rewrite Eo, Ek, Ed. split_and!; [done..|]. exists dir, n. tauto.
Qed.

Lemma doctor_kept h a s d q :
  fs_wf s → ¬ may_touch h (CDoctor a) q → kept s (run_doctor h a s d).2 q.
Proof.
  intros Hs Hq. unfold run_doctor, doctor_machine, device_load_or_create. destruct (ask s d _) as [status d'].
  assert (kept s (at_file (device_id_file (ch_env h)) s (λ p, load_or_create_at s p (ch_rnd h))).2 q) as [Hw Ho].
  { unfold at_file. cbn [may_touch] in Hq. destruct (device_id_file _) as [f|]; [|by split].
    pose proof (device_load_wf s (components f) (ch_rnd h) Hs) as Hw.
    assert (q ≠ components f) as Hf by (intros ->; apply Hq; by left).
    pose proof (device_load_other s (components f) (ch_rnd h) q Hs Hf) as Ho.
    by destruct (load_or_create_at s _ _). }
  destruct (at_file _ s _) as [own s']. cbn [snd] in *. unfold probe_left.
  destruct (downloads_dir _) as [dir|] eqn:Ed; [|by split].
  assert (q ≠ probe_path dir) as Hp by (intros ->; apply Hq; right; by exists dir).
  destruct (is_ok _); [|destruct (ch_probe_made h); [|by split]].
  - split; [by apply fs_remove_wf, fs_write_wf|]. by rewrite fs_stat_remove, decide_False, fs_stat_write_ne.
  - split; [by apply fs_write_wf|]. by rewrite fs_stat_write_ne.
Qed.

(** Commands that do not ask the daemon. *)
Definition asks_daemon (c : Command) : bool :=
  match c with
  | CPair _ | CPeers _ | CRecv _ | CDaemon _ => false
  | CAuth a => bool_decide (au_remove a = None) && bool_decide (is_Some (au_name a))
  | _ => true
  end.

(** (C19) The client keeps to its files: whatever the arguments, the failures and
    the daemon's answers, a file is as it was unless the command may write it:
    the registry, by [pair] and [auth --remove]; the identity and the id, by
    [pair]; the temporary directory of [send -]; the new file that
    [recv --stdout] took; the id and the probe, by [doctor].  And [pair],
    [peers], [recv], [daemon], and [auth] but for an authorisation leave the
    daemon alone. *)
Theorem client_writes_confined h cli s d q :
  (∀ l n, ch_choose h l = Some n → n ∈ l) → fs_wf s → fs_wf (ch_arrived h s) →
  fs_stat (ch_arrived h s) q = fs_stat s q → ¬ may_touch h (command cli) q →
  let '(e, d', s') := run h cli s d in
  fs_stat s' q = fs_stat s q ∧ (asks_daemon (command cli) = false → d' = d).
Proof.
  intros Hc Hs Hw Harr Hq. unfold run. destruct (config_of h s) as [c|]; [|done].
  destruct (negb _); [done|]. unfold dispatch_command. destruct (command cli) as [a|a|a|a| | |a|a|a|a|a|a] eqn:E; try done.
  - destruct (run_pair_kept h a c s q) as [_ Ho]; [done..|]. by destruct (run_pair h a c s).
  - destruct (send_kept (cli_quiet cli) (ch_send h) a s d q) as [_ Ho]; [done..|].
    by destruct (Commands.cmd_send _ _ _ _ _ _ _) as [[r d'] s'].
  - destruct (recv_kept h a (cli_quiet cli) s q) as [_ Ho]; [done..|]. by destruct (run_recv h a (cli_quiet cli) s).
  - unfold run_auth. cbn [may_touch] in Hq. destruct (au_remove a) as [n|] eqn:Er.
    + destruct (run_revoke_kept h n s q) as [_ Ho]; [done|naive_solver|]. by destruct (run_revoke h n s).
    + cbn [asks_daemon]. rewrite Er. destruct (au_name a); [|done].
      destruct (cmd_auth _ _ _ _ _). by split.
  - destruct (doctor_kept h a s d q) as [_ Ho]; [done..|]. by destruct (run_doctor h a s d) as [[r d'] s'].
Qed.
(** ** Pairing, on the disk *)

Context `{!KeyPairLaws, !Base64Laws, !SerdeLaws Peers, !TextLaws Peers, Serde (list Entry)}.
Variable resolve : str → result ErrorKind (list SocketAddr).

Lemma peers_load_kept h s s' :
  (∀ p, components <$> peers_file (ch_env h) = Some p → fs_stat s' p = fs_stat s p) →
  peers_load h s' = peers_load h s.
Proof.
  unfold peers_load. destruct (peers_file _) as [f|]; [|done]. intros Hk.
  unfold load_from, read_to_string, fs_read. by rewrite (Hk _ eq_refl).
Qed.

(** Saving succeeds with the given lines only if the registry reads back. *)
Lemma saving_ok h s ps lines r s' :
  fs_wf s → saving h s ps lines = (r, s') → succeeded r = true →
  r = mkRan lines None ∧ peers_load h s' = Ok ps ∧ ∃ p, components <$> peers_file (ch_env h) = Some p.
Proof.
  intros Hs Hsv Hr. unfold saving, peers_save, peers_load in *. destruct (peers_file _) as [f|].
  2: { by injection Hsv as <- <-. }
  destruct (save_to _ s ps (components f)) as [s1|e] eqn:E; cbn [map_err] in Hsv; injection Hsv as <- <-; [|done].
  destruct (peers_save_ok _ _ _ _ _ Hs E) as (Hl & _). split_and!; [done|by rewrite Hl|by eexists].
Qed.

(** The id and the key that [pair] presents are on the disk. *)
Lemma pair_local_holds h c s local s2 :
  fs_wf s → length (ch_rnd h) = 16%nat → pair_local h c s = (Ok local, s2) →
  ∃ dp ip i, components <$> device_id_file (ch_env h) = Some dp ∧ components <$> identity_file (ch_env h) = Some ip ∧
    holds s2 dp ip (li_id local) i ∧ public_key i = li_key local ∧ li_name local = device_name c.
Proof.
  intros Hs Hr Hp. unfold pair_local, Identity_load_or_create, device_load_or_create in Hp.
  destruct (at_file (identity_file (ch_env h)) _ _) as [[i|e] s1] eqn:Ei; [|done].
  destruct (at_file (device_id_file (ch_env h)) _ _) as [[id|e] s3] eqn:Ed; [|done]. injection Hp as <- <-.
  apply at_file_ok in Ei as (ip & Hip & Hi), Ed as (dp & Hdp & Hd). exists dp, ip, i.
  destruct (config_paths _ _ _ Hdp Hip) as [Edp Eip].
  pose proof (identity_load_other (ch_pid h) s ip (ch_fresh h) ip Hs) as [Hw _]. rewrite Hi in Hw.
  destruct (device_loaded _ _ _ _ _ Hw Hr Hd) as (text & Ht & Hid & Hv).
  destruct (identity_loaded _ _ _ _ _ _ Hs Hi) as (pem & k & Hpem & Hk & Hik).
  split_and!; [done|done| |done|done]. split; [by exists text|].
  exists pem, k. split_and!; [|done|done]. unfold read_to_string, fs_read in *.
  pose proof (device_load_other s1 dp (ch_rnd h) ip Hw) as Ho. rewrite Hd in Ho. cbn [snd] in Ho.
  rewrite Ho; [done|]. subst dp ip. by intros [_ [= E]]%app_inj_tail.
Qed.

(** The registry's names are not those of the id and of the key. *)
Lemma registry_apart e pid p :
  components <$> peers_file e = Some p →
  ∀ n, n = lit "device_id" ∨ n = lit "identity.pem" →
  config_base e ++ [Normal n] ≠ p ∧ config_base e ++ [Normal n] ≠ default [] (parent p) ++ [Normal (tmp_name p pid)].
Proof.
  intros Hp n Hn. assert (p = config_base e ++ [Normal (lit "peers.toml")]) as ->.
  { eapply config_path; [by apply (bool_decide_unpack _)..|done]. }
  rewrite parent_below. cbn [default]. split; intros [_ [= E]]%app_inj_tail; by destruct Hn as [-> | ->].
Qed.
Lemma pair_local_registry h c s local s2 :
  fs_wf s → pair_local h c s = (Ok local, s2) → fs_wf s2 ∧ peers_load h s2 = peers_load h s.
Proof.
  intros Hs Hp. assert (∀ q, q ∉ own_names h (identity_file (ch_env h)) → Some q ≠ components <$> device_id_file (ch_env h) →
    kept s s2 q) as Hk by (intros q ? ?; by pose proof (pair_local_kept h c s q) as Hq; rewrite Hp in Hq; apply Hq).
  assert (∃ ip dp, components <$> identity_file (ch_env h) = Some ip ∧ components <$> device_id_file (ch_env h) = Some dp)
    as (ip & dp & Hip & Hdp).
  { unfold pair_local, Identity_load_or_create, device_load_or_create in Hp. destruct (at_file (identity_file (ch_env h)) _ _) as [[i|e] s1] eqn:Ei; [|done].
    destruct (at_file (device_id_file (ch_env h)) _ _) as [[id|e] s3] eqn:Ed; [|done].
    apply at_file_ok in Ei as (ip & Hip & _), Ed as (dp & Hdp & _). eauto. }
  destruct (config_paths _ _ _ Hdp Hip) as [Edp Eip].
  assert (∀ n, n = lit "peers.toml" ∨ n = [] → kept s s2 (config_base (ch_env h) ++ [Normal n])) as Hkn.
  { intros n Hn. apply Hk.
    - unfold own_names. destruct (identity_file (ch_env h)) as [f|]; [|done]. injection Hip as Hip.
      rewrite Hip, Eip, parent_below. cbn [default].
      intros [[_ [= E]]%app_inj_tail|[[_ [= E]]%app_inj_tail|[]%elem_of_nil]%elem_of_cons]%elem_of_cons;
        by destruct Hn as [-> | ->].
    - rewrite Hdp, Edp. intros [= [_ [= E]]%app_inj_tail]. by destruct Hn as [-> | ->]. }
  split; [by apply (Hkn []); right|]. apply peers_load_kept. intros p Hp'.
  assert (p = config_base (ch_env h) ++ [Normal (lit "peers.toml")]) as ->.
  { eapply config_path; [by apply (bool_decide_unpack _)..|done]. }
  apply Hkn. by left.
Qed.

(** Recording a peer leaves the id and the key on the disk. *)
Lemma saving_holds h s ps lines r s' dp ip id i pp :
  fs_wf s → saving h s ps lines = (r, s') → components <$> peers_file (ch_env h) = Some pp →
  components <$> device_id_file (ch_env h) = Some dp → components <$> identity_file (ch_env h) = Some ip →
  holds s dp ip id i → holds s' dp ip id i.
Proof.
  intros Hs Esv Hpp Hdp Hip [(text & Ht & Hid) (pem & k & Hpem & Hk)].
  destruct (config_paths _ _ _ Hdp Hip) as [-> ->].
  assert (∀ n, n = lit "device_id" ∨ n = lit "identity.pem" →
    fs_stat s' (config_base (ch_env h) ++ [Normal n]) = fs_stat s (config_base (ch_env h) ++ [Normal n])) as Hn.
  { intros n Hn. destruct (registry_apart _ (ch_pid h) _ Hpp n Hn) as [Ha1 Ha2].
    pose proof (saving_kept h s ps lines (config_base (ch_env h) ++ [Normal n]) Hs) as [_ Hkept]; [|by rewrite Esv in Hkept].
    unfold own_names. destruct (peers_file (ch_env h)); [|done]. injection Hpp as Hpp. rewrite Hpp.
    by intros [?|[?|[]%elem_of_nil]%elem_of_cons]%elem_of_cons. }
  unfold read_to_string, fs_read in *.
  split; [exists text|exists pem, k]; (split; [|done]); unfold read_to_string, fs_read; by rewrite Hn by eauto.
Qed.

Lemma pair_exchange_ok h c local target lines paired :
  pair_exchange h c local target = (lines, Ok paired) →
  match target with
  | None => (ch_offer h local).2 = Ok paired
  | Some t => ∃ line, ch_line h ≫= prompt_pin = Some line ∧ ch_request h local t (trim line) = Ok paired
  end.
Proof.
  unfold pair_exchange. intros Ex. destruct target as [t|].
  - destruct (ch_line h ≫= prompt_pin) as [line|]; [|done]. exists line. split; [done|].
    destruct (ch_request h local t (trim line)); by simplify_eq/=.
  - destruct (ch_offer h local) as [pin [q|]]; by simplify_eq/=.
Qed.

(** A [pair] without [--remove] that succeeds, taken apart. *)
Lemma run_pair_ok h c target s r s' :
  fs_wf s → run_pair h (mkPairArgs target None) c s = (r, s') → succeeded r = true →
  ∃ local s2 lines paired ps, pair_local h c s = (Ok local, s2) ∧
    pair_exchange h c local target = (lines, Ok paired) ∧ peers_load h s = Ok ps ∧
    ∃ said r2, saving h s2 (record_peer ps paired (target_address <$> target)) said = (r2, s') ∧ succeeded r2 = true.
Proof.
  intros Hs Erun Hr. unfold run_pair in Erun. cbn [pa_remove pa_target] in Erun.
  destruct (pair_local h c s) as [[local|e] s2] eqn:El; [|by injection Erun as <- _].
  destruct (pair_local_registry _ _ _ _ _ Hs El) as [Hs2 Hreg].
  destruct (pair_exchange h c local target) as [lines [paired|e]] eqn:Ex; [|by injection Erun as <- _].
  unfold after, pair_record in Erun. rewrite Hreg in Erun.
  destruct (peers_load h s) as [ps|e]; [|by injection Erun as <- _].
  destruct (saving h s2 _ _) as [r2 s3] eqn:Esv. injection Erun as <- <-. cbn [fst snd] in *.
  exists local, s2, lines, paired, ps. split_and!; [done..|]. eauto.
Qed.

Lemma run_command h cli s d r d' s' :
  run h cli s d = (Exits r, d', s') → succeeded r = true →
  ∃ c, config_of h s = Ok c ∧ dispatch_command h cli c s d = (Exits r, d', s').
Proof.
  unfold run. intros Hrun Hr. destruct (config_of h s) as [c|e]; [|by injection Hrun as <- _ _].
  destruct (negb _); [by injection Hrun as <- _ _|]. eauto.
Qed.

(** (C18) Pairing prepares the daemon: when [qdrop pair] succeeds, the exchange ran
    with the id and the key that are on the disk afterwards, the registry on the
    disk is the old one with the device the exchange found; so every daemon
    started later on these files, with whatever arguments, greets with the id and
    presents the key that the other device has recorded, and trusts the key and
    the id of the other device. *)
Theorem pairing_prepares_daemon h cli target s d r d' s' :
  fs_wf s → length (ch_rnd h) = 16%nat → command cli = CPair (mkPairArgs target None) →
  run h cli s d = (Exits r, d', s') → succeeded r = true →
  ∃ local paired ps,
    match target with
    | None => (ch_offer h local).2 = Ok paired
    | Some t => ∃ line, ch_line h ≫= prompt_pin = Some line ∧ ch_request h local t (trim line) = Ok paired
    end ∧
    peers_load h s = Ok ps ∧ peers_load h s' = Ok (record_peer ps paired (target_address <$> target)) ∧
    ∀ a hd st s'', h_env hd = ch_env h → h_fs hd = s' → real_main resolve a hd = (Ok (Some st), s'') →
      hello_device_id (tc_local (st_transport st)) = li_id local ∧ public_key (st_identity st) = li_key local ∧
      tc_roster (st_transport st) = from_peers resolve (record_peer ps paired (target_address <$> target)) ∧
      (length (paired_key paired) = 32%nat →
       is_trusted_key (tc_roster (st_transport st)) (paired_key paired) = true ∧
       is_trusted_id (tc_roster (st_transport st)) (paired_id paired) = true).
Proof.
  intros Hs Hrnd Hcmd Hrun Hr. destruct (run_command _ _ _ _ _ _ _ Hrun Hr) as (c & _ & Hd).
  unfold dispatch_command in Hd. rewrite Hcmd in Hd. destruct (run_pair h _ c s) as [r1 s1] eqn:Erun. injection Hd as -> _ ->.
  destruct (run_pair_ok _ _ _ _ _ _ Hs Erun Hr) as (local & s2 & lines & paired & ps & El & Ex & Hps & said & r2 & Esv & Hr2).
  destruct (pair_local_registry _ _ _ _ _ Hs El) as [Hs2 _].
  destruct (pair_local_holds _ _ _ _ _ Hs Hrnd El) as (dp & ip & i & Hdp & Hip & Hh & Hkey & _).
  destruct (saving_ok _ _ _ _ _ _ Hs2 Esv Hr2) as (_ & Hl & pp & Hpp).
  exists local, paired, ps. split_and!; [by eapply pair_exchange_ok|done|done|].
  intros a hd st s'' Henv Hfs Hmain.
  pose proof (saving_holds _ _ _ _ _ _ _ _ _ _ _ Hs2 Esv Hpp Hdp Hip Hh) as Hh'. rewrite <- Hfs in Hh'.
  rewrite <- Henv in Hdp, Hip.
  destruct (start_on_held resolve a hd dp ip (li_id local) i _ _ Hdp Hip Hh' Hmain) as (_ & _ & _ & Hst).
  destruct (Hst st eq_refl) as (Hid & Hi & pp' & ps' & Hpp' & Hps' & Hros).
  assert (ps' = record_peer ps paired (target_address <$> target)) as ->.
  { rewrite Henv, Hpp in Hpp'. injection Hpp' as <-. rewrite Hfs in Hps'. unfold peers_load in Hl.
    destruct (peers_file (ch_env h)); [|done]. injection Hpp as Hpp. rewrite Hpp, Hps' in Hl. by injection Hl as <-. }
  split_and!; [done|by rewrite Hi|done|]. intros H32. rewrite Hros. by apply record_peer_trusted.
Qed.

(** What an unpairing that succeeded found and left. *)
Lemma unpair_saved h cli target name s d r d' s' :
  fs_wf s → command cli = CPair (mkPairArgs target (Some name)) → run h cli s d = (Exits r, d', s') → succeeded r = true →
  ∃ ps, peers_load h s = Ok ps ∧ is_Some (find ps name) ∧ peers_load h s' = Ok (base.filter (λ p, peer_name p ≠ name) ps).
Proof.
  intros Hs Hcmd Hrun Hr. destruct (run_command _ _ _ _ _ _ _ Hrun Hr) as (c & _ & Hd). unfold dispatch_command in Hd. rewrite Hcmd in Hd.
  destruct (run_pair h _ c s) as [r1 s1] eqn:Erun. injection Hd as -> _ ->. unfold run_pair in Erun. cbn [pa_remove] in Erun.
  unfold run_unpair in Erun. destruct (peers_load h s) as [ps|e]; [|by injection Erun as <- _].
  unfold cmd_unpair in Erun. destruct (remove_by_name ps name) as [found ps'] eqn:E.
  pose proof (remove_by_name_spec ps name) as [_ Hf]. rewrite E in Hf. cbn [fst] in Hf.
  destruct found; [|by injection Erun as <- _].
  destruct (saving_ok _ _ _ _ _ _ Hs Erun Hr) as (_ & Hl & _). injection E as _ <-.
  exists ps. split_and!; [done|by apply Hf|done].
Qed.

(** Unpairing is on the disk: when [qdrop pair --remove] succeeds there was
    an entry of that name, the registry on the disk afterwards is the old one
    without the entries of that name, so that a daemon that reloads it trusts only
    keys of other entries, and doing it again fails; when it fails no file has
    changed. *)
Theorem unpair_on_disk h cli target name s d r d' s' :
  fs_wf s → command cli = CPair (mkPairArgs target (Some name)) → run h cli s d = (Exits r, d', s') →
  if succeeded r then
    ∃ ps, peers_load h s = Ok ps ∧ is_Some (find ps name) ∧
      peers_load h s' = Ok (base.filter (λ p, peer_name p ≠ name) ps) ∧
      (∀ key, is_trusted_key (from_peers resolve (base.filter (λ p, peer_name p ≠ name) ps)) key = true ↔
         ∃ p, p ∈ ps ∧ peer_name p ≠ name ∧ key_bytes p = Ok key) ∧
      (run_unpair h name s').1 = failed (ENoPeerNamed name)
  else s' = s.
Proof.
  intros Hs Hcmd Hrun. destruct (succeeded r) eqn:Hr.
  2: { unfold run in Hrun. destruct (config_of h s) as [c|e]; [|by injection Hrun as _ _ <-].
    destruct (negb _); [by injection Hrun as _ _ <-|]. unfold dispatch_command in Hrun. rewrite Hcmd in Hrun.
    destruct (run_pair h _ c s) as [r1 s1] eqn:Erun. injection Hrun as -> _ ->. unfold run_pair, run_unpair in Erun.
    cbn [pa_remove] in Erun. destruct (peers_load h s); [|by injection Erun as _ <-].
    destruct (cmd_unpair _ _); [|by injection Erun as _ <-]. unfold saving in Erun.
    destruct (peers_save h s _); by injection Erun as <- <-. }
  destruct (unpair_saved _ _ _ _ _ _ _ _ _ Hs Hcmd Hrun Hr) as (ps & Hps & Hf & Hl).
  exists ps. split_and!; [done..| |].
  - intros key. etrans; [apply trusted_key_iff|]. setoid_rewrite list_elem_of_filter. naive_solver.
  - unfold run_unpair. rewrite Hl. unfold cmd_unpair.
    destruct (remove_by_name (base.filter _ ps) name) as [found ps2] eqn:E2.
    pose proof (remove_by_name_spec (base.filter (λ p, peer_name p ≠ name) ps) name) as [_ Hf2]. rewrite E2 in Hf2.
    destruct found; [|done]. exfalso. destruct (proj1 Hf2 eq_refl) as [p Hp].
    apply lfind_Some in Hp as [Hin Hn]. apply bool_decide_eq_true in Hn.
    by apply list_elem_of_filter in Hin as [? _].
Qed.

(** ** The configuration first *)

(** With a configuration that does not load no command runs: it fails with
    that error, prints nothing else and changes nothing, whatever it is.  This
    includes [doctor], whose first check is whether the configuration loads: when
    [doctor] gets to its checks, that one has passed. *)
Theorem doctor_config_unreachable h cli s d :
  (∀ e, config_of h s = Err e → run h cli s d = (Exits (failed (EConfig e)), d, s)) ∧
  (∀ a r d' s', command cli = CDoctor a → run h cli s d = (Exits r, d', s') → printed r ≠ [] →
   ∀ status, ck_status (config_check (λ e, wording (EConfig e)) (doctor_machine h s status).1) = DOk).
Proof.
  split; [by intros e E; unfold run; rewrite E|]. intros a r d' s' Hcmd Hrun Hp status.
  unfold run in Hrun. destruct (config_of h s) as [c|e] eqn:Ec; [|by injection Hrun as <- _ _].
  unfold config_check, config_load, doctor_machine, device_load_or_create. destruct (at_file (device_id_file _) s _) as [own s1].
  cbn [fst m_env m_hostname m_fs]. unfold config_of, Config_load, at_file in Ec.
  destruct (config_file (ch_env h)) as [f|]; [|done]. cbn [fst] in Ec. by rewrite Ec.
Qed.
End main.

(** ** Witnesses *)

#[local] Existing Instance sample_hashes.
#[local] Existing Instance entries_serde.
#[local] Existing Instance peers_serde.
#[local] Existing Instance sample_keys.
#[local] Existing Instance hex_b64.
#[local] Existing Instance state_serde.
#[local] Instance no_config_at_all : Serde Config := {| serialize _ := None; deserialize _ := None |}.

(** A machine with two paired devices, no daemon and no identity yet, and a
    third device that pairs with whoever knows its PIN. *)
Definition found_device : Paired := mkPaired (lit "id-new") (lit "new") (replicate 32 Byte.x07).
Definition sample_client : client_host :=
  mkClientHost sample_home None None (λ _, true) 1000 7 (replicate 16 Byte.xab) true (Some (lit "text"))
    (Some (lit "123456")) (λ _, (Some (lit "123456"), Ok found_device))
    (λ _ _ pin, if decide (pin = lit "123456") then Ok found_device else Err BadPin)
    sample_send_env [] 0 [] first_of (λ s, s) (λ _, Ok ()) [] (λ _, Ok ()) false [] (λ _, false) (λ _, false).
Definition sample_run (c : Command) (s : fs) : ending * () * fs :=
  run deaf_ask sample_path_text (λ _, []) (λ _, []) (λ _, false) sample_client (mkCli false false c) s ().
Definition pair_by_address : Command := CPair (mkPairArgs (Some (lit "10.0.0.9:47655")) None).
Definition unpair_alice : Command := CPair (mkPairArgs None (Some (peer_name alice))).

Lemma sample_run_exits c s :
  match (sample_run c s).1.1 with Exits r => succeeded r | _ => false end = true →
  ∃ r, sample_run c s = (Exits r, (), (sample_run c s).2) ∧ succeeded r = true.
Proof. destruct (sample_run c s) as [[[r| |] []] s']; cbn; [|done..]. by exists r. Qed.

Lemma client_writes_confined_witness :
  fs_stat (sample_run unpair_alice sample_disk).2 [RootDir; Normal (lit "etc")] = fs_stat sample_disk [RootDir; Normal (lit "etc")].
Proof.
  pose proof (client_writes_confined deaf_ask sample_path_text (λ _, []) (λ _, []) (λ _, false) sample_client
    (mkCli false false unpair_alice) sample_disk () [RootDir; Normal (lit "etc")]) as H.
  unfold sample_run. destruct (run _ _ _ _ _ _ _ _ _) as [[e d'] s'].
  apply H; [by intros [|x l] n; [done|intros [= ->]; left]|apply sample_disk_wf|apply sample_disk_wf|done|].
  cbn [may_touch command unpair_alice]. intros [Hn|[? _]]; [|done]. revert Hn. by apply (bool_decide_unpack _).
Defined.

(** The daemon that is started after pairing. *)
Lemma pairing_prepares_daemon_witness :
  ∃ local ps, peers_load sample_client (sample_run pair_by_address sample_disk).2
                = Ok (record_peer ps found_device (Some (lit "10.0.0.9"))) ∧
    ∀ st, (real_main no_resolver sample_args (sample_host (sample_run pair_by_address sample_disk).2 Byte.x11 false)).1
            = Ok (Some st) → public_key (st_identity st) = li_key local ∧
          is_trusted_key (tc_roster (st_transport st)) (replicate 32 Byte.x07) = true.
Proof.
  destruct (sample_run_exits pair_by_address sample_disk) as (r & E & Hr); [by vm_compute|].
  destruct (pairing_prepares_daemon (H5 := sample_key_laws) (H6 := hex_b64_laws) (SerdeLaws0 := countable_serde_laws Peers)
    (TextLaws0 := countable_text_laws Peers) deaf_ask sample_path_text (λ _, []) (λ _, []) (λ _, false) no_resolver sample_client
    (mkCli false false pair_by_address) (Some (lit "10.0.0.9:47655")) sample_disk () r () _ sample_disk_wf eq_refl eq_refl E Hr)
    as (local & paired & ps & (line & [= <-] & Hx) & _ & Hl & Hst).
  assert (paired = found_device) as -> by (revert Hx; vm_compute; congruence).
  exists local, ps. split; [exact Hl|]. intros st E'.
  destruct (real_main no_resolver sample_args (sample_host (sample_run pair_by_address sample_disk).2 Byte.x11 false)) as [x s''] eqn:Em.
  cbn [fst] in E'. rewrite E' in Em.
  destruct (Hst sample_args (sample_host (sample_run pair_by_address sample_disk).2 Byte.x11 false) st s'' eq_refl eq_refl Em)
    as (_ & Hk & _ & Ht). split; [exact Hk|]. by apply Ht.
Defined.

Lemma unpair_on_disk_witness :
  peers_load sample_client (sample_run unpair_alice sample_disk).2
  = Ok (base.filter (λ p, peer_name p ≠ peer_name alice) two_peers).
Proof.
  destruct (sample_run_exits unpair_alice sample_disk) as (r & E & Hr); [by vm_compute|].
  pose proof (unpair_on_disk (SerdeLaws0 := countable_serde_laws Peers)
    (TextLaws0 := countable_text_laws Peers) deaf_ask sample_path_text (λ _, []) (λ _, []) (λ _, false) no_resolver sample_client
    (mkCli false false unpair_alice) None (peer_name alice) sample_disk () r () _ sample_disk_wf eq_refl E) as H.
  rewrite Hr in H. destruct H as (ps & Hps & _ & Hl & _).
  assert (peers_load sample_client sample_disk = Ok two_peers) as E2 by (vm_compute; reflexivity).
  assert (Ok (E := ClientError) ps = Ok two_peers) as Ep by (etrans; [symmetry; exact Hps|exact E2]). injection Ep as ->.
  exact Hl.
Defined.
