(* ===== verification/Mesh.v ===== *)
(** * Mesh: any number of devices and their clipboards

    Devices as they run together: each has the daemon of [Daemon] and the
    clipboard thread of [Clipboard]; the channels between the tasks of a daemon
    ([to_clip], [reported], the image sink, the frames for the sync task) are read
    one item at a time, the uploads of images go on a frame at a time, and a link
    takes what the bus has queued for a peer to that peer's router, in order
    ([Connection.link_fifo] is what the bytes do; a frame is routed in the step
    that takes it from the link).  While the sync task waits for an upload of its
    own it takes neither local changes nor frames.  Every interleaving of these
    steps is a list of events.

    The theorem: a device never takes more changes of its own than its user made,
    whatever the others do, so that nothing echoes or oscillates.  [Quiesce] and
    [Converge] are about the same mesh. *)
From S2P Require Import Prelude Text Crypto Proto Frame Store Samples Net Peers Config Bus FileXfer Trust Auth History Clipboard Sync State Control Daemon.

Section mesh.
Context `{Hashes, Desktop, Serde (list Entry)}.
Variable image_size : bytes → option (Z * Z).

(** What is fixed about a device while it runs. *)
Record device := mkDevice {
  dv_max_text : Z;
  dv_has_clip : bool;
  dv_port : Z;
  dv_mine : DeviceInfo;
  dv_macos : bool;
  dv_policy : ConfirmPolicy;
}.
Variable dev : str → device.

Definition dstep (i : str) (d : daemon) (e : daemon_event) : daemon :=
  let v := dev i in
  daemon_step image_size i (dv_max_text v) (dv_has_clip v) (dv_port v) (dv_mine v) (dv_macos v) (dv_policy v) d e.

(** [clip_rx] is the channel from the router to the sync task. *)
Record node := mkNode { nd : daemon; thread : clip_thread; clip_rx : list (str * Message) }.
Definition CLIP_CHANNEL : nat := 64.

Definition with_nd (n : node) (d : daemon) : node := mkNode d (thread n) (clip_rx n).
Notation mesh := (gmap str node).

Definition images (n : node) : bool := sync_images_on (d_controls (nd n)).

(** ** The channels *)

Definition set_to_clip (d : daemon) (cs : list ClipCommand) : daemon :=
  let s := d_sync d in
  with_sync d (mkSync (seq s) (last_synced s) (last_broadcast s) (filex s) (hist s) cs (clip_blobs s)).
Definition set_sink (d : daemon) (l : list bytes) : daemon :=
  with_sync d (with_filex (d_sync d) (set_clip_sink (filex (d_sync d)) (Some l))).
Definition set_reported (t : clip_thread) (l : list LocalClip) : clip_thread :=
  mkThread (desktop t) (last_token t) (suppress t) l (replied t).

(** ** Steps *)

(** A turn of the clipboard thread, if there is one: the next command, or a poll. *)
Definition thread_turn (i : str) (n : node) (types : option str) : node :=
  if dv_has_clip (dev i) then
    match to_clip (d_sync (nd n)) with
    | c :: cs => mkNode (set_to_clip (nd n) cs) (clip_step (thread n) (Command c) types (images n)) (clip_rx n)
    | [] => mkNode (nd n) (clip_step (thread n) Timeout types (images n)) (clip_rx n)
    end
  else n.

(** The sync task takes a local change. *)
Definition local_turn (i : str) (n : node) (now : Z) (io : hist_io) : node :=
  if sync_busy (d_sync (nd n)) then n
  else match reported (thread n) with
       | c :: cs => mkNode (dstep i (nd n) (DLocal now io c)) (set_reported (thread n) cs) (clip_rx n)
       | [] => n
       end.

(** The sync task takes a frame. *)
Definition remote_turn (i : str) (n : node) (io : hist_io) : node :=
  if sync_busy (d_sync (nd n)) then n
  else match clip_rx n with
       | (peer, msg) :: q => mkNode (dstep i (nd n) (DFrame io no_faults peer msg)) (thread n) q
       | [] => n
       end.

(** The image task takes an image that came as a blob. *)
Definition image_turn (i : str) (n : node) : node :=
  match clip_sink (filex (d_sync (nd n))) with
  | Some (png :: l) => with_nd n (dstep i (set_sink (nd n) l) (DBlob png))
  | _ => n
  end.

(** An upload goes on. *)
Definition upload_go (i : str) (n : node) (k : nat) (timed : bool) : node := with_nd n (dstep i (nd n) (DUpload k timed)).

(** The router of a device: a clipboard frame goes to the sync task, if there is
    room. *)
Definition router (i : str) (n : node) (io : hist_io) (fl : faults) (peer : str) (msg : Message) : option node :=
  match msg with
  | Clipboard _ _ _ =>
      if (length (clip_rx n) <? CLIP_CHANNEL)%nat
      then Some (mkNode (nd n) (thread n) (clip_rx n ++ [(peer, msg)])) else None
  | _ => Some (with_nd n (dstep i (nd n) (DFrame io fl peer msg)))
  end.

Inductive mesh_event :=
| MThread (i : str) (types : option str)
| MLocal (i : str) (now : Z) (io : hist_io)
| MRemote (i : str) (io : hist_io)
| MDeliver (i j : str) (io : hist_io) (fl : faults)
| MImage (i : str)
| MUpload (i : str) (k : nat) (timed_out : bool)
| MUser (i : str) (b : board)                  (* another program sets the clipboard *)
| MOther (i : str) (e : daemon_event).         (* requests, edits, connections *)

(** Frames, local changes, images and uploads come by the steps above only. *)
Definition other_event (e : daemon_event) : bool :=
  match e with DFrame _ _ _ _ | DLocal _ _ _ | DBlob _ | DUpload _ _ => false | _ => true end.

(** The link from [i] to [j] carries the next frame. *)
Definition deliver (m : mesh) (i j : str) (io : hist_io) (fl : faults) : mesh :=
  match m !! i ≫= λ n, bus_recv (d_bus (nd n)) j ≫= λ x, Some (n, x) with
  | Some (n, (msg, b)) =>
      let m1 := <[i := with_nd n (with_bus (nd n) b)]> m in
      match m1 !! j ≫= λ nj, router j nj io fl i msg with
      | Some nj => <[j := nj]> m1
      | None => m
      end
  | None => m
  end.

Definition mesh_step (m : mesh) (e : mesh_event) : mesh :=
  match e with
  | MThread i types => alter (λ n, thread_turn i n types) i m
  | MLocal i now io => alter (λ n, local_turn i n now io) i m
  | MRemote i io => alter (λ n, remote_turn i n io) i m
  | MDeliver i j io fl => deliver m i j io fl
  | MImage i => alter (image_turn i) i m
  | MUpload i k timed => alter (λ n, upload_go i n k timed) i m
  | MUser i b => alter (λ n, mkNode (nd n) (user_copies (thread n) b) (clip_rx n)) i m
  | MOther i e => if other_event e then alter (λ n, with_nd n (dstep i (nd n) e)) i m else m
  end.

Definition mesh_run (m : mesh) (es : list mesh_event) : mesh := foldl mesh_step m es.

(** ** Nothing echoes *)

(** The clipboard differs from what the thread saw last. *)
Definition unseen (i : str) (n : node) : bool :=
  dv_has_clip (dev i) && bool_decide (last_token (thread n) ≠ Some (token (snapshot (desktop (thread n)) None (images n)))).

(** Changes reported and not yet taken, and the one the thread has not seen. *)
Definition news (i : str) (n : node) : Z := zlen (reported (thread n)) + Z.b2z (unseen i n).

(** What the user changes: the clipboard, or whether images count. *)
Definition change (i : str) (e : mesh_event) : Z :=
  match e with
  | MUser j _ => if decide (i = j) then 1 else 0
  | MOther j (DControls _) => if decide (i = j) then 1 else 0
  | _ => 0
  end.
Definition changes (i : str) (es : list mesh_event) : Z := foldr (λ e k, change i e + k) 0 es.

(** The local changes that the sync task of [i] takes in a run. *)
Definition takes (n : node) : Z :=
  Z.b2z (negb (sync_busy (d_sync (nd n))) && negb (bool_decide (reported (thread n) = []))).
Definition hears (i : str) (m : mesh) (e : mesh_event) : Z :=
  match e with
  | MLocal j _ _ => if decide (i = j) then from_option takes 0 (m !! i) else 0
  | _ => 0
  end.
Fixpoint heard (i : str) (m : mesh) (es : list mesh_event) : Z :=
  match es with [] => 0 | e :: es => hears i m e + heard i (mesh_step m e) es end.

Lemma sync_remote_seq own max has ctl io s peer msg :
  seq (sync_remote image_size own max has ctl io s peer msg) = seq s.
Proof.
  destruct msg; try done. cbn [sync_remote]. destruct (_ || _); [done|]. destruct (negb has); [done|].
  destruct (find_map as_text _); [by repeat case_match|]. destruct (sync_images_on ctl); [|done].
  destruct (find_map as_image _); [|done]. by case_bool_decide.
Qed.

(** Only a local change is broadcast by the sync task, and it counts one. *)
Lemma dstep_seq i d e :
  match e with
  | DLocal now io c => 0 ≤ seq (d_sync d) → 0 ≤ seq (d_sync (dstep i d e)) ≤ seq (d_sync d) + 1
  | _ => seq (d_sync (dstep i d e)) = seq (d_sync d)
  end.
Proof.
  unfold dstep, daemon_step. destruct e as [io fl peer msg|st one text req|id n timed|now io c|png|k timed|id|id known n timed|c|b|reg];
    try done.
  - unfold route. destruct msg; try done; [apply sync_remote_seq|]. by case_match.
  - destruct req; try done; cbn [control_dispatch]; by repeat case_match.
  - unfold control_auth_finish. by destruct (authorize_finish _ _ _ _) as [[[] ?]|].
  - intros Hs. unfold sync_local. cbn [with_sync d_sync]. destruct (clipboard_paused _); [lia|]. case_match; [lia|].
    assert (0 ≤ u64_wrap (seq (d_sync d) + 1) ≤ seq (d_sync d) + 1) as Hw.
    { unfold u64_wrap. split; [apply Z.mod_pos_bound; done|apply Z.mod_le; [lia|done]]. }
    destruct c as [t|png]; cbn.
    + case_match; [cbn; lia|]. case_bool_decide; cbn; lia.
    + destruct (sync_images_on _); [|cbn; lia]. case_bool_decide; [cbn; lia|]. case_match; [cbn; lia|].
      cbn. lia.
  - unfold sync_blob. by case_match.
  - cbn. unfold upload_turn. destruct (clip_blobs _ !! k) as [[w u]|]; [|done]. by destruct (upload_step _ _ _).
  - by destruct (refresh_finish _ _ _ _ _).
Qed.

(** Only an edit of the configuration changes whether images count. *)
Lemma dstep_images i d e :
  match e with DControls _ => True | _ => sync_images_on (d_controls (dstep i d e)) = sync_images_on (d_controls d) end.
Proof.
  unfold dstep, daemon_step. destruct e as [io fl peer msg|st one text req|id n timed|now io c|png|k timed|id|id known n timed|c|b|reg];
    try done.
  - unfold route. destruct msg; try done. by case_match.
  - destruct req; try done; cbn [control_dispatch]; by repeat case_match.
  - unfold control_auth_finish. by destruct (authorize_finish _ _ _ _) as [[[] ?]|].
  - by destruct (refresh_finish _ _ _ _ _).
Qed.

(** A node whose thread and settings are the same has the same news. *)
Lemma news_same i n n' :
  thread n' = thread n → images n' = images n → news i n' = news i n.
Proof. intros E1 E2. unfold news, unseen. by rewrite E1, E2. Qed.

(** A device after a step in which its sync task took [h] changes and its user
    made [c]. *)
Definition counts (i : str) (n n' : node) (h c : Z) : Prop :=
  h + news i n' ≤ news i n + c ∧ 0 ≤ seq (d_sync (nd n')) ≤ seq (d_sync (nd n)) + h.

Lemma counts_refl i n h c : h = 0 → 0 ≤ c → 0 ≤ seq (d_sync (nd n)) → counts i n n h c.
Proof. unfold counts. lia. Qed.

(** Steps that neither take nor make a change. *)
Lemma counts_same i n n' :
  0 ≤ seq (d_sync (nd n)) → thread n' = thread n → images n' = images n → seq (d_sync (nd n')) = seq (d_sync (nd n)) →
  counts i n n' 0 0.
Proof. intros Hs E1 E2 E3. unfold counts. rewrite (news_same i n n'), E3 by done. lia. Qed.

Lemma poll_seen t types im :
  desktop (poll t types im) = desktop t ∧ last_token (poll t types im) = Some (token (snapshot (desktop t) None im)).
Proof.
  unfold poll, poll_with. change (token (snapshot (desktop t) types im)) with (token (snapshot (desktop t) None im)).
  case_bool_decide as E; [done|]. destruct (concealed _); [done|]. destruct (clip_of _); [|done]. by case_bool_decide.
Qed.

Lemma unseen_false i n :
  last_token (thread n) = Some (token (snapshot (desktop (thread n)) None (images n))) → unseen i n = false.
Proof. intros E. unfold unseen. rewrite bool_decide_eq_false_2 by (intros []; done). apply andb_false_r. Qed.

Lemma thread_turn_counts i n types : 0 ≤ seq (d_sync (nd n)) → counts i n (thread_turn i n types) 0 0.
Proof.
  intros Hs. unfold thread_turn. destruct (dv_has_clip (dev i)) eqn:Eh; [|by apply counts_refl].
  destruct (to_clip _) as [|c cs]; (split; [|cbn; lia]); unfold news; cbn [thread nd].
  - cbn [clip_step]. destruct (poll_seen (thread n) types (images n)) as [Ed El].
    rewrite unseen_false by (cbn; by rewrite Ed). rewrite poll_reported. unfold zlen. rewrite length_app.
    unfold poll_news, unseen. rewrite Eh.
    change (token (snapshot (desktop (thread n)) types (images n))) with (token (snapshot (desktop (thread n)) None (images n))).
    destruct (clip_of _); [|cbn; case_bool_decide; cbn; lia].
    case_bool_decide; cbn; [|lia]. case_match; cbn; lia.
  - destruct c as [txt|png|]; [rewrite unseen_false by done; cbn; destruct (unseen i n); cbn; lia..|rewrite Z.add_0_r; reflexivity].
Qed.

Lemma local_turn_counts i n now io :
  0 ≤ seq (d_sync (nd n)) → counts i n (local_turn i n now io) (takes n) 0.
Proof.
  intros Hs. unfold local_turn, takes. destruct (sync_busy _); [by apply counts_refl|].
  destruct (reported (thread n)) as [|c cs] eqn:Er; [by apply counts_refl|].
  rewrite bool_decide_eq_false_2 by done. unfold counts, news. cbn [negb andb Z.b2z thread nd set_reported reported]. rewrite Er.
  assert (unseen i (mkNode (dstep i (nd n) (DLocal now io c)) (set_reported (thread n) cs) (clip_rx n)) = unseen i n) as -> by done.
  pose proof (dstep_seq i (nd n) (DLocal now io c) Hs) as Hq. unfold zlen. cbn [length]. lia.
Qed.

(** A step of the daemon that is no local change and no edit. *)
Lemma dstep_counts i n q e :
  0 ≤ seq (d_sync (nd n)) → match e with DLocal _ _ _ | DControls _ => False | _ => True end →
  counts i n (mkNode (dstep i (nd n) e) (thread n) q) 0 0.
Proof.
  intros Hs He. pose proof (dstep_seq i (nd n) e) as Hq. pose proof (dstep_images i (nd n) e) as Hi.
  by apply counts_same; try done; destruct e.
Qed.

Lemma remote_turn_counts i n io : 0 ≤ seq (d_sync (nd n)) → counts i n (remote_turn i n io) 0 0.
Proof.
  intros Hs. unfold remote_turn. destruct (sync_busy _); [by apply counts_refl|].
  destruct (clip_rx n) as [|[peer msg] q]; [by apply counts_refl|]. by apply dstep_counts.
Qed.

Lemma image_turn_counts i n : 0 ≤ seq (d_sync (nd n)) → counts i n (image_turn i n) 0 0.
Proof.
  intros Hs. unfold image_turn. destruct (clip_sink _) as [[|png l]|]; try by apply counts_refl.
  apply counts_same; [done..|]. apply (dstep_seq i (set_sink (nd n) l) (DBlob png)).
Qed.

Lemma router_cases i n io fl peer msg n' :
  router i n io fl peer msg = Some n' →
  (∃ s o es, msg = Clipboard s o es) ∧ n' = mkNode (nd n) (thread n) (clip_rx n ++ [(peer, msg)]) ∨
  n' = with_nd n (dstep i (nd n) (DFrame io fl peer msg)).
Proof.
  unfold router. destruct msg; try (intros Hr; right; congruence). case_match; [|done].
  intros Hr. left. split; [eauto|congruence].
Qed.

Lemma router_counts i n io fl peer msg n' :
  0 ≤ seq (d_sync (nd n)) → router i n io fl peer msg = Some n' → counts i n n' 0 0.
Proof. intros Hs [[_ ->]| ->]%router_cases; [by apply counts_same|by apply dstep_counts]. Qed.

Lemma user_counts i n b : 0 ≤ seq (d_sync (nd n)) → counts i n (mkNode (nd n) (user_copies (thread n) b) (clip_rx n)) 0 1.
Proof.
  intros Hs. unfold counts, news. cbn [thread nd user_copies reported]. destruct (unseen i _), (unseen i n); cbn; lia.
Qed.

Lemma other_counts i n e :
  0 ≤ seq (d_sync (nd n)) → other_event e = true →
  counts i n (with_nd n (dstep i (nd n) e)) 0 (change i (MOther i e)).
Proof.
  intros Hs Ho. destruct e as [| | | | | | | |c| |]; try done; cbn [change]; try by apply dstep_counts.
  rewrite decide_True by done. unfold counts, news, with_nd. cbn [thread nd].
  rewrite (dstep_seq i (nd n) (DControls c)). destruct (unseen i _), (unseen i n); cbn; lia.
Qed.

(** A delivery takes from one device's bus and gives to another's daemon. *)
Lemma deliver_counts i m j k io fl n :
  m !! i = Some n → 0 ≤ seq (d_sync (nd n)) →
  ∃ n', deliver m j k io fl !! i = Some n' ∧ counts i n n' 0 0.
Proof.
  intros Hn Hs. unfold deliver. destruct (m !! j) as [nj|] eqn:Ej; cbn [mbind option_bind]; [|exists n; by split; [|apply counts_refl]].
  destruct (bus_recv _ _) as [[msg b]|]; cbn [mbind option_bind]; [|exists n; by split; [|apply counts_refl]].
  set (m1 := <[j := _]> m).
  assert (∃ n1, m1 !! i = Some n1 ∧ thread n1 = thread n ∧ images n1 = images n ∧
    seq (d_sync (nd n1)) = seq (d_sync (nd n))) as (n1 & E1 & T1 & I1 & S1).
  { subst m1. destruct (decide (i = j)) as [->|Hne].
    - rewrite lookup_insert_eq. eexists. split; [done|]. by replace nj with n by congruence.
    - rewrite lookup_insert_ne by congruence. by exists n. }
  destruct (m1 !! k ≫= _) as [nk|] eqn:Ek; [|exists n; by split; [|apply counts_refl]].
  apply bind_Some in Ek as (n0 & Ek & Er).
  destruct (decide (i = k)) as [->|Hne].
  - rewrite lookup_insert_eq. eexists. split; [done|]. replace n0 with n1 in Er by congruence.
    apply router_counts in Er as [C1 C2]; [|by rewrite S1]. rewrite (news_same k n n1) in C1 by done. rewrite S1 in C2. by split.
  - rewrite lookup_insert_ne by congruence. exists n1. split; [done|]. by apply counts_same.
Qed.

(** A step of one device, seen from any. *)
Lemma alter_counts (i j : str) (f : node → node) (m : mesh) n h c :
  m !! i = Some n → 0 ≤ seq (d_sync (nd n)) → 0 ≤ c →
  (i = j → counts i n (f n) h c) →
  ∃ n', alter f j m !! i = Some n' ∧
    counts i n n' (if decide (i = j) then h else 0) (if decide (i = j) then c else 0).
Proof.
  intros Hn Hs Hc Hf. destruct (decide (i = j)) as [<-|Hne].
  - rewrite lookup_alter_eq, Hn. eexists. split; [done|]. by apply Hf.
  - rewrite lookup_alter_ne by congruence. exists n. split; [done|]. by apply counts_refl.
Qed.

(** One step, seen from one device. *)
Lemma mesh_step_counts i m e n :
  m !! i = Some n → 0 ≤ seq (d_sync (nd n)) →
  ∃ n', mesh_step m e !! i = Some n' ∧ counts i n n' (hears i m e) (change i e).
Proof.
  intros Hn Hs.
  assert (∀ (f : node → node) (j : str), (i = j → counts i n (f n) 0 0) → ∃ n', alter f j m !! i = Some n' ∧ counts i n n' 0 0) as Hquiet.
  { intros f j Hf. destruct (alter_counts i j f m n 0 0 Hn Hs ltac:(lia) Hf) as (n' & E & C).
    exists n'. by destruct (decide (i = j)). }
  destruct e as [j types|j now io|j io|j k io fl|j|j k timed|j b|j e]; cbn [mesh_step hears change].
  - apply Hquiet. intros ->. by apply thread_turn_counts.
  - rewrite Hn. destruct (alter_counts i j (λ n, local_turn j n now io) m n _ 0 Hn Hs ltac:(lia)
      (λ E, ltac:(subst j; exact (local_turn_counts i n now io Hs)))) as (n' & E & C).
    exists n'. by destruct (decide (i = j)).
  - apply Hquiet. intros ->. by apply remote_turn_counts.
  - by apply deliver_counts.
  - apply Hquiet. intros ->. by apply image_turn_counts.
  - apply Hquiet. intros ->. by apply dstep_counts.
  - destruct (alter_counts i j (λ n, mkNode (nd n) (user_copies (thread n) b) (clip_rx n)) m n 0 1 Hn Hs ltac:(lia)
      (λ _, user_counts i n b Hs)) as (n' & E & C).
    exists n'. by destruct (decide (i = j)).
  - destruct (other_event e) eqn:Eo; [|exists n; split; [done|]; apply counts_refl; by destruct e].
    destruct (alter_counts i j (λ n, with_nd n (dstep j (nd n) e)) m n 0 (change j (MOther j e)) Hn Hs) as (n' & E & C);
      [destruct e; cbn; try case_decide; lia|intros ->; by apply other_counts|].
    exists n'. split; [done|]. destruct (decide (i = j)) as [->|Hne]; [|by destruct e].
    destruct e; try done. cbn [change] in C. by rewrite decide_True in C.
Qed.


(** ** An upload holds the sync task *)

(** While a peer has not acknowledged the image that the sync task is sending, and
    the timeout has not passed, the device takes no change of its own user and no
    update of any other device: the task waits for the upload, and the upload for
    the acknowledgement. *)
Theorem upload_holds_sync i n k png ps tx id now io :
  clip_blobs (d_sync (nd n)) !! k = Some (BySync, mkUpload png ps (Some (tx, id, []))) →
  id ∈ acks (filex (d_sync (nd n))) →
  local_turn i n now io = n ∧ remote_turn i n io = n ∧ upload_go i n k false = n.
Proof.
  intros Hk Hid. assert (sync_busy (d_sync (nd n)) = true) as Hb.
  { apply existsb_exists. exists (BySync, mkUpload png ps (Some (tx, id, []))). split; [|done].
    by eapply list_elem_of_In, list_elem_of_lookup_2. }
  unfold local_turn, remote_turn. rewrite Hb. split_and!; [done..|].
  unfold upload_go, dstep, daemon_step, upload_turn. rewrite Hk. unfold upload_step. cbn [up_stream].
  rewrite bool_decide_eq_false_2 by (intros Hn; by apply Hn). cbn [orb].
  rewrite list_insert_id by done. by destruct n as [[? [] ? ?] ?].
Qed.
End mesh.

(** ** A mesh of two *)

#[export] Existing Instance sample_hashes.
#[export] Existing Instance sample_desktop.
#[export] Existing Instance entries_serde.

Definition sample_device (_ : str) : device := mkDevice 100 true 1 sample_info false Never.

(** Connected to [peer], nothing copied yet. *)
Definition sample_node (peer : str) : node :=
  let b := mkBus {[ peer := 0%nat ]} {[ 0%nat := mkChan [] 4 false ]} in
  let x := mkXfer b [] Never 1 ∅ ∅ ∅ (Some []) sample_fs [] in
  mkNode (mkDaemon running (sync_start 1000 x sample_history) (AuthManager_new b None) [])
    (clip_start (None, None) None true) [].
Definition sample_mesh : gmap str node := {[ lit "a" := sample_node (lit "b"); lit "b" := sample_node (lit "a") ]}.
Definition sample_run : gmap str node → list mesh_event → gmap str node := mesh_run sample_size sample_device.

(** The turns that take a copy on [i] to the clipboard of [j]. *)
Definition sync_turns (i j : str) : list mesh_event :=
  [MThread i None; MLocal i 2000 good_io; MDeliver i j good_io no_faults; MRemote j good_io; MThread j None].
Definition copies (i : str) (t : str) : mesh_event := MUser i (Some t, None).

