(* ===== verification/Quiesce.v ===== *)
(** * Quiesce: a mesh comes to rest

    Everything that is still to happen in a mesh of [Mesh] without new copies,
    requests and edits is counted by a potential: messages on the links, frames
    for the sync tasks, uploads, commands for the clipboard threads, images to
    apply, changes reported or not yet seen.  Every step that does anything makes
    it smaller.

    The theorem: a run takes at most as many steps that do anything as the
    potential of its start, and it is stuck only when nothing is left to
    do. *)
From S2P Require Import Prelude Text Crypto Proto Frame Store Samples Net Peers Config Bus FileXfer Trust Auth History Clipboard Sync State Control Daemon Mesh.

#[local] Open Scope nat_scope.

(** ** Sums over maps *)

Definition msum {K A} `{Countable K} (f : K → A → nat) (m : gmap K A) : nat :=
  sum_list_with (uncurry f) (map_to_list m).

Lemma msum_insert {K A} `{Countable K} (f : K → A → nat) (m : gmap K A) k x :
  m !! k = None → msum f (<[k := x]> m) = f k x + msum f m.
Proof. intros Hk. unfold msum. by rewrite map_to_list_insert. Qed.

(** Replacing an entry. *)
Lemma msum_replace {K A} `{Countable K} (f : K → A → nat) (m : gmap K A) k x y :
  m !! k = Some y → msum f (<[k := x]> m) + f k y = msum f m + f k x.
Proof.
  intros Hk. rewrite <- (insert_delete_id m k y) at 2 by done. rewrite <- insert_delete_eq.
  rewrite !msum_insert by apply lookup_delete_eq. lia.
Qed.

(** ** What the bus carries *)

(** Answers are not answered; a frame of another kind may have an
    acknowledgement and an image to apply; a clipboard frame goes through one more
    channel. *)
Definition weight (m : Message) : nat :=
  match m with BlobAck _ _ _ | AuthReply _ _ => 1 | Clipboard _ _ _ => 5 | _ => 4 end.
Definition rx_weight (m : Message) : nat := match m with Clipboard _ _ _ => 4 | _ => weight m end.
Definition bus_weight (b : PeerBus) : nat := msum (λ _ c, sum_list_with weight (queue c)) (chans b).

Lemma chan_try_send_weight b tx m : bus_weight (chan_try_send b tx m).2 ≤ bus_weight b + weight m.
Proof.
  unfold chan_try_send. destruct (chans b !! tx) as [c|] eqn:E; cbn; [|lia].
  destruct (try_send c m) as [c'|] eqn:Et; cbn; [|lia]. unfold bus_weight. cbn [chans].
  pose proof (msum_replace (λ _ c, sum_list_with weight (queue c)) (chans b) tx c' c E) as Hr. cbn beta in Hr.
  unfold try_send in Et. destruct (closed c); [done|]. destruct (_ <? _); [|done]. injection Et as <-.
  cbn [queue] in Hr. rewrite sum_list_with_app in Hr. cbn in Hr. lia.
Qed.

Lemma send_to_weight b id m :
  bus_weight (send_to b id m).2 ≤ bus_weight b + weight m ∧ senders (send_to b id m).2 = senders b.
Proof.
  unfold send_to. destruct (sender b id) as [tx|]; [|split; [cbn; lia|done]].
  split; [apply chan_try_send_weight|apply chan_try_send_senders].
Qed.

Lemma broadcast_weight b m :
  bus_weight (broadcast b m None) ≤ bus_weight b + base.size (senders b) * weight m ∧
  senders (broadcast b m None) = senders b.
Proof.
  unfold broadcast. split; [|apply send_all_senders].
  set (l := map snd _). assert (length l ≤ base.size (senders b)) as Hl.
  { unfold l. rewrite length_map, <- length_map_to_list. apply length_filter. }
  clearbody l. revert Hl. generalize (base.size (senders b)). intros k Hk.
  revert b k Hk. induction l as [|tx l IH]; intros b k Hk; cbn [foldl length] in *; [lia|].
  pose proof (chan_try_send_weight b tx m). destruct k as [|k]; [lia|].
  specialize (IH (chan_try_send b tx m).2 k). lia.
Qed.

Lemma bus_recv_weight b id m b' :
  bus_recv b id = Some (m, b') → bus_weight b' + weight m = bus_weight b ∧ senders b' = senders b.
Proof.
  unfold bus_recv. destruct (senders b !! id) as [tx|]; cbn; [|done]. destruct (chans b !! tx) as [c|] eqn:E; cbn; [|done].
  destruct (queue c) as [|x q] eqn:Eq; [done|]. intros [= <- <-]. split; [|done]. unfold bus_weight. cbn [chans].
  pose proof (msum_replace (λ _ c, sum_list_with weight (queue c)) (chans b) tx (mkChan q (cap c) (closed c)) c E) as Hr.
  cbn beta in Hr. rewrite Eq in Hr. cbn in Hr. lia.
Qed.

Section quiesce.
Context `{Hashes, Desktop, Serde (list Entry)}.
Variable image_size : bytes → option (Z * Z).
Variable dev : str → device.
Notation dstep := (dstep image_size dev).
Notation mesh_step := (mesh_step image_size dev).
Notation mesh_run := (mesh_run image_size dev).

(** ** What a daemon has still to do *)

Definition sink_of (d : daemon) : list bytes := default [] (clip_sink (filex (d_sync d))).
Definition inbox (d : daemon) : nat :=
  bus_weight (d_bus d) + length (to_clip (d_sync d)) + 2 * length (sink_of d).

(** The blob of an image for one peer, and what an upload has left. *)
Definition blob_cost (png : bytes) : nat := 2 + 6 * (2 + length (mem_pieces png)).
#[local] Arguments blob_cost : simpl never.
Definition stream_load (s : option (nat * Z * list Message)) : nat :=
  match s with Some (_, _, fs) => 1 + 6 * length fs | None => 0 end.
Definition upload_load (u : upload) : nat :=
  1 + length (up_peers u) * blob_cost (up_png u) + stream_load (up_stream u).
Definition uploads_load (d : daemon) : nat := sum_list_with (upload_load ∘ snd) (clip_blobs (d_sync d)).

(** What a daemon's connections and settings are; its tasks do not change it. *)
Definition settled (d d' : daemon) : Prop :=
  senders (d_bus d') = senders (d_bus d) ∧ d_controls d' = d_controls d.
#[local] Instance settled_preorder : PreOrder settled.
Proof. split; [by split|]. intros a b c [H1' H2'] [H3' H4']. split; congruence. Qed.

(** *** Frames *)

Definition xload (x : FileXfer) : nat := bus_weight (bus x) + 2 * length (default [] (clip_sink x)).

Lemma ack_load x peer id ok detail :
  xload (ack x peer id ok detail) ≤ xload x + 1 ∧ senders (bus (ack x peer id ok detail)) = senders (bus x).
Proof.
  unfold ack, xload. cbn [set_bus bus clip_sink].
  destruct (send_to_weight (bus x) peer (BlobAck id ok detail)) as [Hw ->]. cbn [weight] in Hw. split; [lia|done].
Qed.

Lemma on_start_load io ps x peer id name size purpose :
  xload (on_start io ps x peer id name size purpose) ≤ xload x + 1 ∧
  senders (bus (on_start io ps x peer id name size purpose)) = senders (bus x).
Proof.
  unfold on_start, reject. destruct (_ <=? _); [apply ack_load|]. destruct purpose.
  - destruct (safe_blob_name name); [|apply ack_load]. destruct (io_mkdir io); [apply ack_load|].
    destruct (io_create io); [apply ack_load|]. destruct (fs_create _ _). split; [unfold xload; cbn; lia|done].
  - destruct (clip_sink x) eqn:E; [|apply ack_load]. destruct (_ <? _)%Z; [apply ack_load|].
    split; [unfold xload; cbn; lia|done].
Qed.

Lemma on_chunk_load io x peer id data :
  xload (on_chunk io x peer id data) ≤ xload x + 1 ∧ senders (bus (on_chunk io x peer id data)) = senders (bus x).
Proof.
  unfold on_chunk, reject. destruct (incoming x !! (peer, id)) as [inc|]; [|split; [lia|done]].
  destruct (inc_sink inc); [destruct (io_write io)|destruct (_ <? _)%Z];
    try (eapply (ack_load (set_disk (set_incoming x _) _))); try (eapply (ack_load (set_incoming x _)));
    (split; [unfold xload; cbn; lia|done]).
Qed.

Lemma cleanup_load x s : xload (cleanup x s) = xload x ∧ bus (cleanup x s) = bus x.
Proof. by destruct s. Qed.

Lemma on_end_load io ps x peer id sha :
  xload (on_end io ps x peer id sha) ≤ xload x + 3 ∧ senders (bus (on_end io ps x peer id sha)) = senders (bus x).
Proof.
  unfold on_end. destruct (incoming x !! (peer, id)) as [inc|]; [|split; [lia|done]].
  set (x1 := set_disk (set_incoming x _) _).
  assert (xload x1 = xload x ∧ bus x1 = bus x) as [L1 B1] by done. clearbody x1. rewrite <- L1, <- B1. clear L1 B1 x.
  unfold reject. case_bool_decide.
  { destruct (cleanup_load x1 (inc_sink inc)) as [L2 B2].
    destruct (ack_load (cleanup x1 (inc_sink inc)) peer id false (lit "sha256 mismatch")) as [L3 S3].
    rewrite S3, B2. split; [lia|done]. }
  destruct (_ && _).
  { destruct (cleanup_load x1 (inc_sink inc)) as [L2 B2].
    destruct (ack_load (cleanup x1 (inc_sink inc)) peer id false (lit "size mismatch")) as [L3 S3].
    rewrite S3, B2. split; [lia|done]. }
  destruct (inc_sink inc) as [tmp dir ino pos|buf].
  - destruct (match io_rename io with Some e => Err e | None => _ end) as [d|e].
    + destruct (ack_load (set_disk x1 d) peer id true (inc_name inc)) as [L3 S3]. split; [|exact S3].
      etrans; [exact L3|]. change (xload (set_disk x1 d)) with (xload x1). lia.
    + destruct (ack_load (set_disk x1 (fs_remove (disk x1) tmp)) peer id false (lit "rename failed: " ++ e)) as [L3 S3].
      split; [|exact S3]. etrans; [exact L3|]. change (xload (set_disk x1 _)) with (xload x1). lia.
  - set (x2 := set_clip_sink x1 _).
    assert (xload x2 ≤ xload x1 + 2) as L2.
    { unfold x2, xload. destruct (clip_sink x1); cbn; rewrite ?length_app; cbn; lia. }
    destruct (ack_load x2 peer id true (lit "clipboard-image")) as [L3 S3]. split; [lia|exact S3].
Qed.

Lemma handle_inbound_load io ps x peer msg :
  xload (handle_inbound io ps x peer msg) < xload x + rx_weight msg ∧
  senders (bus (handle_inbound io ps x peer msg)) = senders (bus x).
Proof.
  destruct msg; cbn [handle_inbound rx_weight weight]; try (split; [lia|done]).
  - destruct (on_start_load io ps x peer id name size purpose). split; [lia|done].
  - destruct (on_chunk_load io x peer id data). split; [lia|done].
  - destruct (on_end_load io ps x peer id sha256). split; [lia|done].
  - case_decide; split; unfold xload; cbn; try done; lia.
Qed.

Lemma sync_remote_load own max has ctl io s peer msg :
  filex (sync_remote image_size own max has ctl io s peer msg) = filex s ∧
  clip_blobs (sync_remote image_size own max has ctl io s peer msg) = clip_blobs s ∧
  length (to_clip (sync_remote image_size own max has ctl io s peer msg)) ≤ length (to_clip s) + 1.
Proof.
  destruct (sync_remote_quiet image_size own max has ctl io s peer msg) as (-> & -> & _). split_and!; [done..|].
  destruct msg; cbn [sync_remote]; try lia. destruct (_ || _); [lia|]. destruct (negb has); [lia|].
  destruct (find_map as_text _).
  - destruct (_ <? _)%Z; [lia|]. case_bool_decide; cbn; rewrite ?length_app; cbn; lia.
  - destruct (sync_images_on ctl); [|lia]. destruct (find_map as_image _); [|lia].
    case_bool_decide; cbn; rewrite ?length_app; cbn; lia.
Qed.

Lemma auth_inbound_load mine a peer msg :
  bus_weight (au_bus (auth_inbound mine a peer msg)) < bus_weight (au_bus a) + rx_weight msg ∧
  senders (au_bus (auth_inbound mine a peer msg)) = senders (au_bus a).
Proof.
  destruct msg; cbn [auth_inbound rx_weight weight]; try (split; [lia|done]).
  - unfold auth_send. destruct (send_to_weight (au_bus a) peer (AuthReply true mine)) as [Hw Hs].
    destruct (send_to _ _ _) as [q b]. cbn [snd weight] in *.
    destruct mutual; [|cbn; split; [lia|done]]. unfold recorded. destruct (record _ _ _ _); cbn; (split; [lia|done]).
  - unfold settle. destruct (pending a !! peer); cbn; (split; [lia|done]).
Qed.

Lemma auth_frame_load mine d peer msg :
  let d' := with_auth d (auth_inbound mine (shared_auth d) peer msg) in
  bus_weight (d_bus d') < bus_weight (d_bus d) + rx_weight msg ∧ senders (d_bus d') = senders (d_bus d).
Proof. exact (auth_inbound_load mine (shared_auth d) peer msg). Qed.

(** A frame that is handled leaves less to do than it was. *)
Lemma frame_load i d io fl peer msg :
  let d' := dstep i d (DFrame io fl peer msg) in
  settled d d' ∧ inbox d' < inbox d + rx_weight msg ∧ uploads_load d' = uploads_load d.
Proof.
  intros d'. subst d'. unfold Mesh.dstep, daemon_step, route, inbox, uploads_load, sink_of, settled, d_bus.
  destruct msg; try (cbn [rx_weight weight]; split_and!; [done|done|lia|done]);
    cbn [with_sync d_sync d_bus d_controls with_filex filex clip_blobs to_clip];
    try (match goal with |- context [handle_inbound _ _ _ _ ?msg] =>
           destruct (handle_inbound_load fl (d_registry d) (filex (d_sync d)) peer msg) as [Hx Hs]; unfold xload in Hx;
           split_and!; [exact Hs|done|lia|done] end).
  - destruct (sync_remote_load i (dv_max_text (dev i)) (dv_has_clip (dev i)) (d_controls d) io (d_sync d) peer
      (Clipboard seq origin_id entries)) as (-> & -> & Hl). split_and!; [done|done|cbn [rx_weight]; lia|done].
  - case_match; cbn; (split_and!; [done|done|lia|done]).
  - destruct (auth_frame_load (dv_mine (dev i)) d peer (AuthRequest mutual info)) as [Hw Hs].
    split_and!; [exact Hs|done|unfold d_bus in Hw; cbn in Hw |- *; lia|done].
  - destruct (auth_frame_load (dv_mine (dev i)) d peer (AuthReply ok info)) as [Hw Hs].
    split_and!; [exact Hs|done|unfold d_bus in Hw; cbn in Hw |- *; lia|done].
Qed.

(** *** Local changes *)

(** What a local change can start: a message for every connection, or an
    upload. *)
Definition local_cost (k : nat) (c : LocalClip) : nat := 2 + k * (5 + blob_cost (clip_bytes c)).

Lemma send_clip_image_load x png :
  upload_load (send_clip_image x png) = 1 + base.size (senders (bus x)) * blob_cost png.
Proof.
  unfold upload_load, send_clip_image. cbn [up_peers up_png up_stream stream_load]. unfold connected_ids.
  rewrite length_map, length_map_to_list. lia.
Qed.

Lemma local_load i d now io c :
  let d' := dstep i d (DLocal now io c) in
  settled d d' ∧ inbox d' + uploads_load d' < inbox d + uploads_load d + local_cost (base.size (senders (d_bus d))) c.
Proof.
  intros d'. subst d'. unfold Mesh.dstep, daemon_step, inbox, uploads_load, sink_of, settled, d_bus, local_cost.
  cbn [with_sync d_sync d_controls]. set (s := d_sync d). set (k := base.size _).
  assert (k * 5 + k * blob_cost (clip_bytes c) = k * (5 + blob_cost (clip_bytes c))) as Hk by lia.
  set (w := k * (5 + _)) in *. clearbody w. set (l := k * blob_cost _) in *. unfold sync_local.
  destruct (clipboard_paused _); [split; [done|lia]|]. case_match; [split; [done|lia]|].
  assert (∀ s1 e, filex s1 = filex s → to_clip s1 = to_clip s → clip_blobs s1 = clip_blobs s →
    let s2 := broadcast_clip i s1 e in
    senders (bus (filex s2)) = senders (bus (filex s)) ∧ to_clip s2 = to_clip s ∧ clip_blobs s2 = clip_blobs s ∧
    clip_sink (filex s2) = clip_sink (filex s) ∧ bus_weight (bus (filex s2)) ≤ bus_weight (bus (filex s)) + k * 5) as Hb.
  { intros s1 e E1 E2 E3 s2. subst s2. cbn. rewrite E1, E2, E3.
    destruct (broadcast_weight (bus (filex s)) (Clipboard (u64_wrap (seq s1 + 1)) i [e])) as [Hw Hs].
    split_and!; [exact Hs|done..|exact Hw]. }
  destruct c as [t|png].
  - cbn [set_hist set_last_broadcast last_synced]. case_match; [split; [done|cbn; lia]|].
    case_bool_decide; [split; [done|cbn; lia]|].
    match goal with |- context [broadcast_clip i ?s1 ?e] => destruct (Hb s1 e) as (-> & -> & -> & -> & Hw) end; try done.
    split; [done|]. lia.
  - destruct (sync_images_on _); [|split; [done|cbn; lia]]. cbn [set_hist set_last_broadcast last_synced].
    case_bool_decide; [split; [done|cbn; lia]|]. case_match.
    + match goal with |- context [broadcast_clip i ?s1 ?e] => destruct (Hb s1 e) as (-> & -> & -> & -> & Hw) end; try done.
      split; [done|]. lia.
    + cbn [filex set_synced set_last_broadcast set_hist to_clip clip_blobs seq last_broadcast hist].
      rewrite sum_list_with_app. cbn [sum_list_with compose snd]. unfold compose. cbn [snd].
      rewrite send_clip_image_load. fold k. unfold l in Hk. cbn [clip_bytes] in Hk. split; [done|]. lia.
Qed.

(** *** Uploads *)

(** The next frame does not fit, and nobody has closed the channel. *)
Definition upload_blocked (b : PeerBus) (u : upload) : bool :=
  match up_stream u with
  | Some (tx, _, f :: _) =>
      match chans b !! tx with Some c => negb (closed c) && negb (chan_try_send b tx f).1 | None => false end
  | _ => false
  end.

Lemma upload_blocked_waits timed x u : upload_blocked (bus x) u = true → upload_step timed x u = (x, Some u).
Proof.
  unfold upload_blocked, upload_step. destruct (up_stream u) as [[[tx id] [|f fs]]|]; try done.
  destruct (chans (bus x) !! tx) as [c|]; [|done]. destruct (closed c); [done|].
  by destruct (chan_try_send (bus x) tx f) as [[] b].
Qed.

Lemma upload_step_sink timed x u : clip_sink (upload_step timed x u).1 = clip_sink x.
Proof. unfold upload_step. repeat case_match; by simplify_eq. Qed.

Lemma upload_step_load timed x u :
  let r := upload_step timed x u in
  senders (bus r.1) = senders (bus x) ∧
  (r = (x, Some u) ∨ bus_weight (bus r.1) + from_option upload_load 0 r.2 < bus_weight (bus x) + upload_load u) ∧
  (timed = true → r = (x, Some u) → upload_blocked (bus x) u = true).
Proof.
  intros r. subst r. unfold upload_step, upload_load, upload_blocked.
  destruct (up_stream u) as [[[tx id] [|f fs]]|] eqn:Es; cbn [stream_load length].
  - destruct (_ || _) eqn:E; cbn; (split_and!; [done|..]).
    + right. lia.
    + intros _ [= _ E2]. by rewrite <- E2 in Es.
    + by left.
    + intros ->. done.
  - destruct (chans (bus x) !! tx) as [c|] eqn:Ec.
    2: { cbn. split_and!; [done|right; lia|]. intros _ [= _ E2]. by rewrite <- E2 in Es. }
    destruct (closed c).
    { cbn. split_and!; [done|right; lia|]. intros _ [= _ E2]. by rewrite <- E2 in Es. }
    pose proof (chan_try_send_weight (bus x) tx f) as Hw. pose proof (chan_try_send_senders (bus x) tx f) as Hs.
    assert (weight f ≤ 5) by (destruct f; cbn; lia).
    destruct (chan_try_send (bus x) tx f) as [[] b]; cbn [fst snd] in *; cbn.
    + split_and!; [done|right; lia|]. intros _ [= _ E2]. rewrite <- E2 in Es. cbn in Es. injection Es as Es.
      apply (f_equal length) in Es. cbn in Es. lia.
    + split_and!; [done|by left|done].
  - destruct (up_peers u) as [|p ps] eqn:Ep; cbn [length].
    + cbn. split_and!; [done|right; lia|done].
    + destruct (sender (bus x) p) as [tx|].
      * cbn [fst snd from_option option_rect up_peers up_png up_stream stream_load start_ack bus].
        unfold blob_frames. cbn [length]. rewrite length_app, length_map. cbn [length]. unfold blob_cost.
        split_and!; [done|right; lia|]. intros _ [= E1 E2]. by rewrite <- E2 in Es.
      * cbn. split_and!; [done|right; unfold blob_cost; lia|]. intros _ [= E2]. rewrite <- E2 in Ep. cbn in Ep.
        apply (f_equal length) in Ep. cbn in Ep. lia.
Qed.

Lemma sum_replace {A} (f : A → nat) l k (x y : A) :
  l !! k = Some y → sum_list_with f (<[k := x]> l) + f y = sum_list_with f l + f x.
Proof.
  intros Hk. rewrite <- (take_drop_middle _ _ _ Hk) at 2. rewrite insert_take_drop by (by apply lookup_lt_Some in Hk).
  rewrite !sum_list_with_app. cbn. lia.
Qed.
Lemma sum_delete {A} (f : A → nat) l k (y : A) : l !! k = Some y → sum_list_with f (delete k l) + f y = sum_list_with f l.
Proof.
  intros Hk. rewrite <- (take_drop_middle _ _ _ Hk) at 2. rewrite delete_take_drop.
  rewrite !sum_list_with_app. cbn. lia.
Qed.

(** A turn of an upload leaves the daemon as it is, or less to do. *)
Lemma upload_turn_load i d k timed :
  let d' := dstep i d (DUpload k timed) in
  settled d d' ∧ (d' = d ∨ inbox d' + uploads_load d' < inbox d + uploads_load d) ∧
  ∀ x, clip_blobs (d_sync d) !! k = Some x → timed = true → d' = d → upload_blocked (d_bus d) x.2 = true.
Proof.
  intros d'. subst d'. unfold Mesh.dstep, daemon_step, settled. cbn [with_sync d_controls].
  unfold upload_turn. destruct (clip_blobs (d_sync d) !! k) as [[w u]|] eqn:Ek.
  2: { split; [done|]. split; [left; by destruct d|done]. }
  destruct (upload_step_load timed (filex (d_sync d)) u) as (Hs & Hl & Hb).
  pose proof (upload_step_sink timed (filex (d_sync d)) u) as Hk.
  destruct (upload_step timed (filex (d_sync d)) u) as [x u']. cbn [fst snd] in *. split; [done|]. split.
  - destruct Hl as [[= -> ->]|Hl].
    + left. rewrite list_insert_id by done. by destruct d as [? [] ? ?].
    + right. unfold inbox, uploads_load, sink_of, d_bus. cbn. rewrite Hk.
      assert (sum_list_with (upload_load ∘ snd) (match u' with Some u' => <[k := (w, u')]> (clip_blobs (d_sync d)) | None => delete k (clip_blobs (d_sync d)) end)
        + upload_load u = sum_list_with (upload_load ∘ snd) (clip_blobs (d_sync d)) + from_option upload_load 0 u') as E.
      { destruct u' as [u'|]; cbn.
        - by apply (sum_replace (upload_load ∘ snd) _ k (w, u') (w, u)).
        - pose proof (sum_delete (upload_load ∘ snd) _ k (w, u) Ek) as E. cbn in E. lia. }
      lia.
  - intros y [= <-] -> E. apply Hb; [done|]. cbn [snd].
    assert (filex (d_sync d) = x) as <-.
    { apply (f_equal (λ d, filex (d_sync d))) in E. cbn in E. congruence. }
    apply (f_equal (λ d, clip_blobs (d_sync d))) in E. cbn in E. destruct u' as [u'|].
    + apply (f_equal (lookup k)) in E. rewrite list_lookup_insert_eq, Ek in E by (by apply lookup_lt_Some in Ek). congruence.
    + apply (f_equal length) in E. rewrite length_delete in E by eauto. apply lookup_lt_Some in Ek. lia.
Qed.

(** ** What a device has still to do *)

Notation cost d := (local_cost (base.size (senders (d_bus d)))).

(** The change the clipboard thread has not seen. *)
Definition fresh (i : str) (n : node) : nat :=
  if unseen dev i n then 1 + from_option (cost (nd n)) 0 (clip_of (snapshot (desktop (thread n)) None (images n))) else 0.

Definition rx_load (n : node) : nat := sum_list_with (rx_weight ∘ snd) (clip_rx n).
Definition load (i : str) (n : node) : nat :=
  inbox (nd n) + uploads_load (nd n) + rx_load n + sum_list_with (cost (nd n)) (reported (thread n)) + fresh i n.

(** The daemon's steps leave the rest of the load as it is. *)
Lemma load_settled i n d' :
  settled (nd n) d' →
  load i (with_nd n d') + inbox (nd n) + uploads_load (nd n) = load i n + inbox d' + uploads_load d'.
Proof.
  intros [Hs Hc]. unfold load, fresh, unseen, images, rx_load, with_nd. cbn [nd thread clip_rx]. rewrite Hs, Hc. lia.
Qed.

Definition lighter (i : str) (n' n : node) : Prop := n' = n ∨ load i n' < load i n.

Lemma poll_lighter i n types :
  dv_has_clip (dev i) = true → lighter i (mkNode (nd n) (poll (thread n) types (images n)) (clip_rx n)) n.
Proof.
  intros Hc. destruct (unseen dev i n) eqn:E.
  - right. destruct (poll_seen (thread n) types (images n)) as [Ed El].
    unfold load, fresh. rewrite E. rewrite (unseen_false dev i) by (cbn; by rewrite Ed). change (rx_load (mkNode _ _ _)) with (rx_load n). cbn [nd thread].
    rewrite poll_reported, sum_list_with_app. enough (sum_list_with (cost (nd n)) (poll_news (thread n) types (images n)) ≤
      from_option (cost (nd n)) 0 (clip_of (snapshot (desktop (thread n)) None (images n)))) by lia.
    unfold poll_news. change (clip_of (snapshot (desktop (thread n)) types (images n)))
      with (clip_of (snapshot (desktop (thread n)) None (images n))).
    destruct (clip_of _); [|done]. case_match; cbn; lia.
  - left. unfold unseen in E. rewrite Hc in E. apply bool_decide_eq_false in E. apply dec_stable in E.
    rewrite (poll_idle (thread n) None) by done. by destruct n.
Qed.

Lemma thread_lighter i n types : lighter i (thread_turn dev i n types) n.
Proof.
  unfold thread_turn. destruct (dv_has_clip (dev i)) eqn:Hc; [|by left].
  destruct (to_clip (d_sync (nd n))) as [|c cs] eqn:E; [by apply poll_lighter|]. right.
  set (t := clip_step _ _ _ _). assert (reported t = reported (thread n)) as Ht by (by destruct c).
  set (n' := mkNode _ t _).
  assert (load i n' + 1 + fresh i n = load i n + fresh i n') as Hl.
  { unfold load, inbox. change (rx_load n') with (rx_load n). cbn [n' nd thread]. rewrite Ht, E.
    change (d_bus (set_to_clip (nd n) cs)) with (d_bus (nd n)).
    change (uploads_load (set_to_clip (nd n) cs)) with (uploads_load (nd n)).
    change (sink_of (set_to_clip (nd n) cs)) with (sink_of (nd n)). cbn [d_sync set_to_clip with_sync to_clip length]. lia. }
  enough (fresh i n' ≤ fresh i n) by lia.
  destruct c; [| |done]; unfold fresh at 1; rewrite unseen_false by done; lia.
Qed.

Lemma local_lighter i n now io : lighter i (local_turn image_size dev i n now io) n.
Proof.
  unfold local_turn. destruct (sync_busy _); [by left|]. destruct (reported (thread n)) as [|c cs] eqn:E; [by left|]. right.
  destruct (local_load i (nd n) now io c) as [Hd Hl]. set (d' := dstep i _ _) in *.
  set (n0 := mkNode (nd n) (set_reported (thread n) cs) (clip_rx n)).
  assert (load i n = load i n0 + cost (nd n) c) as ->.
  { unfold load. rewrite E. change (fresh i n0) with (fresh i n). change (rx_load n0) with (rx_load n).
    cbn [n0 nd thread reported set_reported sum_list_with]. lia. }
  pose proof (load_settled i n0 d' Hd) as Hs. unfold with_nd in Hs. cbn [n0 nd thread clip_rx] in Hs. lia.
Qed.

Lemma remote_lighter i n io : lighter i (remote_turn image_size dev i n io) n.
Proof.
  unfold remote_turn. destruct (sync_busy _); [by left|]. destruct (clip_rx n) as [|[peer msg] q] eqn:E; [by left|]. right.
  destruct (frame_load i (nd n) io no_faults peer msg) as (Hd & Hi & Hu). set (d' := dstep i _ _) in *.
  set (n0 := mkNode (nd n) (thread n) q).
  assert (load i n = load i n0 + rx_weight msg) as ->.
  { unfold load, rx_load. rewrite E. change (fresh i n0) with (fresh i n). cbn [n0 nd thread clip_rx sum_list_with compose snd]. unfold compose. cbn [snd]. lia. }
  pose proof (load_settled i n0 d' Hd) as Hs. unfold with_nd in Hs. cbn [n0 nd thread clip_rx] in Hs. lia.
Qed.

Lemma image_lighter i n : lighter i (image_turn image_size dev i n) n.
Proof.
  unfold image_turn. destruct (clip_sink (filex (d_sync (nd n)))) as [[|png l]|] eqn:E; [by left| |by left]. right.
  set (d' := dstep i _ _). assert (settled (nd n) d') as Hd by (subst d'; cbn; unfold sync_blob; by case_match).
  pose proof (load_settled i n d' Hd) as Hl.
  enough (inbox d' < inbox (nd n) ∧ uploads_load d' = uploads_load (nd n)) by lia.
  subst d'. unfold Mesh.dstep, daemon_step, inbox, sink_of, uploads_load, d_bus, sync_blob. rewrite E. cbn.
  case_match; cbn; rewrite ?length_app; cbn; (split; [|done]); lia.
Qed.

Lemma upload_lighter i n k timed : lighter i (upload_go image_size dev i n k timed) n.
Proof.
  unfold upload_go. destruct (upload_turn_load i (nd n) k timed) as (Hd & [E|Hl] & _).
  - left. rewrite E. by destruct n.
  - right. pose proof (load_settled i n _ Hd). lia.
Qed.

(** What the router gives a device is less than it was on the link. *)
Lemma router_load i n io fl peer msg n' :
  router image_size dev i n io fl peer msg = Some n' → load i n' < load i n + weight msg.
Proof.
  intros [[(s & o & es & ->) ->]| ->]%router_cases.
  - unfold load, rx_load. cbn [nd thread clip_rx weight]. rewrite sum_list_with_app.
    change (fresh i (mkNode _ _ _)) with (fresh i n). cbn. lia.
  - destruct (frame_load i (nd n) io fl peer msg) as (Hd & Hi & Hu).
    pose proof (load_settled i n _ Hd). assert (rx_weight msg ≤ weight msg) by (destruct msg; cbn; lia). lia.
Qed.

(** ** The potential of a mesh *)

Definition potential (m : gmap str node) : nat := msum load m.

Lemma alter_stays (m : gmap str node) i f : (∀ n, m !! i = Some n → f n = n) → alter f i m = m.
Proof.
  intros Hf. apply map_eq. intros j. destruct (decide (i = j)) as [<-|Hj]; [|by rewrite lookup_alter_ne].
  rewrite lookup_alter_eq. destruct (m !! i) as [n|]; [|done]. cbn. by rewrite Hf.
Qed.

Lemma alter_lighter m i f :
  (∀ n, lighter i (f n) n) → alter f i m = m ∨ potential (alter f i m) < potential m.
Proof.
  intros Hf. destruct (m !! i) as [n|] eqn:E.
  - assert (alter f i m = <[i := f n]> m) as ->.
    { apply map_eq. intros j. destruct (decide (i = j)) as [<-|Hj].
      - by rewrite lookup_alter_eq, lookup_insert_eq, E.
      - by rewrite lookup_alter_ne, lookup_insert_ne. }
    destruct (Hf n) as [->|Hl]; [left; by apply insert_id|].
    right. pose proof (msum_replace load m i (f n) n E). unfold potential. lia.
  - left. apply alter_stays. intros n. by rewrite E.
Qed.

(** The router takes a frame unless the sync task's channel is full. *)
Definition router_takes (n : node) (msg : Message) : bool :=
  match msg with Clipboard _ _ _ => length (clip_rx n) <? CLIP_CHANNEL | _ => true end.
Lemma router_some j n io fl peer msg : is_Some (router image_size dev j n io fl peer msg) ↔ router_takes n msg = true.
Proof.
  unfold router, router_takes. destruct msg; try (split; [done|intros _; by eexists]).
  destruct (_ <? _); split; done || by intros [].
Qed.

Lemma deliver_less m i j io fl n nj msg b :
  m !! i = Some n → bus_recv (d_bus (nd n)) j = Some (msg, b) → m !! j = Some nj → router_takes nj msg = true →
  potential (deliver image_size dev m i j io fl) < potential m.
Proof.
  intros Ei Er Ej Ht. unfold deliver. rewrite Ei. cbn [mbind option_bind]. rewrite Er. cbn [mbind option_bind].
  set (n1 := with_nd n _). set (m1 := <[i := n1]> m).
  assert (∃ n0, m1 !! j = Some n0 ∧ router_takes n0 msg = true) as (n0 & E0 & H0').
  { destruct (decide (i = j)) as [<-|Hne]; [exists n1; split; [apply lookup_insert_eq|]|exists nj; unfold m1; by rewrite lookup_insert_ne].
    replace nj with n in Ht by congruence. done. }
  rewrite E0. cbn [mbind option_bind]. apply (router_some j n0 io fl i) in H0' as [n' En]. rewrite En.
  destruct (bus_recv_weight _ _ _ _ Er) as [Hw Hs].
  pose proof (router_load j n0 io fl i msg n' En) as Hl.
  assert (load i n1 + bus_weight (d_bus (nd n)) = load i n + bus_weight b) as Hl1.
  { pose proof (load_settled i n (with_bus (nd n) b)) as Hx.
    change (inbox (with_bus (nd n) b)) with (bus_weight b + length (to_clip (d_sync (nd n))) + 2 * length (sink_of (nd n))) in Hx.
    change (uploads_load (with_bus (nd n) b)) with (uploads_load (nd n)) in Hx.
    unfold inbox in Hx at 1. specialize (Hx ltac:(by split)). unfold n1. lia. }
  pose proof (msum_replace load m i n1 n Ei) as H1'. fold m1 in H1'.
  pose proof (msum_replace load m1 j n' n0 E0) as H2'. unfold potential. lia.
Qed.

(** A frame that the router has no room for stays. *)
Lemma deliver_full m i j io fl n nj msg b :
  m !! i = Some n → bus_recv (d_bus (nd n)) j = Some (msg, b) → m !! j = Some nj → router_takes nj msg = false →
  deliver image_size dev m i j io fl = m.
Proof.
  intros Ei Er Ej Ht. unfold deliver. rewrite Ei. cbn [mbind option_bind]. rewrite Er. cbn [mbind option_bind].
  set (n1 := with_nd n _). set (m1 := <[i := n1]> m).
  assert (∃ n0, m1 !! j = Some n0 ∧ router_takes n0 msg = false) as (n0 & E0 & H0').
  { destruct (decide (i = j)) as [<-|Hne]; [exists n1; split; [apply lookup_insert_eq|]|exists nj; unfold m1; by rewrite lookup_insert_ne].
    replace nj with n in Ht by congruence. done. }
  rewrite E0. cbn [mbind option_bind]. destruct (router image_size dev j n0 io fl i msg) eqn:En; [|done].
  assert (router_takes n0 msg = true) by (apply (router_some j n0 io fl i); eauto). congruence.
Qed.

Lemma deliver_lighter m i j io fl :
  deliver image_size dev m i j io fl = m ∨ potential (deliver image_size dev m i j io fl) < potential m.
Proof.
  destruct (m !! i) as [n|] eqn:Ei; [|left; unfold deliver; by rewrite Ei].
  destruct (bus_recv (d_bus (nd n)) j) as [[msg b]|] eqn:Er.
  2: { left. unfold deliver. rewrite Ei. cbn. by rewrite Er. }
  destruct (m !! j) as [nj|] eqn:Ej.
  2: { left. unfold deliver. rewrite Ei. cbn. rewrite Er. cbn. rewrite lookup_insert_ne by congruence. by rewrite Ej. }
  destruct (router_takes nj msg) eqn:Ht; [right; by eapply deliver_less|]. left. by eapply deliver_full.
Qed.

(** The steps that need no one: everything but copies, requests, edits and
    connections. *)
Definition internal (e : mesh_event) : bool :=
  match e with MUser _ _ | MOther _ _ => false | _ => true end.

Lemma step_lighter m e :
  internal e = true → mesh_step m e = m ∨ potential (mesh_step m e) < potential m.
Proof.
  destruct e; try done; intros _; cbn [Mesh.mesh_step].
  - apply alter_lighter. intros n. apply thread_lighter.
  - apply alter_lighter. intros n. apply local_lighter.
  - apply alter_lighter. intros n. apply remote_lighter.
  - apply deliver_lighter.
  - apply alter_lighter, image_lighter.
  - apply alter_lighter. intros n. apply upload_lighter.
Qed.

(** ** At rest *)

(** A link that carries nothing, or a frame that the other router has no room
    for. *)
Definition link_rests (b : PeerBus) (j : str) (nj : node) : Prop :=
  match bus_recv b j with Some (msg, _) => router_takes nj msg = false | None => True end.
#[local] Instance link_rests_dec b j nj : Decision (link_rests b j nj).
Proof. unfold link_rests. destruct (bus_recv b j) as [[msg ?]|]; apply _. Defined.

(** Nothing is left to do: no change unseen, no command, no image; no change and
    no frame for the sync task, unless it waits for an upload; no frame for a
    router that has room; no upload that could go on. *)
Definition node_at_rest (m : gmap str node) (i : str) (n : node) : Prop :=
  (unseen dev i n = false ∧ (dv_has_clip (dev i) = true → to_clip (d_sync (nd n)) = [])) ∧
  (sync_busy (d_sync (nd n)) = false → reported (thread n) = [] ∧ clip_rx n = []) ∧
  sink_of (nd n) = [] ∧ map_Forall (link_rests (d_bus (nd n))) m ∧
  Forall (λ x, upload_blocked (d_bus (nd n)) x.2 = true) (clip_blobs (d_sync (nd n))).
Definition at_rest (m : gmap str node) : Prop := map_Forall (node_at_rest m) m.

#[export] Instance node_at_rest_dec m i n : Decision (node_at_rest m i n).
Proof. unfold node_at_rest. destruct (dv_has_clip (dev i)), (sync_busy (d_sync (nd n))); apply _. Defined.
#[export] Instance at_rest_dec m : Decision (at_rest m).
Proof. unfold at_rest. apply _. Defined.

(** A step that does something. *)
Definition move (m m' : gmap str node) : Prop := ∃ e, internal e = true ∧ mesh_step m e = m' ∧ m' ≠ m.

Lemma move_less m m' : move m m' → potential m' < potential m.
Proof. intros (e & Hi & <- & Hne). by destruct (step_lighter m e Hi). Qed.

Lemma alter_moves (m : gmap str node) i n f :
  m !! i = Some n → f n ≠ n → alter f i m ≠ m.
Proof. intros Hn Hf E. apply (f_equal (lookup i)) in E. rewrite lookup_alter_eq, Hn in E. by injection E. Qed.

(** A step of a run in which no clipboard shows a password hint and every local
    change is taken at the time [now]. *)
Definition plain (now : Z) (e : mesh_event) : Prop :=
  match e with
  | MThread _ types => types = None
  | MLocal _ n _ => n = now
  | MRemote _ _ | MDeliver _ _ _ _ | MImage _ | MUpload _ _ _ => True
  | MUser _ _ | MOther _ _ => False
  end.
Definition can_move (now : Z) (m : gmap str node) : Prop := ∃ e, plain now e ∧ mesh_step m e ≠ m.

Lemma plain_internal now e : plain now e → internal e = true.
Proof. by destruct e. Qed.

Lemma node_moves now m i n (e : mesh_event) f :
  m !! i = Some n → plain now e → mesh_step m e = alter f i m → f n ≠ n → can_move now m.
Proof. intros Hn Hi He Hf. exists e. split; [done|]. rewrite He. by eapply alter_moves. Qed.

Lemma thread_moves now m i n :
  m !! i = Some n → dv_has_clip (dev i) = true → unseen dev i n = true ∨ to_clip (d_sync (nd n)) ≠ [] → can_move now m.
Proof.
  intros Hn Hc Hx. eapply (node_moves now m i n (MThread i None)); [done..|]. cbn beta. unfold thread_turn. rewrite Hc.
  destruct (to_clip (d_sync (nd n))) as [|c cs] eqn:E.
  - destruct Hx as [Hx|Hx]; [|done]. unfold unseen in Hx. rewrite Hc in Hx. apply bool_decide_eq_true in Hx.
    intros En. apply Hx. destruct (poll_seen (thread n) None (images n)) as [_ Hl]. rewrite <- Hl.
    by apply (f_equal (λ n, last_token (thread n))) in En.
  - intros En. apply (f_equal (λ n, to_clip (d_sync (nd n)))) in En. cbn in En. rewrite E in En.
    apply (f_equal length) in En. cbn in En. lia.
Qed.

Lemma sync_moves now m i n :
  m !! i = Some n → sync_busy (d_sync (nd n)) = false → ¬ (reported (thread n) = [] ∧ clip_rx n = []) → can_move now m.
Proof.
  intros Hn Hb Hr. destruct (reported (thread n)) as [|c cs] eqn:E.
  - eapply (node_moves now m i n (MRemote i good_io)); [done..|]. cbn beta. unfold remote_turn. rewrite Hb.
    destruct (clip_rx n) as [|[peer msg] q] eqn:Eq; [naive_solver|]. intros En.
    apply (f_equal (λ n, length (clip_rx n))) in En. cbn in En. rewrite Eq in En. cbn in En. lia.
  - eapply (node_moves now m i n (MLocal i now good_io)); [done..|]. cbn beta. unfold local_turn. rewrite Hb, E. intros En.
    apply (f_equal (λ n, length (reported (thread n)))) in En. cbn in En. rewrite E in En. cbn in En. lia.
Qed.

Lemma image_moves now m i n : m !! i = Some n → sink_of (nd n) ≠ [] → can_move now m.
Proof.
  intros Hn Hr. eapply (node_moves now m i n (MImage i)); [done..|]. unfold image_turn. unfold sink_of in Hr.
  destruct (clip_sink (filex (d_sync (nd n)))) as [[|png l]|] eqn:E; [done| |done]. intros En.
  apply (f_equal (λ n, length (sink_of (nd n)))) in En. unfold sink_of in En. rewrite E in En. cbn in En.
  unfold sync_blob in En. case_match; cbn in En; lia.
Qed.

Lemma link_moves now m i n : m !! i = Some n → ¬ map_Forall (link_rests (d_bus (nd n))) m → can_move now m.
Proof.
  intros Hn Hr. apply map_not_Forall in Hr as (j & nj & Hj & Hr); [|apply _]. unfold link_rests in Hr.
  destruct (bus_recv (d_bus (nd n)) j) as [[msg b]|] eqn:E; [|done]. apply not_false_iff_true in Hr.
  exists (MDeliver i j good_io no_faults). split; [done|].
  intros Em. pose proof (deliver_less m i j good_io no_faults n nj msg b Hn E Hj Hr) as Hl.
  cbn in Em. rewrite Em in Hl. lia.
Qed.

Lemma upload_moves now m i n :
  m !! i = Some n → ¬ Forall (λ x : uploader * upload, upload_blocked (d_bus (nd n)) x.2 = true) (clip_blobs (d_sync (nd n))) →
  can_move now m.
Proof.
  intros Hn Hr. apply not_Forall_Exists in Hr; [|apply _]. apply list.Exists_exists in Hr as (x & Hx & Hr).
  apply list_elem_of_lookup in Hx as [k Hk]. eapply (node_moves now m i n (MUpload i k true)); [done..|].
  unfold upload_go. destruct (upload_turn_load i (nd n) k true) as (_ & _ & Hb). intros En. apply Hr.
  apply (Hb x Hk eq_refl). by apply (f_equal nd) in En.
Qed.

Lemma not_rest_moves now m i n : m !! i = Some n → ¬ node_at_rest m i n → can_move now m.
Proof.
  intros Hn Hr. unfold node_at_rest in Hr.
  apply not_and_l in Hr as [Hr|Hr].
  { destruct (dv_has_clip (dev i)) eqn:Hc.
    - apply (thread_moves now m i n Hn Hc). destruct (unseen dev i n); [by left|right]. naive_solver.
    - exfalso. apply Hr. unfold unseen. by rewrite Hc. }
  destruct (decide (sink_of (nd n) = [])) as [Es|Es]; [|by eapply image_moves].
  destruct (decide (map_Forall (link_rests (d_bus (nd n))) m)) as [El|El]; [|by eapply link_moves].
  destruct (decide (Forall (λ x : uploader * upload, upload_blocked (d_bus (nd n)) x.2 = true) (clip_blobs (d_sync (nd n)))))
    as [Eu|Eu]; [|by eapply upload_moves].
  destruct (sync_busy (d_sync (nd n))) eqn:Eb; [by exfalso; apply Hr|]. eapply sync_moves; [done..|].
  intros [E1 E2]. by apply Hr.
Qed.

(** *** Turns that find nothing *)

Lemma thread_turn_idle i n types :
  unseen dev i n = false → (dv_has_clip (dev i) = true → to_clip (d_sync (nd n)) = []) → thread_turn dev i n types = n.
Proof.
  intros Hu Hc. unfold thread_turn. unfold unseen in Hu. destruct (dv_has_clip (dev i)); [|done]. rewrite (Hc eq_refl).
  apply bool_decide_eq_false, dec_stable in Hu. cbn [clip_step].
  rewrite (poll_idle (thread n) None) by done. by destruct n.
Qed.
Lemma local_turn_idle i n now io :
  (sync_busy (d_sync (nd n)) = false → reported (thread n) = []) → local_turn image_size dev i n now io = n.
Proof. intros Hr. unfold local_turn. destruct (sync_busy _); [done|]. by rewrite Hr. Qed.
Lemma remote_turn_idle i n io :
  (sync_busy (d_sync (nd n)) = false → clip_rx n = []) → remote_turn image_size dev i n io = n.
Proof. intros Hr. unfold remote_turn. destruct (sync_busy _); [done|]. by rewrite Hr. Qed.
Lemma image_turn_idle i n : sink_of (nd n) = [] → image_turn image_size dev i n = n.
Proof. intros Hs. unfold image_turn. unfold sink_of in Hs. by destruct (clip_sink _) as [[|]|]. Qed.
Lemma upload_go_idle i n k timed :
  Forall (λ x, upload_blocked (d_bus (nd n)) x.2 = true) (clip_blobs (d_sync (nd n))) → upload_go image_size dev i n k timed = n.
Proof.
  intros Hs. unfold upload_go, Mesh.dstep, daemon_step, upload_turn. destruct (clip_blobs _ !! k) as [[w u]|] eqn:E.
  2: { by destruct n as [[] ?]. }
  rewrite upload_blocked_waits by (by apply (list.Forall_lookup_1 _ _ _ _ Hs E)).
  rewrite list_insert_id by done. by destruct n as [[? [] ? ?] ?].
Qed.

Lemma rest_stays m e : at_rest m → internal e = true → mesh_step m e = m.
Proof.
  intros Hr. assert (∀ i n, m !! i = Some n → node_at_rest m i n) as Hn by done. clear Hr.
  destruct e as [i types|i now io|i io|i j io fl|i|i k timed|i b|i e]; try done; intros _; cbn [Mesh.mesh_step].
  - apply alter_stays. intros n Hi. destruct (Hn i n Hi) as ((Hu & Hc) & _). by apply thread_turn_idle.
  - apply alter_stays. intros n Hi. destruct (Hn i n Hi) as (_ & Hr & _). apply local_turn_idle. naive_solver.
  - apply alter_stays. intros n Hi. destruct (Hn i n Hi) as (_ & Hr & _). apply remote_turn_idle. naive_solver.
  - destruct (m !! i) as [n|] eqn:Ei; [|unfold deliver; by rewrite Ei]. destruct (Hn i n Ei) as (_ & _ & _ & Hq & _).
    destruct (bus_recv (d_bus (nd n)) j) as [[msg b]|] eqn:Er.
    2: { unfold deliver. rewrite Ei. cbn. by rewrite Er. }
    destruct (m !! j) as [nj|] eqn:Ej.
    + apply (deliver_full m i j io fl n nj msg b); try done. specialize (Hq j nj Ej). unfold link_rests in Hq. by rewrite Er in Hq.
    + unfold deliver. rewrite Ei. cbn. rewrite Er. cbn. rewrite lookup_insert_ne by congruence. by rewrite Ej.
  - apply alter_stays. intros n Hi. destruct (Hn i n Hi) as (_ & _ & Hs & _). by apply image_turn_idle.
  - apply alter_stays. intros n Hi. destruct (Hn i n Hi) as (_ & _ & _ & _ & Hs). by apply upload_go_idle.
Qed.

Lemma not_at_rest_moves now m : ¬ at_rest m → can_move now m.
Proof. intros Hr. apply map_not_Forall in Hr as (i & n & Hn & Hr); [by eapply not_rest_moves|apply _]. Qed.

(** Some plain run reaches rest. *)
Lemma rest_reachable now m : ∃ es, Forall (plain now) es ∧ at_rest (mesh_run m es).
Proof.
  remember (potential m) as p eqn:Ep. revert m Ep. induction (lt_wf p) as [p _ IH]. intros m ->.
  destruct (decide (at_rest m)) as [Hr|Hr]; [by exists []|].
  destruct (not_at_rest_moves now m Hr) as (e & He & Hne).
  assert (potential (mesh_step m e) < potential m) as Hlt.
  { by destruct (step_lighter m e (plain_internal _ _ He)). }
  destruct (IH _ Hlt (mesh_step m e) eq_refl) as (es & Hes & Hrest). exists (e :: es). by split; [constructor|].
Qed.

(** (C12) Without new copies, requests, edits and connections a mesh comes to rest:
    from any state, and under every order of the steps, at most [potential]
    steps do anything; some order leads to a state where nothing is left to do;
    and that is exactly a state in which no step does anything. *)
Theorem comes_to_rest m :
  (∀ k m', nsteps move k m m' → k + potential m' ≤ potential m) ∧
  (∃ es, Forall (λ e, internal e = true) es ∧ at_rest (mesh_run m es)) ∧
  (at_rest m ↔ ∀ m', ¬ move m m').
Proof.
  split_and!.
  - intros k m' Hk. induction Hk as [|k m1 m2 m3 H12 _ IH]; [done|]. apply move_less in H12. lia.
  - destruct (rest_reachable 0%Z m) as (es & Hes & Hr). exists es. split; [|done].
    eapply list.Forall_impl; [exact Hes|]. intros e. apply plain_internal.
  - split; [by intros Hr m' (e & Hi & <- & Hne); apply Hne, rest_stays|]. intros Hm.
    destruct (decide (at_rest m)) as [Hr|Hr]; [done|]. destruct (not_at_rest_moves 0%Z m Hr) as (e & He & Hne).
    destruct (Hm (mesh_step m e)). exists e. split_and!; [by eapply plain_internal|done..].
Qed.

End quiesce.
