(* ===== verification/Converge.v ===== *)
(** * Converge: a copy on one device is on all of them

    What a mesh of [Mesh] agrees on.  A mesh at rest ([Quiesce]) in which one
    user copies a text: under every order of the steps that follow, as long as
    none is a further copy, request, edit or connection, the mesh that is at rest
    again has that text on every clipboard.  Two users that copy at the same time
    are the other case: the devices exchange the two texts and stay
    different, because nothing orders the two updates.

    The proof of the first follows the copy: seen by the source's clipboard
    thread, taken by its sync task, queued for every peer, routed to the peer's sync
    task, handed to its clipboard thread, applied. *)
From S2P Require Import Prelude Text Crypto Proto Frame Store Samples Net Peers Config Bus FileXfer Trust Auth History Clipboard Sync State Control Daemon Mesh Quiesce.

(** A connection whose channel takes messages. *)
Definition linked (b : PeerBus) (id : str) : Prop :=
  ∃ tx c, senders b !! id = Some tx ∧ chans b !! tx = Some c ∧ closed c = false ∧ (0 < cap c)%nat.

Section converge.
Context `{Hashes, Desktop, Serde (list Entry), !DesktopLaws}.
Variable image_size : bytes → option (Z * Z).
Variable dev : str → device.
Notation dstep := (dstep image_size dev).
Notation mesh_step := (mesh_step image_size dev).
Notation mesh_run := (mesh_run image_size dev).

(** ** What is assumed *)

(** A device ready for the text [t]: it has a clipboard, is not paused, takes
    texts of that length, did not sync it last, and no upload is under way. *)
Record ready (t : str) (j : str) (n : node) : Prop := {
  rd_clip : dv_has_clip (dev j) = true;
  rd_running : clipboard_paused (d_controls (nd n)) = false;
  rd_fits : zlen t ≤ dv_max_text (dev j);
  rd_fresh : last_synced (d_sync (nd n)) ≠ Some (sha256 t);
  rd_uploads : clip_blobs (d_sync (nd n)) = [];
}.

(** Every device is connected to every other, by channels of their own, and not
    to itself. *)
Definition all_linked (m : gmap str node) : Prop :=
  map_Forall (λ i n, bus_wf (d_bus (nd n)) ∧ senders (d_bus (nd n)) !! i = None ∧
    map_Forall (λ j _, i ≠ j → linked (d_bus (nd n)) j) m) m.

(** The events that follow: only steps of the daemons; no password hint when the
    source's clipboard is polled, and its sync task is not within the rate limit. *)
Definition undisturbed (i : str) (last : Z) (e : mesh_event) : Prop :=
  match e with
  | MThread j types => i = j → linux_looks_concealed types = false
  | MLocal j now _ => i = j → min_gap ≤ now - last
  | MRemote _ _ | MDeliver _ _ _ _ | MImage _ | MUpload _ _ _ => True
  | MUser _ _ | MOther _ _ => False
  end.

(** ** The way of a copy *)

Section copy.
Variable D : gset str.        (* the devices *)
Variable i : str.             (* the source *)
Variable t : str.
Variable last : Z.
Hypothesis Htext : valid_str t.
Hypothesis Hclip : ∀ j, j ∈ D → dv_has_clip (dev j) = true.
Hypothesis Hfits : ∀ j, j ∈ D → zlen t ≤ dv_max_text (dev j).
Hypothesis Hsource : i ∈ D.
Hypothesis Hwrites : ∀ b, (board_set_text b t).1 = true.

(** The update. *)
Definition update (n : Z) : Message := Clipboard n i [ClipEntry_text t].

(** Nothing under way but the copy. *)
Record calm (n : node) : Prop := {
  cm_running : clipboard_paused (d_controls (nd n)) = false;
  cm_sink : sink_of (nd n) = [];
  cm_uploads : clip_blobs (d_sync (nd n)) = [];
}.
Definition has_text (n : node) : Prop := board_text (desktop (thread n)) = Some t.

(** The source: the copy is not seen yet, is reported, is sent. *)
Inductive phase := Copied | Reported | Sent.

(** Ready to send. *)
Record primed (n : node) : Prop := {
  pm_fresh : last_synced (d_sync (nd n)) ≠ Some (sha256 t);
  pm_last : last_broadcast (d_sync (nd n)) = last;
  pm_linked j : j ∈ D → i ≠ j → linked (d_bus (nd n)) j;
}.

Definition source (ph : phase) (n : node) : Prop :=
  (calm n ∧ clip_rx n = [] ∧ has_text n ∧ to_clip (d_sync (nd n)) = [] ∧
   bus_wf (d_bus (nd n)) ∧ senders (d_bus (nd n)) !! i = None) ∧
  match ph with
  | Copied => primed n ∧ reported (thread n) = [] ∧ unseen dev i n = true ∧
      clip_of (snapshot (desktop (thread n)) None (images n)) = Some (LocalText t) ∧ suppress (thread n) ≠ Some (sha256 t)
  | Reported => primed n ∧ reported (thread n) = [LocalText t] ∧ unseen dev i n = false
  | Sent => reported (thread n) = [] ∧ unseen dev i n = false
  end.

(** Another device: it sends nothing; it waits, its clipboard thread was told, or
    it has the text. *)
Definition receiver (j : str) (n : node) : Prop :=
  calm n ∧ reported (thread n) = [] ∧ unseen dev j n = false ∧ ∀ k, k ∈ D → queued (d_bus (nd n)) k = [].
Definition waits (n : node) : Prop := to_clip (d_sync (nd n)) = [] ∧ last_synced (d_sync (nd n)) ≠ Some (sha256 t).
Definition told (n : node) : Prop := to_clip (d_sync (nd n)) = [ApplyText t].
Definition has (n : node) : Prop := to_clip (d_sync (nd n)) = [] ∧ has_text n.

(** What is queued for a device and what it knows: the update is on the link, at
    the sync task, or taken. *)
Definition at_task (n : node) : Prop := (∃ s, clip_rx n = [(i, update s)]) ∧ waits n.
Definition stage (ph : phase) (q : list Message) (n : node) : Prop :=
  match ph with
  | Sent => (∃ s, q = [update s]) ∧ clip_rx n = [] ∧ waits n ∨ q = [] ∧ (at_task n ∨ clip_rx n = [] ∧ (told n ∨ has n))
  | _ => q = [] ∧ clip_rx n = [] ∧ waits n
  end.

Record underway (m : gmap str node) : Prop := {
  uw_dom : dom m = D;
  uw_source : ∃ ph n, m !! i = Some n ∧ source ph n ∧
    ∀ j nj, m !! j = Some nj → i ≠ j → receiver j nj ∧ stage ph (queued (d_bus (nd n)) j) nj;
}.

(** *** Turns *)

Lemma calm_upload j n k timed : calm n → upload_go image_size dev j n k timed = n.
Proof. intros Hn. apply upload_go_idle. rewrite (cm_uploads n Hn). constructor. Qed.
Lemma calm_idle n : calm n → sync_busy (d_sync (nd n)) = false.
Proof. intros Hn. unfold sync_busy. by rewrite (cm_uploads n Hn). Qed.

(** What a turn of the source keeps for a receiver. *)
Definition advances (ph ph' : phase) (n n' : node) : Prop :=
  ∀ j nj, j ∈ D → i ≠ j → stage ph (queued (d_bus (nd n)) j) nj → stage ph' (queued (d_bus (nd n')) j) nj.

Lemma source_thread ph n types :
  source ph n → linux_looks_concealed types = false →
  ∃ ph', source ph' (thread_turn dev i n types) ∧ advances ph ph' n (thread_turn dev i n types).
Proof.
  intros Hso Hl. pose proof Hso as [(Hc & Hx & Ht & Hto & Hb & Hs) Hph]. destruct ph.
  2,3: rewrite thread_turn_idle by (done || apply Hph); eexists; split; [exact Hso|by intros ?].
  destruct Hph as (Hp & Hr & Hu & Hof & Hsu). exists Reported. unfold thread_turn. rewrite Hclip, Hto by done. cbn [clip_step].
  destruct (poll_seen (thread n) types (images n)) as [Ed El]. split; [|by intros ?].
  assert (reported (poll (thread n) types (images n)) = [LocalText t]) as Er.
  { rewrite poll_reported, Hr. unfold poll_news.
    change (clip_of (snapshot (desktop (thread n)) types (images n))) with (clip_of (snapshot (desktop (thread n)) None (images n))).
    rewrite Hof, Hl. unfold unseen in Hu. rewrite Hclip in Hu by done. cbn [andb] in Hu.
    change (token (snapshot (desktop (thread n)) types (images n))) with (token (snapshot (desktop (thread n)) None (images n))).
    rewrite Hu, bool_decide_eq_false_2; done. }
  split; [|split_and!; [by destruct Hp|done|apply unseen_false; cbn; by rewrite Ed]].
  split_and!; [by destruct Hc|done|unfold has_text; cbn; by rewrite Ed|done..].
Qed.

Lemma source_local ph n now io :
  source ph n → min_gap ≤ now - last →
  ∃ ph', source ph' (local_turn image_size dev i n now io) ∧ advances ph ph' n (local_turn image_size dev i n now io).
Proof.
  intros Hso Hg. pose proof Hso as [(Hc & Hx & Ht & Hto & Hb & Hs) Hph]. destruct ph.
  1,3: rewrite local_turn_idle by (intros _; apply Hph); eexists; split; [exact Hso|by intros ?].
  destruct Hph as (Hp & Hr & Hu). exists Sent. unfold local_turn. rewrite (calm_idle n Hc), Hr.
  assert (∃ s1, dstep i (nd n) (DLocal now io (LocalText t)) = with_sync (nd n) (broadcast_clip i s1 (ClipEntry_text t)) ∧
    filex s1 = filex (d_sync (nd n)) ∧ to_clip s1 = to_clip (d_sync (nd n)) ∧ clip_blobs s1 = clip_blobs (d_sync (nd n)))
    as (s1 & -> & Ef & Eto & Ebl).
  { unfold Mesh.dstep, daemon_step, sync_local. rewrite (cm_running n Hc), (pm_last n Hp).
    rewrite !(proj2 (Z.ltb_ge _ _)) by (done || by apply Hfits). cbn [set_hist set_last_broadcast last_synced].
    rewrite bool_decide_eq_false_2 by (intros E; by apply (pm_fresh n Hp)). by eexists. }
  set (d' := with_sync _ _). assert (d_bus d' = broadcast (d_bus (nd n)) (update (u64_wrap (seq s1 + 1))) None) as Eb.
  { unfold d', d_bus. cbn. by rewrite Ef. }
  assert (senders (d_bus d') = senders (d_bus (nd n))) as Es by (rewrite Eb; apply broadcast_weight).
  split.
  - split; [|split; [done|exact Hu]]. split_and!.
    + destruct Hc as [H1' H2' H3']. unfold sink_of in H2'. split; [done|..]; unfold sink_of; cbn; by rewrite ?Ef, ?Ebl.
    + done.
    + done.
    + cbn. by rewrite Eto.
    + cbn [nd]. unfold bus_wf. by rewrite Es.
    + cbn [nd]. by rewrite Es.
  - intros j nj Hj Hij (Hq & Hrx & Hw). left. split; [|done]. eexists. cbn [nd]. rewrite Eb.
    destruct (pm_linked n Hp j Hj Hij) as (tx & c & H1' & H2' & H3' & H4').
    unfold queued in Hq. rewrite H1' in Hq. cbn in Hq. rewrite H2' in Hq.
    rewrite (broadcast_queued _ _ _ tx c) by (done || (rewrite Hq; done)). by rewrite Hq.
Qed.

Lemma receiver_thread ph q j n types :
  j ∈ D → receiver j n → stage ph q n → receiver j (thread_turn dev j n types) ∧ stage ph q (thread_turn dev j n types).
Proof.
  intros Hj Hr Hst. pose proof Hr as (Hc & Hrep & Hu & Hq).
  assert (to_clip (d_sync (nd n)) = [] ∨ told n ∧ ph = Sent ∧ q = [] ∧ clip_rx n = []) as [Hto|(Hto & -> & -> & Hx)].
  { destruct ph; [left; apply Hst..|].
    destruct Hst as [(_ & _ & [Hw _])|[-> [[_ [Hw _]]|[Hx [?|[]]]]]]; [by left|by left|by right|by left]. }
  { by rewrite thread_turn_idle. }
  unfold thread_turn, told in *. rewrite Hclip, Hto by done. split.
  - split_and!; [by destruct Hc|done|by apply unseen_false|done].
  - right. split; [done|]. right. split; [done|]. right. split; [done|]. unfold has_text. cbn. unfold set_text.
    specialize (Hwrites (desktop (thread n))). destruct (board_set_text _ t) as [ok bd] eqn:E. cbn in *. subst ok.
    by eapply get_after_set.
Qed.

(** The sync task of a device takes the update. *)
Lemma receiver_update j n s io fl :
  j ∈ D → i ≠ j → receiver j n → waits n →
  let n' := mkNode (dstep j (nd n) (DFrame io fl i (update s))) (thread n) [] in receiver j n' ∧ told n'.
Proof.
  intros Hj Hij (Hc & Hrep & Hu & Hq) [Hto Hf] n'.
  assert (∃ h, dstep j (nd n) (DFrame io fl i (update s)) = with_sync (nd n) (send_clip (set_synced (set_hist (d_sync (nd n)) h) (sha256 t)) (ApplyText t)))
    as [h Eh].
  { unfold Mesh.dstep, daemon_step, route, update. cbn [sync_remote]. rewrite (cm_running n Hc), Hclip by done.
    rewrite bool_decide_eq_false_2 by done. cbn [orb negb find_map].
    change (as_text (ClipEntry_text t)) with (if decide (valid_str t) then Some t else None).
    rewrite decide_True by done. rewrite (proj2 (Z.ltb_ge _ _)) by by apply Hfits. cbn [set_hist last_synced].
    rewrite bool_decide_eq_false_2 by congruence. by eexists. }
  subst n'. rewrite Eh. split; [|unfold told; cbn; by rewrite Hto].
  split_and!; [by destruct Hc|done|done|done].
Qed.

Lemma receiver_remote ph q j n io :
  j ∈ D → i ≠ j → receiver j n → stage ph q n →
  receiver j (remote_turn image_size dev j n io) ∧ stage ph q (remote_turn image_size dev j n io).
Proof.
  intros Hj Hij Hr Hst. pose proof Hr as (Hc & _).
  assert (clip_rx n = [] ∨ ph = Sent ∧ q = [] ∧ at_task n) as [Hx|(-> & -> & [[s Hx] Hw])].
  { destruct ph; [left; apply Hst..|]. destruct Hst as [(_ & Hx & _)|[-> [Ha|[Hx _]]]]; [by left|by right|by left]. }
  { by rewrite remote_turn_idle. }
  unfold remote_turn. rewrite (calm_idle n Hc), Hx. destruct (receiver_update j n s io no_faults Hj Hij Hr Hw) as [Hr' Ht'].
  split; [done|]. right. split; [done|]. right. by split; [|left].
Qed.

(** *** The mesh *)

Lemma underway_source f m :
  underway m →
  (∀ ph n, source ph n → ∃ ph', source ph' (f n) ∧ advances ph ph' n (f n)) →
  underway (alter f i m).
Proof.
  intros [Hd (ph & n & Hn & Hso & Hre)] Hf. destruct (Hf ph n Hso) as (ph' & Hso' & Hadv).
  split; [by rewrite dom_alter_L|]. exists ph', (f n). rewrite lookup_alter_eq, Hn. split_and!; [done..|].
  intros j nj Hj Hij. rewrite lookup_alter_ne in Hj by done. destruct (Hre j nj Hj Hij) as [Hr Hst].
  split; [done|]. apply Hadv; [|done|done]. rewrite <- Hd. by eapply elem_of_dom_2.
Qed.

Lemma underway_receiver f k m :
  underway m → i ≠ k →
  (∀ ph q n, k ∈ D → receiver k n → stage ph q n → receiver k (f n) ∧ stage ph q (f n)) →
  underway (alter f k m).
Proof.
  intros [Hd (ph & n & Hn & Hso & Hre)] Hik Hf. split; [by rewrite dom_alter_L|]. exists ph, n.
  rewrite lookup_alter_ne by done. split_and!; [done..|]. intros j nj Hj Hij. destruct (decide (k = j)) as [<-|Hkj].
  - rewrite lookup_alter_eq in Hj. destruct (m !! k) as [n0|] eqn:Ek; [|done]. injection Hj as <-.
    destruct (Hre k n0 Ek Hij) as [Hr Hst]. apply Hf; [|done|done]. rewrite <- Hd. by eapply elem_of_dom_2.
  - rewrite lookup_alter_ne in Hj by done. by apply Hre.
Qed.

(** Turns that find nothing everywhere. *)
Lemma underway_still (f : str → node → node) k m :
  underway m → (∀ n, calm n → f k n = n) → underway (alter (f k) k m).
Proof.
  intros Hm Hf. destruct (decide (i = k)) as [<-|Hik].
  - apply underway_source; [done|]. intros ph n Hso. pose proof Hso as [[Hc _] _]. rewrite Hf by done.
    exists ph. split; [done|]. by intros ?.
  - apply underway_receiver; [done..|]. intros ph q n _ Hr Hst. pose proof Hr as [Hc _]. by rewrite Hf.
Qed.

Lemma underway_deliver m j k io fl : underway m → underway (deliver image_size dev m j k io fl).
Proof.
  intros Hm. pose proof Hm as [Hd (ph & n & Hn & Hso & Hre)]. unfold deliver.
  destruct (m !! j) as [nj|] eqn:Ej; [|done]. cbn [mbind option_bind].
  destruct (bus_recv (d_bus (nd nj)) k) as [[msg b]|] eqn:Er; [|done]. cbn [mbind option_bind].
  destruct (decide (k ∈ D)) as [Hk|Hk].
  2: { assert (m !! k = None) as Ek by (apply not_elem_of_dom; congruence).
       rewrite lookup_insert_ne by congruence. by rewrite Ek. }
  destruct (decide (i = j)) as [<-|Hij].
  2: { destruct (Hre j nj Ej Hij) as [(_ & _ & _ & Hq) _].
       apply Hq in Hk. apply bus_recv_none in Hk. by rewrite Er in Hk. }
  replace nj with n in * by congruence. clear nj.
  pose proof Hso as [(Hc & Hx & Ht & Hto & Hb & Hs) Hph]. destruct (decide (i = k)) as [<-|Hik].
  { unfold bus_recv in Er. by rewrite Hs in Er. }
  rewrite lookup_insert_ne by done. destruct (m !! k) as [nk|] eqn:Ek; [|done]. cbn [mbind option_bind].
  destruct (Hre k nk Ek Hik) as [Hr Hst]. destruct (bus_recv_some _ _ _ _ Hb Er) as (Eq & Es & Eo).
  destruct ph; [destruct Hst as [Hq _]; by rewrite Eq in Hq..|].
  destruct Hst as [([s Hq] & Hrx & Hw)|[Hq _]]; [|by rewrite Eq in Hq]. rewrite Eq in Hq. injection Hq as -> Eb.
  unfold router, update. rewrite Hrx. cbn [length Nat.ltb Nat.leb CLIP_CHANNEL app].
  split.
  { rewrite !dom_insert_L. apply elem_of_dom_2 in Ek, Hn. set_solver. }
  exists Sent, (with_nd n (with_bus (nd n) b)). rewrite lookup_insert_ne by done. rewrite lookup_insert_eq.
  split_and!; [done|..].
  - split; [|exact Hph]. split_and!; [by destruct Hc|done|done|done|unfold bus_wf; cbn; by rewrite Es|cbn; by rewrite Es].
  - intros j nj Hj Hij. unfold with_nd. cbn [nd]. change (d_bus (with_bus (nd n) b)) with b. destruct (decide (k = j)) as [<-|Hkj].
    + rewrite lookup_insert_eq in Hj. injection Hj as <-.
      split; [destruct Hr as ([] & ? & ? & ?); by split_and!|]. right. rewrite Eb. split; [done|]. left. split; [by exists s|done].
    + rewrite !lookup_insert_ne in Hj by done. rewrite Eo by done. by apply Hre.
Qed.

Lemma underway_step m e : underway m → undisturbed i last e → underway (mesh_step m e).
Proof.
  intros Hm He. destruct e as [j types|j now io|j io|j k io fl|j|j k timed|j b|j e]; try done; cbn [Mesh.mesh_step].
  - destruct (decide (i = j)) as [<-|Hij].
    + apply underway_source; [done|]. intros ph n Hn. apply source_thread; [done|]. by apply He.
    + apply underway_receiver; [done..|]. intros ph q n. apply receiver_thread.
  - destruct (decide (i = j)) as [<-|Hij].
    + apply underway_source; [done|]. intros ph n Hn. apply source_local; [done|]. by apply He.
    + apply underway_receiver; [done..|]. intros ph q n _ Hr Hst. by rewrite local_turn_idle by (intros _; apply Hr).
  - destruct (decide (i = j)) as [<-|Hij].
    + apply underway_source; [done|]. intros ph n Hso. pose proof Hso as [(_ & Hx & _) _].
      rewrite remote_turn_idle by done. exists ph. split; [done|]. by intros ?.
    + apply underway_receiver; [done..|]. intros ph q n Hj. by apply receiver_remote.
  - by apply underway_deliver.
  - apply underway_still; [done|]. intros n Hc. apply image_turn_idle, Hc.
  - apply (underway_still (λ j n, upload_go image_size dev j n k timed)); [done|]. intros n Hc. by apply calm_upload.
Qed.

(** Nothing is left to do only when everyone has the text. *)
Lemma underway_rest m j n :
  underway m → at_rest dev m → m !! j = Some n → has_text n.
Proof.
  intros [Hd (ph & ni & Hni & [(Hc & Hx & Ht & Hto & Hb & Hs) Hph] & Hre)] Hrest Hj.
  destruct (Hrest i ni Hni) as ((Hu & _) & Hrep & _ & Hq & _). destruct (Hrep (calm_idle ni Hc)) as [Hrep' _].
  destruct ph; [destruct Hph as (_ & _ & Hu' & _); congruence|destruct Hph as (_ & Hr & _); congruence|].
  destruct (decide (i = j)) as [<-|Hij]; [by replace n with ni by congruence|].
  destruct (Hre j n Hj Hij) as [(Hcj & _) Hst]. destruct (Hrest j n Hj) as ((_ & Hto'') & Hsy & _).
  destruct (Hsy (calm_idle n Hcj)) as [_ Hxj]. destruct Hst as [([s E] & Hrx & _)|[_ [[[s E] _]|[_ [Hto'|Hh]]]]].
  - specialize (Hq j n Hj). cbn beta in Hq. unfold link_rests in Hq.
    destruct (bus_recv (d_bus (nd ni)) j) as [[msg b]|] eqn:Er; [|apply bus_recv_none in Er; congruence].
    destruct (bus_recv_some _ _ _ _ Hb Er) as (Eq & _). rewrite E in Eq. injection Eq as <- _.
    unfold update in Hq. cbn [router_takes] in Hq. by rewrite Hrx in Hq.
  - congruence.
  - unfold told in Hto'. rewrite Hto'' in Hto'; [done|]. apply Hclip. rewrite <- Hd. by eapply elem_of_dom_2.
  - apply Hh.
Qed.

End copy.

Lemma clip_of_text b images t : clip_of (snapshot b None images) = Some (LocalText t) → board_text b = Some t.
Proof.
  unfold clip_of. destruct (image_png _); [done|]. cbn [snapshot snap_text]. unfold nonempty.
  destruct (board_text b) as [[|]|]; cbn; congruence.
Qed.

(** The copy puts a mesh at rest on the way. *)
Lemma underway_copied m i n b t :
  at_rest dev m → all_linked m → map_Forall (ready t) m → m !! i = Some n →
  clip_of (snapshot b None (images n)) = Some (LocalText t) →
  last_token (thread n) ≠ Some (token (snapshot b None (images n))) → suppress (thread n) ≠ Some (sha256 t) →
  underway (dom m) i t (last_broadcast (d_sync (nd n))) (mesh_step m (MUser i b)).
Proof.
  intros Hrest Hl Hrd Hn Hof Htok Hsu.
  assert (∀ j nj, m !! j = Some nj → calm nj) as Hcalm.
  { intros j nj Hj. destruct (Hrest j nj Hj) as (_ & _ & Hs & _). by destruct (Hrd j nj Hj). }
  assert (∀ j nj, m !! j = Some nj → to_clip (d_sync (nd nj)) = []) as Hto.
  { intros j nj Hj. destruct (Hrest j nj Hj) as ((_ & H') & _). apply H', (Hrd j nj Hj). }
  cbn [Mesh.mesh_step]. split; [by rewrite dom_alter_L|].
  exists Copied, (mkNode (nd n) (user_copies (thread n) b) (clip_rx n)). rewrite lookup_alter_eq, Hn. split_and!; [done|..].
  - destruct (Hrest i n Hn) as (_ & Hsy & _). destruct (Hsy (calm_idle n (Hcalm i n Hn))) as [Hrep Hx].
    destruct (Hl i n Hn) as (Hb & Hs & Hlk).
    split; split_and!; try done; cbn [nd thread].
    + by destruct (Hcalm i n Hn).
    + by eapply clip_of_text.
    + by apply (Hto i).
    + split; [apply (Hrd i n Hn)|done|]. intros j [nj Hj]%elem_of_dom Hij. by apply (Hlk j nj Hj).
    + unfold unseen. rewrite (rd_clip _ _ _ (Hrd i n Hn)). cbn [andb]. by apply bool_decide_eq_true.
  - intros j nj Hj Hij. rewrite lookup_alter_ne in Hj by done.
    assert (∀ k nk, m !! k = Some nk → ∀ l, l ∈ dom m → queued (d_bus (nd nk)) l = []) as Hq.
    { intros k nk Hk l [nl Hl']%elem_of_dom. destruct (Hrest k nk Hk) as (_ & _ & _ & Hq & _).
      apply bus_recv_none. specialize (Hq l nl Hl'). unfold link_rests in Hq.
      destruct (bus_recv _ l) as [[msg ?]|]; [|done]. destruct (Hrest l nl Hl') as (_ & Hsy & _).
      destruct (Hsy (calm_idle nl (Hcalm l nl Hl'))) as [_ Hx]. unfold router_takes in Hq. rewrite Hx in Hq. by destruct msg. }
    destruct (Hrest j nj Hj) as ((Hu & _) & Hsy & _). destruct (Hsy (calm_idle nj (Hcalm j nj Hj))) as [Hrep Hx]. split.
    + split_and!; [by apply (Hcalm j)|done|done|by apply (Hq j)].
    + split; [by apply (Hq i n Hn), (elem_of_dom_2 m j nj)|]. split; [done|]. split; [by apply (Hto j)|apply (Hrd j nj Hj)].
Qed.

End converge.

(** ** Two copies at once *)

Ltac rests := apply (bool_decide_unpack _); vm_compute; exact I.

(** Concurrent copies are exchanged, not merged: from a mesh of two at rest,
    users copy different texts on both devices before either has synced; the mesh
    comes to rest with each device showing the other's text, and nothing that the
    daemons do changes that any more.  ([seq], which is sent with every update, is
    not looked at by the device that gets it.) *)
Theorem concurrent_copies_swap :
  let m := sample_run sample_mesh
    ([copies (lit "a") (lit "x"); copies (lit "b") (lit "y"); MThread (lit "a") None; MThread (lit "b") None;
      MLocal (lit "a") 2000 good_io; MLocal (lit "b") 2000 good_io] ++
     [MDeliver (lit "a") (lit "b") good_io no_faults; MDeliver (lit "b") (lit "a") good_io no_faults;
      MRemote (lit "a") good_io; MRemote (lit "b") good_io; MThread (lit "a") None; MThread (lit "b") None]) in
  at_rest sample_device sample_mesh ∧
  (λ n, board_text (desktop (thread n))) <$> m = {[ lit "a" := Some (lit "y"); lit "b" := Some (lit "x") ]} ∧
  ∀ e, internal e = true → mesh_step sample_size sample_device m e = m.
Proof.
  intros m. split_and!; [rests|by apply (bool_decide_unpack _); vm_compute|].
  intros e He. apply rest_stays; [rests|done].
Qed.

(** ** Witness *)

#[local] Instance sample_laws : @DesktopLaws sample_desktop.
Proof. split. by intros [] t b' [= <-]. Qed.

Lemma sample_linked : all_linked sample_mesh.
Proof.
  assert (∀ i j : str, i ≠ j → bus_wf (d_bus (nd (sample_node j))) ∧ senders (d_bus (nd (sample_node j))) !! i = None ∧
    linked (d_bus (nd (sample_node j))) j) as Hn.
  { intros i j Hij. cbn. split_and!.
    - intros k k' tx. cbn. rewrite !lookup_singleton_Some. naive_solver.
    - by rewrite lookup_singleton_ne.
    - exists 0%nat, (mkChan [] 4 false). cbn. rewrite !lookup_singleton_eq. split_and!; [done..|lia]. }
  intros i n Hi. unfold sample_mesh in Hi |- *. apply lookup_insert_Some in Hi as [[<- <-]|[_ [<- <-]%lookup_singleton_Some]];
    (match goal with |- context [sample_node ?j] => match goal with |- context [senders _ !! ?i] => destruct (Hn i j) as (H1 & H2 & H3) end end;
     [done|]; split_and!; [done..|]);
    intros k nk Hk Hne; apply lookup_insert_Some in Hk as [[<- _]|[_ [<- _]%lookup_singleton_Some]]; done.
Qed.

Lemma sample_ready t : (zlen t <= 100)%Z → map_Forall (ready sample_device t) sample_mesh.
Proof.
  intros Ht i n Hi. unfold sample_mesh in Hi. apply lookup_insert_Some in Hi as [[<- <-]|[_ [<- <-]%lookup_singleton_Some]];
    (split; [done|done|exact Ht|done|done]).
Qed.

